(** * idblib: a reader for IDA databases, embedded in Rocq

    The development follows [idblib.py] class by class:
    - [FileSection]: a window on a larger file, and [CompressedStream];
    - [IDBFile]: the container header and its sections;
    - the page classes [BasePage], [Page15], [Page16], [Page20];
    - [BTree] with its [Cursor];
    - [ID0File]: the typed accessors on top of the b-tree;
    - [ID1File]: the segments and the flags of their addresses;
    - [NAMFile]: the list of the named addresses.

    The embedding of the code comes first, then the predicates in which
    the properties are stated, then the properties themselves.

    Python integers are [Z], [bytes] objects are lists of [byte], an
    exception is the [Raise] result of a computation.  Where Python 2 and
    Python 3 differ the embedding follows Python 3, with which Python 2.7
    agrees on [struct] ([struct.pack] raises on a value that does not fit
    its field).  Console output is left out except in [ID0File.int], where
    it is the only trace of a failed decoding, and in [BTree.dumptree],
    which does nothing else.  Loops that the source bounds only by the
    shape of the data on disk take a fuel argument and answer [OutOfFuel]
    when it is exhausted. *)

From Stdlib Require Import ZArith List Lia Bool String Ascii Permutation.
From Stdlib.Strings Require Import Byte.
Import ListNotations.
Open Scope Z_scope.

Set Implicit Arguments.

(** ** Results of Python computations *)

Inductive exn : Type :=
| StructError          (* struct.error *)
| IndexError
| AttributeError
| ValueError
| UnicodeEncodeError
| UnicodeDecodeError
| TypeError
| ZeroDivisionError
| OSError
| PyException (msg : string).   (* raise Exception(msg) *)

Inductive res (A : Type) : Type :=
| Ok (a : A)
| Raise (e : exn)
| OutOfFuel.

Arguments Ok {A} a.
Arguments Raise {A} e.
Arguments OutOfFuel {A}.

Definition bind {A B : Type} (m : res A) (k : A -> res B) : res B :=
  match m with
  | Ok a => k a
  | Raise e => Raise e
  | OutOfFuel => OutOfFuel
  end.

Notation "x <- m ;; k" := (bind m (fun x => k))
  (at level 61, m at next level, right associativity).
Notation "' pat <- m ;; k" := (bind m (fun x => match x with pat => k end))
  (at level 61, pat pattern, m at next level, right associativity).

(** [s == t] on [str]. *)
Definition streq (s t : string) : bool := String.eqb s t.

(** ** Bytes *)

Definition bytes := list byte.

Definition len {A : Type} (l : list A) : Z := Z.of_nat (List.length l).

Definition byte_to_Z (b : byte) : Z := Z.of_N (Byte.to_N b).

Definition byte_of_Z (z : Z) : byte :=
  match Byte.of_N (Z.to_N (z mod 256)) with
  | Some b => b
  | None => x00
  end.

(** The literal [b"..."]. *)
Definition b (s : string) : bytes := list_byte_of_string s.

(** [s[a:b]] for [0 <= a]; [b] may lie beyond the end of [s]. *)
Definition slice {A : Type} (s : list A) (a b : Z) : list A :=
  firstn (Z.to_nat (b - a)) (skipn (Z.to_nat a) s).

(** [s[a:]] for [0 <= a]. *)
Definition slice_from {A : Type} (s : list A) (a : Z) : list A :=
  skipn (Z.to_nat a) s.

(** [s[i]] for [0 <= i]; an index past the end raises [IndexError]. *)
Definition getitem {A : Type} (s : list A) (i : Z) : res A :=
  if i <? 0 then Raise IndexError
  else match nth_error s (Z.to_nat i) with
       | Some a => Ok a
       | None => Raise IndexError
       end.

Fixpoint bytes_eqb (a b : bytes) : bool :=
  match a, b with
  | [], [] => true
  | x :: a', y :: b' => Byte.eqb x y && bytes_eqb a' b'
  | _, _ => false
  end.

(** [a < b] on [bytes]: lexicographic on the unsigned byte values, a
    proper prefix being smaller. *)
Fixpoint bytes_ltb (a b : bytes) : bool :=
  match a, b with
  | _, [] => false
  | [], _ :: _ => true
  | x :: a', y :: b' =>
      if byte_to_Z x <? byte_to_Z y then true
      else if byte_to_Z y <? byte_to_Z x then false
      else bytes_ltb a' b'
  end.

Definition bytes_leb (a b : bytes) : bool := negb (bytes_ltb b a).

(** ** The [struct] module

    Only the standard-size modes are used by the source ([<] and [>], and
    the native mode for a single [B]), so there is no padding. *)

Inductive fmtchar : Type := fB | fH | fL | fQ.

Definition fmtsize (c : fmtchar) : Z :=
  match c with fB => 1 | fH => 2 | fL => 4 | fQ => 8 end.

Fixpoint calcsize (fmt : list fmtchar) : Z :=
  match fmt with
  | [] => 0
  | c :: r => fmtsize c + calcsize r
  end.

(** Little-endian value of a byte string. *)
Fixpoint le_int (bs : bytes) : Z :=
  match bs with
  | [] => 0
  | b :: r => byte_to_Z b + 256 * le_int r
  end.

Fixpoint unpack_fields (fmt : list fmtchar) (bs : bytes) : list Z :=
  match fmt with
  | [] => []
  | c :: r =>
      le_int (firstn (Z.to_nat (fmtsize c)) bs)
        :: unpack_fields r (skipn (Z.to_nat (fmtsize c)) bs)
  end.

(** [struct.unpack_from("<" + fmt, data, offset)]: a negative offset counts
    from the end, and the buffer must hold the whole format. *)
Definition unpack_from (fmt : list fmtchar) (data : bytes) (offset : Z) : res (list Z) :=
  let offset := if offset <? 0 then offset + len data else offset in
  if offset <? 0 then Raise StructError
  else if len data - offset <? calcsize fmt then Raise StructError
  else Ok (unpack_fields fmt (skipn (Z.to_nat offset) data)).

(** [a, b = struct.unpack_from("<" + fmt, data, offset)] *)
Definition unpack_pair (fmt : list fmtchar) (data : bytes) (offset : Z) : res (Z * Z) :=
  values <- unpack_from fmt data offset ;;
  match values with
  | [x; y] => Ok (x, y)
  | _ => Raise ValueError
  end.

(** [struct.unpack("<" + fmt, data)]: the buffer must have exactly the size
    of the format. *)
Definition unpack (fmt : list fmtchar) (data : bytes) : res (list Z) :=
  if len data =? calcsize fmt then Ok (unpack_fields fmt data)
  else Raise StructError.

(** [a, b = struct.unpack("<" + fmt, data)] *)
Definition unpack_two (fmt : list fmtchar) (data : bytes) : res (Z * Z) :=
  values <- unpack fmt data ;;
  match values with
  | [x; y] => Ok (x, y)
  | _ => Raise ValueError
  end.

(** [s[i]] with Python's negative indices. *)
Definition subscript {A : Type} (s : list A) (i : Z) : res A :=
  getitem s (if i <? 0 then i + len s else i).

(** [n] bytes of [z], least significant first. *)
Fixpoint le_bytes (n : nat) (z : Z) : bytes :=
  match n with
  | O => []
  | S n' => byte_of_Z z :: le_bytes n' (z / 256)
  end.

(** [struct.pack] of one unsigned field of [n] bytes, big-endian. *)
Definition pack_unsigned_be (n : nat) (z : Z) : res bytes :=
  if (0 <=? z) && (z <? 256 ^ Z.of_nat n) then Ok (rev (le_bytes n z))
  else Raise StructError.

(** [struct.pack] of one signed field of [n] bytes, big-endian (two's
    complement). *)
Definition pack_signed_be (n : nat) (z : Z) : res bytes :=
  if (- (256 ^ Z.of_nat n / 2) <=? z) && (z <? 256 ^ Z.of_nat n / 2)
  then Ok (rev (le_bytes n (z mod 256 ^ Z.of_nat n)))
  else Raise StructError.

(** [struct.pack("1s", b)]: the first byte of [b], a zero byte when [b] is
    empty. *)
Definition pack_1s (b : bytes) : bytes :=
  match b with
  | [] => [x00]
  | c :: _ => [c]
  end.

(** ** Seekable byte sources

    [FileSection] and [BTree] only ask their [fh] for [seek] and [read].
    An operation returns its result together with the handle's new state;
    a handle keeps the state it had reached when an exception is raised. *)

Class FileLike (F : Type) : Type := {
  fl_seek : F -> Z -> list Z -> res unit * F;   (* fh.seek(offset, *args) *)
  fl_read : F -> Z -> res bytes * F             (* fh.read(size) *)
}.

(** An ordinary binary file opened for reading. *)
Record File : Type := mkFile {
  f_data : bytes;
  f_pos : Z
}.

Module RawFile.

Definition seek (f : File) (offset : Z) (args : list Z) : res unit * File :=
  let whence := match args with [] => 0 | a :: _ => a end in
  let target :=
    if whence =? 0 then Ok offset
    else if whence =? 1 then Ok (f_pos f + offset)
    else if whence =? 2 then Ok (len (f_data f) + offset)
    else Raise ValueError in
  match target with
  | Ok p => if p <? 0 then (Raise OSError, f)
            else (Ok tt, mkFile (f_data f) p)
  | Raise e => (Raise e, f)
  | OutOfFuel => (OutOfFuel, f)
  end.

Definition read (f : File) (size : Z) : res bytes * File :=
  let data :=
    if size <? 0 then slice_from (f_data f) (f_pos f)
    else slice (f_data f) (f_pos f) (f_pos f + size) in
  (Ok data, mkFile (f_data f) (f_pos f + len data)).

End RawFile.

#[export] Instance File_FileLike : FileLike File :=
  {| fl_seek := RawFile.seek; fl_read := RawFile.read |}.

(** ** class FileSection

    The parent handle of a window is a plain file, as in
    [IDBFile.getpart]. *)

Module FileSection.

Record t : Type := mk {
  fh : File;
  start : Z;
  end_ : Z;
  curpos : Z
}.

Definition set_curpos (w : t) (p : Z) : t := mk (fh w) (start w) (end_ w) p.
Definition set_fh (w : t) (f : File) : t := mk f (start w) (end_ w) (curpos w).

(** [__init__(self, fh, start, end)] *)
Definition init (f : File) (start end_ : Z) : res unit * t :=
  let '(r, f') := RawFile.seek f start [] in
  (r, mk f' start end_ 0).

Definition read (w : t) (size : Z) : res bytes * t :=
  let want := Z.min size (end_ w - start w - curpos w) in
  if want <=? 0 then (Ok [], w)
  else
    match RawFile.read (fh w) want with
    | (Ok data, f') => (Ok data, set_curpos (set_fh w f') (curpos w + len data))
    | (r, f') => (r, set_fh w f')
    end.

Definition isvalidpos (w : t) (offset : Z) : bool :=
  (0 <=? offset) && (offset <=? end_ w - start w).

(** The last statement of [seek]: [self.fh.seek(self.curpos + self.start)]. *)
Definition reposition (w : t) : res unit * t :=
  let '(r, f') := RawFile.seek (fh w) (curpos w + start w) [] in
  (r, set_fh w f').

Definition seek (w : t) (offset : Z) (args : list Z) : res unit * t :=
  let whence := match args with [] => 0 | a :: _ => a end in
  if whence =? 0 then
    if negb (isvalidpos w offset) then (Raise (PyException "illegal offset"), w)
    else reposition (set_curpos w offset)
  else if whence =? 1 then
    if negb (isvalidpos w (curpos w + offset)) then (Raise (PyException "illegal offset"), w)
    else reposition (set_curpos w (curpos w + offset))
  else if whence =? 2 then
    if negb (isvalidpos w (end_ w - start w + offset)) then (Raise (PyException "illegal offset"), w)
    else reposition (set_curpos w (end_ w - start w + offset))
  else reposition w.

Definition tell (w : t) : Z := curpos w.

(** The calls a client can make on a window. *)
Inductive op : Type :=
| Read (size : Z)
| Seek (offset : Z) (args : list Z).

Definition step (w : t) (o : op) : t :=
  match o with
  | Read size => snd (read w size)
  | Seek offset args => snd (seek w offset args)
  end.

(** The window [FileSection(f, s, e)] after the calls [ops], made in
    order. *)
Definition run (f : File) (s e : Z) (ops : list op) : t :=
  fold_left step ops (snd (init f s e)).

(** The position a [seek] asks for. *)
Definition seek_target (w : t) (offset whence : Z) : Z :=
  if whence =? 0 then offset
  else if whence =? 1 then curpos w + offset
  else end_ w - start w + offset.

End FileSection.

#[export] Instance FileSection_FileLike : FileLike FileSection.t :=
  {| fl_seek := FileSection.seek; fl_read := FileSection.read |}.

(** ** class CompressedStream

    The stream wraps the window it is given.  Its [read] is a stub in the
    source and returns [b""] whatever is asked. *)

Module CompressedStream.

Record t : Type := mk {
  fh : FileSection.t;
  curpos : Z
}.

(** [__init__(self, fh)] *)
Definition init (f : FileSection.t) : t := mk f 0.

Definition read (s : t) (size : Z) : res bytes * t := (Ok [], s).

(** [seek(self, offset, *args)]: the branch of [whence == 2] reads
    [self.end] and [self.start], attributes that no [CompressedStream]
    has. *)
Definition seek (s : t) (offset : Z) (args : list Z) : res unit * t :=
  let whence := match args with [] => 0 | a :: _ => a end in
  if whence =? 0 then (Ok tt, mk (fh s) offset)
  else if whence =? 1 then (Ok tt, mk (fh s) (curpos s + offset))
  else if whence =? 2 then (Raise AttributeError, s)
  else (Ok tt, s).

Definition tell (s : t) : Z := curpos s.

End CompressedStream.

#[export] Instance CompressedStream_FileLike : FileLike CompressedStream.t :=
  {| fl_seek := CompressedStream.seek; fl_read := CompressedStream.read |}.

(** What [IDBFile.getpart] hands to the class of a section: [None], a
    window on the container, or a compressed stream on such a window.
    [None] has neither [seek] nor [read]. *)
Inductive part : Type :=
| PartNone
| PartSection (w : FileSection.t)
| PartCompressed (s : CompressedStream.t).

Definition part_seek (p : part) (offset : Z) (args : list Z) : res unit * part :=
  match p with
  | PartNone => (Raise AttributeError, p)
  | PartSection w => let '(r, w') := FileSection.seek w offset args in (r, PartSection w')
  | PartCompressed s => let '(r, s') := CompressedStream.seek s offset args in (r, PartCompressed s')
  end.

Definition part_read (p : part) (size : Z) : res bytes * part :=
  match p with
  | PartNone => (Raise AttributeError, p)
  | PartSection w => let '(r, w') := FileSection.read w size in (r, PartSection w')
  | PartCompressed s => let '(r, s') := CompressedStream.read s size in (r, PartCompressed s')
  end.

#[export] Instance part_FileLike : FileLike part :=
  {| fl_seek := part_seek; fl_read := part_read |}.

(** ** Formatting *)

Definition hexdigit (d : Z) : ascii :=
  nth (Z.to_nat d) (list_ascii_of_string "0123456789abcdef") "0"%char.

(** The [n] low hexadecimal digits of [z], most significant first. *)
Fixpoint hex_digits (n : nat) (z : Z) : string :=
  match n with
  | O => EmptyString
  | S n' => (hex_digits n' (z / 16) ++ String (hexdigit (z mod 16)) EmptyString)%string
  end.

(** ["%0<width>x" % z] for [0 <= z]. *)
Definition fmt_x (width : nat) (z : Z) : string :=
  hex_digits (Nat.max width (Z.to_nat (Z.log2 z / 4 + 1))) z.

(** [binascii.b2a_hex(data)], as text. *)
Fixpoint b2a_hex (data : bytes) : string :=
  match data with
  | [] => EmptyString
  | x :: r => (hex_digits 2 (byte_to_Z x) ++ b2a_hex r)%string
  end.

(** ["%s" % binascii.b2a_hex(data)]: the [repr] of a [bytes] object made
    of hexadecimal digits. *)
Definition fmt_hex (data : bytes) : string := ("b'" ++ b2a_hex data ++ "'")%string.

(** ** class IDBFile *)

Module IDBFile.

Record t : Type := mk {
  fh : File;
  magic : bytes;
  offsets : list Z;
  checksums : list Z;
  fileversion : Z
}.

(** [values[i]] on the tuple an [unpack_from] returned; every index the
    source uses is within the tuple. *)
Definition item (values : list Z) (i : nat) : Z := nth i values 0.

(** [list(values[a:b])] *)
Definition items (values : list Z) (a c : Z) : list Z := slice values a c.

Definition valid_magic (m : bytes) : bool :=
  bytes_eqb m (b "IDA0") || bytes_eqb m (b "IDA1") || bytes_eqb m (b "IDA2").

(** The bytes the constructor looks at: [fh.seek(0); fh.read(0x100)]. *)
Definition header (f : File) : res bytes * File :=
  match RawFile.seek f 0 [] with
  | (Ok _, f1) => RawFile.read f1 256
  | (Raise e, f1) => (Raise e, f1)
  | (OutOfFuel, f1) => (OutOfFuel, f1)
  end.

(** [__init__(self, fh)] *)
Definition init (f : File) : res t :=
  let '(r, f') := header f in
  hdrdata <- r ;;
  let magic := slice hdrdata 0 4 in
  if negb (valid_magic magic) then Raise (PyException "invalid file magic")
  else
    values <- unpack_from [fL; fL; fL; fL; fL; fL; fH; fL; fL; fL; fL; fL; fL] hdrdata 6 ;;
    if negb (item values 5 =? 0xaabbccdd) then
      Ok (mk f' magic (items values 0 5 ++ [0]) (repeat 0 6) 0)
    else
      let fileversion := item values 6 in
      if fileversion <? 5 then
        let offsets := items values 0 5 in
        let checksums := items values 8 13 in
        '(idsofs, idscheck) <-
          unpack_pair (if fileversion =? 1 then [fL; fH] else [fL; fL]) hdrdata 56 ;;
        Ok (mk f' magic (offsets ++ [idsofs]) (checksums ++ [idscheck]) fileversion)
      else
        values <- unpack_from [fQ; fQ; fL; fL; fH; fQ; fQ; fQ; fQ; fL; fL; fL; fL; fL; fQ; fL]
                    hdrdata 6 ;;
        Ok (mk f' magic
              (map (item values) [0; 1; 5; 6; 7; 13]%nat)
              (map (item values) [8; 9; 10; 11; 12; 14]%nat)
              fileversion).

Definition set_fh (self : t) (f : File) : t :=
  mk f (magic self) (offsets self) (checksums self) (fileversion self).

(** [getsectioninfo(self, i)]: the answer and the container, whose file
    handle has moved when the header of the section was read. *)
Definition getsectioninfo (self : t) (i : Z) : res (Z * Z * Z) * t :=
  if negb ((0 <=? i) && (i <? len (offsets self))) then (Ok (0, 0, 0), self)
  else
    match subscript (offsets self) i with
    | Ok o =>
        if o =? 0 then (Ok (0, 0, 0), self)
        else
          match RawFile.seek (fh self) o [] with
          | (Ok _, f1) =>
              if fileversion self <? 5 then
                let '(r, f2) := RawFile.read f1 5 in
                (data <- r ;;
                 '(comp, size) <- unpack_two [fB; fL] data ;;
                 let ofs := o + 5 in
                 Ok (comp, ofs, size),
                 set_fh self f2)
              else
                let '(r, f2) := RawFile.read f1 9 in
                (data <- r ;;
                 '(comp, size) <- unpack_two [fB; fQ] data ;;
                 let ofs := o + 9 in
                 Ok (comp, ofs, size),
                 set_fh self f2)
          | (Raise e, f1) => (Raise e, set_fh self f1)
          | (OutOfFuel, f1) => (OutOfFuel, set_fh self f1)
          end
    | Raise e => (Raise e, self)
    | OutOfFuel => (OutOfFuel, self)
    end.

(** [getpart(self, ix)].  The window is built on the file handle of the
    container, which it leaves at the start of the section. *)
Definition getpart (self : t) (ix : Z) : res part * t :=
  match subscript (offsets self) ix with
  | Ok o =>
      if o =? 0 then (Ok PartNone, self)
      else
        match getsectioninfo self ix with
        | (Ok (comp, ofs, size), self1) =>
            match FileSection.init (fh self1) ofs (ofs + size) with
            | (Ok _, fh) =>
                let self2 := set_fh self1 (FileSection.fh fh) in
                if comp =? 2 then (Ok (PartCompressed (CompressedStream.init fh)), self2)
                else if comp =? 0 then (Ok (PartSection fh), self2)
                else (Raise (PyException ("unsupported section encoding: " ++ fmt_x 2 comp)),
                      self2)
            | (Raise e, fh) => (Raise e, set_fh self1 (FileSection.fh fh))
            | (OutOfFuel, fh) => (OutOfFuel, set_fh self1 (FileSection.fh fh))
            end
        | (Raise e, self1) => (Raise e, self1)
        | (OutOfFuel, self1) => (OutOfFuel, self1)
        end
  | Raise e => (Raise e, self)
  | OutOfFuel => (OutOfFuel, self)
  end.

(** [getsection(self, cls)], where [INDEX] is [cls.INDEX] and [cls] the
    constructor of the class. *)
Definition getsection {X : Type} (self : t) (INDEX : Z) (cls : t -> part -> res X) : res X :=
  let '(r, self1) := getpart self INDEX in
  fh <- r ;;
  cls self1 fh.

End IDBFile.

(** ** B-tree pages *)

(** An entry of a page.  An index entry has the attributes [page],
    [recofs], [key] and [val]; a leaf entry has [indent], [unknown1],
    [unknown], [recofs], [key] and [val], its [key] being the
    reconstructed one. *)
Inductive Entry : Type :=
| IndexEntry (page recofs : Z) (key val : bytes)
| LeafEntry (indent unknown1 unknown recofs : Z) (key val : bytes).

Definition ent_key (e : Entry) : bytes :=
  match e with
  | IndexEntry _ _ k _ => k
  | LeafEntry _ _ _ _ k _ => k
  end.

Definition ent_val (e : Entry) : bytes :=
  match e with
  | IndexEntry _ _ _ v => v
  | LeafEntry _ _ _ _ _ v => v
  end.

Definition ent_recofs (e : Entry) : Z :=
  match e with
  | IndexEntry _ r _ _ => r
  | LeafEntry _ _ _ r _ _ => r
  end.

(** [ent.page]: a leaf entry has no such attribute. *)
Definition ent_page (e : Entry) : res Z :=
  match e with
  | IndexEntry p _ _ _ => Ok p
  | LeafEntry _ _ _ _ _ _ => Raise AttributeError
  end.

(** [ent.indent]: only leaf entries have it. *)
Definition ent_indent (e : Entry) : res Z :=
  match e with
  | IndexEntry _ _ _ _ => Raise AttributeError
  | LeafEntry i _ _ _ _ _ => Ok i
  end.

(** The three page classes. *)
Inductive layout : Type := Page15 | Page16 | Page20.

Record Page : Type := mkPage {
  preceeding : Z;
  count : Z;
  index : list Entry;
  unknown : Z;
  freeptr : Z
}.

(** [BaseIndexEntry.__init__(self, data)] with [self.recofs] already set:
    the key and the value stored in the record body. *)
Definition BaseIndexEntry_init (recofs : Z) (data : bytes) : res (bytes * bytes) :=
  let ofs := recofs in
  keylen <- unpack_from [fH] data ofs ;;
  let keylen := hd 0 keylen in
  let ofs := ofs + 2 in
  let key := slice data ofs (ofs + keylen) in
  let ofs := ofs + keylen in
  vallen <- unpack_from [fH] data ofs ;;
  let vallen := hd 0 vallen in
  let ofs := ofs + 2 in
  let val := slice data ofs (ofs + vallen) in
  Ok (key, val).

(** [BaseLeafEntry.__init__(self, key, data)]: [key] is the key of the
    previous entry. *)
Definition BaseLeafEntry_init (indent recofs : Z) (key data : bytes) : res (bytes * bytes) :=
  '(k, v) <- BaseIndexEntry_init recofs data ;;
  Ok (slice key 0 indent ++ k, v).

(** [IndexEntry.__init__(self, key, data, ofs)] of each page class. *)
Definition IndexEntry_init (l : layout) (key data : bytes) (ofs : Z) : res Entry :=
  match l with
  | Page15 =>
      fields <- unpack_from [fH; fH] data ofs ;;
      match fields with
      | [page; recofs] =>
          let recofs := recofs + 1 in
          '(k, v) <- BaseIndexEntry_init recofs data ;;
          Ok (IndexEntry page recofs k v)
      | _ => Raise ValueError
      end
  | Page16 =>
      fields <- unpack_from [fL; fH] data ofs ;;
      match fields with
      | [page; recofs] =>
          let recofs := recofs + 1 in
          '(k, v) <- BaseIndexEntry_init recofs data ;;
          Ok (IndexEntry page recofs k v)
      | _ => Raise ValueError
      end
  | Page20 =>
      fields <- unpack_from [fL; fH] data ofs ;;
      match fields with
      | [page; recofs] =>
          '(k, v) <- BaseIndexEntry_init recofs data ;;
          Ok (IndexEntry page recofs k v)
      | _ => Raise ValueError
      end
  end.

(** [LeafEntry.__init__(self, key, data, ofs)] of each page class. *)
Definition LeafEntry_init (l : layout) (key data : bytes) (ofs : Z) : res Entry :=
  match l with
  | Page15 =>
      fields <- unpack_from [fB; fB; fH] data ofs ;;
      match fields with
      | [indent; unknown; recofs] =>
          let unknown1 := 0 in
          let recofs := recofs + 1 in
          '(k, v) <- BaseLeafEntry_init indent recofs key data ;;
          Ok (LeafEntry indent unknown1 unknown recofs k v)
      | _ => Raise ValueError
      end
  | Page16 =>
      fields <- unpack_from [fB; fB; fH; fH] data ofs ;;
      match fields with
      | [indent; unknown1; unknown; recofs] =>
          let recofs := recofs + 1 in
          '(k, v) <- BaseLeafEntry_init indent recofs key data ;;
          Ok (LeafEntry indent unknown1 unknown recofs k v)
      | _ => Raise ValueError
      end
  | Page20 =>
      fields <- unpack_from [fH; fH; fH] data ofs ;;
      match fields with
      | [indent; unknown; recofs] =>
          let unknown1 := 0 in
          '(k, v) <- BaseLeafEntry_init indent recofs key data ;;
          Ok (LeafEntry indent unknown1 unknown recofs k v)
      | _ => Raise ValueError
      end
  end.

Definition entsize (l : layout) : Z :=
  match l with Page15 => 4 | Page16 => 6 | Page20 => 6 end.

Definition entfmt (l : layout) : list fmtchar :=
  match l with Page15 => [fH; fH] | Page16 => [fL; fH] | Page20 => [fL; fH] end.

(** ** binary_search *)

(** The loop of [binary_search(a, k)].  The interval [last - first]
    shrinks at every iteration, so [length a] iterations are enough
    (lemma [binary_search_spec]). *)
Fixpoint binary_search_loop (fuel : nat) (a : list Entry) (k : bytes)
    (first last : Z) : res Z :=
  if first <? last then
    match fuel with
    | O => OutOfFuel
    | S fuel' =>
        let mid := Z.shiftr (first + last) 1 in
        e <- getitem a mid ;;
        if bytes_ltb k (ent_key e)
        then binary_search_loop fuel' a k first mid
        else binary_search_loop fuel' a k (mid + 1) last
    end
  else Ok (first - 1).

Definition binary_search (a : list Entry) (k : bytes) : res Z :=
  binary_search_loop (List.length a) a k 0 (len a).

Module BasePage.

(** The loop [for i in range(self.count)] of [__init__], from index [i]
    on, with [n] iterations left; [key] is the key of the previous
    entry. *)
Fixpoint read_entries (l : layout) (isindex : bool) (data : bytes)
    (n : nat) (i : Z) (key : bytes) : res (list Entry) :=
  match n with
  | O => Ok []
  | S n' =>
      ent <- (if isindex then IndexEntry_init l key data (entsize l * (1 + i))
              else LeafEntry_init l key data (entsize l * (1 + i))) ;;
      rest <- read_entries l isindex data n' (i + 1) (ent_key ent) ;;
      Ok (ent :: rest)
  end.

(** [__init__(self, data, entsize, entfmt)], called by the page class [l]
    with its own entry size and format. *)
Definition init (l : layout) (data : bytes) : res Page :=
  '(preceeding, count) <- unpack_pair (entfmt l) data 0 ;;
  index <- read_entries l (negb (preceeding =? 0)) data (Z.to_nat count) 0 [] ;;
  '(unknown, freeptr) <- unpack_pair (entfmt l) data (entsize l * (1 + count)) ;;
  Ok (mkPage preceeding count index unknown freeptr).

Definition isleaf (p : Page) : bool := preceeding p =? 0.
Definition isindex (p : Page) : bool := negb (preceeding p =? 0).

(** [self.index[ix]], with Python's negative indices. *)
Definition index_at (p : Page) (ix : Z) : res Entry :=
  getitem (index p) (if ix <? 0 then ix + len (index p) else ix).

Definition getpage (p : Page) (ix : Z) : res Z :=
  if ix <? 0 then Ok (preceeding p)
  else e <- index_at p ix ;; ent_page e.

Definition getkey (p : Page) (ix : Z) : res bytes :=
  e <- index_at p ix ;; Ok (ent_key e).

Definition getval (p : Page) (ix : Z) : res bytes :=
  e <- index_at p ix ;; Ok (ent_val e).

(** [find(self, key)]: the relation found, as the string the source
    returns, and an index. *)
Definition find (p : Page) (key : bytes) : res (string * Z) :=
  i <- binary_search (index p) key ;;
  if i <? 0 then
    if isindex p then Ok ("recurse"%string, -1)
    else Ok ("gt"%string, 0)
  else
    e <- index_at p i ;;
    if bytes_eqb (ent_key e) key then Ok ("eq"%string, i)
    else if isindex p then Ok ("recurse"%string, i)
    else Ok ("lt"%string, i).

End BasePage.

(** ** Cursors

    A cursor is the stack of its [(page, ix)] frames; the list is kept top
    first, so Python's [self.stack[-1]] is its head, [append] is a cons
    and [pop] removes the head. *)

Definition frame : Type := Page * Z.
Definition Cursor : Type := list frame.

(** ** class BTree *)

Module BTree.

Record t (F : Type) : Type := mk {
  fh : F;
  firstfree : Z;
  pagesize : Z;
  firstindex : Z;
  reccount : Z;
  pagecount : Z;
  page : layout;
  version : Z
}.

Arguments mk {F}.

(** [data.startswith(prefix)] *)
Definition startswith (data prefix : bytes) : bool :=
  bytes_eqb (firstn (List.length prefix) data) prefix.

(** [__init__(self, fh)] *)
Definition init {F : Type} `{FileLike F} (f : F) : res (t F) :=
  let '(r, f1) := fl_seek f 0 [] in
  _ <- r ;;
  let '(r, f2) := fl_read f1 64 in
  data <- r ;;
  if startswith (slice_from data 13) (b "B-tree v 1.5 (C) Pol 1990") then
    h <- unpack_from [fH; fH; fH; fL; fH] data 0 ;;
    match h with
    | [firstfree; pagesize; firstindex; reccount; pagecount] =>
        Ok (mk f2 firstfree pagesize firstindex reccount pagecount Page15 15)
    | _ => Raise ValueError
    end
  else if startswith (slice_from data 19) (b "B-tree v 1.6 (C) Pol 1990") then
    h <- unpack_from [fL; fH; fL; fL; fL] data 0 ;;
    match h with
    | [firstfree; pagesize; firstindex; reccount; pagecount] =>
        Ok (mk f2 firstfree pagesize firstindex reccount pagecount Page16 16)
    | _ => Raise ValueError
    end
  else if startswith (slice_from data 19) (b "B-tree v2") then
    h <- unpack_from [fL; fH; fL; fL; fL] data 0 ;;
    match h with
    | [firstfree; pagesize; firstindex; reccount; pagecount] =>
        Ok (mk f2 firstfree pagesize firstindex reccount pagecount Page20 20)
    | _ => Raise ValueError
    end
  else Raise (PyException "unknown b-tree").

(** [readpage(self, nr)].  The state the handle is left in is dropped:
    every [readpage] begins with an absolute [seek], so the page read does
    not depend on where the previous call left the handle. *)
Definition readpage {F : Type} `{FileLike F} (db : t F) (nr : Z) : res Page :=
  let '(r, f1) := fl_seek (fh db) (nr * pagesize db) [] in
  _ <- r ;;
  let '(r, f2) := fl_read f1 (pagesize db) in
  data <- r ;;
  BasePage.init (page db) data.

(** *** class BTree.Cursor

    The methods update the stack in place and return nothing: here they
    return the new stack. *)

Module Cursor.
Import BasePage.

Section WithTree.
Context {F : Type} `{FileLike F}.
Variable db : BTree.t F.

(** [while self.stack and ix==len(page.index)] in [next]. *)
Fixpoint next_ascend (stack : Cursor) (page : Page) (ix : Z) : Cursor * Page * Z :=
  match stack with
  | [] => ([], page, ix)
  | (page', ix') :: stack' =>
      if ix =? len (index page) then next_ascend stack' page' (ix' + 1)
      else (stack, page, ix)
  end.

(** [while page.isindex()] in [next]. *)
Fixpoint next_descend (fuel : nat) (stack : Cursor) (page : Page) : res (Cursor * Page) :=
  if isindex page then
    match fuel with
    | O => OutOfFuel
    | S fuel' =>
        let ix := -1 in
        let stack := (page, ix) :: stack in
        nr <- getpage page ix ;;
        page <- BTree.readpage db nr ;;
        next_descend fuel' stack page
    end
  else Ok (stack, page).

Definition next (fuel : nat) (self : Cursor) : res Cursor :=
  match self with
  | [] => Raise IndexError
  | (page, ix) :: stack =>
      if isleaf page then
        let ix := ix + 1 in
        let '(stack, page, ix) := next_ascend stack page ix in
        if ix <? len (index page) then Ok ((page, ix) :: stack)
        else Ok stack
      else
        let stack := (page, ix) :: stack in
        nr <- getpage page ix ;;
        page <- BTree.readpage db nr ;;
        '(stack, page) <- next_descend fuel stack page ;;
        let ix := 0 in
        Ok ((page, ix) :: stack)
  end.

(** [while self.stack and ix<0] in [prev]. *)
Fixpoint prev_ascend (stack : Cursor) (page : Page) (ix : Z) : Cursor * Page * Z :=
  match stack with
  | [] => ([], page, ix)
  | (page', ix') :: stack' =>
      if ix <? 0 then prev_ascend stack' page' ix'
      else (stack, page, ix)
  end.

(** [while page.isindex()] in [prev]. *)
Fixpoint prev_descend (fuel : nat) (stack : Cursor) (page : Page) (ix : Z) : res Cursor :=
  if isindex page then
    match fuel with
    | O => OutOfFuel
    | S fuel' =>
        nr <- getpage page ix ;;
        page <- BTree.readpage db nr ;;
        let ix := len (index page) - 1 in
        let stack := (page, ix) :: stack in
        prev_descend fuel' stack page ix
    end
  else Ok stack.

Definition prev (fuel : nat) (self : Cursor) : res Cursor :=
  match self with
  | [] => Raise IndexError
  | (page, ix) :: stack =>
      let ix := ix - 1 in
      if isleaf page then
        let '(stack, page, ix) := prev_ascend stack page ix in
        if ix >=? 0 then Ok ((page, ix) :: stack)
        else Ok stack
      else
        let stack := (page, ix) :: stack in
        prev_descend fuel stack page ix
  end.

End WithTree.

Definition eof (self : Cursor) : bool := len self =? 0.

Definition getkey (self : Cursor) : res bytes :=
  match self with
  | [] => Raise IndexError
  | (page, ix) :: _ => BasePage.getkey page ix
  end.

Definition getval (self : Cursor) : res bytes :=
  match self with
  | [] => Raise IndexError
  | (page, ix) :: _ => BasePage.getval page ix
  end.

End Cursor.

(** *** BTree.find *)

Import BasePage.

Section Find.
Context {F : Type} `{FileLike F}.
Variable db : BTree.t F.

(** The [while True] loop of [BTree.find]. *)
Fixpoint descend (fuel : nat) (page : Page) (stack : Cursor) (key : bytes)
    : res (string * Cursor) :=
  match fuel with
  | O => OutOfFuel
  | S fuel' =>
      '(act, ix) <- BasePage.find page key ;;
      let stack := (page, ix) :: stack in
      if negb (streq act "recurse") then Ok (act, stack)
      else
        nr <- getpage page ix ;;
        page <- BTree.readpage db nr ;;
        descend fuel' page stack key
  end.

(** [BTree.find(self, rel, key)]: [None] or a cursor. *)
Definition find (fuel : nat) (rel : string) (key : bytes) : res (option Cursor) :=
  page <- BTree.readpage db (BTree.firstindex db) ;;
  '(act, cursor) <- descend fuel page [] key ;;
  if streq act rel then Ok (Some cursor)
  else if streq rel "eq" && negb (streq act "eq") then Ok None
  else if (streq rel "ge" || streq rel "le") && streq act "eq" then Ok (Some cursor)
  else if (streq rel "gt" || streq rel "ge") && streq act "lt" then
    cursor <- BTree.Cursor.next db fuel cursor ;; Ok (Some cursor)
  else if streq rel "gt" && streq act "eq" then
    cursor <- BTree.Cursor.next db fuel cursor ;; Ok (Some cursor)
  else if (streq rel "lt" || streq rel "le") && streq act "gt" then
    cursor <- BTree.Cursor.prev db fuel cursor ;; Ok (Some cursor)
  else if streq rel "lt" && streq act "eq" then
    cursor <- BTree.Cursor.prev db fuel cursor ;; Ok (Some cursor)
  else Ok (Some cursor).

End Find.

(** *** BTree.dumptree

    What [dumptree] prints: a line for each page, then a line for each
    of its entries. *)

(** [print("%06x: preceeding = %06x, reccount = %04x" % ...)] and
    [print("    %s" % ent)]. *)
Inductive dump_line : Type :=
| DumpPage (pn preceeding count : Z)
| DumpEntry (ent : Entry).

(** The loop [for ent in page.index: self.dumptree(ent.page)], where
    [dump] is the recursive call. *)
Fixpoint dump_children (dump : Z -> list dump_line * res unit) (es : list Entry)
    : list dump_line * res unit :=
  match es with
  | [] => ([], Ok tt)
  | ent :: r =>
      match ent_page ent with
      | Ok p =>
          match dump p with
          | (o, Ok _) => let '(o', r') := dump_children dump r in (o ++ o', r')
          | (o, r') => (o, r')
          end
      | Raise e => ([], Raise e)
      | OutOfFuel => ([], OutOfFuel)
      end
  end.

Section Dump.
Context {F : Type} `{FileLike F}.
Variable db : BTree.t F.

(** [dumptree(self, pn)]: the lines printed, and how the call ended.
    [fuel] bounds the depth of the recursion. *)
Fixpoint dumptree (fuel : nat) (pn : Z) : list dump_line * res unit :=
  match fuel with
  | O => ([], OutOfFuel)
  | S fuel' =>
      match BTree.readpage db pn with
      | Ok page =>
          let out := DumpPage pn (preceeding page) (count page)
                     :: map DumpEntry (index page) in
          if negb (preceeding page =? 0) then
            match dumptree fuel' (preceeding page) with
            | (o1, Ok _) =>
                let '(o2, r2) := dump_children (dumptree fuel') (index page) in
                (out ++ o1 ++ o2, r2)
            | (o1, r1) => (out ++ o1, r1)
            end
          else (out, Ok tt)
      | Raise e => ([], Raise e)
      | OutOfFuel => ([], OutOfFuel)
      end
  end.

End Dump.

End BTree.

(** ** class ID0File *)

(** A [str] is the list of its code points. *)
Definition str : Type := list Z.

(** The literal ['...'] for ASCII text. *)
Definition u (t : string) : str := map byte_to_Z (list_byte_of_string t).

(** [c.encode('utf-8')] for one code point. *)
Definition utf8_char (c : Z) : res bytes :=
  if c <? 0 then Raise ValueError
  else if c <? 0x80 then Ok [byte_of_Z c]
  else if c <? 0x800 then
    Ok [byte_of_Z (0xC0 + c / 64); byte_of_Z (0x80 + c mod 64)]
  else if c <? 0x10000 then
    if (0xD800 <=? c) && (c <=? 0xDFFF) then Raise UnicodeEncodeError
    else Ok [byte_of_Z (0xE0 + c / 4096); byte_of_Z (0x80 + (c / 64) mod 64);
             byte_of_Z (0x80 + c mod 64)]
  else if c <? 0x110000 then
    Ok [byte_of_Z (0xF0 + c / 262144); byte_of_Z (0x80 + (c / 4096) mod 64);
        byte_of_Z (0x80 + (c / 64) mod 64); byte_of_Z (0x80 + c mod 64)]
  else Raise ValueError.

(** [t.encode('utf-8')] *)
Fixpoint encode_utf8 (t : str) : res bytes :=
  match t with
  | [] => Ok []
  | c :: r =>
      x <- utf8_char c ;;
      y <- encode_utf8 r ;;
      Ok (x ++ y)
  end.

(** [0x80 <= x <= 0xBF]: a continuation byte. *)
Definition continuation (x : Z) : bool := (0x80 <=? x) && (x <=? 0xBF).

(** [data.decode('utf-8')], strict: the well-formed sequences are those of
    the Unicode standard (no overlong form, no surrogate, nothing above
    [U+10FFFF]); anything else raises [UnicodeDecodeError]. *)
Fixpoint decode_utf8 (data : bytes) : res str :=
  match data with
  | [] => Ok []
  | x0 :: r0 =>
      let x := byte_to_Z x0 in
      if x <? 0x80 then
        t <- decode_utf8 r0 ;; Ok (x :: t)
      else if (0xC2 <=? x) && (x <=? 0xDF) then
        match r0 with
        | y0 :: r1 =>
            let y := byte_to_Z y0 in
            if continuation y then
              t <- decode_utf8 r1 ;; Ok ((x - 0xC0) * 64 + (y - 0x80) :: t)
            else Raise UnicodeDecodeError
        | _ => Raise UnicodeDecodeError
        end
      else if (0xE0 <=? x) && (x <=? 0xEF) then
        match r0 with
        | y0 :: z0 :: r2 =>
            let y := byte_to_Z y0 in
            let z := byte_to_Z z0 in
            let lo := if x =? 0xE0 then 0xA0 else 0x80 in
            let hi := if x =? 0xED then 0x9F else 0xBF in
            if (lo <=? y) && (y <=? hi) && continuation z then
              t <- decode_utf8 r2 ;;
              Ok ((x - 0xE0) * 4096 + (y - 0x80) * 64 + (z - 0x80) :: t)
            else Raise UnicodeDecodeError
        | _ => Raise UnicodeDecodeError
        end
      else if (0xF0 <=? x) && (x <=? 0xF4) then
        match r0 with
        | y0 :: z0 :: w0 :: r3 =>
            let y := byte_to_Z y0 in
            let z := byte_to_Z z0 in
            let w := byte_to_Z w0 in
            let lo := if x =? 0xF0 then 0x90 else 0x80 in
            let hi := if x =? 0xF4 then 0x8F else 0xBF in
            if (lo <=? y) && (y <=? hi) && continuation z && continuation w then
              t <- decode_utf8 r3 ;;
              Ok ((x - 0xF0) * 262144 + (y - 0x80) * 4096 + (z - 0x80) * 64 + (w - 0x80) :: t)
            else Raise UnicodeDecodeError
        | _ => Raise UnicodeDecodeError
        end
      else Raise UnicodeDecodeError
  end.

(** [data.rstrip(bytes([x]))]: [data] without its trailing bytes [x]. *)
Fixpoint rstrip (x : byte) (data : bytes) : bytes :=
  match data with
  | [] => []
  | c :: r =>
      match rstrip x r with
      | [] => if Byte.eqb c x then [] else [c]
      | r' => c :: r'
      end
  end.

(** The values the accessors of [ID0File] are called with. *)
Inductive pyval : Type :=
| PyInt (z : Z)
| PyStr (t : str)
| PyBytes (x : bytes)
| PyCursor (c : Cursor).

(** [v.encode('utf-8')]: only a [str] has the method. *)
Definition encode (v : pyval) : res bytes :=
  match v with
  | PyStr t => encode_utf8 t
  | _ => Raise AttributeError
  end.

(** The characters of [keyfmt] after the byte-order mark: [B], the
    unsigned word [L] or [Q], [s], and the signed word [l] or [q]. *)
Inductive keyfmtchar : Type := kB | kWord | kS | kSignedWord.

(** What the output of [ID0File.int] can be. *)
Inductive output : Type :=
| CantGetInt (data : bytes).   (* print("can't get int from %s" % ...) *)

Module ID0File.

Record t (F : Type) : Type := mk {
  btree : BTree.t F;
  wordsize : Z;
  nodebase : Z
}.

Arguments mk {F}.

(** [__init__(self, idb, fh)], where [magic] is [idb.magic]. *)
Definition init {F : Type} `{FileLike F} (magic : bytes) (f : F) : res (t F) :=
  btree <- BTree.init f ;;
  if bytes_eqb magic (b "IDA2") then Ok (mk btree 8 0xFF00000000000000)
  else Ok (mk btree 4 0xFF000000).

(** [self.fmt]: [Q] or [L], by the word size. *)
Definition fmt {F : Type} (self : t F) : fmtchar :=
  if wordsize self =? 8 then fQ else fL.

(** [self.keyfmt] after its [>]. *)
Definition keyfmt : list keyfmtchar := [kB; kWord; kS; kSignedWord].

Definition pack_field (wordsize : Z) (c : keyfmtchar) (v : pyval) : res bytes :=
  match c, v with
  | kB, PyInt z => pack_unsigned_be 1 z
  | kWord, PyInt z => pack_unsigned_be (Z.to_nat wordsize) z
  | kS, PyBytes x => Ok (pack_1s x)
  | kSignedWord, PyInt z => pack_signed_be (Z.to_nat wordsize) z
  | _, _ => Raise StructError
  end.

Fixpoint pack_fields (wordsize : Z) (f : list keyfmtchar) (vs : list pyval) : res bytes :=
  match f, vs with
  | [], [] => Ok []
  | c :: f', v :: vs' =>
      x <- pack_field wordsize c v ;;
      y <- pack_fields wordsize f' vs' ;;
      Ok (x ++ y)
  | _, _ => Raise StructError
  end.

(** [struct.pack(">" + f, *vs)]: the number of values is checked first. *)
Definition pack (wordsize : Z) (f : list keyfmtchar) (vs : list pyval) : res bytes :=
  if negb (len f =? len vs) then Raise StructError
  else pack_fields wordsize f vs.

Section WithFile.
Context {F : Type} `{FileLike F}.
Variable self : t F.

Definition nodeByName (fuel : nat) (name : str) : res (option Z) :=
  n <- encode_utf8 name ;;
  cur <- BTree.find (btree self) fuel "eq" (b "N" ++ n) ;;
  match cur with
  | Some cur =>
      v <- BTree.Cursor.getval cur ;;
      x <- unpack [fmt self] v ;;
      Ok (Some (hd 0 x))
  | None => Ok None
  end.

Definition makekey (args : list pyval) : res bytes :=
  args <- (if len args >? 1 then
             match args with
             | a0 :: a1 :: rest => e <- encode a1 ;; Ok (a0 :: PyBytes e :: rest)
             | _ => Ok args
             end
           else Ok args) ;;
  pack (wordsize self) (slice keyfmt 0 (1 + len args)) (PyInt 0x2e :: args).

Definition bytes_ (fuel : nat) (args : list pyval) : res (option bytes) :=
  cur <- match args with
         | [PyCursor c] => Ok (Some c)
         | _ => k <- makekey args ;; BTree.find (btree self) fuel "eq" k
         end ;;
  match cur with
  | Some cur => v <- BTree.Cursor.getval cur ;; Ok (Some v)
  | None => Ok None
  end.

(** [int(self, *args)]: the value returned and what was printed. *)
Definition int (fuel : nat) (args : list pyval) : res (option Z * list output) :=
  data <- bytes_ fuel args ;;
  match data with
  | Some data =>
      if len data =? 1 then x <- unpack [fB] data ;; Ok (Some (hd 0 x), [])
      else if len data =? 2 then x <- unpack [fH] data ;; Ok (Some (hd 0 x), [])
      else if len data =? 4 then x <- unpack [fL] data ;; Ok (Some (hd 0 x), [])
      else if len data =? 8 then x <- unpack [fQ] data ;; Ok (Some (hd 0 x), [])
      else Ok (None, [CantGetInt data])
  | None => Ok (None, [])
  end.

Definition nextkey (key : bytes) : res bytes :=
  let init := removelast key in
  x <- unpack_from [fB] key (-1) ;;
  y <- pack_unsigned_be 1 (hd 0 x + 1) ;;
  Ok (init ++ y).

(** The loop [while cur.getkey() < endkey] of [blob]. *)
Fixpoint blob_loop (fuel : nat) (scan : nat) (cur : Cursor) (endkey data : bytes) : res bytes :=
  match scan with
  | O => OutOfFuel
  | S scan' =>
      k <- BTree.Cursor.getkey cur ;;
      if bytes_ltb k endkey then
        v <- BTree.Cursor.getval cur ;;
        cur <- BTree.Cursor.next (btree self) fuel cur ;;
        blob_loop fuel scan' cur endkey (data ++ v)
      else Ok data
  end.

Definition blob (fuel : nat) (args : list pyval) : res bytes :=
  startkey <- makekey args ;;
  endkey <- nextkey startkey ;;
  cur <- BTree.find (btree self) fuel "ge" startkey ;;
  match cur with
  | Some cur => blob_loop fuel fuel cur endkey []
  | None => Raise AttributeError
  end.

(** [string(self, *args)] *)
Definition string_ (fuel : nat) (args : list pyval) : res (option str) :=
  data <- bytes_ fuel args ;;
  match data with
  | Some data => t <- decode_utf8 (rstrip x00 data) ;; Ok (Some t)
  | None => Ok None
  end.

End WithFile.

Definition INDEX : Z := 0.

(** [ID0File(idb, fh)] *)
Definition new {F : Type} `{FileLike F} (idb : IDBFile.t) (f : F) : res (t F) :=
  init (IDBFile.magic idb) f.

End ID0File.

(** ** class ID1File *)

Module ID1File.

Definition INDEX : Z := 1.

(** [class SegInfo] *)
Record SegInfo : Type := mkSeg {
  startea : Z;
  endea : Z;
  offset : Z
}.

Record t (F : Type) : Type := mk {
  fh : F;
  seglist : list SegInfo
}.

Arguments mk {F}.

Definition set_fh {F : Type} (self : t F) (f : F) : t F := mk f (seglist self).

(** [magic in (b'Va4\x00', b'Va3\x00', b'Va0\x00')] and
    [magic == b'VA*\x00'] *)
Definition old_magic (magic : bytes) : bool :=
  bytes_eqb magic (b "Va4" ++ [x00]) || bytes_eqb magic (b "Va3" ++ [x00])
  || bytes_eqb magic (b "Va0" ++ [x00]).

Definition new_magic (magic : bytes) : bool := bytes_eqb magic (b "VA*" ++ [x00]).

(** The loop [for o in range(nsegments)] of the old layout, from [o] on,
    with [n] iterations left. *)
Fixpoint read_segments_old (fmt : fmtchar) (wordsize seginfosize : Z) (segdata : bytes)
    (n : nat) (o : Z) : res (list SegInfo) :=
  match n with
  | O => Ok []
  | S n' =>
      v <- unpack_from [fmt; fmt; fmt] segdata (o * seginfosize * wordsize) ;;
      match v with
      | [startea; endea; id1ofs] =>
          rest <- read_segments_old fmt wordsize seginfosize segdata n' (o + 1) ;;
          Ok (mkSeg startea endea id1ofs :: rest)
      | _ => Raise ValueError
      end
  end.

(** The same loop of the new layout, which computes [id1ofs] as it
    goes. *)
Fixpoint read_segments_new (fmt : fmtchar) (wordsize seginfosize : Z) (segdata : bytes)
    (n : nat) (o : Z) (id1ofs : Z) : res (list SegInfo) :=
  match n with
  | O => Ok []
  | S n' =>
      v <- unpack_from [fmt; fmt] segdata (o * seginfosize * wordsize) ;;
      match v with
      | [startea; endea] =>
          rest <- read_segments_new fmt wordsize seginfosize segdata n' (o + 1)
                    (id1ofs + 4 * (endea - startea)) ;;
          Ok (mkSeg startea endea id1ofs :: rest)
      | _ => Raise ValueError
      end
  end.

(** [__init__(self, idb, fh)], where [idbmagic] is [idb.magic]. *)
Definition init {F : Type} `{FileLike F} (idbmagic : bytes) (f : F) : res (t F) :=
  let '(wordsize, fmt) := if bytes_eqb idbmagic (b "IDA2") then (8, fQ) else (4, fL) in
  let '(r, f1) := fl_seek f 0 [] in
  _ <- r ;;
  let '(r, f2) := fl_read f1 32 in
  hdrdata <- r ;;
  let magic := slice hdrdata 0 4 in
  hdr <-
    (if old_magic magic then
       v <- unpack_from [fH; fH] hdrdata 4 ;;
       match v with
       | [nsegments; npages] => Ok (nsegments, 8, 3)
       | _ => Raise ValueError
       end
     else if new_magic magic then
       v <- unpack_from [fL; fL; fL; fL] hdrdata 4 ;;
       match v with
       | [always3; nsegments; always2k; npages] => Ok (nsegments, 20, 2)
       | _ => Raise ValueError
       end
     else Raise (PyException ("unknown id1 magic: " ++ fmt_hex magic))) ;;
  let '(nsegments, seglistofs, seginfosize) := hdr in
  let '(r, f3) := fl_seek f2 seglistofs [] in
  _ <- r ;;
  if old_magic magic then
    let '(r, f4) := fl_read f3 (nsegments * 3 * wordsize) in
    segdata <- r ;;
    seglist <- read_segments_old fmt wordsize seginfosize segdata (Z.to_nat nsegments) 0 ;;
    Ok (mk f4 seglist)
  else if new_magic magic then
    let '(r, f4) := fl_read f3 (nsegments * 2 * wordsize) in
    segdata <- r ;;
    let id1ofs := 0x2000 in
    seglist <- read_segments_new fmt wordsize seginfosize segdata (Z.to_nat nsegments) 0
                 id1ofs ;;
    Ok (mk f4 seglist)
  else Ok (mk f3 []).

(** [seg.startea <= ea < seg.endea] *)
Definition contains (seg : SegInfo) (ea : Z) : bool :=
  (startea seg <=? ea) && (ea <? endea seg).

(** [find_segment(self, ea)]: the first segment that holds [ea], or
    [None]. *)
Fixpoint find_segment_in (l : list SegInfo) (ea : Z) : option SegInfo :=
  match l with
  | [] => None
  | seg :: r => if contains seg ea then Some seg else find_segment_in r ea
  end.

(** The loop of [nextSeg] over [enumerate(self.seglist)], from index [i]
    on. *)
Fixpoint nextSeg_from (all l : list SegInfo) (i : Z) (ea : Z) : res (option Z) :=
  match l with
  | [] => Ok None
  | seg :: r =>
      if contains seg ea then
        if i + 1 <? len all then
          s <- getitem all (i + 1) ;; Ok (Some (startea s))
        else Ok None
      else nextSeg_from all r (i + 1) ea
  end.

Section WithFile.
Context {F : Type} `{FileLike F}.
Variable self : t F.

Definition find_segment (ea : Z) : option SegInfo :=
  find_segment_in (seglist self) ea.

(** [getFlags(self, ea)]: the flags and the file, whose handle has
    moved.  On [None] the attribute [seg.offset] does not exist. *)
Definition getFlags (ea : Z) : res Z * t F :=
  match find_segment ea with
  | Some seg =>
      let '(r, f1) := fl_seek (fh self) (offset seg + 4 * (ea - startea seg)) [] in
      match r with
      | Ok _ =>
          let '(r, f2) := fl_read f1 4 in
          (data <- r ;; v <- unpack [fL] data ;; Ok (hd 0 v), set_fh self f2)
      | Raise e => (Raise e, set_fh self f1)
      | OutOfFuel => (OutOfFuel, set_fh self f1)
      end
  | None => (Raise AttributeError, self)
  end.

Definition firstSeg : res Z :=
  seg <- subscript (seglist self) 0 ;; Ok (startea seg).

Definition nextSeg (ea : Z) : res (option Z) :=
  nextSeg_from (seglist self) (seglist self) 0 ea.

Definition segStart (ea : Z) : res Z :=
  match find_segment ea with
  | Some seg => Ok (startea seg)
  | None => Raise AttributeError
  end.

Definition segEnd (ea : Z) : res Z :=
  match find_segment ea with
  | Some seg => Ok (endea seg)
  | None => Raise AttributeError
  end.

End WithFile.

(** [ID1File(idb, fh)] *)
Definition new {F : Type} `{FileLike F} (idb : IDBFile.t) (f : F) : res (t F) :=
  init (IDBFile.magic idb) f.

End ID1File.

(** ** Numbers

    With [from __future__ import division] the operator [/] is true
    division: it gives a [float], also for two [int]s.  A float is kept
    here as the dyadic number [mant * 2 ^ expo], and results are rounded
    as binary64 rounds them: to 53 significant bits, to the nearest, ties
    to even.  The range of the exponent is not modelled: the numbers of
    [NAMFile] are quotients of numbers below [2 ^ 64] by 2, 4 or 8. *)

Record pyfloat : Type := mkFloat {
  mant : Z;
  expo : Z
}.

(** The number of bits of [|z|]. *)
Definition bit_length (z : Z) : Z :=
  if z =? 0 then 0 else Z.log2 (Z.abs z) + 1.

(** [m * 2 ^ e], rounded. *)
Definition round (m e : Z) : pyfloat :=
  let d := bit_length m in
  if d <=? 53 then mkFloat m e
  else
    let s := d - 53 in
    let q := Z.abs m / 2 ^ s in
    let r := Z.abs m mod 2 ^ s in
    let up := (2 ^ (s - 1) <? r) || ((r =? 2 ^ (s - 1)) && Z.odd q) in
    mkFloat (Z.sgn m * (if up then q + 1 else q)) (e + s).

(** [float(z)], the conversion of an [int] operand. *)
Definition of_int (z : Z) : pyfloat := round z 0.

(** [a / b] for two [int]s: the quotient, rounded once.  The quotient is
    computed with at least 55 bits, and one more bit tells whether
    anything was left. *)
Definition truediv (a b : Z) : res pyfloat :=
  if b =? 0 then Raise ZeroDivisionError
  else
    let k := Z.max 0 (55 + bit_length b - bit_length a) in
    let n := Z.abs a * 2 ^ k in
    let q := n / Z.abs b in
    let sticky := if n mod Z.abs b =? 0 then 0 else 1 in
    Ok (round (Z.sgn a * Z.sgn b * (2 * q + sticky)) (- k - 1)).

(** [x - y] *)
Definition fsub (x y : pyfloat) : pyfloat :=
  let e := Z.min (expo x) (expo y) in
  round (mant x * 2 ^ (expo x - e) - mant y * 2 ^ (expo y - e)) e.

(** [n < x] for an [int] [n]: Python compares the two numbers as they
    are, without converting [n]. *)
Definition int_lt_float (n : Z) (x : pyfloat) : bool :=
  if 0 <=? expo x then n <? mant x * 2 ^ expo x
  else n * 2 ^ (- expo x) <? mant x.

(** [int(x)]: towards zero. *)
Definition int_of_float (x : pyfloat) : Z :=
  if 0 <=? expo x then mant x * 2 ^ expo x
  else Z.quot (mant x) (2 ^ (- expo x)).

(** A number that is an [int] or a [float]. *)
Inductive num : Type :=
| NInt (z : Z)
| NFloat (x : pyfloat).

(** [n < x] for an [int] [n]. *)
Definition int_lt (n : Z) (x : num) : bool :=
  match x with
  | NInt z => n <? z
  | NFloat f => int_lt_float n f
  end.

(** [x - n] for an [int] [n]. *)
Definition num_sub (x : num) (n : Z) : num :=
  match x with
  | NInt z => NInt (z - n)
  | NFloat f => NFloat (fsub f (of_int n))
  end.

(** [min(x, k)] for an [int] [k]: [k] when [k < x], else [x]. *)
Definition num_min (x : num) (k : Z) : num :=
  if int_lt k x then NInt k else x.

(** ** class NAMFile

    The lines printed by [__init__] are left out. *)

Module NAMFile.

Definition INDEX : Z := 2.

Record t (F : Type) : Type := mk {
  fh : F;
  wordsize : Z;
  wordfmt : fmtchar;
  nnames : num;
  pagesize : Z
}.

Arguments mk {F}.

(** [magic in (b'Va4\x00', b'Va1\x00', b'Va0\x00')] and
    [magic == b'VA*\x00'] *)
Definition old_magic (magic : bytes) : bool :=
  bytes_eqb magic (b "Va4" ++ [x00]) || bytes_eqb magic (b "Va1" ++ [x00])
  || bytes_eqb magic (b "Va0" ++ [x00]).

Definition new_magic (magic : bytes) : bool := bytes_eqb magic (b "VA*" ++ [x00]).

(** [__init__(self, idb, fh)], where [idbmagic] is [idb.magic]. *)
Definition init {F : Type} `{FileLike F} (idbmagic : bytes) (f : F) : res (t F) :=
  let '(wordsize, fmt) := if bytes_eqb idbmagic (b "IDA2") then (8, fQ) else (4, fL) in
  let '(r, f1) := fl_seek f 0 [] in
  _ <- r ;;
  let '(r, f2) := fl_read f1 64 in
  hdrdata <- r ;;
  let magic := slice hdrdata 0 4 in
  hdr <-
    (if old_magic magic then
       v <- unpack_from [fH; fH; fmt; fmt; fL] hdrdata 4 ;;
       match v with
       | [always1; npages; always0; nnames; pagesize] => Ok (nnames, pagesize)
       | _ => Raise ValueError
       end
     else if new_magic magic then
       v <- unpack_from [fL; fL; fL; fL; fmt; fL] hdrdata 4 ;;
       match v with
       | [always3; always1; always2k; npages; always0; nnames] => Ok (nnames, 0x2000)
       | _ => Raise ValueError
       end
     else Raise (PyException ("unknown nam magic: " ++ fmt_hex magic))) ;;
  let '(nnames, pagesize) := hdr in
  nnames <-
    (if bytes_eqb idbmagic (b "IDA2") then x <- truediv nnames 2 ;; Ok (NFloat x)
     else Ok (NInt nnames)) ;;
  Ok (mk f2 wordsize fmt nnames pagesize).

Section WithFile.
Context {F : Type} `{FileLike F}.
Variable self : t F.

(** The loop [while n < self.nnames] of [allnames]: the numbers it
    yields, and how it ends.  [self.wordfmt * want] raises [TypeError]
    when [want] is a float.  [fuel] bounds the number of iterations. *)
Fixpoint allnames_loop (fuel : nat) (f : F) (n : Z) : list Z * res unit :=
  match fuel with
  | O => ([], OutOfFuel)
  | S fuel' =>
      if int_lt n (nnames self) then
        let '(r, f1) := fl_read f (pagesize self) in
        match r with
        | Ok data =>
            match truediv (pagesize self) (wordsize self) with
            | Ok q =>
                match num_min (num_sub (nnames self) n) (int_of_float q) with
                | NInt want =>
                    match unpack_from (repeat (wordfmt self) (Z.to_nat want)) data 0 with
                    | Ok ofs =>
                        let '(out, r') := allnames_loop fuel' f1 (n + want) in
                        (ofs ++ out, r')
                    | Raise e => ([], Raise e)
                    | OutOfFuel => ([], OutOfFuel)
                    end
                | NFloat _ => ([], Raise TypeError)
                end
            | Raise e => ([], Raise e)
            | OutOfFuel => ([], OutOfFuel)
            end
        | Raise e => ([], Raise e)
        | OutOfFuel => ([], OutOfFuel)
        end
      else ([], Ok tt)
  end.

(** [allnames(self)], a generator: the numbers it yields until it ends or
    raises. *)
Definition allnames (fuel : nat) : list Z * res unit :=
  let '(r, f1) := fl_seek (fh self) (pagesize self) [] in
  match r with
  | Ok _ => allnames_loop fuel f1 0
  | Raise e => ([], Raise e)
  | OutOfFuel => ([], OutOfFuel)
  end.

End WithFile.

(** [NAMFile(idb, fh)] *)
Definition new {F : Type} `{FileLike F} (idb : IDBFile.t) (f : F) : res (t F) :=
  init (IDBFile.magic idb) f.

End NAMFile.

(** ** Example databases

    The files used in the examples below are written out byte by byte by a
    small encoder of v1.6 pages.  The encoder is no part of the library
    (which only reads); what it produces is decoded by the definitions
    above. *)

Module Fixture.

Definition u16 (z : Z) : bytes := le_bytes 2 z.
Definition u32 (z : Z) : bytes := le_bytes 4 z.

(** A record body: the unused zero byte, then key and value, each with
    its length. *)
Definition body (key val : bytes) : bytes :=
  [x00] ++ u16 (len key) ++ key ++ u16 (len val) ++ val.

(** Slots and bodies of the entries [(a, key, val)], the first body being
    placed at [ofs]; [a] is the child page of an index entry, the indent
    of a leaf entry. *)
Fixpoint slots (isindex : bool) (es : list (Z * bytes * bytes)) (ofs : Z) : bytes * bytes :=
  match es with
  | [] => ([], [])
  | (a, key, val) :: r =>
      let slot := if isindex then u32 a ++ u16 ofs
                  else [byte_of_Z a; x00] ++ u16 0 ++ u16 ofs in
      let bd := body key val in
      let '(sl, bds) := slots isindex r (ofs + len bd) in
      (slot ++ sl, bd ++ bds)
  end.

Definition pad (x : bytes) (size : Z) : bytes :=
  x ++ repeat x00 (Z.to_nat (size - len x)).

(** A v1.6 page of [size] bytes. *)
Definition page16 (size preceeding : Z) (es : list (Z * bytes * bytes)) : bytes :=
  let n := len es in
  let '(sl, bds) := slots (negb (preceeding =? 0)) es (6 * (2 + n)) in
  pad (u32 preceeding ++ u16 n ++ sl ++ u32 0 ++ u16 0 ++ bds) size.

(** Page 0 of a v1.6 file. *)
Definition header16 (pagesize firstindex reccount pagecount : Z) : bytes :=
  pad (u32 0 ++ u16 pagesize ++ u32 firstindex ++ u32 reccount ++ u32 pagecount
       ++ [x00] ++ b "B-tree v 1.6 (C) Pol 1990") pagesize.

Definition leaf (key val : string) : Z * bytes * bytes := (0, b key, b val).
Definition node (child : Z) (key val : string) : Z * bytes * bytes := (child, b key, b val).

(** Ten records on four pages: the root (page 1) holds [d] and [h], with
    the leaves 2, 3 and 4 below it. *)
Definition file10 : File :=
  mkFile (header16 128 1 10 5
          ++ page16 128 2 [node 3 "d" "D"; node 4 "h" "H"]
          ++ page16 128 0 [leaf "a" "A"; leaf "b" "B"; leaf "c" "C"]
          ++ page16 128 0 [leaf "e" "E"; leaf "f" "F"; leaf "g" "G"]
          ++ page16 128 0 [leaf "i" "I"; leaf "j" "J"]) 0.

(** No record at all: the root (page 1) is a leaf without entries. *)
Definition file0 : File :=
  mkFile (header16 128 1 0 2 ++ page16 128 0 []) 0.

(** The leaf page of scenario S5: [NamedNode], then [Ref] with indent 5. *)
Definition page_s5 : bytes :=
  page16 64 0 [(0, b "NamedNode", b "x"); (5, b "Ref", b "y")].

(** [BTree(fh)] on a file that is known to open. *)
Definition open (f : File) : BTree.t File :=
  match BTree.init f with
  | Ok db => db
  | _ => BTree.mk f 0 0 0 0 0 Page16 16
  end.

Definition db10 : BTree.t File := open file10.
Definition db0 : BTree.t File := open file0.

End Fixture.

(** A container header of version 1: the [id2] offset is [0x600] and the
    two bytes of its checksum, [0x1234], are followed by two [0xFF]
    bytes. *)
Module FixtureIDB.
Import Fixture.

Definition header_v1 : File :=
  mkFile (b "IDA1" ++ u16 0
          ++ u32 0x100 ++ u32 0x200 ++ u32 0x300 ++ u32 0x400 ++ u32 0x500
          ++ u32 0xaabbccdd ++ u16 1 ++ u32 0
          ++ u32 11 ++ u32 12 ++ u32 13 ++ u32 14 ++ u32 15
          ++ u32 0x600 ++ u16 0x1234 ++ [xff; xff]) 0.

End FixtureIDB.

(** Two [.id0] files of a 32-bit database, each with a single leaf as its
    root.  [file_names] holds a three-byte value under node 1, tag [A], a
    four-byte value under node 1, tag [S], the two parts of a blob under
    node 2, tag [S], and the node number of the name [foo];
    [file_tail] holds the two parts of the blob and nothing after
    them. *)
Module FixtureID0.
Import Fixture.

(** [. nodeid tag subkey], as [makekey] builds it for 32-bit words. *)
Definition key (nodeid : Z) (tag : string) (subkey : Z) : bytes :=
  b "." ++ rev (le_bytes 4 nodeid) ++ b tag ++ rev (le_bytes 4 subkey).

Definition file_names : File :=
  mkFile (header16 256 1 5 2
          ++ page16 256 0
               [(0, key 1 "A" 0, [x01; x02; x03]);
                (0, key 1 "S" 0, [x2a; x00; x00; x00]);
                (0, key 2 "S" 0, b "ab");
                (0, key 2 "S" 1, b "cd");
                (0, b "Nfoo", [x01; x00; x00; xff])]) 0.

Definition file_tail : File :=
  mkFile (header16 256 1 2 2
          ++ page16 256 0
               [(0, key 2 "S" 0, b "ab");
                (0, key 2 "S" 1, b "cd")]) 0.

(** [ID0File(idb, fh)] with [idb.magic == b'IDA1'], on a file that is
    known to open. *)
Definition open (f : File) : ID0File.t File :=
  match ID0File.init (b "IDA1") f with
  | Ok x => x
  | _ => ID0File.mk (Fixture.open f) 4 0xFF000000
  end.

Definition names : ID0File.t File := open file_names.
Definition tail : ID0File.t File := open file_tail.

End FixtureID0.

(** A container of version 4 for a 32-bit database.  Its [id0] section
    holds the ten records of [file10]; the [id1] section holds six bytes;
    the [nam] section is marked as compressed, the [seg] section carries
    the encoding 1; there is no [til] section, and the [id2] offset points
    to the [id0] section. *)
Module FixtureContainer.
Import Fixture.

Definition section (comp : Z) (data : bytes) : bytes :=
  [byte_of_Z comp] ++ u32 (len data) ++ data.

Definition id0 : bytes := section 0 (f_data file10).
Definition id1 : bytes := section 0 (b "abcdef").
Definition nam : bytes := section 2 (b "xyz").
Definition seg : bytes := section 1 (b "xyz").

Definition id0_ofs : Z := 64.
Definition id1_ofs : Z := id0_ofs + len id0.
Definition nam_ofs : Z := id1_ofs + len id1.
Definition seg_ofs : Z := nam_ofs + len nam.

Definition container : File :=
  mkFile (b "IDA1" ++ u16 0
          ++ u32 id0_ofs ++ u32 id1_ofs ++ u32 nam_ofs ++ u32 seg_ofs ++ u32 0
          ++ u32 0xaabbccdd ++ u16 4 ++ u32 0
          ++ u32 0 ++ u32 0 ++ u32 0 ++ u32 0 ++ u32 0
          ++ u32 id0_ofs ++ u32 0
          ++ id0 ++ id1 ++ nam ++ seg) 0.

(** [IDBFile(fh)] on a file that is known to open. *)
Definition open (f : File) : IDBFile.t :=
  match IDBFile.init f with
  | Ok idb => idb
  | _ => IDBFile.mk f [] [] [] 0
  end.

Definition idb : IDBFile.t := open container.

(** The window on the [id0] section at some moment: it stands at its
    byte 3, and the file under it at byte 7. *)
Definition id0_window : FileSection.t :=
  FileSection.mk (mkFile (f_data container) 7) (id0_ofs + 5) (id0_ofs + len id0) 3.

(** The tree of the [id0] section, read through that window. *)
Definition id0_tree : BTree.t FileSection.t :=
  BTree.mk id0_window 0 128 1 10 5 Page16 16.

End FixtureContainer.

(** A container header of version 6 in which the version is followed by
    three 64-bit offsets, five 32-bit checksums, a 64-bit offset and a
    32-bit checksum. *)
Module FixtureIDB6.
Import Fixture.

Definition u64 (z : Z) : bytes := le_bytes 8 z.

Definition header_v6 : File :=
  mkFile (pad (b "IDA2" ++ u16 0
               ++ u64 0x100 ++ u64 0x200 ++ u32 0 ++ u32 0xaabbccdd ++ u16 6
               ++ u64 0x300 ++ u64 0x400 ++ u64 0x500
               ++ u32 1 ++ u32 2 ++ u32 3 ++ u32 4 ++ u32 5
               ++ u64 0x600 ++ u32 7) 256) 0.

End FixtureIDB6.

(** Two id1 files.  The first has the new layout and is a section that
    starts 16 bytes into a file: two segments, [0x1000..0x1003) and
    [0x4000..0x4002), and the flags of their five addresses from offset
    [0x2000] on.  The second has the old layout: one segment
    [0x1000..0x1002) with its flags at offset [0x14]. *)
Module FixtureID1.
Import Fixture.

Definition header : bytes :=
  b "VA*" ++ [x00] ++ u32 3 ++ u32 2 ++ u32 0x800 ++ u32 2.

Definition segments : bytes :=
  u32 0x1000 ++ u32 0x1003 ++ u32 0x4000 ++ u32 0x4002.

Definition flags : bytes :=
  u32 0x11 ++ u32 0x12 ++ u32 0x13 ++ u32 0x21 ++ u32 0x22.

Definition data : bytes := pad (header ++ segments) 0x2000 ++ flags.

Definition window : FileSection.t :=
  FileSection.mk (mkFile (repeat xff 16 ++ data) 0) 16 (16 + len data) 0.

Definition id1 : ID1File.t FileSection.t :=
  ID1File.mk window
    [ID1File.mkSeg 0x1000 0x1003 0x2000; ID1File.mkSeg 0x4000 0x4002 0x200c].

Definition old_data : bytes :=
  b "Va4" ++ [x00] ++ u16 1 ++ u16 1
  ++ u32 0x1000 ++ u32 0x1002 ++ u32 0x14 ++ u32 0x31 ++ u32 0x32.

Definition old_window : FileSection.t :=
  FileSection.mk (mkFile old_data 0) 0 (len old_data) 0.

End FixtureID1.

(** Three nam files of one page of names each.  The first belongs to a
    32-bit database and holds three names.  The second belongs to a
    64-bit database and holds two names, which its header counts as
    four.  The third has the old layout and says that its pages have two
    bytes. *)
Module FixtureNAM.
Import Fixture.

Definition u64 (z : Z) : bytes := le_bytes 8 z.

Definition data32 : bytes :=
  pad (b "VA*" ++ [x00] ++ u32 3 ++ u32 1 ++ u32 0x800 ++ u32 2 ++ u32 0 ++ u32 3) 0x2000
  ++ u32 0x401000 ++ u32 0x401010 ++ u32 0x402000.

Definition window32 : FileSection.t :=
  FileSection.mk (mkFile data32 0) 0 (len data32) 0.

Definition nam32 : NAMFile.t FileSection.t :=
  NAMFile.mk window32 4 fL (NInt 3) 0x2000.

Definition data64 : bytes :=
  pad (b "VA*" ++ [x00] ++ u32 3 ++ u32 1 ++ u32 0x800 ++ u32 2 ++ u64 0 ++ u32 4) 0x2000
  ++ u64 0x140001000 ++ u64 0x140001010.

Definition window64 : FileSection.t :=
  FileSection.mk (mkFile data64 0) 0 (len data64) 0.

Definition nam64 : NAMFile.t FileSection.t :=
  NAMFile.mk window64 8 fQ (NFloat (mkFloat (2 ^ 52) (- 51))) 0x2000.

Definition data_old : bytes :=
  b "Va4" ++ [x00] ++ u16 1 ++ u16 1 ++ u32 0 ++ u32 1 ++ u32 2 ++ u32 0x401000.

Definition window_old : FileSection.t :=
  FileSection.mk (mkFile data_old 0) 0 (len data_old) 0.

Definition nam_old : NAMFile.t FileSection.t :=
  NAMFile.mk window_old 4 fL (NInt 1) 2.

End FixtureNAM.

(** ** The data of the unit tests *)

(** The file of [TestFileSection.test_file]. *)
Definition test_file_source : File :=
  mkFile (b "0123456789abcdef") 0.

(** [TestBinarySearch]: the object with key [n] is an entry whose key is
    the single byte [n], and [bs(lst, n)] searches for that key. *)
Definition obj (n : Z) : Entry := LeafEntry 0 0 0 0 [byte_of_Z n] [].

Definition bs (lst : list Entry) (n : Z) : res Z := binary_search lst [byte_of_Z n].

(* ================================================================== *)
(** * The vocabulary of the properties

    The predicates and the observers in which the properties of the
    library are stated. *)

(** ** Windows *)

Module FileSectionSpec.
Import FileSection.

(** What every reachable window satisfies: it still looks at the same
    bytes through the same bounds, its position is inside the window and
    the parent is positioned at the matching absolute offset. *)
Definition inv (f : File) (s e : Z) (w : t) : Prop :=
  f_data (fh w) = f_data f /\ start w = s /\ end_ w = e /\
  0 <= curpos w <= e - s /\ f_pos (fh w) = s + curpos w.

End FileSectionSpec.

(** ** The order on keys *)

(** [a < c] and [a <= c] as propositions. *)
Definition blt (a c : bytes) : Prop := bytes_ltb a c = true.
Definition ble (a c : bytes) : Prop := bytes_ltb c a = false.

(** ** The fields of a page *)

(** The little-endian unsigned integer of [width] bytes at [ofs]. *)
Definition le_at (data : bytes) (ofs width : Z) : Z :=
  le_int (slice data ofs (ofs + width)).

(** Where a leaf slot keeps the indent, and where the record body it
    points to starts (after the unused zero byte of v1.5 and v1.6). *)
Definition indent_width (l : layout) : Z :=
  match l with Page15 => 1 | Page16 => 1 | Page20 => 2 end.

(** The offset of slot [i] of a page. *)
Definition slot (l : layout) (i : Z) : Z := entsize l * (1 + i).

Definition indent_at (l : layout) (data : bytes) (ofs : Z) : Z :=
  le_at data ofs (indent_width l).

Definition recofs_at (l : layout) (data : bytes) (ofs : Z) : Z :=
  match l with
  | Page15 => le_at data (ofs + 2) 2 + 1
  | Page16 => le_at data (ofs + 4) 2 + 1
  | Page20 => le_at data (ofs + 4) 2
  end.

Definition stored_indent (l : layout) (data : bytes) (i : Z) : Z :=
  indent_at l data (slot l i).

Definition stored_recofs (l : layout) (data : bytes) (i : Z) : Z :=
  recofs_at l data (slot l i).

(** The key bytes of the record body at [recofs]: a 16-bit length, then
    the bytes. *)
Definition stored_key (data : bytes) (recofs : Z) : bytes :=
  slice data (recofs + 2) (recofs + 2 + le_at data recofs 2).

(** The key that precedes entry [j] of a list of entries read after an
    entry with key [key]. *)
Definition previous_key (key : bytes) (es : list Entry) (j : nat) : bytes :=
  match j with
  | O => key
  | S j' => match nth_error es j' with Some e => ent_key e | None => [] end
  end.

(** ** The entries of a page *)

(** The entry that stands for an index out of range. *)
Definition no_entry : Entry := LeafEntry 0 0 0 0 [] [].

(** The entry and the key at index [j] of a list of entries. *)
Definition entry_at (a : list Entry) (j : Z) : Entry := nth (Z.to_nat j) a no_entry.
Definition key_at (a : list Entry) (j : Z) : bytes := ent_key (entry_at a j).

(** The keys of the entries ascend strictly. *)
Definition ascending (a : list Entry) : Prop :=
  forall i j, 0 <= i -> i < j -> j < len a -> blt (key_at a i) (key_at a j).

(** What the result [i] of [binary_search(a, k)] means: the keys up to
    index [i] are at most [k], the keys after it are above [k]. *)
Definition floor_index (a : list Entry) (k : bytes) (i : Z) : Prop :=
  -1 <= i < len a /\
  (forall j, 0 <= j <= i -> ble (key_at a j) k) /\
  (forall j, i < j < len a -> blt k (key_at a j)).

(** [range(i, i + n)]: the indices [i], [i+1], ... of [n] entries. *)
Fixpoint zrange (i : Z) (n : nat) : list Z :=
  match n with
  | O => []
  | S n' => i :: zrange (i + 1) n'
  end.

(** ** Trees and cursors *)

(** The tree [db] read through another handle. *)
Definition with_fh {F G : Type} (db : BTree.t F) (f : G) : BTree.t G :=
  BTree.mk f (BTree.firstfree db) (BTree.pagesize db) (BTree.firstindex db)
    (BTree.reccount db) (BTree.pagecount db) (BTree.page db) (BTree.version db).

(** The child page an entry points to (leaf entries have none). *)
Definition child_of (e : Entry) : Z :=
  match e with
  | IndexEntry p _ _ _ => p
  | LeafEntry _ _ _ _ _ _ => 0
  end.

(** The page below position [i] of an index page: [preceeding] for
    [i = -1]. *)
Definition child (pg : Page) (i : Z) : Z :=
  if i <? 0 then preceeding pg else child_of (entry_at (index pg) i).

(** The key and the value a cursor stands on. *)
Definition key_of (c : Cursor) : bytes :=
  match c with
  | [] => []
  | (pg, i) :: _ => ent_key (entry_at (index pg) i)
  end.

Definition val_of (c : Cursor) : bytes :=
  match c with
  | [] => []
  | (pg, i) :: _ => ent_val (entry_at (index pg) i)
  end.

(** A list of cursors in which [step] leads from each one to the next,
    and from the last one to [z]. *)
Fixpoint linked (step : Cursor -> res Cursor) (l : list Cursor) (z : Cursor) : Prop :=
  match l with
  | [] => True
  | x :: r => step x = Ok (hd z r) /\ linked step r z
  end.

Unset Implicit Arguments.

(** ** The tree below a page *)

Section TreeSpec.
Context {F : Type} `{FileLike F}.
Variable db : BTree.t F.

(** The pages below [nr] form a tree of height at most [h]: every page
    can be read, every leaf holds an entry, and the pages below an index
    page form trees of height at most [h - 1]. *)
Fixpoint shape (h : nat) (nr : Z) : Prop :=
  match BTree.readpage db nr with
  | Ok pg =>
      if BasePage.isleaf pg then index pg <> []
      else match h with
           | O => False
           | S h' =>
               shape h' (preceeding pg) /\
               forall i, 0 <= i < len (index pg) -> shape h' (child pg i)
           end
  | _ => False
  end.

(** The cursor positions of the records below page [nr], in the order of
    the tree: a leaf contributes its entries; an index page contributes
    what is below [preceeding], then each of its entries followed by what
    is below the entry's child page.  [ctx] holds the frames of the pages
    above [nr]. *)
Fixpoint positions (h : nat) (nr : Z) (ctx : Cursor) : list Cursor :=
  match BTree.readpage db nr with
  | Ok pg =>
      if BasePage.isleaf pg then
        map (fun i => (pg, i) :: ctx) (zrange 0 (List.length (index pg)))
      else match h with
           | O => []
           | S h' =>
               positions h' (preceeding pg) ((pg, -1) :: ctx)
               ++ flat_map (fun i => ((pg, i) :: ctx)
                                       :: positions h' (child pg i) ((pg, i) :: ctx))
                    (zrange 0 (List.length (index pg)))
           end
  | _ => []
  end.

(** The keys and the records below page [nr], in the order of the tree. *)
Definition keys (h : nat) (nr : Z) : list bytes := map key_of (positions h nr []).
Definition records (h : nat) (nr : Z) : list (bytes * bytes) :=
  map (fun c => (key_of c, val_of c)) (positions h nr []).

(** Where [next] resumes once everything below the top frame of [ctx] has
    been visited, and where [prev] does. *)
Definition after (ctx : Cursor) : Cursor :=
  match ctx with
  | [] => []
  | (pg, i) :: ctx' =>
      let '(stack, page, ix) := BTree.Cursor.next_ascend ctx' pg (i + 1) in
      if ix <? len (index page) then (page, ix) :: stack else stack
  end.

Definition before (ctx : Cursor) : Cursor :=
  match ctx with
  | [] => []
  | (pg, i) :: ctx' =>
      let '(stack, page, ix) := BTree.Cursor.prev_ascend ctx' pg i in
      if ix >=? 0 then (page, ix) :: stack else stack
  end.

(** The keys under the positions of [l] ascend strictly. *)
Definition ordered (l : list Cursor) : Prop :=
  forall l1 x l2 y l3, l = l1 ++ x :: l2 ++ y :: l3 -> blt (key_of x) (key_of y).

(** The positions below a page, slot by slot: slot [-1] of an index page
    holds what is below [preceeding]; slot [i] holds entry [i] and, on an
    index page, what is below its child. *)
Definition slot_positions (h : nat) (pg : Page) (ctx : Cursor) (i : Z) : list Cursor :=
  (if i <? 0 then [] else [(pg, i) :: ctx])
  ++ (if BasePage.isleaf pg then []
      else match h with
           | O => []
           | S h' => positions h' (child pg i) ((pg, i) :: ctx)
           end).

(** What [BasePage.find] returns when the floor index of [key] is [i]. *)
Definition page_find_result (pg : Page) (key : bytes) (i : Z) : string * Z :=
  if i <? 0 then
    if BasePage.isindex pg then ("recurse"%string, -1) else ("gt"%string, 0)
  else if bytes_eqb (key_at (index pg) i) key then ("eq"%string, i)
  else if BasePage.isindex pg then ("recurse"%string, i)
  else ("lt"%string, i).

(** The outcome [(act, c)] of a descent for [key] in the positions [l]:
    [c] is one of them, every key before it is below [key], every key
    after it is above [key], and [act] tells how the key under [c] itself
    compares with [key]. *)
Definition located (key : bytes) (l : list Cursor) (act : string) (c : Cursor) : Prop :=
  exists l1 l2,
    l = l1 ++ c :: l2 /\
    (forall x, In x l1 -> blt (key_of x) key) /\
    (forall y, In y l2 -> blt key (key_of y)) /\
    (act = "eq"%string /\ key_of c = key \/
     act = "lt"%string /\ blt (key_of c) key \/
     act = "gt"%string /\ blt key (key_of c)).

(** The keys of a list increase strictly. *)
Definition increasing (ks : list bytes) : Prop :=
  forall l1 x l2 y l3, ks = l1 ++ x :: l2 ++ y :: l3 -> blt x y.

(** All the positions of the tree, in order. *)
Definition all_positions (h : nat) : list Cursor :=
  positions h (BTree.firstindex db) [].

(** A tree of height at most [h] that holds at least one record: the
    pages below the root form a tree in which no leaf is empty, and the
    keys, in the order of the tree, increase strictly. *)
Definition well_formed (h : nat) : Prop :=
  shape h (BTree.firstindex db) /\ increasing (keys h (BTree.firstindex db)).

(** [c] is the position with the greatest key among those whose key
    satisfies [P], or the empty cursor when there is none; and the same
    for the least key. *)
Definition greatest (P : bytes -> Prop) (l : list Cursor) (c : Cursor) : Prop :=
  c = [] /\ (forall x, In x l -> ~ P (key_of x)) \/
  In c l /\ P (key_of c) /\ (forall x, In x l -> P (key_of x) -> ble (key_of x) (key_of c)).

Definition least (P : bytes -> Prop) (l : list Cursor) (c : Cursor) : Prop :=
  c = [] /\ (forall x, In x l -> ~ P (key_of x)) \/
  In c l /\ P (key_of c) /\ (forall x, In x l -> P (key_of x) -> ble (key_of c) (key_of x)).

(** [reaches H h nr ctx]: in a tree of height at most [H], page [nr] is
    found by following child pointers from the root along the frames
    [ctx], and the tree below it has height at most [h]. *)
Inductive reaches (H' : nat) : nat -> Z -> Cursor -> Prop :=
| reaches_root : reaches H' H' (BTree.firstindex db) []
| reaches_child (h : nat) (nr : Z) (ctx : Cursor) (pg : Page) (i : Z) :
    reaches H' (S h) nr ctx ->
    BTree.readpage db nr = Ok pg -> BasePage.isleaf pg = false ->
    -1 <= i < len (index pg) ->
    reaches H' h (child pg i) ((pg, i) :: ctx).

(** Page [nr] belongs to the tree, at most [h] levels above the leaves. *)
Definition in_tree (H' h : nat) (nr : Z) : Prop := exists ctx, reaches H' h nr ctx.

(** The loop [while not cur.eof(): ...; cur.next()] of a client that
    walks the records from [c] on: the positions it visits.  [n] bounds
    the number of iterations. *)
Fixpoint scan (fuel n : nat) (c : Cursor) : res (list Cursor) :=
  match n with
  | O => OutOfFuel
  | S n' =>
      if BTree.Cursor.eof c then Ok []
      else
        c' <- BTree.Cursor.next db fuel c ;;
        rest <- scan fuel n' c' ;;
        Ok (c :: rest)
  end.

(** The same loop with [prev]. *)
Fixpoint scan_back (fuel n : nat) (c : Cursor) : res (list Cursor) :=
  match n with
  | O => OutOfFuel
  | S n' =>
      if BTree.Cursor.eof c then Ok []
      else
        c' <- BTree.Cursor.prev db fuel c ;;
        rest <- scan_back fuel n' c' ;;
        Ok (c :: rest)
  end.

(** The walk over the whole tree, from [find('ge', b'')]. *)
Definition full_scan (fuel n : nat) : res (list Cursor) :=
  r <- BTree.find db fuel "ge" [] ;;
  match r with
  | Some c => scan fuel n c
  | None => Raise AttributeError
  end.

(** [next] followed by [prev], and [prev] followed by [next]. *)
Definition next_prev (fuel : nat) (c : Cursor) : res Cursor :=
  c' <- BTree.Cursor.next db fuel c ;; BTree.Cursor.prev db fuel c'.

Definition prev_next (fuel : nat) (c : Cursor) : res Cursor :=
  c' <- BTree.Cursor.prev db fuel c ;; BTree.Cursor.next db fuel c'.

(** [shape], [increasing] and [well_formed] as boolean functions, to
    check a given tree by computation. *)
Fixpoint shapeb (h : nat) (nr : Z) : bool :=
  match BTree.readpage db nr with
  | Ok pg =>
      if BasePage.isleaf pg then negb (len (index pg) =? 0)
      else match h with
           | O => false
           | S h' =>
               shapeb h' (preceeding pg)
               && forallb (fun i => shapeb h' (child pg i))
                    (zrange 0 (List.length (index pg)))
           end
  | _ => false
  end.

Fixpoint increasingb (ks : list bytes) : bool :=
  match ks with
  | [] => true
  | x :: r =>
      match r with
      | [] => true
      | y :: _ => bytes_ltb x y && increasingb r
      end
  end.

Definition well_formedb (h : nat) : bool :=
  shapeb h (BTree.firstindex db) && increasingb (keys h (BTree.firstindex db)).

End TreeSpec.

(** ** Records by key *)

(** The value stored under [key] in a list of records. *)
Definition lookup (key : bytes) (l : list (bytes * bytes)) : option bytes :=
  match List.find (fun kv => bytes_eqb (fst kv) key) l with
  | Some kv => Some (snd kv)
  | None => None
  end.

(** The longest prefix of [l] whose elements satisfy [p]. *)
Fixpoint take_while {A : Type} (p : A -> bool) (l : list A) : list A :=
  match l with
  | [] => []
  | x :: r => if p x then x :: take_while p r else []
  end.

Section OverlaySpec.
Context {F : Type} `{FileLike F}.
Variable self : ID0File.t F.

(** The records of the database, in the order of the tree. *)
Definition db_records (h : nat) : list (bytes * bytes) :=
  records (ID0File.btree self) h (BTree.firstindex (ID0File.btree self)).

(** What [int] makes of a value. *)
Definition int_of_value (v : bytes) : option Z * list output :=
  if (len v =? 1) || (len v =? 2) || (len v =? 4) || (len v =? 8)
  then (Some (le_int v), [])
  else (None, [CantGetInt v]).

End OverlaySpec.

(** ** The pages of the example trees *)

Module Example10.

(** The pages of [file10] as [readpage] decodes them. *)
Definition root : Page :=
  mkPage 2 2 [IndexEntry 3 25 (b "d") (b "D"); IndexEntry 4 32 (b "h") (b "H")] 0 0.
Definition leaf2 : Page :=
  mkPage 0 3 [LeafEntry 0 0 0 31 (b "a") (b "A"); LeafEntry 0 0 0 38 (b "b") (b "B");
              LeafEntry 0 0 0 45 (b "c") (b "C")] 0 0.
Definition leaf3 : Page :=
  mkPage 0 3 [LeafEntry 0 0 0 31 (b "e") (b "E"); LeafEntry 0 0 0 38 (b "f") (b "F");
              LeafEntry 0 0 0 45 (b "g") (b "G")] 0 0.
Definition leaf4 : Page :=
  mkPage 0 2 [LeafEntry 0 0 0 25 (b "i") (b "I"); LeafEntry 0 0 0 32 (b "j") (b "J")] 0 0.

(** The root of [file0]. *)
Definition empty_root : Page := mkPage 0 0 [] 0 0.

End Example10.

(** ** Sections of a container *)

(** [w'] is the window [w] at another moment: the same bounds on the same
    bytes.  The position of the window may be any position inside it, and
    that of the file object it shares with its container may be any. *)
Definition same_window (w w' : FileSection.t) : Prop :=
  f_data (FileSection.fh w') = f_data (FileSection.fh w) /\
  FileSection.start w' = FileSection.start w /\
  FileSection.end_ w' = FileSection.end_ w /\
  0 <= FileSection.curpos w' <= FileSection.end_ w' - FileSection.start w'.

(** A section starts with a header: one byte for its encoding, then its
    size, on 4 bytes before version 5 of the container and on 8 bytes from
    then on.  [o] is the offset of the header. *)
Definition section_header (idb : IDBFile.t) : Z :=
  if IDBFile.fileversion idb <? 5 then 5 else 9.

Definition section_encoding (idb : IDBFile.t) (o : Z) : Z :=
  le_at (f_data (IDBFile.fh idb)) o 1.

Definition section_size (idb : IDBFile.t) (o : Z) : Z :=
  le_at (f_data (IDBFile.fh idb)) (o + 1) (section_header idb - 1).

(** The bytes of the section: those that follow the header, as many as
    the size says (fewer when the file ends before). *)
Definition section_bytes (idb : IDBFile.t) (o : Z) : bytes :=
  slice (f_data (IDBFile.fh idb)) (o + section_header idb)
    (o + section_header idb + section_size idb o).

(** Two trees that decode the same pages. *)
Definition same_pages {F G : Type} `{FileLike F} `{FileLike G}
    (db : BTree.t F) (db' : BTree.t G) : Prop :=
  BTree.firstindex db = BTree.firstindex db' /\
  forall nr pg, BTree.readpage db nr = Ok pg <-> BTree.readpage db' nr = Ok pg.

(** ** Keys *)

(** The [n] bytes of [z], most significant first. *)
Definition be (n : Z) (z : Z) : bytes := rev (le_bytes (Z.to_nat n) z).

(** ** Segments of an id1 file *)

(** The bytes a window shows. *)
Definition window_bytes (w : FileSection.t) : bytes :=
  slice (f_data (FileSection.fh w)) (FileSection.start w) (FileSection.end_ w).

(** The width of an address in the files of a container with magic
    [idbmagic]. *)
Definition database_wordsize (idbmagic : bytes) : Z :=
  if bytes_eqb idbmagic (b "IDA2") then 8 else 4.

(** The magics of the old layout of an id1 file, and that of the new
    one. *)
Definition id1_old_magics : list bytes :=
  [b "Va4" ++ [x00]; b "Va3" ++ [x00]; b "Va0" ++ [x00]].

Definition id1_new_magic : bytes := b "VA*" ++ [x00].

(** [ea] is an address of the segment. *)
Definition inside (seg : ID1File.SegInfo) (ea : Z) : Prop :=
  ID1File.startea seg <= ea < ID1File.endea seg.

(** The number of addresses of the segments of [l]. *)
Definition total_size (l : list ID1File.SegInfo) : Z :=
  fold_right (fun seg a => (ID1File.endea seg - ID1File.startea seg) + a) 0 l.

(** ** What [dumptree] prints *)

(** The entries of the lines printed, in the order of the lines. *)
Definition printed_entries (lines : list BTree.dump_line) : list Entry :=
  flat_map (fun l => match l with BTree.DumpEntry e => [e] | _ => [] end) lines.

(** The record an entry holds. *)
Definition entry_record (e : Entry) : bytes * bytes := (ent_key e, ent_val e).

(** ** Names of a nam file *)

(** The float [x] is [a / 2 ^ j], held without rounding. *)
Definition float_is (x : pyfloat) (a j : Z) : Prop :=
  exists c, 0 <= c /\ mant x = a * 2 ^ c /\ expo x = - (j + c) /\ bit_length (mant x) <= 53.

(** The magics of the old layout of a nam file. *)
Definition nam_old_magics : list bytes :=
  [b "Va4" ++ [x00]; b "Va1" ++ [x00]; b "Va0" ++ [x00]].

(** What [nnames] is for a header that counts [raw]: the count itself,
    or half of it as a float in a 64-bit database. *)
Definition nnames_is (idbmagic : bytes) (v : num) (raw : Z) : Prop :=
  if bytes_eqb idbmagic (b "IDA2") then exists x, v = NFloat x /\ float_is x raw 1
  else v = NInt raw.

(** The magic of the new layout. *)
Definition nam_new_magic : bytes := b "VA*" ++ [x00].

(** What [NAMFile(idb, fh)] makes of a section [w] whose header gives
    [psize] as the size of a page and counts [raw]. *)
Definition nam_opened (idbmagic : bytes) (w : FileSection.t)
    (nam : NAMFile.t FileSection.t) (psize raw : Z) : Prop :=
  NAMFile.wordsize nam = database_wordsize idbmagic /\
  fmtsize (NAMFile.wordfmt nam) = NAMFile.wordsize nam /\
  NAMFile.pagesize nam = psize /\
  nnames_is idbmagic (NAMFile.nnames nam) raw /\
  window_bytes (NAMFile.fh nam) = window_bytes w /\
  FileSection.start (NAMFile.fh nam) = FileSection.start w.

(** Name [i] of a file whose pages of [p] bytes hold [per] words of [ws]
    bytes each, the first page being a header. *)
Definition name_at (W : bytes) (p ws per i : Z) : Z :=
  le_at W (p * (1 + i / per) + ws * (i mod per)) ws.

(* ================================================================== *)
(** * Properties *)

Set Implicit Arguments.

(** ** Lists and slices *)

Lemma len_nonneg {A : Type} (l : list A) : 0 <= len l.
Proof. unfold len. lia. Qed.

Lemma len_firstn {A : Type} (n : nat) (l : list A) :
  len (firstn n l) = Z.min (Z.of_nat n) (len l).
Proof. unfold len. rewrite length_firstn. lia. Qed.

Lemma len_skipn {A : Type} (n : nat) (l : list A) :
  len (skipn n l) = Z.max 0 (len l - Z.of_nat n).
Proof. unfold len. rewrite length_skipn. lia. Qed.

Lemma len_slice_le {A : Type} (s : list A) (a b : Z) :
  len (slice s a b) <= Z.max 0 (b - a).
Proof. unfold slice. rewrite len_firstn. lia. Qed.

(** ** FileSection *)

Module FileSectionFacts.
Import FileSection FileSectionSpec.

Lemma inv_init f s e : 0 <= s <= e -> inv f s e (snd (init f s e)).
Proof.
  intros H. unfold inv, init, RawFile.seek. cbn.
  destruct (s <? 0) eqn:E; [lia|]. cbn. repeat split; lia.
Qed.

Lemma reposition_ok w :
  0 <= curpos w + start w ->
  reposition w = (Ok tt, set_fh w (mkFile (f_data (fh w)) (curpos w + start w))).
Proof.
  intros H. unfold reposition, RawFile.seek. cbn.
  destruct (curpos w + start w <? 0) eqn:E; [lia|]. reflexivity.
Qed.

Lemma read_spec f s e w size :
  0 <= s <= e -> inv f s e w ->
  let want := Z.min size (e - s - curpos w) in
  let data := slice (f_data f) (s + curpos w) (s + curpos w + want) in
  fst (read w size) = Ok data /\
  len data <= Z.max 0 want /\
  inv f s e (snd (read w size)) /\
  tell (snd (read w size)) = tell w + len data.
Proof.
  intros Hse (Hd & Hs & He & Hc & Hp). cbn zeta. unfold read.
  rewrite Hs, He.
  set (want := Z.min size (e - s - curpos w)).
  pose proof (len_slice_le (f_data f) (s + curpos w) (s + curpos w + want)) as Hl.
  destruct (want <=? 0) eqn:E.
  - assert (slice (f_data f) (s + curpos w) (s + curpos w + want) = []) as ->.
    { unfold slice. replace (Z.to_nat (s + curpos w + want - (s + curpos w))) with O by lia.
      reflexivity. }
    cbn. unfold inv, tell. repeat split; try lia; assumption.
  - unfold RawFile.read.
    destruct (want <? 0) eqn:E2; [lia|]. cbn.
    rewrite Hd, Hp. unfold inv, tell. cbn.
    pose proof (len_nonneg (slice (f_data f) (s + curpos w) (s + curpos w + want))).
    repeat split; try lia; try assumption.
Qed.

Lemma seek_spec f s e w offset args :
  0 <= s <= e -> inv f s e w ->
  inv f s e (snd (seek w offset args)) /\
  forall whence, (whence = 0 \/ whence = 1 \/ whence = 2) ->
    (args = [] /\ whence = 0 \/ exists rest, args = whence :: rest) ->
    if isvalidpos w (seek_target w offset whence)
    then seek w offset args = (Ok tt, snd (seek w offset args)) /\
         tell (snd (seek w offset args)) = seek_target w offset whence
    else seek w offset args = (Raise (PyException "illegal offset"), w).
Proof.
  intros Hse (Hd & Hs & He & Hc & Hp).
  assert (Hrep : forall p, 0 <= p <= e - s ->
            reposition (set_curpos w p)
            = (Ok tt, set_fh (set_curpos w p) (mkFile (f_data (fh w)) (p + s)))).
  { intros p Hp'. rewrite reposition_ok; cbn; rewrite ?Hs; [reflexivity|lia]. }
  assert (Hinv : forall p, 0 <= p <= e - s ->
            inv f s e (set_fh (set_curpos w p) (mkFile (f_data (fh w)) (p + s)))).
  { intros p Hp'. unfold inv. cbn. repeat split; try assumption; lia. }
  assert (Hsame : reposition w = (Ok tt, set_fh w (mkFile (f_data (fh w)) (curpos w + start w)))).
  { apply reposition_ok. lia. }
  assert (Hinv0 : inv f s e (set_fh w (mkFile (f_data (fh w)) (curpos w + start w)))).
  { unfold inv. cbn. repeat split; try assumption; lia. }
  assert (Hinvw : inv f s e w) by (unfold inv; auto).
  split.
  - unfold seek, isvalidpos. rewrite Hs, He.
    repeat match goal with
    | |- context [if ?b then _ else _] => destruct b eqn:?; cbn [negb snd]
    end; try assumption;
    try (rewrite Hrep by lia; cbn [snd]; apply Hinv; lia);
    rewrite Hsame; cbn [snd]; assumption.
  - intros whence Hw Hargs.
    assert (Hwh : match args with [] => 0 | a :: _ => a end = whence).
    { destruct Hargs as [[-> ->]|[rest ->]]; reflexivity. }
    unfold seek, seek_target, isvalidpos. rewrite Hwh, Hs, He.
    destruct Hw as [->|[->| ->]]; cbn [Z.eqb Pos.eqb];
    match goal with
    | |- context [negb ?b] => destruct b eqn:Hv; cbn [negb]
    end; try reflexivity;
    rewrite Hrep by lia; cbn [snd]; split; reflexivity.
Qed.

Lemma inv_step f s e w o :
  0 <= s <= e -> inv f s e w -> inv f s e (step w o).
Proof.
  intros Hse Hi. destruct o as [size|offset args]; cbn.
  - apply (read_spec size Hse Hi).
  - apply (seek_spec offset args Hse Hi).
Qed.

Lemma inv_run f s e ops :
  0 <= s <= e -> inv f s e (run f s e ops).
Proof.
  intros Hse. unfold run.
  assert (H := inv_init f Hse). revert H.
  generalize (snd (init f s e)). induction ops as [|o ops IH]; intros w Hw; cbn.
  - assumption.
  - apply IH. apply inv_step; assumption.
Qed.

End FileSectionFacts.

(** [TestFileSection.test_file]: the reads and seeks of the unit test,
    with the results it asserts. *)
Example test_file :
  let w0 := snd (FileSection.init test_file_source 3 11) in
  let '(r1, w1) := FileSection.read w0 3 in
  let '(r2, w2) := FileSection.read w1 8 in
  let '(r3, w3) := FileSection.read w2 8 in
  let '(_, w4) := FileSection.seek w3 (-1) [2] in
  let '(r5, w5) := FileSection.read w4 8 in
  let '(_, w6) := FileSection.seek w5 3 [] in
  let '(r7, w7) := FileSection.read w6 2 in
  let '(_, w8) := FileSection.seek w7 (-2) [1] in
  let '(r9, w9) := FileSection.read w8 2 in
  let '(_, w10) := FileSection.seek w9 2 [1] in
  let '(r11, w11) := FileSection.read w10 2 in
  let '(_, w12) := FileSection.seek w11 8 [] in
  let '(r13, w13) := FileSection.read w12 1 in
  let '(r14, w14) := FileSection.seek w13 9 [] in
  (r1, r2, r3, r5, r7, r9, r11, r13, r14, FileSection.tell w14)
  = (Ok (b "345"), Ok (b "6789a"), Ok (b ""), Ok (b "a"), Ok (b "67"),
     Ok (b "67"), Ok (b "a"), Ok (b ""),
     Raise (PyException "illegal offset"), 8).
Proof. vm_compute. reflexivity. Qed.

(** C7. Window safety.  Take the window [FileSection(f, s, e)] with
    [0 <= s <= e] after any sequence of [read] and [seek] calls.  Then
    [tell()] lies in [[0, e-s]]; a further [read(size)] returns exactly the
    bytes of the underlying file from the current position up to [size]
    bytes or the end of the window, whichever comes first (so at most the
    remaining bytes of the window, none when nothing remains), and leaves
    [tell()] in range; and a [seek] with whence 0, 1 or 2 to a position
    outside [[0, e-s]] raises [Exception("illegal offset")] and leaves the
    window as it was. *)
Theorem window_safety (f : File) (s e : Z) (ops : list FileSection.op) :
  0 <= s <= e ->
  let w := FileSection.run f s e ops in
  0 <= FileSection.tell w <= e - s /\
  (forall size,
     let want := Z.min size (e - s - FileSection.tell w) in
     let data := slice (f_data f) (s + FileSection.tell w) (s + FileSection.tell w + want) in
     fst (FileSection.read w size) = Ok data /\
     len data <= Z.max 0 want /\
     0 <= FileSection.tell (snd (FileSection.read w size)) <= e - s) /\
  (forall offset whence args,
     whence = 0 \/ whence = 1 \/ whence = 2 ->
     args = [] /\ whence = 0 \/ (exists rest, args = whence :: rest) ->
     ~ 0 <= FileSection.seek_target w offset whence <= e - s ->
     FileSection.seek w offset args = (Raise (PyException "illegal offset"), w)).
Proof.
  intros Hse w.
  pose proof (FileSectionFacts.inv_run f ops Hse) as Hi. fold w in Hi.
  split; [|split].
  - destruct Hi as (_ & _ & _ & Hc & _). exact Hc.
  - intros size. cbn zeta.
    destruct (FileSectionFacts.read_spec size Hse Hi) as (Hr & Hl & Hi' & _).
    unfold FileSection.tell in *.
    split; [exact Hr|]. split; [exact Hl|].
    destruct Hi' as (_ & _ & _ & Hc & _). exact Hc.
  - intros offset whence args Hw Hargs Hout.
    destruct (FileSectionFacts.seek_spec offset args Hse Hi) as (_ & Hsk).
    specialize (Hsk whence Hw Hargs).
    destruct (FileSection.isvalidpos w (FileSection.seek_target w offset whence)) eqn:Hv.
    + exfalso. apply Hout. unfold FileSection.isvalidpos in Hv.
      destruct Hi as (_ & Hs & He & _). rewrite Hs, He in Hv. lia.
    + exact Hsk.
Qed.

Lemma window_safety_witness :
  0 <= 3 <= 11 /\
  FileSection.tell
    (FileSection.run test_file_source 3 11
       [FileSection.Read 3; FileSection.Seek 2 [1]; FileSection.Read 8]) = 8 /\
  FileSection.seek
    (FileSection.run test_file_source 3 11
       [FileSection.Read 3; FileSection.Seek 2 [1]; FileSection.Read 8]) 1 [1]
  = (Raise (PyException "illegal offset"),
     FileSection.run test_file_source 3 11
       [FileSection.Read 3; FileSection.Seek 2 [1]; FileSection.Read 8]).
Proof.
  assert (H : 0 <= 3 <= 11) by lia.
  split; [exact H|]. split; [vm_compute; reflexivity|].
  apply (window_safety test_file_source
           [FileSection.Read 3; FileSection.Seek 2 [1]; FileSection.Read 8] H)
    with (whence := 1).
  - right; left; reflexivity.
  - right. exists []. reflexivity.
  - vm_compute. intros [_ Hc]. apply Hc. reflexivity.
Defined.

(** ** Bytes and their order *)

Lemma byte_to_Z_range (x : byte) : 0 <= byte_to_Z x < 256.
Proof.
  unfold byte_to_Z. pose proof (Byte.to_N_bounded x). lia.
Qed.

Lemma byte_to_Z_inj (x y : byte) : byte_to_Z x = byte_to_Z y -> x = y.
Proof.
  unfold byte_to_Z. intros E. apply N2Z.inj in E.
  pose proof (Byte.of_to_N x) as Hx. rewrite E, Byte.of_to_N in Hx.
  congruence.
Qed.

Lemma byte_of_to_Z (x : byte) : byte_of_Z (byte_to_Z x) = x.
Proof.
  unfold byte_of_Z. pose proof (byte_to_Z_range x).
  rewrite Z.mod_small by assumption.
  unfold byte_to_Z. rewrite N2Z.id, Byte.of_to_N. reflexivity.
Qed.

Lemma byte_to_of_Z (z : Z) : 0 <= z < 256 -> byte_to_Z (byte_of_Z z) = z.
Proof.
  intros Hz. unfold byte_of_Z. rewrite Z.mod_small by assumption.
  destruct (Byte.of_N (Z.to_N z)) as [x|] eqn:E.
  - apply Byte.to_of_N in E. unfold byte_to_Z. rewrite E. lia.
  - apply Byte.of_N_None_iff in E. lia.
Qed.

Lemma bytes_eqb_eq (a c : bytes) : bytes_eqb a c = true <-> a = c.
Proof.
  revert c. induction a as [|x a IH]; intros [|y c]; cbn; split; intros E;
    try reflexivity; try discriminate.
  - apply andb_true_iff in E. destruct E as [E1 E2].
    apply Byte.byte_dec_bl in E1. apply IH in E2. congruence.
  - injection E as -> ->. apply andb_true_iff. split.
    + apply Byte.byte_dec_lb. reflexivity.
    + apply IH. reflexivity.
Qed.

Lemma bytes_eqb_refl (a : bytes) : bytes_eqb a a = true.
Proof. apply bytes_eqb_eq. reflexivity. Qed.

Lemma bytes_eqb_neq (a c : bytes) : bytes_eqb a c = false <-> a <> c.
Proof.
  split.
  - intros E Heq. apply bytes_eqb_eq in Heq. congruence.
  - intros Hn. destruct (bytes_eqb a c) eqn:E; [|reflexivity].
    apply bytes_eqb_eq in E. contradiction.
Qed.

Lemma bytes_ltb_irrefl (a : bytes) : bytes_ltb a a = false.
Proof.
  induction a as [|x a IH]; cbn; [reflexivity|].
  rewrite Z.ltb_irrefl. exact IH.
Qed.

Lemma bytes_ltb_trans (a c d : bytes) :
  bytes_ltb a c = true -> bytes_ltb c d = true -> bytes_ltb a d = true.
Proof.
  revert c d. induction a as [|x a IH]; intros [|y c] [|z d]; cbn;
    try discriminate; try reflexivity.
  destruct (byte_to_Z x <? byte_to_Z y) eqn:Exy;
  destruct (byte_to_Z y <? byte_to_Z x) eqn:Eyx;
  destruct (byte_to_Z y <? byte_to_Z z) eqn:Eyz;
  destruct (byte_to_Z z <? byte_to_Z y) eqn:Ezy;
  destruct (byte_to_Z x <? byte_to_Z z) eqn:Exz;
  destruct (byte_to_Z z <? byte_to_Z x) eqn:Ezx;
  try discriminate; try reflexivity; try lia.
  apply IH.
Qed.

(** Two byte strings are equal or one is below the other. *)
Lemma bytes_ltb_total (a c : bytes) :
  bytes_ltb a c = false -> bytes_ltb c a = false -> a = c.
Proof.
  revert c. induction a as [|x a IH]; intros [|y c]; cbn;
    try discriminate; try reflexivity.
  destruct (byte_to_Z x <? byte_to_Z y) eqn:Exy;
  destruct (byte_to_Z y <? byte_to_Z x) eqn:Eyx;
  try discriminate.
  intros H1 H2. f_equal.
  - apply byte_to_Z_inj. lia.
  - apply IH; assumption.
Qed.

Lemma bytes_ltb_asym (a c : bytes) :
  bytes_ltb a c = true -> bytes_ltb c a = false.
Proof.
  intros H. destruct (bytes_ltb c a) eqn:E; [|reflexivity].
  pose proof (bytes_ltb_trans _ _ _ H E) as Hc.
  rewrite bytes_ltb_irrefl in Hc. discriminate.
Qed.

Lemma bytes_ltb_neq (a c : bytes) : bytes_ltb a c = true -> a <> c.
Proof.
  intros H ->. rewrite bytes_ltb_irrefl in H. discriminate.
Qed.

Lemma bytes_ltb_nil (a : bytes) : bytes_ltb a [] = false.
Proof. destruct a; reflexivity. Qed.

Lemma ble_lt_or_eq (a c : bytes) : ble a c <-> blt a c \/ a = c.
Proof.
  unfold ble, blt. split.
  - intros H. destruct (bytes_ltb a c) eqn:E; [left; reflexivity|right].
    apply bytes_ltb_total; assumption.
  - intros [H| ->]; [apply bytes_ltb_asym; assumption|apply bytes_ltb_irrefl].
Qed.

Lemma blt_le_trans (a c d : bytes) : blt a c -> ble c d -> blt a d.
Proof.
  intros H1 H2. apply ble_lt_or_eq in H2. destruct H2 as [H2| <-]; [|assumption].
  exact (bytes_ltb_trans _ _ _ H1 H2).
Qed.

Lemma ble_lt_trans (a c d : bytes) : ble a c -> blt c d -> blt a d.
Proof.
  intros H1 H2. apply ble_lt_or_eq in H1. destruct H1 as [H1| ->]; [|assumption].
  exact (bytes_ltb_trans _ _ _ H1 H2).
Qed.

Lemma blt_trans (a c d : bytes) : blt a c -> blt c d -> blt a d.
Proof. apply bytes_ltb_trans. Qed.

Lemma blt_irrefl (a : bytes) : ~ blt a a.
Proof. unfold blt. rewrite bytes_ltb_irrefl. discriminate. Qed.

Lemma not_blt_ble (a c : bytes) : ~ blt a c <-> ble c a.
Proof.
  unfold blt, ble. destruct (bytes_ltb a c); split; intros; congruence.
Qed.

(** ** Little-endian integers *)

Lemma le_int_range (bs : bytes) : 0 <= le_int bs < 256 ^ len bs.
Proof.
  induction bs as [|x bs IH].
  - cbn. lia.
  - cbn [le_int]. unfold len in *. rewrite length_cons, Nat2Z.inj_succ, Z.pow_succ_r by lia.
    pose proof (byte_to_Z_range x). lia.
Qed.

Lemma skipn_slice {A : Type} (l : list A) (n : nat) (w : nat) :
  firstn w (skipn n l) = slice l (Z.of_nat n) (Z.of_nat n + Z.of_nat w).
Proof.
  unfold slice. rewrite Nat2Z.id. f_equal. lia.
Qed.

(** ** IDBFile *)

Lemma le_at_range (data : bytes) (ofs width : Z) :
  0 <= width -> 0 <= le_at data ofs width < 256 ^ width.
Proof.
  intros Hw. unfold le_at.
  pose proof (le_int_range (slice data ofs (ofs + width))) as H.
  pose proof (len_slice_le data ofs (ofs + width)) as Hl.
  pose proof (len_nonneg (slice data ofs (ofs + width))) as Hn.
  split; [lia|].
  apply Z.lt_le_trans with (1 := proj2 H).
  apply Z.pow_le_mono_r; lia.
Qed.

Lemma unpack_from_ok (fmt : list fmtchar) (data : bytes) (ofs : Z) :
  0 <= ofs -> calcsize fmt <= len data - ofs ->
  unpack_from fmt data ofs = Ok (unpack_fields fmt (skipn (Z.to_nat ofs) data)).
Proof.
  intros H1 H2. unfold unpack_from.
  destruct (ofs <? 0) eqn:E1; [lia|]. rewrite E1.
  destruct (len data - ofs <? calcsize fmt) eqn:E2; [lia|]. reflexivity.
Qed.

Lemma unpack_fields_at (c : fmtchar) (fmt : list fmtchar) (data : bytes) (z : Z) :
  0 <= z ->
  unpack_fields (c :: fmt) (skipn (Z.to_nat z) data)
  = le_at data z (fmtsize c)
      :: unpack_fields fmt (skipn (Z.to_nat (z + fmtsize c)) data).
Proof.
  intros Hz. cbn [unpack_fields]. rewrite skipn_skipn. f_equal.
  - unfold le_at, slice. f_equal. f_equal. lia.
  - f_equal. f_equal. destruct c; cbn; lia.
Qed.

(** Decodes the fields of a format one after the other, computing the
    offset of each. *)
Ltac unpack_all :=
  repeat (rewrite unpack_fields_at by lia;
          match goal with
          | |- context [Z.to_nat (?a + fmtsize ?c)] =>
              let v := eval vm_compute in (a + fmtsize c) in
              change (a + fmtsize c) with v
          end);
  cbn [unpack_fields fmtsize].

Lemma header_read (f : File) :
  exists f', IDBFile.header f = (Ok (slice (f_data f) 0 256), f').
Proof.
  unfold IDBFile.header, RawFile.seek, RawFile.read. cbn.
  eexists. reflexivity.
Qed.

(** C8. A header that carries the sentinel [0xAABBCCDD] at offset 26 and
    a [fileversion] (the 16-bit field at offset 30) below 5 decodes to the
    five 32-bit section offsets stored at offsets 6 to 22 followed by the
    32-bit [id2] offset stored at offset 56; the five checksums come from
    offsets 36 to 52, and the [id2] checksum is the 16-bit field at offset
    60 when [fileversion] is 1 and the 32-bit field at offset 60
    otherwise. *)
Theorem header_below_version_5 (f : File) :
  let hdr := slice (f_data f) 0 256 in
  let version := le_at hdr 30 2 in
  IDBFile.valid_magic (slice hdr 0 4) = true ->
  le_at hdr 26 4 = 0xaabbccdd ->
  version < 5 ->
  (if version =? 1 then 62 else 64) <= len hdr ->
  exists idb,
    IDBFile.init f = Ok idb /\
    IDBFile.fileversion idb = version /\
    IDBFile.offsets idb
    = [le_at hdr 6 4; le_at hdr 10 4; le_at hdr 14 4; le_at hdr 18 4; le_at hdr 22 4;
       le_at hdr 56 4] /\
    IDBFile.checksums idb
    = [le_at hdr 36 4; le_at hdr 40 4; le_at hdr 44 4; le_at hdr 48 4; le_at hdr 52 4;
       if version =? 1 then le_at hdr 60 2 else le_at hdr 60 4] /\
    Forall (fun o => 0 <= o < 2 ^ 32) (IDBFile.offsets idb) /\
    0 <= last (IDBFile.checksums idb) 0 < (if version =? 1 then 2 ^ 16 else 2 ^ 32).
Proof.
  intros hdr version Hmagic Hsent Hver Hlen.
  destruct (header_read f) as [f' Hh].
  unfold IDBFile.init. rewrite Hh. fold hdr. cbn [bind].
  rewrite Hmagic. cbn [negb].
  assert (Hl : 62 <= len hdr) by (destruct (version =? 1); lia).
  rewrite unpack_from_ok by (unfold calcsize, fmtsize; lia).
  unpack_all. cbn [bind IDBFile.item nth].
  rewrite Hsent. cbn [Z.eqb Pos.eqb negb].
  fold version. destruct (version <? 5) eqn:E5; [|lia].
  assert (Hpair : forall c, calcsize [fL; c] <= len hdr - 56 ->
            unpack_pair [fL; c] hdr 56
            = Ok (le_at hdr 56 4, le_at hdr 60 (fmtsize c))).
  { intros c Hc. unfold unpack_pair. rewrite unpack_from_ok by (try lia; exact Hc).
    unpack_all. reflexivity. }
  assert (Hr : forall o, 0 <= le_at hdr o 4 < 2 ^ 32).
  { intros o. apply (le_at_range hdr o (width := 4)). lia. }
  destruct (version =? 1) eqn:E1.
  - rewrite Hpair by (unfold calcsize, fmtsize; lia). cbn [bind].
    eexists. split; [reflexivity|].
    cbv [IDBFile.fileversion IDBFile.offsets IDBFile.checksums IDBFile.items slice
         firstn skipn app last Z.to_nat Z.sub Z.add Z.opp Z.pos_sub Pos.to_nat
         Pos.iter_op Nat.add Pos.pred_double Z.succ_double Z.pred_double Z.double].
    split; [reflexivity|]. split; [reflexivity|]. split; [reflexivity|].
    split.
    + repeat (apply Forall_cons; [apply Hr|]). apply Forall_nil.
    + apply (le_at_range hdr 60 (width := 2)). lia.
  - rewrite Hpair by (unfold calcsize, fmtsize; lia). cbn [bind].
    eexists. split; [reflexivity|].
    cbv [IDBFile.fileversion IDBFile.offsets IDBFile.checksums IDBFile.items slice
         firstn skipn app last Z.to_nat Z.sub Z.add Z.opp Z.pos_sub Pos.to_nat
         Pos.iter_op Nat.add Pos.pred_double Z.succ_double Z.pred_double Z.double].
    split; [reflexivity|]. split; [reflexivity|]. split; [reflexivity|].
    split.
    + repeat (apply Forall_cons; [apply Hr|]). apply Forall_nil.
    + apply Hr.
Qed.

Lemma header_below_version_5_witness :
  exists idb,
    IDBFile.init FixtureIDB.header_v1 = Ok idb /\
    IDBFile.fileversion idb = 1 /\
    IDBFile.offsets idb = [0x100; 0x200; 0x300; 0x400; 0x500; 0x600] /\
    IDBFile.checksums idb = [11; 12; 13; 14; 15; 0x1234].
Proof.
  destruct (header_below_version_5 FixtureIDB.header_v1)
    as (idb & Hi & Hv & Ho & Hc & _).
  - vm_compute. reflexivity.
  - vm_compute. reflexivity.
  - vm_compute. reflexivity.
  - vm_compute. discriminate.
  - exists idb. split; [exact Hi|]. split; [exact Hv|]. split; [exact Ho|]. exact Hc.
Defined.

(** ** Decoding of leaf pages *)

Lemma unpack_from_inv (fmt : list fmtchar) (data : bytes) (ofs : Z) (vs : list Z) :
  0 <= ofs -> unpack_from fmt data ofs = Ok vs ->
  vs = unpack_fields fmt (skipn (Z.to_nat ofs) data).
Proof.
  intros Hofs. unfold unpack_from.
  destruct (ofs <? 0) eqn:E1; [lia|]. rewrite E1.
  destruct (len data - ofs <? calcsize fmt); [discriminate|].
  intros E. injection E as <-. reflexivity.
Qed.

Lemma bind_ok {A B : Type} (m : res A) (k : A -> res B) (y : B) :
  bind m k = Ok y -> exists x, m = Ok x /\ k x = Ok y.
Proof.
  destruct m as [x| |]; cbn; try discriminate.
  intros E. exists x. split; [reflexivity|exact E].
Qed.

Lemma le_at_nonneg (data : bytes) (ofs width : Z) : 0 <= le_at data ofs width.
Proof. unfold le_at. apply le_int_range. Qed.

Lemma BaseIndexEntry_init_key (recofs : Z) (data k v : bytes) :
  0 <= recofs ->
  BaseIndexEntry_init recofs data = Ok (k, v) -> k = stored_key data recofs.
Proof.
  intros Hr. unfold BaseIndexEntry_init. intros E.
  apply bind_ok in E. destruct E as (kl & Hkl & E).
  apply unpack_from_inv in Hkl; [|assumption].
  rewrite unpack_fields_at in Hkl by assumption. subst kl. cbn [hd] in E.
  apply bind_ok in E. destruct E as (vl & _ & E).
  injection E as <- _. reflexivity.
Qed.

Lemma LeafEntry_init_at (l : layout) (key data : bytes) (ofs : Z) (e : Entry) :
  0 <= ofs ->
  LeafEntry_init l key data ofs = Ok e ->
  ent_indent e = Ok (indent_at l data ofs) /\
  ent_recofs e = recofs_at l data ofs /\
  ent_key e = slice key 0 (indent_at l data ofs) ++ stored_key data (recofs_at l data ofs).
Proof.
  intros Hofs E.
  unfold indent_at, recofs_at, indent_width.
  unfold LeafEntry_init in E.
  destruct l;
    apply bind_ok in E; destruct E as (fields & Hf & E);
    (apply unpack_from_inv in Hf; [|lia]);
    repeat (rewrite unpack_fields_at in Hf by (cbn [fmtsize]; lia));
    cbn [unpack_fields fmtsize] in Hf;
    subst fields; cbn iota in E;
    apply bind_ok in E; destruct E as ([k v] & Hkv & E);
    unfold BaseLeafEntry_init in Hkv;
    apply bind_ok in Hkv; destruct Hkv as ([k0 v0] & Hb & Hkv);
    injection Hkv as <- <-; injection E as <-;
    cbn [ent_indent ent_recofs ent_key];
    (apply BaseIndexEntry_init_key in Hb;
     [|match goal with |- 0 <= le_at ?d ?a ?w + _ => pose proof (le_at_nonneg d a w); lia
                   | |- 0 <= le_at ?d ?a ?w => apply le_at_nonneg end]);
    subst k0;
    replace (ofs + 1 + 1) with (ofs + 2) by lia;
    replace (ofs + 1 + 1 + 2) with (ofs + 4) by lia;
    replace (ofs + 2 + 2) with (ofs + 4) by lia;
    repeat split; reflexivity.
Qed.

Lemma LeafEntry_init_key (l : layout) (key data : bytes) (i : Z) (e : Entry) :
  0 <= i ->
  LeafEntry_init l key data (entsize l * (1 + i)) = Ok e ->
  ent_indent e = Ok (stored_indent l data i) /\
  ent_recofs e = stored_recofs l data i /\
  ent_key e = slice key 0 (stored_indent l data i) ++ stored_key data (stored_recofs l data i).
Proof.
  intros Hi E. apply LeafEntry_init_at; [|exact E].
  unfold slot. destruct l; cbn [entsize]; lia.
Qed.

Lemma read_entries_leaf (l : layout) (data : bytes) (n : nat) :
  forall (i : Z) (key : bytes) (es : list Entry),
  0 <= i ->
  BasePage.read_entries l false data n i key = Ok es ->
  List.length es = n /\
  forall (j : nat) (e : Entry), nth_error es j = Some e ->
    ent_indent e = Ok (stored_indent l data (i + Z.of_nat j)) /\
    ent_recofs e = stored_recofs l data (i + Z.of_nat j) /\
    ent_key e = slice (previous_key key es j) 0 (stored_indent l data (i + Z.of_nat j))
                ++ stored_key data (stored_recofs l data (i + Z.of_nat j)).
Proof.
  induction n as [|n IH]; intros i key es Hi E; cbn in E.
  - injection E as <-. split; [reflexivity|]. intros [|j] e; discriminate.
  - apply bind_ok in E. destruct E as (ent & Hent & E).
    apply bind_ok in E. destruct E as (rest & Hrest & E).
    injection E as <-.
    apply LeafEntry_init_key in Hent; [|assumption].
    apply IH in Hrest; [|lia]. destruct Hrest as [Hlen Hrest].
    split; [cbn; congruence|].
    intros [|j] e He; cbn in He.
    + injection He as <-. rewrite Z.add_0_r. exact Hent.
    + specialize (Hrest j e He).
      replace (i + Z.of_nat (S j)) with (i + 1 + Z.of_nat j) by lia.
      destruct Hrest as (H1 & H2 & H3). split; [exact H1|]. split; [exact H2|].
      rewrite H3. f_equal. f_equal.
      destruct j as [|j]; reflexivity.
Qed.

(** C4. In every leaf page that decodes, the key of entry [j] is the
    first [indent] bytes of the key of entry [j-1] (of the empty key for
    the first entry) followed by the key bytes stored in the record body
    of entry [j], where [indent] is the indent field of slot [j]; and the
    v1.6 leaf page with the entries (indent 0, [NamedNode]) and (indent 5,
    [Ref]) decodes to the keys [NamedNode] and [NamedRef]. *)
Theorem leaf_key_reconstruction :
  (forall (l : layout) (data : bytes) (pg : Page),
     BasePage.init l data = Ok pg ->
     BasePage.isleaf pg = true ->
     len (index pg) = count pg /\
     forall (j : nat) (e : Entry), nth_error (index pg) j = Some e ->
       ent_indent e = Ok (stored_indent l data (Z.of_nat j)) /\
       ent_key e = slice (previous_key [] (index pg) j) 0 (stored_indent l data (Z.of_nat j))
                   ++ stored_key data (stored_recofs l data (Z.of_nat j))) /\
  (exists pg, BasePage.init Page16 Fixture.page_s5 = Ok pg /\
     BasePage.isleaf pg = true /\
     map (stored_indent Page16 Fixture.page_s5) [0; 1] = [0; 5] /\
     map (fun j => stored_key Fixture.page_s5 (stored_recofs Page16 Fixture.page_s5 j)) [0; 1]
     = [b "NamedNode"; b "Ref"] /\
     map ent_key (index pg) = [b "NamedNode"; b "NamedRef"]).
Proof.
  split.
  - intros l data pg E Hleaf.
    unfold BasePage.init in E.
    apply bind_ok in E. destruct E as ([prec cnt] & Hhdr & E).
    apply bind_ok in E. destruct E as (es & Hes & E).
    apply bind_ok in E. destruct E as ([unk fp] & _ & E).
    injection E as <-. unfold BasePage.isleaf in Hleaf. cbn in Hleaf |- *.
    rewrite Hleaf in Hes. cbn [negb] in Hes.
    assert (Hcnt : 0 <= cnt).
    { unfold unpack_pair in Hhdr.
      apply bind_ok in Hhdr. destruct Hhdr as (vs & Hvs & Hhdr).
      apply unpack_from_inv in Hvs; [|lia].
      destruct l; cbn [entfmt] in Hvs;
        repeat (rewrite unpack_fields_at in Hvs by (cbn [fmtsize]; lia));
        cbn [unpack_fields] in Hvs; subst vs; injection Hhdr as _ <-;
        apply le_at_nonneg. }
    apply read_entries_leaf in Hes; [|lia]. destruct Hes as [Hlen Hes].
    split; [unfold len; lia|].
    intros j e He. specialize (Hes j e He). rewrite Z.add_0_l in Hes.
    destruct Hes as (H1 & _ & H3). split; assumption.
  - eexists. split; [vm_compute; reflexivity|].
    repeat split; vm_compute; reflexivity.
Qed.

Lemma leaf_key_reconstruction_witness :
  exists e,
    nth_error [LeafEntry 0 0 0 25 (b "NamedNode") (b "x");
               LeafEntry 5 0 0 40 (b "NamedRef") (b "y")] 1 = Some e /\
    ent_indent e = Ok (stored_indent Page16 Fixture.page_s5 1) /\
    ent_key e = slice (b "NamedNode") 0 (stored_indent Page16 Fixture.page_s5 1)
                ++ stored_key Fixture.page_s5 (stored_recofs Page16 Fixture.page_s5 1).
Proof.
  eexists. split; [reflexivity|].
  refine (proj2 (proj1 leaf_key_reconstruction Page16 Fixture.page_s5
            (mkPage 0 2 [LeafEntry 0 0 0 25 (b "NamedNode") (b "x");
                         LeafEntry 5 0 0 40 (b "NamedRef") (b "y")] 0 0)
            _ _) 1%nat _ _).
  - vm_compute. reflexivity.
  - reflexivity.
  - reflexivity.
Defined.

(** ** binary_search *)

Lemma getitem_ok {A : Type} (l : list A) (i : Z) (d : A) :
  0 <= i < len l -> getitem l i = Ok (nth (Z.to_nat i) l d).
Proof.
  intros Hi. unfold getitem. destruct (i <? 0) eqn:E; [lia|].
  rewrite (nth_error_nth' l d); [reflexivity|]. unfold len in Hi. lia.
Qed.

Lemma ascending_le (a : list Entry) (i j : Z) :
  ascending a -> 0 <= i -> i <= j -> j < len a -> ble (key_at a i) (key_at a j).
Proof.
  intros Ha Hi Hij Hj. apply ble_lt_or_eq.
  destruct (Z.eq_dec i j) as [->|Hn]; [right; reflexivity|left].
  apply Ha; lia.
Qed.

Lemma binary_search_loop_spec (a : list Entry) (k : bytes) (fuel : nat) :
  forall first last,
  0 <= first <= last -> last <= len a -> last - first <= Z.of_nat fuel ->
  exists i, binary_search_loop fuel a k first last = Ok i /\
    first - 1 <= i < last /\
    (ascending a ->
     (forall j, 0 <= j < first -> ble (key_at a j) k) ->
     (forall j, last <= j < len a -> blt k (key_at a j)) ->
     floor_index a k i).
Proof.
  induction fuel as [|fuel IH]; intros first last Hfl Hl Hfuel.
  - assert (first = last) by lia. subst last.
    exists (first - 1). cbn. rewrite Z.ltb_irrefl.
    split; [reflexivity|]. split; [lia|].
    intros _ H1 H2. split; [lia|]. split; intros j Hj; [apply H1|apply H2]; lia.
  - cbn [binary_search_loop]. destruct (first <? last) eqn:E.
    + apply Z.ltb_lt in E.
      set (mid := Z.shiftr (first + last) 1).
      assert (Hmid : first <= mid < last).
      { unfold mid. rewrite Z.shiftr_div_pow2 by lia. change (2 ^ 1) with 2.
        split; [apply Z.div_le_lower_bound|apply Z.div_lt_upper_bound]; lia. }
      rewrite (getitem_ok a no_entry) by lia. cbn [bind].
      fold (entry_at a mid). fold (key_at a mid).
      destruct (bytes_ltb k (key_at a mid)) eqn:Ek.
      * destruct (IH first mid) as (i & Hi & Hr & Hs); try lia.
        exists i. split; [exact Hi|]. split; [lia|].
        intros Ha H1 H2. apply Hs; try assumption.
        intros j Hj. destruct (Z.eq_dec j mid) as [->|Hn]; [exact Ek|].
        destruct (Z_lt_dec j last) as [Hlt|Hge].
        -- apply blt_trans with (key_at a mid); [exact Ek|]. apply Ha; lia.
        -- apply H2. lia.
      * destruct (IH (mid + 1) last) as (i & Hi & Hr & Hs); try lia.
        exists i. split; [exact Hi|]. split; [lia|].
        intros Ha H1 H2. apply Hs; try assumption.
        intros j Hj. destruct (Z_lt_dec j first) as [Hlt|Hge]; [apply H1; lia|].
        apply ble_lt_or_eq.
        assert (Hle : ble (key_at a j) (key_at a mid)) by (apply ascending_le; try assumption; lia).
        apply ble_lt_or_eq in Hle. destruct Hle as [Hlt| ->].
        -- left. apply blt_le_trans with (key_at a mid); [exact Hlt|exact Ek].
        -- apply ble_lt_or_eq. exact Ek.
    + apply Z.ltb_ge in E. assert (first = last) by lia. subst last.
      exists (first - 1). split; [reflexivity|]. split; [lia|].
      intros _ H1 H2. split; [lia|]. split; intros j Hj; [apply H1|apply H2]; lia.
Qed.

(** [binary_search] always returns, with an index between [-1] and the
    last one; on ascending keys it returns the floor index of [k]. *)
Lemma binary_search_spec (a : list Entry) (k : bytes) :
  exists i, binary_search a k = Ok i /\ -1 <= i < len a /\
    (ascending a -> floor_index a k i).
Proof.
  unfold binary_search.
  pose proof (len_nonneg a) as Hn.
  destruct (binary_search_loop_spec a k (List.length a) (first := 0) (last := len a))
    as (i & Hi & Hr & Hs); try lia.
  { unfold len. lia. }
  exists i. split; [exact Hi|]. split; [lia|].
  intros Ha. apply Hs; [exact Ha| |]; intros j Hj; lia.
Qed.

(** The cases of [TestBinarySearch]. *)
Example test_bs :
  map (bs (map obj [2; 3; 5; 6])) [1; 2; 3; 4; 5; 6; 7]
  = map Ok [-1; 0; 1; 1; 2; 3; 3].
Proof. vm_compute. reflexivity. Qed.

Example test_emptylist : bs [] 1 = Ok (-1).
Proof. reflexivity. Qed.

Example test_oneelem : map (bs [obj 1]) [0; 1; 2] = map Ok [-1; 0; 0].
Proof. vm_compute. reflexivity. Qed.

Example test_twoelem :
  map (bs [obj 1; obj 3]) [0; 1; 2; 3; 4] = map Ok [-1; 0; 0; 1; 1].
Proof. vm_compute. reflexivity. Qed.

Example test_listsize :
  forallb (fun l =>
    let lst := map (fun i => obj (i + 1)) (zrange 0 (Z.to_nat l)) in
    let lst := firstn 1 lst ++ skipn 2 lst in
    match map (bs lst) [0; 1; 2; 3; l - 1; l; l + 1; l + 2] with
    | [Ok a0; Ok a1; Ok a2; Ok a3; Ok a4; Ok a5; Ok a6; Ok a7] =>
        (a0 =? -1) && (a1 =? 0) && (a2 =? 0) && (a3 =? 1)
        && (a4 =? l - 3) && (a5 =? l - 2) && (a6 =? l - 2) && (a7 =? l - 2)
    | _ => false
    end) (zrange 3 29) = true.
Proof. vm_compute. reflexivity. Qed.

(** ** The handle of a tree

    [readpage] starts with an absolute [seek]: the page it returns depends
    on the bytes the handle gives access to, not on the position the
    handle was left at, for a plain file as for a [FileSection]. *)

Lemma readpage_file_position (db : BTree.t File) (pos nr : Z) :
  BTree.readpage (with_fh db (mkFile (f_data (BTree.fh db)) pos)) nr
  = BTree.readpage db nr.
Proof.
  unfold BTree.readpage, with_fh. cbn [BTree.fh BTree.pagesize BTree.page].
  cbn [fl_seek fl_read File_FileLike]. unfold RawFile.seek. cbn [Z.eqb].
  destruct (nr * BTree.pagesize db <? 0); reflexivity.
Qed.

Lemma readpage_section_position (db : BTree.t FileSection.t) (pos curpos nr : Z) :
  let w := BTree.fh db in
  BTree.readpage
    (with_fh db (FileSection.mk (mkFile (f_data (FileSection.fh w)) pos)
                   (FileSection.start w) (FileSection.end_ w) curpos)) nr
  = BTree.readpage db nr.
Proof.
  intros w. unfold BTree.readpage, with_fh. cbn [BTree.fh BTree.pagesize BTree.page].
  fold w. cbn [fl_seek fl_read FileSection_FileLike].
  unfold FileSection.seek, FileSection.isvalidpos. cbn [Z.eqb FileSection.start FileSection.end_].
  destruct ((0 <=? nr * BTree.pagesize db)
            && (nr * BTree.pagesize db <=? FileSection.end_ w - FileSection.start w));
    cbn [negb]; [|reflexivity].
  unfold FileSection.reposition, FileSection.set_curpos, RawFile.seek.
  cbn [FileSection.fh FileSection.start FileSection.end_ FileSection.curpos Z.eqb f_data].
  destruct (nr * BTree.pagesize db + FileSection.start w <? 0); reflexivity.
Qed.

(** ** Pages as they come out of [readpage] *)

Lemma IndexEntry_init_kind (l : layout) (key data : bytes) (ofs : Z) (e : Entry) :
  IndexEntry_init l key data ofs = Ok e -> exists p, ent_page e = Ok p.
Proof.
  unfold IndexEntry_init. intros E.
  destruct l; apply bind_ok in E; destruct E as (fields & _ & E);
    destruct fields as [|p [|r [|? ?]]]; try discriminate;
    apply bind_ok in E; destruct E as ([k v] & _ & E);
    injection E as <-; exists p; reflexivity.
Qed.

Lemma read_entries_index (l : layout) (data : bytes) (n : nat) :
  forall (i : Z) (key : bytes) (es : list Entry),
  BasePage.read_entries l true data n i key = Ok es ->
  Forall (fun e => exists p, ent_page e = Ok p) es.
Proof.
  induction n as [|n IH]; intros i key es E; cbn in E.
  - injection E as <-. constructor.
  - apply bind_ok in E. destruct E as (ent & Hent & E).
    apply bind_ok in E. destruct E as (rest & Hrest & E).
    injection E as <-. constructor.
    + exact (IndexEntry_init_kind _ _ _ _ Hent).
    + exact (IH _ _ _ Hrest).
Qed.

(** Every entry of a decoded index page carries a child page. *)
Lemma init_index_entries (l : layout) (data : bytes) (pg : Page) :
  BasePage.init l data = Ok pg -> BasePage.isindex pg = true ->
  Forall (fun e => exists p, ent_page e = Ok p) (index pg).
Proof.
  unfold BasePage.init. intros E Hidx.
  apply bind_ok in E. destruct E as ([prec cnt] & _ & E).
  apply bind_ok in E. destruct E as (es & Hes & E).
  apply bind_ok in E. destruct E as ([unk fp] & _ & E).
  injection E as <-. unfold BasePage.isindex in Hidx. cbn in Hidx |- *.
  rewrite Hidx in Hes. exact (read_entries_index _ _ _ _ _ Hes).
Qed.

(** ** The tree below a page *)

(** Equal lists up to the bracketing of [++]. *)
Ltac list_assoc :=
  repeat (rewrite <- ?app_assoc; rewrite <- ?app_comm_cons); reflexivity.

Unset Implicit Arguments.

Section Tree.
Context {F : Type} `{FileLike F}.
Variable db : BTree.t F.

Lemma readpage_init (nr : Z) (pg : Page) :
  BTree.readpage db nr = Ok pg ->
  exists data, BasePage.init (BTree.page db) data = Ok pg.
Proof.
  unfold BTree.readpage.
  destruct (fl_seek (BTree.fh db) (nr * BTree.pagesize db) []) as [r f1].
  destruct r as [[]| |]; cbn [bind]; try discriminate.
  destruct (fl_read f1 (BTree.pagesize db)) as [r f2].
  destruct r as [data| |]; cbn [bind]; try discriminate.
  intros E. exists data. exact E.
Qed.

Lemma entry_at_in (a : list Entry) (i : Z) :
  0 <= i < len a -> In (entry_at a i) a.
Proof.
  intros Hi. unfold entry_at. apply nth_In. unfold len in Hi. lia.
Qed.

Lemma index_at_ok (pg : Page) (i : Z) :
  0 <= i < len (index pg) ->
  BasePage.index_at pg i = Ok (entry_at (index pg) i).
Proof.
  intros Hi. unfold BasePage.index_at.
  destruct (i <? 0) eqn:E; [lia|].
  apply getitem_ok. exact Hi.
Qed.

(** On a page that was read, [getpage] gives the page below each
    position. *)
Lemma getpage_child (nr : Z) (pg : Page) (i : Z) :
  BTree.readpage db nr = Ok pg -> BasePage.isindex pg = true ->
  -1 <= i < len (index pg) ->
  BasePage.getpage pg i = Ok (child pg i).
Proof.
  intros Hr Hidx Hi. unfold BasePage.getpage, child.
  destruct (i <? 0) eqn:E; [reflexivity|].
  rewrite index_at_ok by lia. cbn [bind].
  destruct (readpage_init nr pg Hr) as [data Hd].
  pose proof (init_index_entries _ _ Hd Hidx) as Hall.
  rewrite Forall_forall in Hall.
  destruct (Hall (entry_at (index pg) i)) as [p Hp]; [apply entry_at_in; lia|].
  rewrite Hp. destruct (entry_at (index pg) i); [|discriminate].
  cbn in Hp. injection Hp as <-. reflexivity.
Qed.

Lemma isleaf_isindex (pg : Page) : BasePage.isindex pg = negb (BasePage.isleaf pg).
Proof. reflexivity. Qed.

(** *** Lists of positions *)

Lemma zrange_length (i : Z) (n : nat) : List.length (zrange i n) = n.
Proof. revert i. induction n as [|n IH]; intros i; cbn; [reflexivity|]. rewrite IH. reflexivity. Qed.

Lemma zrange_snoc (i : Z) (n : nat) :
  zrange i (S n) = zrange i n ++ [i + Z.of_nat n].
Proof.
  revert i. induction n as [|n IH]; intros i.
  - cbn. rewrite Z.add_0_r. reflexivity.
  - change (zrange i (S (S n))) with (i :: zrange (i + 1) (S n)).
    rewrite IH. replace (i + Z.of_nat (S n)) with (i + 1 + Z.of_nat n) by lia.
    reflexivity.
Qed.

Lemma in_zrange (i : Z) (n : nat) (j : Z) :
  In j (zrange i n) <-> i <= j < i + Z.of_nat n.
Proof.
  revert i. induction n as [|n IH]; intros i; cbn [zrange In].
  - lia.
  - rewrite IH. lia.
Qed.

Lemma linked_app (step : Cursor -> res Cursor) (l1 l2 : list Cursor) (z : Cursor) :
  linked step (l1 ++ l2) z <-> linked step l1 (hd z l2) /\ linked step l2 z.
Proof.
  induction l1 as [|x l1 IH]; cbn [app linked].
  - tauto.
  - rewrite IH. destruct l1 as [|y l1]; cbn [app hd]; tauto.
Qed.

Lemma hd_app {A : Type} (l1 l2 : list A) (d : A) :
  l1 <> [] -> hd d (l1 ++ l2) = hd d l1.
Proof. destruct l1; [contradiction|reflexivity]. Qed.

Lemma hd_default {A : Type} (l : list A) (d d' : A) :
  l <> [] -> hd d l = hd d' l.
Proof. destruct l; [contradiction|reflexivity]. Qed.

Lemma hd_rev {A : Type} (l : list A) (d : A) : hd d (rev l) = last l d.
Proof.
  destruct l as [|x l] using rev_ind; [reflexivity|].
  rewrite rev_app_distr, last_last. reflexivity.
Qed.

Lemma last_app_ne {A : Type} (l1 l2 : list A) (d : A) :
  l2 <> [] -> last (l1 ++ l2) d = last l2 d.
Proof.
  intros Hne. destruct l2 as [|x l2] using rev_ind; [contradiction|].
  rewrite app_assoc, !last_last. reflexivity.
Qed.

(** *** Resuming after a subtree *)

Lemma after_step (pg : Page) (i : Z) (ctx : Cursor) :
  i + 1 < len (index pg) -> after ((pg, i) :: ctx) = (pg, i + 1) :: ctx.
Proof.
  intros Hi. unfold after. destruct ctx as [|[pg' i'] ctx]; cbn [BTree.Cursor.next_ascend].
  - destruct (i + 1 <? len (index pg)) eqn:E; [reflexivity|lia].
  - destruct (i + 1 =? len (index pg)) eqn:E; [lia|].
    destruct (i + 1 <? len (index pg)) eqn:E'; [reflexivity|lia].
Qed.

Lemma after_last (pg : Page) (i : Z) (ctx : Cursor) :
  i + 1 = len (index pg) -> after ((pg, i) :: ctx) = after ctx.
Proof.
  intros Hi. unfold after. destruct ctx as [|[pg' i'] ctx]; cbn [BTree.Cursor.next_ascend].
  - destruct (i + 1 <? len (index pg)) eqn:E; [lia|reflexivity].
  - destruct (i + 1 =? len (index pg)) eqn:E; [reflexivity|lia].
Qed.

Lemma before_nonneg (pg : Page) (i : Z) (ctx : Cursor) :
  0 <= i -> before ((pg, i) :: ctx) = (pg, i) :: ctx.
Proof.
  intros Hi. unfold before. destruct ctx as [|[pg' i'] ctx]; cbn [BTree.Cursor.prev_ascend].
  - destruct (i >=? 0) eqn:E; [reflexivity|lia].
  - destruct (i <? 0) eqn:E; [lia|].
    destruct (i >=? 0) eqn:E'; [reflexivity|lia].
Qed.

Lemma before_neg (pg : Page) (i : Z) (ctx : Cursor) :
  i < 0 -> before ((pg, i) :: ctx) = before ctx.
Proof.
  intros Hi. unfold before. destruct ctx as [|[pg' i'] ctx]; cbn [BTree.Cursor.prev_ascend].
  - destruct (i >=? 0) eqn:E; [lia|reflexivity].
  - destruct (i <? 0) eqn:E; [reflexivity|lia].
Qed.

(** [next] and [prev] on a frame of a leaf page. *)
Lemma next_leaf (fuel : nat) (pg : Page) (i : Z) (ctx : Cursor) :
  BasePage.isleaf pg = true ->
  BTree.Cursor.next db fuel ((pg, i) :: ctx) = Ok (after ((pg, i) :: ctx)).
Proof.
  intros Hl. unfold BTree.Cursor.next, after. rewrite Hl.
  destruct (BTree.Cursor.next_ascend ctx pg (i + 1)) as [[stack page] ix].
  destruct (ix <? len (index page)); reflexivity.
Qed.

Lemma prev_leaf (fuel : nat) (pg : Page) (i : Z) (ctx : Cursor) :
  BasePage.isleaf pg = true ->
  BTree.Cursor.prev db fuel ((pg, i) :: ctx) = Ok (before ((pg, i - 1) :: ctx)).
Proof.
  intros Hl. unfold BTree.Cursor.prev, before. rewrite Hl.
  destruct (BTree.Cursor.prev_ascend ctx pg (i - 1)) as [[stack page] ix].
  destruct (ix >=? 0); reflexivity.
Qed.

(** *** Unfolding the definitions *)

Lemma shape_eq (h : nat) (nr : Z) :
  shape db h nr =
  match BTree.readpage db nr with
  | Ok pg =>
      if BasePage.isleaf pg then index pg <> []
      else match h with
           | O => False
           | S h' =>
               shape db h' (preceeding pg) /\
               forall i, 0 <= i < len (index pg) -> shape db h' (child pg i)
           end
  | _ => False
  end.
Proof. destruct h; reflexivity. Qed.

Lemma positions_eq (h : nat) (nr : Z) (ctx : Cursor) :
  positions db h nr ctx =
  match BTree.readpage db nr with
  | Ok pg =>
      if BasePage.isleaf pg then
        map (fun i => (pg, i) :: ctx) (zrange 0 (List.length (index pg)))
      else match h with
           | O => []
           | S h' =>
               positions db h' (preceeding pg) ((pg, -1) :: ctx)
               ++ flat_map (fun i => ((pg, i) :: ctx)
                                       :: positions db h' (child pg i) ((pg, i) :: ctx))
                    (zrange 0 (List.length (index pg)))
           end
  | _ => []
  end.
Proof. destruct h; reflexivity. Qed.

Lemma next_descend_eq (fuel : nat) (stack : Cursor) (page : Page) :
  BTree.Cursor.next_descend db fuel stack page =
  if BasePage.isindex page then
    match fuel with
    | O => OutOfFuel
    | S fuel' =>
        nr <- BasePage.getpage page (-1) ;;
        page' <- BTree.readpage db nr ;;
        BTree.Cursor.next_descend db fuel' ((page, -1) :: stack) page'
    end
  else Ok (stack, page).
Proof. destruct fuel; reflexivity. Qed.

Lemma prev_descend_eq (fuel : nat) (stack : Cursor) (page : Page) (ix : Z) :
  BTree.Cursor.prev_descend db fuel stack page ix =
  if BasePage.isindex page then
    match fuel with
    | O => OutOfFuel
    | S fuel' =>
        nr <- BasePage.getpage page ix ;;
        page' <- BTree.readpage db nr ;;
        BTree.Cursor.prev_descend db fuel' ((page', len (index page') - 1) :: stack) page'
          (len (index page') - 1)
    end
  else Ok stack.
Proof. destruct fuel; reflexivity. Qed.

Lemma shape_readpage (h : nat) (nr : Z) :
  shape db h nr -> exists pg, BTree.readpage db nr = Ok pg.
Proof.
  rewrite shape_eq. destruct (BTree.readpage db nr) as [pg| |]; try contradiction.
  intros _. exists pg. reflexivity.
Qed.

(** The trees below the positions of an index page. *)
Lemma shape_child (h : nat) (nr : Z) (pg : Page) (i : Z) :
  shape db (S h) nr -> BTree.readpage db nr = Ok pg -> BasePage.isleaf pg = false ->
  -1 <= i < len (index pg) -> shape db h (child pg i).
Proof.
  intros Hs Hr Hl Hi. rewrite shape_eq, Hr, Hl in Hs. destruct Hs as [Hp Hc].
  destruct (Z.eq_dec i (-1)) as [->|Hn]; [exact Hp|].
  apply Hc. lia.
Qed.

Lemma shape_index_height (nr : Z) (pg : Page) :
  shape db 0 nr -> BTree.readpage db nr = Ok pg -> BasePage.isleaf pg = true.
Proof.
  intros Hs Hr. rewrite shape_eq, Hr in Hs.
  destruct (BasePage.isleaf pg); [reflexivity|contradiction].
Qed.

Lemma shape_leaf_nonempty (h : nat) (nr : Z) (pg : Page) :
  shape db h nr -> BTree.readpage db nr = Ok pg -> BasePage.isleaf pg = true ->
  0 < len (index pg).
Proof.
  intros Hs Hr Hl. rewrite shape_eq, Hr, Hl in Hs.
  unfold len. destruct (index pg); [contradiction|cbn; lia].
Qed.

Lemma positions_leaf (h : nat) (nr : Z) (pg : Page) (ctx : Cursor) :
  BTree.readpage db nr = Ok pg -> BasePage.isleaf pg = true ->
  positions db h nr ctx = map (fun i => (pg, i) :: ctx) (zrange 0 (List.length (index pg))).
Proof. intros Hr Hl. rewrite positions_eq, Hr, Hl. reflexivity. Qed.

Lemma positions_index (h : nat) (nr : Z) (pg : Page) (ctx : Cursor) :
  BTree.readpage db nr = Ok pg -> BasePage.isleaf pg = false ->
  positions db (S h) nr ctx =
  positions db h (child pg (-1)) ((pg, -1) :: ctx)
  ++ flat_map (fun i => ((pg, i) :: ctx) :: positions db h (child pg i) ((pg, i) :: ctx))
       (zrange 0 (List.length (index pg))).
Proof. intros Hr Hl. rewrite positions_eq, Hr, Hl. reflexivity. Qed.

Lemma positions_nonempty (h : nat) :
  forall nr ctx, shape db h nr -> positions db h nr ctx <> [].
Proof.
  induction h as [|h IH]; intros nr ctx Hs;
    destruct (shape_readpage _ _ Hs) as [pg Hr];
    destruct (BasePage.isleaf pg) eqn:Hl.
  - pose proof (shape_leaf_nonempty _ _ _ Hs Hr Hl) as Hn.
    rewrite (positions_leaf _ _ _ _ Hr Hl). unfold len in Hn.
    destruct (index pg); cbn in *; [lia|discriminate].
  - pose proof (shape_index_height _ _ Hs Hr). congruence.
  - pose proof (shape_leaf_nonempty _ _ _ Hs Hr Hl) as Hn.
    rewrite (positions_leaf _ _ _ _ Hr Hl). unfold len in Hn.
    destruct (index pg); cbn in *; [lia|discriminate].
  - rewrite (positions_index _ _ _ _ Hr Hl).
    assert (Hc : shape db h (child pg (-1))).
    { apply (shape_child h nr); try assumption. pose proof (len_nonneg (index pg)). lia. }
    specialize (IH _ ((pg, -1) :: ctx) Hc).
    destruct (positions db h (child pg (-1)) ((pg, -1) :: ctx)); [contradiction|discriminate].
Qed.

(** *** The leftmost and the rightmost record below a page *)

Lemma leftmost (h : nat) :
  forall nr ctx pg fuel,
  shape db h nr -> BTree.readpage db nr = Ok pg -> (h <= fuel)%nat ->
  exists stack leaf,
    BTree.Cursor.next_descend db fuel ctx pg = Ok (stack, leaf) /\
    hd [] (positions db h nr ctx) = (leaf, 0) :: stack.
Proof.
  induction h as [|h IH]; intros nr ctx pg fuel Hs Hr Hfuel;
    destruct (BasePage.isleaf pg) eqn:Hl;
    try (pose proof (shape_index_height _ _ Hs Hr); congruence).
  1, 2: rewrite next_descend_eq, isleaf_isindex, Hl; cbn [negb];
        exists ctx, pg; split; [reflexivity|];
        pose proof (shape_leaf_nonempty _ _ _ Hs Hr Hl) as Hn;
        rewrite (positions_leaf _ _ _ _ Hr Hl); unfold len in Hn;
        destruct (index pg); cbn in *; [lia|reflexivity].
  destruct fuel as [|fuel]; [lia|].
  assert (Hc : shape db h (child pg (-1))).
  { apply (shape_child h nr); try assumption. pose proof (len_nonneg (index pg)). lia. }
  destruct (shape_readpage _ _ Hc) as [pg' Hr'].
  destruct (IH _ ((pg, -1) :: ctx) pg' fuel Hc Hr') as (stack & leaf & Hd & Hhd); [lia|].
  exists stack, leaf. split.
  - rewrite next_descend_eq, isleaf_isindex, Hl. cbn [negb BasePage.getpage Z.ltb Z.compare bind].
    change (preceeding pg) with (child pg (-1)). rewrite Hr'. cbn [bind]. exact Hd.
  - rewrite (positions_index _ _ _ _ Hr Hl), hd_app; [exact Hhd|].
    apply positions_nonempty. exact Hc.
Qed.

Lemma rightmost (h : nat) :
  forall nr ctx pg fuel,
  shape db h nr -> BTree.readpage db nr = Ok pg -> (h <= fuel)%nat ->
  BTree.Cursor.prev_descend db fuel ((pg, len (index pg) - 1) :: ctx) pg (len (index pg) - 1)
  = Ok (last (positions db h nr ctx) []).
Proof.
  induction h as [|h IH]; intros nr ctx pg fuel Hs Hr Hfuel;
    destruct (BasePage.isleaf pg) eqn:Hl;
    try (pose proof (shape_index_height _ _ Hs Hr); congruence).
  1, 2: rewrite prev_descend_eq, isleaf_isindex, Hl; cbn [negb];
        pose proof (shape_leaf_nonempty _ _ _ Hs Hr Hl) as Hn;
        rewrite (positions_leaf _ _ _ _ Hr Hl); unfold len in *;
        destruct (List.length (index pg)) as [|m]; [lia|];
        rewrite zrange_snoc, map_app; cbn [map]; rewrite last_last;
        do 3 f_equal; lia.
  destruct fuel as [|fuel]; [lia|].
  pose proof (len_nonneg (index pg)) as Hn.
  assert (Hc : shape db h (child pg (len (index pg) - 1))).
  { apply (shape_child h nr); try assumption. lia. }
  destruct (shape_readpage _ _ Hc) as [pg' Hr'].
  rewrite prev_descend_eq, isleaf_isindex, Hl. cbn [negb].
  rewrite (getpage_child nr) by (try assumption; try lia; rewrite isleaf_isindex, Hl; reflexivity).
  cbn [bind]. rewrite Hr'. cbn [bind].
  rewrite (IH _ ((pg, len (index pg) - 1) :: ctx) pg' fuel Hc Hr') by lia.
  f_equal. rewrite (positions_index _ _ _ _ Hr Hl).
  unfold len in *. destruct (List.length (index pg)) as [|m].
  - cbn [zrange flat_map]. rewrite app_nil_r. reflexivity.
  - rewrite zrange_snoc, flat_map_app. cbn [flat_map]. rewrite app_nil_r.
    replace (Z.of_nat (S m) - 1) with (0 + Z.of_nat m) by lia.
    rewrite app_assoc, last_app_ne by discriminate.
    match goal with |- _ = last (?x :: ?l) _ => change (x :: l) with ([x] ++ l) end.
    rewrite last_app_ne; [reflexivity|].
    apply positions_nonempty.
    replace (0 + Z.of_nat m) with (Z.of_nat (S m) - 1) by lia. exact Hc.
Qed.

(** *** [next] and [prev] along the positions *)

Lemma next_index (h : nat) (nr : Z) (pg : Page) (i : Z) (ctx : Cursor) (fuel : nat) :
  shape db (S h) nr -> BTree.readpage db nr = Ok pg -> BasePage.isleaf pg = false ->
  -1 <= i < len (index pg) -> (h <= fuel)%nat ->
  BTree.Cursor.next db fuel ((pg, i) :: ctx)
  = Ok (hd [] (positions db h (child pg i) ((pg, i) :: ctx))).
Proof.
  intros Hs Hr Hl Hi Hfuel.
  assert (Hc : shape db h (child pg i)) by (apply (shape_child h nr); assumption).
  destruct (shape_readpage _ _ Hc) as [pg' Hr'].
  destruct (leftmost h _ ((pg, i) :: ctx) pg' fuel Hc Hr' Hfuel) as (stack & leaf & Hd & Hhd).
  unfold BTree.Cursor.next. rewrite Hl.
  rewrite (getpage_child nr) by (try assumption; rewrite isleaf_isindex, Hl; reflexivity).
  cbn [bind]. rewrite Hr'. cbn [bind]. rewrite Hd. cbn [bind].
  rewrite Hhd. reflexivity.
Qed.

Lemma prev_index (h : nat) (nr : Z) (pg : Page) (i : Z) (ctx : Cursor) (fuel : nat) :
  shape db (S h) nr -> BTree.readpage db nr = Ok pg -> BasePage.isleaf pg = false ->
  0 <= i < len (index pg) -> (S h <= fuel)%nat ->
  BTree.Cursor.prev db fuel ((pg, i) :: ctx)
  = Ok (last (positions db h (child pg (i - 1)) ((pg, i - 1) :: ctx)) []).
Proof.
  intros Hs Hr Hl Hi Hfuel.
  assert (Hc : shape db h (child pg (i - 1))) by (apply (shape_child h nr); try assumption; lia).
  destruct (shape_readpage _ _ Hc) as [pg' Hr'].
  destruct fuel as [|fuel]; [lia|].
  unfold BTree.Cursor.prev. rewrite Hl.
  rewrite prev_descend_eq, isleaf_isindex, Hl. cbn [negb].
  rewrite (getpage_child nr) by (try assumption; try lia; rewrite isleaf_isindex, Hl; reflexivity).
  cbn [bind]. rewrite Hr'. cbn [bind].
  apply (rightmost h); [assumption|assumption|lia].
Qed.

Lemma linked_next_leaf (pg : Page) (ctx : Cursor) (fuel : nat) :
  BasePage.isleaf pg = true ->
  forall (m : nat) (i : Z), i + Z.of_nat m = len (index pg) ->
  linked (BTree.Cursor.next db fuel) (map (fun i => (pg, i) :: ctx) (zrange i m)) (after ctx).
Proof.
  intros Hl. induction m as [|m IH]; intros i Hi; cbn [zrange map linked]; [exact I|].
  split; [|apply IH; lia].
  rewrite next_leaf by assumption. f_equal.
  destruct m as [|m]; cbn [zrange map hd].
  - apply after_last. lia.
  - apply after_step. lia.
Qed.

Lemma linked_prev_leaf (pg : Page) (ctx : Cursor) (fuel : nat) :
  BasePage.isleaf pg = true ->
  forall (m : nat),
  linked (BTree.Cursor.prev db fuel) (rev (map (fun i => (pg, i) :: ctx) (zrange 0 m))) (before ctx).
Proof.
  intros Hl. induction m as [|m IH]; [exact I|].
  rewrite zrange_snoc, map_app, rev_app_distr. cbn [map rev app linked].
  split; [|exact IH].
  rewrite prev_leaf by assumption. f_equal.
  destruct m as [|m].
  - cbn [zrange map rev hd]. apply before_neg. lia.
  - rewrite zrange_snoc, map_app, rev_app_distr. cbn [map rev app hd].
    rewrite before_nonneg by lia. do 2 f_equal. lia.
Qed.

Lemma linked_next (h : nat) :
  forall nr ctx fuel,
  shape db h nr -> (h <= fuel)%nat ->
  linked (BTree.Cursor.next db fuel) (positions db h nr ctx) (after ctx).
Proof.
  induction h as [|h IH]; intros nr ctx fuel Hs Hfuel;
    destruct (shape_readpage _ _ Hs) as [pg Hr];
    destruct (BasePage.isleaf pg) eqn:Hl;
    try (pose proof (shape_index_height _ _ Hs Hr); congruence).
  1, 2: rewrite (positions_leaf _ _ _ _ Hr Hl);
        apply linked_next_leaf; [assumption|unfold len; lia].
  rewrite (positions_index _ _ _ _ Hr Hl).
  pose proof (len_nonneg (index pg)) as Hn.
  set (g := fun i => ((pg, i) :: ctx) :: positions db h (child pg i) ((pg, i) :: ctx)).
  assert (Hrest : forall (m : nat) (i : Z), 0 <= i -> i + Z.of_nat m = len (index pg) ->
            linked (BTree.Cursor.next db fuel) (flat_map g (zrange i m)) (after ctx)).
  { induction m as [|m IHm]; intros i Hi0 Hi; cbn [zrange flat_map]; [exact I|].
    assert (Hc : shape db h (child pg i)) by (apply (shape_child h nr); try assumption; lia).
    unfold g at 1. cbn [app linked]. split.
    - rewrite (next_index h nr) by (try assumption; lia).
      rewrite hd_app by (apply positions_nonempty; exact Hc).
      f_equal. apply hd_default. apply positions_nonempty. exact Hc.
    - apply linked_app. split; [|apply IHm; lia].
      destruct m as [|m]; cbn [zrange flat_map hd].
      + rewrite <- (after_last pg i ctx) by lia. apply IH; [exact Hc|lia].
      + unfold g at 1. cbn [app hd].
        rewrite <- (after_step pg i ctx) by lia. apply IH; [exact Hc|lia]. }
  apply linked_app. split; [|apply Hrest; unfold len; lia].
  assert (Hc : shape db h (child pg (-1))) by (apply (shape_child h nr); try assumption; lia).
  unfold len in *. destruct (List.length (index pg)) as [|m] eqn:En; cbn [zrange flat_map hd].
  - rewrite <- (after_last pg (-1) ctx) by (unfold len; lia). apply IH; [exact Hc|lia].
  - unfold g at 1. cbn [app hd].
    replace ((pg, 0) :: ctx) with (after ((pg, -1) :: ctx))
      by (rewrite after_step by (unfold len; lia); reflexivity).
    apply IH; [exact Hc|lia].
Qed.

Lemma last_default {A : Type} (l : list A) (d d' : A) :
  l <> [] -> last l d = last l d'.
Proof.
  intros Hne. destruct l as [|x l] using rev_ind; [contradiction|].
  rewrite !last_last. reflexivity.
Qed.

Lemma linked_prev (h : nat) :
  forall nr ctx fuel,
  shape db h nr -> (h <= fuel)%nat ->
  linked (BTree.Cursor.prev db fuel) (rev (positions db h nr ctx)) (before ctx).
Proof.
  induction h as [|h IH]; intros nr ctx fuel Hs Hfuel;
    destruct (shape_readpage _ _ Hs) as [pg Hr];
    destruct (BasePage.isleaf pg) eqn:Hl;
    try (pose proof (shape_index_height _ _ Hs Hr); congruence).
  1, 2: rewrite (positions_leaf _ _ _ _ Hr Hl);
        apply linked_prev_leaf; assumption.
  rewrite (positions_index _ _ _ _ Hr Hl).
  pose proof (len_nonneg (index pg)) as Hn.
  set (g := fun i => ((pg, i) :: ctx) :: positions db h (child pg i) ((pg, i) :: ctx)).
  set (P := positions db h (child pg (-1)) ((pg, -1) :: ctx)).
  assert (Hc0 : shape db h (child pg (-1))) by (apply (shape_child h nr); try assumption; lia).
  assert (HP : P <> []) by (apply positions_nonempty; exact Hc0).
  assert (Hall : forall (m : nat), Z.of_nat m <= len (index pg) ->
            linked (BTree.Cursor.prev db fuel) (rev (P ++ flat_map g (zrange 0 m))) (before ctx)).
  { induction m as [|m IHm]; intros Hm.
    - cbn [zrange flat_map]. rewrite app_nil_r.
      rewrite <- (before_neg pg (-1) ctx) by lia. apply IH; [exact Hc0|lia].
    - assert (Hc : shape db h (child pg (Z.of_nat m))) by (apply (shape_child h nr); try assumption; lia).
      rewrite zrange_snoc, flat_map_app. cbn [flat_map]. rewrite app_nil_r.
      rewrite Z.add_0_l. unfold g at 2.
      rewrite app_assoc, rev_app_distr. cbn [rev].
      apply linked_app. split; [|apply IHm; lia].
      apply linked_app. cbn [hd linked]. split.
      + rewrite <- (before_nonneg pg (Z.of_nat m) ctx) at 2 by lia.
        apply IH; [exact Hc|lia].
      + split; [|exact I].
        rewrite (prev_index h nr) by (try assumption; lia).
        f_equal. rewrite hd_rev.
        destruct m as [|m].
        * cbn [zrange flat_map]. rewrite app_nil_r.
          apply last_default. exact HP.
        * rewrite zrange_snoc, flat_map_app. cbn [flat_map]. rewrite app_nil_r.
          rewrite Z.add_0_l. unfold g at 2.
          rewrite app_assoc, last_app_ne by discriminate.
          replace (Z.of_nat (S m) - 1) with (Z.of_nat m) by lia.
          assert (Hc' : shape db h (child pg (Z.of_nat m)))
            by (apply (shape_child h nr); try assumption; lia).
          pose proof (positions_nonempty h _ ((pg, Z.of_nat m) :: ctx) Hc') as Hne.
          match goal with
          | |- _ = last (?x :: ?l) _ => change (x :: l) with ([x] ++ l)
          end.
          rewrite last_app_ne by exact Hne.
          apply last_default. exact Hne. }
  specialize (Hall (List.length (index pg))). apply Hall. unfold len. lia.
Qed.

(** *** The record under a position *)

Lemma positions_top (h : nat) :
  forall nr ctx c, shape db h nr -> In c (positions db h nr ctx) ->
  exists pg i rest, c = (pg, i) :: rest /\ 0 <= i < len (index pg).
Proof.
  induction h as [|h IH]; intros nr ctx c Hs Hin;
    destruct (shape_readpage _ _ Hs) as [pg Hr];
    destruct (BasePage.isleaf pg) eqn:Hl;
    try (pose proof (shape_index_height _ _ Hs Hr); congruence).
  1, 2: rewrite (positions_leaf _ _ _ _ Hr Hl) in Hin;
        apply in_map_iff in Hin; destruct Hin as (i & <- & Hi);
        apply in_zrange in Hi; exists pg, i, ctx; split; [reflexivity|unfold len; lia].
  rewrite (positions_index _ _ _ _ Hr Hl) in Hin.
  pose proof (len_nonneg (index pg)) as Hn.
  apply in_app_or in Hin. destruct Hin as [Hin|Hin].
  - apply (IH _ _ _ (shape_child h nr pg (-1) Hs Hr Hl ltac:(lia)) Hin).
  - apply in_flat_map in Hin. destruct Hin as (i & Hi & Hin).
    apply in_zrange in Hi. unfold len in *.
    destruct Hin as [<-|Hin].
    + exists pg, i, ctx. split; [reflexivity|unfold len; lia].
    + apply (IH _ _ _ (shape_child h nr pg i Hs Hr Hl ltac:(unfold len; lia)) Hin).
Qed.

Lemma getkey_key_of (h : nat) (nr : Z) (ctx c : Cursor) :
  shape db h nr -> In c (positions db h nr ctx) -> BTree.Cursor.getkey c = Ok (key_of c).
Proof.
  intros Hs Hin. destruct (positions_top h nr ctx c Hs Hin) as (pg & i & rest & -> & Hi).
  cbn. unfold BasePage.getkey. rewrite index_at_ok by exact Hi. reflexivity.
Qed.

Lemma getval_val_of (h : nat) (nr : Z) (ctx c : Cursor) :
  shape db h nr -> In c (positions db h nr ctx) -> BTree.Cursor.getval c = Ok (val_of c).
Proof.
  intros Hs Hin. destruct (positions_top h nr ctx c Hs Hin) as (pg & i & rest & -> & Hi).
  cbn. unfold BasePage.getval. rewrite index_at_ok by exact Hi. reflexivity.
Qed.

(** *** Ordered positions *)

Lemma ordered_app_l (l1 l2 : list Cursor) : ordered (l1 ++ l2) -> ordered l1.
Proof.
  intros Ho a x m y z E. apply (Ho a x m y (z ++ l2)).
  rewrite E. list_assoc.
Qed.

Lemma ordered_app_r (l1 l2 : list Cursor) : ordered (l1 ++ l2) -> ordered l2.
Proof.
  intros Ho a x m y z E. apply (Ho (l1 ++ a) x m y z).
  rewrite E. list_assoc.
Qed.

Lemma ordered_app_lr (l1 l2 : list Cursor) (x y : Cursor) :
  ordered (l1 ++ l2) -> In x l1 -> In y l2 -> blt (key_of x) (key_of y).
Proof.
  intros Ho Hx Hy.
  apply in_split in Hx. destruct Hx as (a & m1 & ->).
  apply in_split in Hy. destruct Hy as (m2 & z & ->).
  apply (Ho a x (m1 ++ m2) y z).
  list_assoc.
Qed.

Lemma ordered_cons (x : Cursor) (l : list Cursor) (y : Cursor) :
  ordered (x :: l) -> In y l -> blt (key_of x) (key_of y).
Proof.
  intros Ho Hy. apply (ordered_app_lr [x] l x y Ho); [left; reflexivity|exact Hy].
Qed.

(** In an ordered concatenation of groups, the keys of an earlier group
    are below the keys of a later one. *)
Lemma ordered_flat_map (f : Z -> list Cursor) (n : nat) :
  forall (a : Z), ordered (flat_map f (zrange a n)) ->
  forall j1 j2 x y, a <= j1 -> j1 < j2 -> j2 < a + Z.of_nat n ->
    In x (f j1) -> In y (f j2) -> blt (key_of x) (key_of y).
Proof.
  induction n as [|n IH]; intros a Ho j1 j2 x y H1 H2 H3 Hx Hy; [lia|].
  cbn [zrange flat_map] in Ho.
  destruct (Z.eq_dec j1 a) as [->|Hne].
  - apply (ordered_app_lr _ _ x y Ho Hx).
    apply in_flat_map. exists j2. split; [apply in_zrange; lia|exact Hy].
  - apply (IH (a + 1) (ordered_app_r _ _ Ho) j1 j2 x y); try assumption; lia.
Qed.

Lemma ordered_flat_map_sub (f : Z -> list Cursor) (n : nat) :
  forall (a : Z), ordered (flat_map f (zrange a n)) ->
  forall j, a <= j < a + Z.of_nat n -> ordered (f j).
Proof.
  induction n as [|n IH]; intros a Ho j Hj; [lia|].
  cbn [zrange flat_map] in Ho.
  destruct (Z.eq_dec j a) as [->|Hne].
  - exact (ordered_app_l _ _ Ho).
  - apply (IH (a + 1) (ordered_app_r _ _ Ho)). lia.
Qed.

Lemma zrange_split (a : Z) (n : nat) (i : Z) :
  a <= i < a + Z.of_nat n ->
  zrange a n = zrange a (Z.to_nat (i - a)) ++ i :: zrange (i + 1) (Z.to_nat (a + Z.of_nat n - i - 1)).
Proof.
  revert a. induction n as [|n IH]; intros a Hi; [lia|].
  destruct (Z.eq_dec i a) as [->|Hne].
  - rewrite Z.sub_diag. cbn [Z.to_nat zrange app].
    replace (Z.to_nat (a + Z.of_nat (S n) - a - 1)) with n by lia. reflexivity.
  - cbn [zrange]. rewrite (IH (a + 1)) by lia.
    replace (Z.to_nat (i - a)) with (S (Z.to_nat (i - (a + 1)))) by lia.
    cbn [zrange app].
    replace (Z.to_nat (a + 1 + Z.of_nat n - i - 1)) with (Z.to_nat (a + Z.of_nat (S n) - i - 1)) by lia.
    reflexivity.
Qed.

Lemma positions_slots (h : nat) (nr : Z) (pg : Page) (ctx : Cursor) :
  BTree.readpage db nr = Ok pg ->
  (BasePage.isleaf pg = false -> h <> O) ->
  positions db h nr ctx
  = flat_map (slot_positions db h pg ctx) (zrange (-1) (S (List.length (index pg)))).
Proof.
  intros Hr Hh. rewrite positions_eq, Hr. unfold slot_positions.
  destruct (BasePage.isleaf pg) eqn:Hl.
  - cbn [zrange flat_map Z.ltb Z.compare app].
    change (-1 + 1) with 0.
    assert (Hgen : forall (n : nat) (a : Z), 0 <= a ->
              map (fun i => (pg, i) :: ctx) (zrange a n)
              = flat_map (fun i => (if i <? 0 then [] else [(pg, i) :: ctx]) ++ [])
                  (zrange a n)).
    { induction n as [|n IH]; intros a Ha; cbn [zrange map flat_map]; [reflexivity|].
      destruct (a <? 0) eqn:E; [lia|]. cbn [app]. f_equal. apply IH. lia. }
    apply Hgen. lia.
  - destruct h as [|h]; [exfalso; apply Hh; reflexivity|].
    cbn [zrange flat_map Z.ltb Z.compare app]. f_equal.
    change (-1 + 1) with 0.
    assert (Hgen : forall (n : nat) (a : Z), 0 <= a ->
              flat_map (fun i => ((pg, i) :: ctx) :: positions db h (child pg i) ((pg, i) :: ctx))
                (zrange a n)
              = flat_map (fun i => (if i <? 0 then [] else [(pg, i) :: ctx])
                                   ++ positions db h (child pg i) ((pg, i) :: ctx))
                  (zrange a n)).
    { induction n as [|n IH]; intros a Ha; cbn [zrange flat_map]; [reflexivity|].
      destruct (a <? 0) eqn:E; [lia|]. cbn [app]. f_equal. f_equal. apply IH. lia. }
    apply Hgen. lia.
Qed.

(** *** The search inside one page *)

Lemma ordered_ascending (h : nat) (nr : Z) (pg : Page) (ctx : Cursor) :
  BTree.readpage db nr = Ok pg ->
  (BasePage.isleaf pg = false -> h <> O) ->
  ordered (positions db h nr ctx) -> ascending (index pg).
Proof.
  intros Hr Hh Ho i j Hi Hij Hj.
  rewrite (positions_slots h nr pg ctx Hr Hh) in Ho.
  apply (ordered_flat_map _ _ _ Ho i j ((pg, i) :: ctx) ((pg, j) :: ctx)); try lia.
  - unfold len in Hj. lia.
  - unfold slot_positions. destruct (i <? 0) eqn:E; [lia|]. left. reflexivity.
  - unfold slot_positions. destruct (j <? 0) eqn:E; [lia|]. left. reflexivity.
Qed.

Lemma page_find_spec (pg : Page) (key : bytes) :
  ascending (index pg) ->
  exists i, floor_index (index pg) key i /\
    BasePage.find pg key = Ok (page_find_result pg key i).
Proof.
  intros Ha. destruct (binary_search_spec (index pg) key) as (i & Hb & Hr & Hf).
  exists i. split; [exact (Hf Ha)|].
  unfold BasePage.find, page_find_result. rewrite Hb. cbn [bind].
  destruct (i <? 0) eqn:E; [destruct (BasePage.isindex pg); reflexivity|].
  rewrite index_at_ok by lia. cbn [bind]. fold (key_at (index pg) i).
  destruct (bytes_eqb (key_at (index pg) i) key); [reflexivity|].
  destruct (BasePage.isindex pg); reflexivity.
Qed.

(** *** The descent of [BTree.find] *)

Lemma floor_lt (a : list Entry) (key : bytes) (i : Z) :
  floor_index a key i -> 0 <= i -> bytes_eqb (key_at a i) key = false ->
  blt (key_at a i) key.
Proof.
  intros (_ & Hle & _) Hi Hne.
  specialize (Hle i ltac:(lia)). apply ble_lt_or_eq in Hle.
  destruct Hle as [Hlt|Heq]; [exact Hlt|].
  apply bytes_eqb_neq in Hne. contradiction.
Qed.

Lemma descend_leaf (h : nat) (nr : Z) (pg : Page) (ctx : Cursor) (fuel : nat) (key : bytes) :
  shape db h nr -> BTree.readpage db nr = Ok pg -> BasePage.isleaf pg = true ->
  ordered (positions db h nr ctx) ->
  exists act c, BTree.descend db (S fuel) pg ctx key = Ok (act, c) /\
    located key (positions db h nr ctx) act c.
Proof.
  intros Hs Hr Hl Ho.
  assert (Ha : ascending (index pg)).
  { apply (ordered_ascending h nr pg ctx Hr); [congruence|exact Ho]. }
  pose proof (shape_leaf_nonempty _ _ _ Hs Hr Hl) as Hn.
  destruct (page_find_spec pg key Ha) as (i & Hf & Hfind).
  cbn [BTree.descend]. rewrite Hfind. cbn [bind].
  rewrite (positions_leaf _ _ _ _ Hr Hl).
  unfold page_find_result. rewrite isleaf_isindex, Hl. cbn [negb].
  pose proof Hf as (Hr1 & Hle & Hgt).
  set (f := fun i => (pg, i) :: ctx).
  assert (Hkey : forall j, key_of (f j) = key_at (index pg) j) by reflexivity.
  destruct (i <? 0) eqn:Ei.
  - exists "gt"%string, (f 0). split; [reflexivity|].
    exists [], (map f (zrange 1 (Z.to_nat (len (index pg) - 1)))).
    split; [|split; [|split]].
    + unfold len in *. destruct (List.length (index pg)) as [|n]; [lia|].
      cbn [zrange map app]. replace (Z.to_nat (Z.of_nat (S n) - 1)) with n by lia. reflexivity.
    + intros x [].
    + intros y Hy. apply in_map_iff in Hy. destruct Hy as (j & <- & Hj).
      apply in_zrange in Hj. rewrite Hkey. apply Hgt. lia.
    + right; right. split; [reflexivity|]. rewrite Hkey. apply Hgt. lia.
  - assert (Hsplit : map f (zrange 0 (List.length (index pg)))
                     = map f (zrange 0 (Z.to_nat i)) ++ f i
                         :: map f (zrange (i + 1) (Z.to_nat (len (index pg) - i - 1)))).
    { rewrite (zrange_split 0 (List.length (index pg)) i) by (unfold len in *; lia).
      rewrite map_app. cbn [map]. rewrite Z.sub_0_r, Z.add_0_l. reflexivity. }
    assert (Hafter : forall y, In y (map f (zrange (i + 1) (Z.to_nat (len (index pg) - i - 1)))) ->
              blt key (key_of y)).
    { intros y Hy. apply in_map_iff in Hy. destruct Hy as (j & <- & Hj).
      apply in_zrange in Hj. rewrite Hkey. apply Hgt. lia. }
    destruct (bytes_eqb (key_at (index pg) i) key) eqn:Ee.
    + exists "eq"%string, (f i). split; [reflexivity|].
      do 2 eexists. split; [exact Hsplit|]. split; [|split; [exact Hafter|]].
      * intros x Hx. apply in_map_iff in Hx. destruct Hx as (j & <- & Hj).
        apply in_zrange in Hj. rewrite Hkey.
        apply bytes_eqb_eq in Ee. rewrite <- Ee. apply Ha; lia.
      * left. split; [reflexivity|]. rewrite Hkey. apply bytes_eqb_eq. exact Ee.
    + pose proof (floor_lt _ _ _ Hf ltac:(lia) Ee) as Hlt.
      exists "lt"%string, (f i). split; [reflexivity|].
      do 2 eexists. split; [exact Hsplit|]. split; [|split; [exact Hafter|]].
      * intros x Hx. apply in_map_iff in Hx. destruct Hx as (j & <- & Hj).
        apply in_zrange in Hj. rewrite Hkey.
        apply blt_trans with (key_at (index pg) i); [apply Ha; lia|exact Hlt].
      * right; left. split; [reflexivity|]. rewrite Hkey. exact Hlt.
Qed.

Lemma descend_eq (fuel : nat) (page : Page) (stack : Cursor) (key : bytes) :
  BTree.descend db (S fuel) page stack key =
  ('(act, ix) <- BasePage.find page key ;;
   if negb (streq act "recurse") then Ok (act, (page, ix) :: stack)
   else
     nr <- BasePage.getpage page ix ;;
     page' <- BTree.readpage db nr ;;
     BTree.descend db fuel page' ((page, ix) :: stack) key).
Proof. reflexivity. Qed.

Lemma descend_spec (key : bytes) (h : nat) :
  forall nr ctx pg fuel,
  shape db h nr -> BTree.readpage db nr = Ok pg -> (h < fuel)%nat ->
  ordered (positions db h nr ctx) ->
  exists act c, BTree.descend db fuel pg ctx key = Ok (act, c) /\
    located key (positions db h nr ctx) act c.
Proof.
  induction h as [|h IH]; intros nr ctx pg fuel Hs Hr Hfuel Ho;
    (destruct fuel as [|fuel]; [lia|]);
    destruct (BasePage.isleaf pg) eqn:Hl;
    try (pose proof (shape_index_height _ _ Hs Hr); congruence);
    try (apply descend_leaf; assumption).
  assert (Ha : ascending (index pg)).
  { apply (ordered_ascending (S h) nr pg ctx Hr); [discriminate|exact Ho]. }
  destruct (page_find_spec pg key Ha) as (i & Hf & Hfind).
  pose proof Hf as (Hr1 & Hle & Hgt).
  pose proof (len_nonneg (index pg)) as Hn.
  set (sp := slot_positions db (S h) pg ctx).
  set (A := flat_map sp (zrange (-1) (Z.to_nat (i + 1)))).
  set (B := flat_map sp (zrange (i + 1) (Z.to_nat (len (index pg) - i - 1)))).
  set (P := positions db h (child pg i) ((pg, i) :: ctx)).
  set (Fr := if i <? 0 then [] else [(pg, i) :: ctx]).
  assert (Hslots : positions db (S h) nr ctx
                   = flat_map sp (zrange (-1) (S (List.length (index pg)))))
    by (apply positions_slots; [exact Hr|discriminate]).
  assert (Hsp : forall j, sp j = (if j <? 0 then [] else [(pg, j) :: ctx])
                                 ++ positions db h (child pg j) ((pg, j) :: ctx)).
  { intros j. unfold sp, slot_positions. rewrite Hl. reflexivity. }
  assert (Hpos : positions db (S h) nr ctx = A ++ (Fr ++ P) ++ B).
  { rewrite Hslots.
    rewrite (zrange_split (-1) (S (List.length (index pg))) i) by (unfold len in *; lia).
    rewrite flat_map_app. cbn [flat_map]. rewrite Hsp. unfold A, B, Fr, P.
    replace (i - -1) with (i + 1) by lia.
    replace (-1 + Z.of_nat (S (List.length (index pg))) - i - 1)
      with (len (index pg) - i - 1) by (unfold len; lia).
    reflexivity. }
  assert (Hordj : forall j, -1 <= j < len (index pg) -> ordered (sp j)).
  { intros j Hj. rewrite Hslots in Ho.
    apply (ordered_flat_map_sub _ _ _ Ho). unfold len in Hj. lia. }
  assert (HB : forall y, In y B -> blt key (key_of y)).
  { intros y Hy. apply in_flat_map in Hy. destruct Hy as (j & Hj & Hy).
    apply in_zrange in Hj.
    assert (Hkj : blt key (key_at (index pg) j)) by (apply Hgt; lia).
    pose proof (Hordj j ltac:(lia)) as Hoj.
    rewrite Hsp in Hy, Hoj. destruct (j <? 0) eqn:Ej; [lia|].
    cbn [app] in Hy, Hoj. destruct Hy as [<-|Hy]; [exact Hkj|].
    apply blt_trans with (key_at (index pg) j); [exact Hkj|].
    exact (ordered_cons _ _ y Hoj Hy). }
  assert (HA : 0 <= i -> forall x, In x A -> blt (key_of x) (key_at (index pg) i)).
  { intros Hi x Hx. rewrite Hpos in Ho.
    apply (ordered_app_lr _ _ x ((pg, i) :: ctx) Ho Hx).
    unfold Fr. destruct (i <? 0) eqn:Ei; [lia|]. left. reflexivity. }
  assert (HoP : ordered P).
  { pose proof (Hordj i ltac:(lia)) as Hoi. rewrite Hsp in Hoi.
    exact (ordered_app_r _ _ Hoi). }
  rewrite descend_eq, Hfind. cbn [bind]. unfold page_find_result.
  rewrite isleaf_isindex, Hl. cbn [negb].
  assert (Hrec : forall i', i' = i -> (0 <= i -> blt (key_at (index pg) i) key) ->
            exists act c,
              (nr' <- BasePage.getpage pg i' ;;
               page' <- BTree.readpage db nr' ;;
               BTree.descend db fuel page' ((pg, i') :: ctx) key) = Ok (act, c) /\
              located key (positions db (S h) nr ctx) act c).
  { intros i' -> Hlt.
    assert (Hc : shape db h (child pg i)) by (apply (shape_child h nr); assumption).
    destruct (shape_readpage _ _ Hc) as [pg' Hr'].
    rewrite (getpage_child nr) by (try assumption; rewrite isleaf_isindex, Hl; reflexivity).
    cbn [bind]. rewrite Hr'. cbn [bind].
    destruct (IH _ ((pg, i) :: ctx) pg' fuel Hc Hr' ltac:(lia) HoP)
      as (act & c & Hd & l1 & l2 & HP & H1 & H2 & Hact).
    exists act, c. split; [exact Hd|].
    exists (A ++ Fr ++ l1), (l2 ++ B). split; [|split; [|split; [|exact Hact]]].
    - rewrite Hpos. fold P in HP. rewrite HP. list_assoc.
    - intros x Hx. apply in_app_or in Hx. destruct Hx as [Hx|Hx].
      + destruct (Z_lt_dec i 0) as [Hneg|Hpos'].
        * unfold A in Hx. replace (Z.to_nat (i + 1)) with O in Hx by lia. destruct Hx.
        * apply blt_trans with (key_at (index pg) i); [apply HA; [lia|exact Hx]|apply Hlt; lia].
      + apply in_app_or in Hx. destruct Hx as [Hx|Hx]; [|exact (H1 x Hx)].
        unfold Fr in Hx. destruct (i <? 0) eqn:Ei; [destruct Hx|].
        destruct Hx as [<-|[]]. apply Hlt. lia.
    - intros y Hy. apply in_app_or in Hy. destruct Hy as [Hy|Hy]; [exact (H2 y Hy)|exact (HB y Hy)]. }
  destruct (i <? 0) eqn:Ei.
  - cbn [streq String.eqb Ascii.eqb Bool.eqb negb]. apply Hrec; lia.
  - destruct (bytes_eqb (key_at (index pg) i) key) eqn:Ee.
    + cbn [streq String.eqb Ascii.eqb Bool.eqb negb].
      apply bytes_eqb_eq in Ee.
      exists "eq"%string, ((pg, i) :: ctx). split; [reflexivity|].
      exists A, (P ++ B). split; [|split; [|split]].
      * rewrite Hpos. unfold Fr. list_assoc.
      * intros x Hx. rewrite <- Ee. apply HA; [lia|exact Hx].
      * intros y Hy. rewrite Hpos in Ho. apply ordered_app_r in Ho.
        unfold Fr in Ho.
        replace (([(pg, i) :: ctx] ++ P) ++ B) with (((pg, i) :: ctx) :: (P ++ B)) in Ho
          by list_assoc.
        rewrite <- Ee. exact (ordered_cons _ _ y Ho Hy).
      * left. split; [reflexivity|exact Ee].
    + cbn [streq String.eqb Ascii.eqb Bool.eqb negb]. apply Hrec; [reflexivity|].
      intros _. apply (floor_lt _ _ _ Hf); [lia|exact Ee].
Qed.

(** *** Well-formed trees *)

Lemma increasing_ordered (l : list Cursor) :
  increasing (map key_of l) -> ordered l.
Proof.
  intros Hi l1 x l2 y l3 ->. apply (Hi (map key_of l1) _ (map key_of l2) _ (map key_of l3)).
  rewrite !map_app. cbn [map]. rewrite !map_app. reflexivity.
Qed.

Lemma well_formed_ordered (h : nat) : well_formed db h -> ordered (all_positions db h).
Proof. intros [_ Hi]. apply increasing_ordered. exact Hi. Qed.

Lemma next_in (h : nat) (fuel : nat) (l1 l2 : list Cursor) (c : Cursor) :
  shape db h (BTree.firstindex db) -> (h <= fuel)%nat ->
  all_positions db h = l1 ++ c :: l2 ->
  BTree.Cursor.next db fuel c = Ok (hd [] l2).
Proof.
  intros Hs Hfuel E.
  pose proof (linked_next h _ [] fuel Hs Hfuel) as Hl.
  fold (all_positions db h) in Hl. rewrite E in Hl.
  apply linked_app in Hl. destruct Hl as [_ Hl]. exact (proj1 Hl).
Qed.

Lemma prev_in (h : nat) (fuel : nat) (l1 l2 : list Cursor) (c : Cursor) :
  shape db h (BTree.firstindex db) -> (h <= fuel)%nat ->
  all_positions db h = l1 ++ c :: l2 ->
  BTree.Cursor.prev db fuel c = Ok (last l1 []).
Proof.
  intros Hs Hfuel E.
  pose proof (linked_prev h _ [] fuel Hs Hfuel) as Hl.
  fold (all_positions db h) in Hl. rewrite E in Hl.
  rewrite rev_app_distr in Hl. cbn [rev] in Hl. rewrite <- app_assoc in Hl.
  apply linked_app in Hl. destruct Hl as [_ Hl]. cbn [app linked] in Hl.
  rewrite hd_rev in Hl. exact (proj1 Hl).
Qed.

Lemma blt_asym (a c : bytes) : blt a c -> ~ blt c a.
Proof.
  intros H1 H2. apply (blt_irrefl (a := a)). exact (blt_trans H1 H2).
Qed.

Lemma blt_not_ble (a c : bytes) : blt a c -> ~ ble c a.
Proof. unfold blt, ble. intros -> E. discriminate. Qed.

Lemma ble_refl (a : bytes) : ble a a.
Proof. apply bytes_ltb_irrefl. Qed.

Lemma blt_ble (a c : bytes) : blt a c -> ble a c.
Proof. intros Hl. apply ble_lt_or_eq. left. exact Hl. Qed.

(** In an ordered list cut at [c], the position before [c] is the
    greatest one below it and the position after [c] the least one above
    it. *)
Lemma greatest_before (P : bytes -> Prop) (l1 l2 : list Cursor) (c : Cursor) :
  ordered (l1 ++ c :: l2) ->
  (forall x, In x l1 -> P (key_of x)) ->
  (forall y, In y (c :: l2) -> ~ P (key_of y)) ->
  greatest P (l1 ++ c :: l2) (last l1 []).
Proof.
  intros Ho H1 H2. destruct l1 as [|p l1] using rev_ind.
  - left. split; [reflexivity|]. intros x Hx. apply H2. exact Hx.
  - clear IHl1. rewrite last_last. right. split; [|split].
    + apply in_or_app. left. apply in_or_app. right. left. reflexivity.
    + apply H1. apply in_or_app. right. left. reflexivity.
    + intros x Hx HP. apply in_app_or in Hx. destruct Hx as [Hx|Hx].
      * apply in_app_or in Hx. destruct Hx as [Hx|[<-|[]]]; [|apply ble_refl].
        apply blt_ble. apply ordered_app_l in Ho.
        apply (ordered_app_lr l1 [p] x p Ho Hx). left. reflexivity.
      * exfalso. exact (H2 x Hx HP).
Qed.

Lemma least_after (P : bytes -> Prop) (l1 l2 : list Cursor) (c : Cursor) :
  ordered (l1 ++ c :: l2) ->
  (forall x, In x (l1 ++ [c]) -> ~ P (key_of x)) ->
  (forall y, In y l2 -> P (key_of y)) ->
  least P (l1 ++ c :: l2) (hd [] l2).
Proof.
  intros Ho H1 H2. destruct l2 as [|n l2].
  - left. split; [reflexivity|]. intros x Hx. apply H1.
    apply in_app_or in Hx. apply in_or_app. destruct Hx as [Hx|[<-|[]]]; [left; exact Hx|right; left; reflexivity].
  - cbn [hd]. right. split; [|split].
    + apply in_or_app. right. right. left. reflexivity.
    + apply H2. left. reflexivity.
    + intros x Hx HP. apply in_app_or in Hx. destruct Hx as [Hx|[<-|[<-|Hx]]].
      * exfalso. apply (H1 x); [apply in_or_app; left; exact Hx|exact HP].
      * exfalso. apply (H1 c); [apply in_or_app; right; left; reflexivity|exact HP].
      * apply ble_refl.
      * apply blt_ble. apply ordered_app_r in Ho.
        apply (ordered_app_lr [c; n] l2 n x); [exact Ho|right; left; reflexivity|exact Hx].
Qed.

Lemma greatest_here (P : bytes -> Prop) (l1 l2 : list Cursor) (c : Cursor) :
  ordered (l1 ++ c :: l2) ->
  P (key_of c) ->
  (forall y, In y l2 -> ~ P (key_of y)) ->
  greatest P (l1 ++ c :: l2) c.
Proof.
  intros Ho Hc H2. right. split; [|split].
  - apply in_or_app. right. left. reflexivity.
  - exact Hc.
  - intros x Hx HP. apply in_app_or in Hx. destruct Hx as [Hx|[<-|Hx]].
    + apply blt_ble. apply (ordered_app_lr l1 (c :: l2) x c Ho Hx). left. reflexivity.
    + apply ble_refl.
    + exfalso. exact (H2 x Hx HP).
Qed.

Lemma least_here (P : bytes -> Prop) (l1 l2 : list Cursor) (c : Cursor) :
  ordered (l1 ++ c :: l2) ->
  P (key_of c) ->
  (forall x, In x l1 -> ~ P (key_of x)) ->
  least P (l1 ++ c :: l2) c.
Proof.
  intros Ho Hc H1. right. split; [|split].
  - apply in_or_app. right. left. reflexivity.
  - exact Hc.
  - intros x Hx HP. apply in_app_or in Hx. destruct Hx as [Hx|[<-|Hx]].
    + exfalso. exact (H1 x Hx HP).
    + apply ble_refl.
    + apply blt_ble. apply ordered_app_r in Ho. exact (ordered_cons _ _ x Ho Hx).
Qed.

(** *** [BTree.find] on a well-formed tree *)

Lemma find_outcome (h fuel : nat) (key : bytes) :
  well_formed db h -> (h < fuel)%nat ->
  exists act c l1 l2,
    all_positions db h = l1 ++ c :: l2 /\
    (forall x, In x l1 -> blt (key_of x) key) /\
    (forall y, In y l2 -> blt key (key_of y)) /\
    (act = "eq"%string /\ key_of c = key \/
     act = "lt"%string /\ blt (key_of c) key \/
     act = "gt"%string /\ blt key (key_of c)) /\
    BTree.find db fuel "eq" key = Ok (if streq act "eq" then Some c else None) /\
    BTree.find db fuel "lt" key = Ok (Some (if streq act "lt" then c else last l1 [])) /\
    BTree.find db fuel "le" key = Ok (Some (if streq act "gt" then last l1 [] else c)) /\
    BTree.find db fuel "ge" key = Ok (Some (if streq act "lt" then hd [] l2 else c)) /\
    BTree.find db fuel "gt" key = Ok (Some (if streq act "gt" then c else hd [] l2)).
Proof.
  intros Hwf Hfuel. pose proof (well_formed_ordered h Hwf) as Ho.
  destruct Hwf as [Hs _].
  destruct (shape_readpage _ _ Hs) as [pg Hr].
  destruct (descend_spec key h _ [] pg fuel Hs Hr Hfuel Ho)
    as (act & c & Hd & l1 & l2 & Hall & H1 & H2 & Hact).
  fold (all_positions db h) in Hall.
  pose proof (next_in h fuel l1 l2 c Hs ltac:(lia) Hall) as Hnext.
  pose proof (prev_in h fuel l1 l2 c Hs ltac:(lia) Hall) as Hprev.
  exists act, c, l1, l2.
  split; [exact Hall|]. split; [exact H1|]. split; [exact H2|]. split; [exact Hact|].
  unfold BTree.find. rewrite Hr. cbn [bind]. rewrite Hd. cbn [bind].
  destruct Hact as [[-> _]|[[-> _]|[-> _]]];
    cbn [streq String.eqb Ascii.eqb Bool.eqb andb orb negb];
    rewrite ?Hnext, ?Hprev; cbn [bind];
    repeat split; reflexivity.
Qed.

(** X1. The general statement about [BTree.find], for the trees that hold at
    least one record: with enough fuel for the height of the tree,
    [find('eq', key)] returns the position of the record with that key, or
    [None] when there is none; [find('lt', key)] and [find('le', key)]
    return the position with the greatest key below (at most) [key];
    [find('ge', key)] and [find('gt', key)] the position with the least
    key at least (above) [key]; each returns the empty cursor when no
    record qualifies. *)
Theorem find_correct (h fuel : nat) (key : bytes) :
  well_formed db h -> (h < fuel)%nat ->
  (exists r, BTree.find db fuel "eq" key = Ok r /\
     match r with
     | Some c => In c (all_positions db h) /\ key_of c = key
     | None => forall x, In x (all_positions db h) -> key_of x <> key
     end) /\
  (exists c, BTree.find db fuel "lt" key = Ok (Some c) /\
     greatest (fun k => blt k key) (all_positions db h) c) /\
  (exists c, BTree.find db fuel "le" key = Ok (Some c) /\
     greatest (fun k => ble k key) (all_positions db h) c) /\
  (exists c, BTree.find db fuel "ge" key = Ok (Some c) /\
     least (fun k => ble key k) (all_positions db h) c) /\
  (exists c, BTree.find db fuel "gt" key = Ok (Some c) /\
     least (fun k => blt key k) (all_positions db h) c).
Proof.
  intros Hwf Hfuel. pose proof (well_formed_ordered h Hwf) as Ho.
  destruct (find_outcome h fuel key Hwf Hfuel)
    as (act & c & l1 & l2 & Hall & H1 & H2 & Hact & Feq & Flt & Fle & Fge & Fgt).
  rewrite Hall in *.
  assert (N1 : forall x, In x l1 -> ~ blt key (key_of x))
    by (intros x Hx; apply blt_asym; apply H1; exact Hx).
  assert (N2 : forall y, In y l2 -> ~ blt (key_of y) key)
    by (intros y Hy; apply blt_asym; apply H2; exact Hy).
  assert (M1 : forall x, In x l1 -> ~ ble key (key_of x))
    by (intros x Hx; apply blt_not_ble; apply H1; exact Hx).
  assert (M2 : forall y, In y l2 -> ~ ble (key_of y) key)
    by (intros y Hy; apply blt_not_ble; apply H2; exact Hy).
  assert (L1 : forall x, In x l1 -> ble (key_of x) key)
    by (intros x Hx; apply blt_ble; apply H1; exact Hx).
  assert (L2 : forall y, In y l2 -> ble key (key_of y))
    by (intros y Hy; apply blt_ble; apply H2; exact Hy).
  assert (Hin : In c (l1 ++ c :: l2)) by (apply in_or_app; right; left; reflexivity).
  destruct Hact as [[-> Hc]|[[-> Hc]|[-> Hc]]];
    cbn [streq String.eqb Ascii.eqb Bool.eqb] in Feq, Flt, Fle, Fge, Fgt.
  - (* the key is in the tree, under [c] *)
    split; [exists (Some c); split; [exact Feq|split; [exact Hin|exact Hc]]|].
    split; [exists (last l1 []); split; [exact Flt|]|].
    { apply greatest_before; [exact Ho|exact H1|].
      intros y [<-|Hy]; [rewrite Hc; apply blt_irrefl|apply N2; exact Hy]. }
    split; [exists c; split; [exact Fle|]|].
    { apply greatest_here; [exact Ho|rewrite Hc; apply ble_refl|exact M2]. }
    split; [exists c; split; [exact Fge|]|].
    { apply least_here; [exact Ho|rewrite Hc; apply ble_refl|exact M1]. }
    exists (hd [] l2). split; [exact Fgt|].
    apply least_after; [exact Ho| |exact H2].
    intros x Hx. apply in_app_or in Hx. destruct Hx as [Hx|[<-|[]]];
      [apply N1; exact Hx|rewrite Hc; apply blt_irrefl].
  - (* the key is missing, [c] is the last position below it *)
    split; [exists None; split; [exact Feq|]|].
    { intros x Hx. apply in_app_or in Hx. destruct Hx as [Hx|[<-|Hx]].
      - apply bytes_ltb_neq. apply H1. exact Hx.
      - apply bytes_ltb_neq. exact Hc.
      - intros E. apply (N2 x Hx). rewrite E. apply H2 in Hx. rewrite E in Hx.
        exfalso. exact (blt_irrefl Hx). }
    split; [exists c; split; [exact Flt|]|].
    { apply greatest_here; [exact Ho|exact Hc|exact N2]. }
    split; [exists c; split; [exact Fle|]|].
    { apply greatest_here; [exact Ho|apply blt_ble; exact Hc|exact M2]. }
    split; [exists (hd [] l2); split; [exact Fge|]|].
    { apply least_after; [exact Ho| |exact L2].
      intros x Hx. apply in_app_or in Hx. destruct Hx as [Hx|[<-|[]]];
        [apply M1; exact Hx|apply blt_not_ble; exact Hc]. }
    exists (hd [] l2). split; [exact Fgt|].
    apply least_after; [exact Ho| |exact H2].
    intros x Hx. apply in_app_or in Hx. destruct Hx as [Hx|[<-|[]]];
      [apply N1; exact Hx|apply blt_asym; exact Hc].
  - (* the key is missing, [c] is the first position above it *)
    split; [exists None; split; [exact Feq|]|].
    { intros x Hx. apply in_app_or in Hx. destruct Hx as [Hx|[<-|Hx]].
      - apply bytes_ltb_neq. apply H1. exact Hx.
      - intros E. rewrite E in Hc. exact (blt_irrefl Hc).
      - intros E. apply H2 in Hx. rewrite E in Hx. exact (blt_irrefl Hx). }
    split; [exists (last l1 []); split; [exact Flt|]|].
    { apply greatest_before; [exact Ho|exact H1|].
      intros y [<-|Hy]; [apply blt_asym; exact Hc|apply N2; exact Hy]. }
    split; [exists (last l1 []); split; [exact Fle|]|].
    { apply greatest_before; [exact Ho|exact L1|].
      intros y [<-|Hy]; [apply blt_not_ble; exact Hc|apply M2; exact Hy]. }
    split; [exists c; split; [exact Fge|]|].
    { apply least_here; [exact Ho|apply blt_ble; exact Hc|exact M1]. }
    exists c. split; [exact Fgt|].
    apply least_here; [exact Ho|exact Hc|exact N1].
Qed.

(** *** The keys below a page do not depend on the pages above it *)

Lemma keys_ctx (h : nat) :
  forall nr ctx, map key_of (positions db h nr ctx) = keys db h nr.
Proof.
  unfold keys.
  induction h as [|h IH]; intros nr ctx; rewrite !(positions_eq _ nr);
    destruct (BTree.readpage db nr) as [pg| |]; try reflexivity;
    destruct (BasePage.isleaf pg); try reflexivity;
    try (rewrite !map_map; reflexivity).
  rewrite !map_app. f_equal.
  - rewrite (IH _ ((pg, -1) :: ctx)), (IH _ [(pg, -1)]). reflexivity.
  - induction (zrange 0 (List.length (index pg))) as [|i l IHl]; [reflexivity|].
    cbn [flat_map]. rewrite !map_app. cbn [map]. f_equal; [|exact IHl].
    f_equal. rewrite (IH _ ((pg, i) :: ctx)), (IH _ [(pg, i)]). reflexivity.
Qed.

(** *** The pages of the tree *)

Lemma reaches_sub (H' h : nat) (nr : Z) (ctx : Cursor) :
  well_formed db H' -> reaches db H' h nr ctx ->
  shape db h nr /\ ordered (positions db h nr ctx).
Proof.
  intros Hwf Hre. induction Hre as [|h nr ctx pg i Hre [IHs IHo] Hr Hl Hi].
  - split; [exact (proj1 Hwf)|exact (well_formed_ordered H' Hwf)].
  - split; [apply (shape_child h nr); assumption|].
    rewrite (positions_slots (S h) nr pg ctx Hr ltac:(discriminate)) in IHo.
    pose proof (ordered_flat_map_sub _ _ _ IHo i ltac:(unfold len in Hi; lia)) as Hoi.
    unfold slot_positions in Hoi. rewrite Hl in Hoi.
    exact (ordered_app_r _ _ Hoi).
Qed.

(** The keys around an entry of an index page of the tree. *)
Lemma separator (H' h : nat) (nr : Z) (pg : Page) (i : Z) :
  well_formed db H' -> in_tree db H' (S h) nr ->
  BTree.readpage db nr = Ok pg -> BasePage.isindex pg = true ->
  0 <= i < len (index pg) ->
  (forall k, In k (keys db h (child pg i)) -> blt (key_at (index pg) i) k) /\
  (forall k, In k (keys db h (child pg (i - 1))) -> blt k (key_at (index pg) i)) /\
  (i + 1 < len (index pg) ->
   forall k, In k (keys db h (child pg (i + 1))) -> blt (key_at (index pg) i) k).
Proof.
  intros Hwf [ctx Hre] Hr Hidx Hi.
  assert (Hl : BasePage.isleaf pg = false).
  { rewrite isleaf_isindex in Hidx. destruct (BasePage.isleaf pg); [discriminate|reflexivity]. }
  destruct (reaches_sub H' (S h) nr ctx Hwf Hre) as [Hs Ho].
  rewrite (positions_slots (S h) nr pg ctx Hr ltac:(discriminate)) in Ho.
  assert (Hsp : forall j, slot_positions db (S h) pg ctx j
                          = (if j <? 0 then [] else [(pg, j) :: ctx])
                            ++ positions db h (child pg j) ((pg, j) :: ctx)).
  { intros j. unfold slot_positions. rewrite Hl. reflexivity. }
  assert (Hself : In ((pg, i) :: ctx) (slot_positions db (S h) pg ctx i)).
  { rewrite Hsp. destruct (i <? 0) eqn:E; [lia|]. left. reflexivity. }
  split; [|split]; [intros k Hk|intros k Hk|intros Hi' k Hk].
  - rewrite <- (keys_ctx h _ ((pg, i) :: ctx)) in Hk.
    apply in_map_iff in Hk. destruct Hk as (y & <- & Hy).
    pose proof (ordered_flat_map_sub _ _ _ Ho i ltac:(unfold len in Hi; lia)) as Hoi.
    rewrite Hsp in Hoi. destruct (i <? 0) eqn:E; [lia|]. cbn [app] in Hoi.
    exact (ordered_cons _ _ y Hoi Hy).
  - rewrite <- (keys_ctx h _ ((pg, i - 1) :: ctx)) in Hk.
    apply in_map_iff in Hk. destruct Hk as (x & <- & Hx).
    apply (ordered_flat_map _ _ _ Ho (i - 1) i x ((pg, i) :: ctx)); try lia.
    + unfold len in Hi. lia.
    + rewrite Hsp. apply in_or_app. right. exact Hx.
    + exact Hself.
  - rewrite <- (keys_ctx h _ ((pg, i + 1) :: ctx)) in Hk.
    apply in_map_iff in Hk. destruct Hk as (y & <- & Hy).
    apply (ordered_flat_map _ _ _ Ho i (i + 1) ((pg, i) :: ctx) y); try lia.
    + unfold len in Hi'. lia.
    + exact Hself.
    + rewrite Hsp. apply in_or_app. right. exact Hy.
Qed.

(** *** Walking the tree with [next] and [prev] *)

Lemma position_not_eof (h : nat) (c : Cursor) :
  shape db h (BTree.firstindex db) -> In c (all_positions db h) -> BTree.Cursor.eof c = false.
Proof.
  intros Hs Hin. destruct (positions_top h _ [] c Hs Hin) as (pg & i & rest & -> & _).
  unfold BTree.Cursor.eof, len. cbn. reflexivity.
Qed.

Lemma scan_suffix (h fuel : nat) :
  shape db h (BTree.firstindex db) -> (h <= fuel)%nat ->
  forall l2 l1 n, all_positions db h = l1 ++ l2 -> (List.length l2 < n)%nat ->
  scan db fuel n (hd [] l2) = Ok l2.
Proof.
  intros Hs Hfuel. induction l2 as [|c l2 IH]; intros l1 n Hall Hn;
    (destruct n as [|n]; [lia|]); cbn [scan hd].
  - reflexivity.
  - rewrite (position_not_eof h c Hs) by (rewrite Hall; apply in_or_app; right; left; reflexivity).
    rewrite (next_in h fuel l1 l2 c Hs Hfuel Hall). cbn [bind].
    rewrite (IH (l1 ++ [c]) n); [reflexivity| |cbn in Hn; lia].
    rewrite Hall. list_assoc.
Qed.

Lemma scan_back_prefix (h fuel : nat) :
  shape db h (BTree.firstindex db) -> (h <= fuel)%nat ->
  forall l1 l2 n, all_positions db h = l1 ++ l2 -> (List.length l1 < n)%nat ->
  scan_back db fuel n (last l1 []) = Ok (rev l1).
Proof.
  intros Hs Hfuel. induction l1 as [|c l1 IH] using rev_ind; intros l2 n Hall Hn;
    (destruct n as [|n]; [lia|]); cbn [scan_back].
  - reflexivity.
  - rewrite last_last, rev_app_distr. cbn [rev app].
    rewrite <- app_assoc in Hall. cbn [app] in Hall.
    rewrite (position_not_eof h c Hs) by (rewrite Hall; apply in_or_app; right; left; reflexivity).
    rewrite (prev_in h fuel l1 l2 c Hs Hfuel Hall). cbn [bind].
    rewrite (IH (c :: l2) n); [reflexivity|exact Hall|].
    rewrite length_app in Hn. cbn in Hn. lia.
Qed.

Lemma ordered_NoDup (l : list Cursor) : ordered l -> NoDup l.
Proof.
  induction l as [|c l IH]; intros Ho; constructor.
  - intros Hin. apply (blt_irrefl (a := key_of c)). exact (ordered_cons _ _ c Ho Hin).
  - apply IH. exact (ordered_app_r [c] l Ho).
Qed.

Lemma find_first (h fuel : nat) :
  well_formed db h -> (h < fuel)%nat ->
  BTree.find db fuel "ge" [] = Ok (Some (hd [] (all_positions db h))).
Proof.
  intros Hwf Hfuel.
  destruct (find_outcome h fuel [] Hwf Hfuel)
    as (act & c & l1 & l2 & Hall & H1 & H2 & Hact & _ & _ & _ & Fge & _).
  assert (l1 = []) as ->.
  { destruct l1 as [|x l1]; [reflexivity|].
    pose proof (H1 x ltac:(left; reflexivity)) as Hx.
    unfold blt in Hx. rewrite bytes_ltb_nil in Hx. discriminate. }
  rewrite Fge, Hall. cbn [app hd].
  destruct Hact as [[-> _]|[[_ Hc]|[-> _]]]; try reflexivity.
  unfold blt in Hc. rewrite bytes_ltb_nil in Hc. discriminate.
Qed.

(** X2. The general statement about a full scan, for the trees that hold at
    least one record: the walk from [find('ge', b'')] with [next] visits
    every position of the tree exactly once, in the order of the tree,
    under strictly increasing keys; and the walk from the last position
    with [prev] visits the same positions in the reverse order. *)
Theorem full_scan_correct (h fuel n : nat) :
  well_formed db h -> (h < fuel)%nat -> (List.length (all_positions db h) < n)%nat ->
  full_scan db fuel n = Ok (all_positions db h) /\
  NoDup (all_positions db h) /\
  increasing (map key_of (all_positions db h)) /\
  (forall c, In c (all_positions db h) ->
     BTree.Cursor.getkey c = Ok (key_of c) /\ BTree.Cursor.getval c = Ok (val_of c)) /\
  scan_back db fuel n (last (all_positions db h) []) = Ok (rev (all_positions db h)).
Proof.
  intros Hwf Hfuel Hn. pose proof (well_formed_ordered h Hwf) as Ho.
  pose proof Hwf as [Hs Hinc].
  split; [|split; [|split; [|split]]].
  - unfold full_scan. rewrite (find_first h fuel Hwf Hfuel). cbn [bind].
    apply (scan_suffix h fuel Hs ltac:(lia) (all_positions db h) [] n); [reflexivity|exact Hn].
  - apply ordered_NoDup. exact Ho.
  - exact Hinc.
  - intros c Hc. split.
    + exact (getkey_key_of h _ [] c Hs Hc).
    + exact (getval_val_of h _ [] c Hs Hc).
  - apply (scan_back_prefix h fuel Hs ltac:(lia) (all_positions db h) [] n);
      [rewrite app_nil_r; reflexivity|exact Hn].
Qed.

Lemma round_trip (h fuel : nat) (l1 l2 : list Cursor) (c : Cursor) :
  shape db h (BTree.firstindex db) -> (h <= fuel)%nat ->
  all_positions db h = l1 ++ c :: l2 ->
  (l2 <> [] -> next_prev db fuel c = Ok c) /\
  (l1 <> [] -> prev_next db fuel c = Ok c) /\
  (l2 = [] -> BTree.Cursor.next db fuel c = Ok [] /\ next_prev db fuel c = Raise IndexError) /\
  (l1 = [] -> BTree.Cursor.prev db fuel c = Ok [] /\ prev_next db fuel c = Raise IndexError).
Proof.
  intros Hs Hfuel Hall.
  pose proof (next_in h fuel l1 l2 c Hs Hfuel Hall) as Hnext.
  pose proof (prev_in h fuel l1 l2 c Hs Hfuel Hall) as Hprev.
  unfold next_prev, prev_next. rewrite Hnext, Hprev. cbn [bind].
  split; [|split; [|split]].
  - intros Hne. destruct l2 as [|c' l2]; [contradiction|]. cbn [hd].
    rewrite (prev_in h fuel (l1 ++ [c]) l2 c' Hs Hfuel) by (rewrite Hall; list_assoc).
    rewrite last_last. reflexivity.
  - intros Hne. destruct l1 as [|p l1] using rev_ind; [contradiction|].
    rewrite last_last.
    rewrite (next_in h fuel l1 (c :: l2) p Hs Hfuel) by (rewrite Hall; list_assoc).
    reflexivity.
  - intros ->. split; reflexivity.
  - intros ->. split; reflexivity.
Qed.

(** *** Checking a tree by computation *)

Lemma shapeb_shape (h : nat) : forall nr, shapeb db h nr = true -> shape db h nr.
Proof.
  induction h as [|h IH]; intros nr; cbn [shapeb shape];
    destruct (BTree.readpage db nr) as [pg| |]; try discriminate;
    destruct (BasePage.isleaf pg); try discriminate.
  1, 2: intros E Hnil; rewrite Hnil in E; discriminate.
  intros E. apply andb_true_iff in E. destruct E as [E1 E2].
  split; [apply IH; exact E1|].
  intros i Hi. rewrite forallb_forall in E2. apply IH. apply E2.
  apply in_zrange. unfold len in Hi. lia.
Qed.

Lemma increasingb_increasing (ks : list bytes) : increasingb ks = true -> increasing ks.
Proof.
  intros E.
  assert (Hall : forall l1 x r, ks = l1 ++ x :: r -> forall y, In y r -> blt x y).
  { revert E. induction ks as [|a ks IH]; intros E l1 x r Hks y Hy.
    - destruct l1; discriminate.
    - assert (Hr : increasingb ks = true).
      { cbn [increasingb] in E. destruct ks as [|b ks]; [reflexivity|].
        apply andb_true_iff in E. exact (proj2 E). }
      destruct l1 as [|a' l1]; cbn [app] in Hks; injection Hks as -> ->.
      + clear IH. revert x E Hr. induction r as [|b r IHr]; intros x E Hr; [destruct Hy|].
        cbn [increasingb] in E. apply andb_true_iff in E. destruct E as [E1 E2].
        destruct Hy as [<-|Hy]; [exact E1|].
        apply blt_trans with b; [exact E1|].
        apply (IHr Hy b E2).
        cbn [increasingb] in E2. destruct r as [|b' r]; [reflexivity|].
        apply andb_true_iff in E2. exact (proj2 E2).
      + exact (IH Hr l1 x r eq_refl y Hy). }
  intros l1 x l2 y l3 Hks. apply (Hall l1 x (l2 ++ y :: l3) Hks).
  apply in_or_app. right. left. reflexivity.
Qed.

Lemma well_formedb_ok (h : nat) : well_formedb db h = true -> well_formed db h.
Proof.
  unfold well_formedb. intros E. apply andb_true_iff in E. destruct E as [E1 E2].
  split; [apply shapeb_shape; exact E1|apply increasingb_increasing; exact E2].
Qed.

End Tree.

(** ** Records by key *)

Section Lookup.
Context {F : Type} `{FileLike F}.
Variable db : BTree.t F.

Lemma lookup_records (key : bytes) (l1 l2 : list Cursor) (c : Cursor) :
  (forall x, In x l1 -> key_of x <> key) -> key_of c = key ->
  lookup key (map (fun c => (key_of c, val_of c)) (l1 ++ c :: l2)) = Some (val_of c).
Proof.
  intros H1 Hc. unfold lookup. induction l1 as [|x l1 IH]; cbn [app map List.find fst].
  - rewrite Hc, bytes_eqb_refl. reflexivity.
  - destruct (bytes_eqb (key_of x) key) eqn:E.
    + apply bytes_eqb_eq in E. exfalso. apply (H1 x); [left; reflexivity|exact E].
    + apply IH. intros y Hy. apply H1. right. exact Hy.
Qed.

Lemma lookup_missing (key : bytes) (l : list Cursor) :
  (forall x, In x l -> key_of x <> key) ->
  lookup key (map (fun c => (key_of c, val_of c)) l) = None.
Proof.
  intros H1. unfold lookup. induction l as [|x l IH]; cbn [map List.find fst]; [reflexivity|].
  destruct (bytes_eqb (key_of x) key) eqn:E.
  - apply bytes_eqb_eq in E. exfalso. apply (H1 x); [left; reflexivity|exact E].
  - apply IH. intros y Hy. apply H1. right. exact Hy.
Qed.

(** [find('eq', key)] followed by [getval]: the value stored under
    [key], if any. *)
Lemma find_eq_lookup (h fuel : nat) (key : bytes) :
  well_formed db h -> (h < fuel)%nat ->
  (cur <- BTree.find db fuel "eq" key ;;
   match cur with
   | Some cur => v <- BTree.Cursor.getval cur ;; Ok (Some v)
   | None => Ok None
   end) = Ok (lookup key (records db h (BTree.firstindex db))).
Proof.
  intros Hwf Hfuel.
  destruct (find_outcome db h fuel key Hwf Hfuel)
    as (act & c & l1 & l2 & Hall & H1 & H2 & Hact & Feq & _).
  rewrite Feq. cbn [bind]. unfold records. fold (all_positions db h). rewrite Hall.
  assert (N1 : forall x, In x l1 -> key_of x <> key)
    by (intros x Hx; apply bytes_ltb_neq; apply H1; exact Hx).
  destruct Hact as [[-> Hc]|[[-> Hc]|[-> Hc]]];
    cbn [streq String.eqb Ascii.eqb Bool.eqb].
  - rewrite (getval_val_of db h _ [] c (proj1 Hwf))
      by (fold (all_positions db h); rewrite Hall; apply in_or_app; right; left; reflexivity).
    cbn [bind]. rewrite (lookup_records key l1 l2 c N1 Hc). reflexivity.
  - rewrite lookup_missing; [reflexivity|].
    intros x Hx. apply in_app_or in Hx. destruct Hx as [Hx|[<-|Hx]].
    + apply N1. exact Hx.
    + apply bytes_ltb_neq. exact Hc.
    + intros E. apply H2 in Hx. rewrite E in Hx. exact (blt_irrefl Hx).
  - rewrite lookup_missing; [reflexivity|].
    intros x Hx. apply in_app_or in Hx. destruct Hx as [Hx|[<-|Hx]].
    + apply N1. exact Hx.
    + intros E. rewrite E in Hc. exact (blt_irrefl Hc).
    + intros E. apply H2 in Hx. rewrite E in Hx. exact (blt_irrefl Hx).
Qed.

(** [find('ge', key)] cuts the positions in two: those below [key], and
    those from [key] on, of which it returns the first. *)
Lemma find_ge_split (h fuel : nat) (key : bytes) :
  well_formed db h -> (h < fuel)%nat ->
  exists pre post,
    all_positions db h = pre ++ post /\
    BTree.find db fuel "ge" key = Ok (Some (hd [] post)) /\
    (forall x, In x pre -> blt (key_of x) key) /\
    (forall y, In y post -> ble key (key_of y)).
Proof.
  intros Hwf Hfuel.
  destruct (find_outcome db h fuel key Hwf Hfuel)
    as (act & c & l1 & l2 & Hall & H1 & H2 & Hact & _ & _ & _ & Fge & _).
  assert (L2 : forall y, In y l2 -> ble key (key_of y))
    by (intros y Hy; apply blt_ble; apply H2; exact Hy).
  destruct Hact as [[-> Hc]|[[-> Hc]|[-> Hc]]];
    cbn [streq String.eqb Ascii.eqb Bool.eqb] in Fge.
  - exists l1, (c :: l2). split; [exact Hall|]. split; [exact Fge|]. split; [exact H1|].
    intros y [<-|Hy]; [rewrite Hc; apply ble_refl|apply L2; exact Hy].
  - exists (l1 ++ [c]), l2. split; [rewrite Hall; list_assoc|]. split; [exact Fge|].
    split; [|exact L2].
    intros x Hx. apply in_app_or in Hx. destruct Hx as [Hx|[<-|[]]]; [apply H1; exact Hx|exact Hc].
  - exists l1, (c :: l2). split; [exact Hall|]. split; [exact Fge|]. split; [exact H1|].
    intros y [<-|Hy]; [apply blt_ble; exact Hc|apply L2; exact Hy].
Qed.

Lemma filter_take_while (p : Cursor -> bool) (l : list Cursor) :
  ordered l ->
  (forall x y, blt (key_of x) (key_of y) -> p y = true -> p x = true) ->
  filter p l = take_while p l.
Proof.
  intros Ho Hp. induction l as [|c l IH]; cbn [filter take_while]; [reflexivity|].
  destruct (p c) eqn:E.
  - f_equal. apply IH. exact (ordered_app_r [c] l Ho).
  - clear IH. induction l as [|y l IHl]; [reflexivity|]. cbn [filter].
    destruct (p y) eqn:Ey.
    + rewrite (Hp c y) in E; [discriminate| |exact Ey].
      apply (ordered_cons c (y :: l) y Ho). left. reflexivity.
    + apply IHl. intros l1 x l2 z l3 E'.
      destruct l1 as [|a l1]; cbn [app] in E'; injection E' as -> ->.
      * apply (Ho [] x (y :: l2) z l3). reflexivity.
      * apply (Ho (a :: y :: l1) x l2 z l3). reflexivity.
Qed.

End Lookup.

(** ** ID0File *)

Lemma unpack_one (c : fmtchar) (data : bytes) :
  len data = fmtsize c -> unpack [c] data = Ok [le_int data].
Proof.
  intros Hl. unfold unpack. cbn [calcsize]. rewrite Z.add_0_r.
  rewrite Hl, Z.eqb_refl. cbn [unpack_fields]. rewrite firstn_all2; [reflexivity|].
  unfold len in Hl. lia.
Qed.

Lemma unpack_one_bad (c : fmtchar) (data : bytes) :
  len data <> fmtsize c -> unpack [c] data = Raise StructError.
Proof.
  intros Hl. unfold unpack. cbn [calcsize]. rewrite Z.add_0_r.
  destruct (len data =? fmtsize c) eqn:E; [lia|reflexivity].
Qed.

Lemma bytes_ltb_app (p x y : bytes) : bytes_ltb (p ++ x) (p ++ y) = bytes_ltb x y.
Proof.
  induction p as [|c p IH]; [reflexivity|].
  cbn [app bytes_ltb]. rewrite Z.ltb_irrefl. exact IH.
Qed.

Section Overlay.
Context {F : Type} `{FileLike F}.
Variable self : ID0File.t F.

Lemma makekey_cursor (c : Cursor) :
  ID0File.makekey self [PyCursor c] = Raise StructError.
Proof.
  unfold ID0File.makekey, ID0File.pack. cbn.
  destruct (pack_unsigned_be 1 46); reflexivity.
Qed.

(** [bytes] called with arguments that make a key. *)
Lemma bytes_lookup (h fuel : nat) (args : list pyval) (key : bytes) :
  well_formed (ID0File.btree self) h -> (h < fuel)%nat ->
  ID0File.makekey self args = Ok key ->
  ID0File.bytes_ self fuel args = Ok (lookup key (db_records self h)).
Proof.
  intros Hwf Hfuel Hk.
  assert (E : ID0File.bytes_ self fuel args =
              (cur <- BTree.find (ID0File.btree self) fuel "eq" key ;;
               match cur with
               | Some cur => v <- BTree.Cursor.getval cur ;; Ok (Some v)
               | None => Ok None
               end)).
  { unfold ID0File.bytes_.
    destruct args as [|[z|t|x|c] [|a args]]; try (rewrite Hk; reflexivity).
    rewrite makekey_cursor in Hk. discriminate. }
  rewrite E. apply find_eq_lookup; assumption.
Qed.

Lemma int_lookup (h fuel : nat) (args : list pyval) (key : bytes) :
  well_formed (ID0File.btree self) h -> (h < fuel)%nat ->
  ID0File.makekey self args = Ok key ->
  ID0File.int self fuel args
  = Ok (match lookup key (db_records self h) with
        | Some v => int_of_value v
        | None => (None, [])
        end).
Proof.
  intros Hwf Hfuel Hk. unfold ID0File.int.
  rewrite (bytes_lookup h fuel args key Hwf Hfuel Hk). cbn [bind].
  destruct (lookup key (db_records self h)) as [v|]; [|reflexivity].
  unfold int_of_value.
  destruct (len v =? 1) eqn:E1; [rewrite unpack_one by (cbn; lia); reflexivity|].
  destruct (len v =? 2) eqn:E2; [rewrite unpack_one by (cbn; lia); reflexivity|].
  destruct (len v =? 4) eqn:E4; [rewrite unpack_one by (cbn; lia); reflexivity|].
  destruct (len v =? 8) eqn:E8; [rewrite unpack_one by (cbn; lia); reflexivity|].
  reflexivity.
Qed.

(** [makekey('N', name)]: the first argument is packed as the node
    number, which a [str] is not. *)
Lemma makekey_N (name : str) (n : bytes) :
  encode_utf8 name = Ok n ->
  ID0File.makekey self [PyStr (u "N"); PyStr name] = Raise StructError.
Proof.
  intros Hn. unfold ID0File.makekey. cbn [len List.length Z.of_nat Z.gtb Z.compare
    Pos.of_succ_nat Pos.succ Pos.compare Pos.compare_cont encode].
  rewrite Hn. cbn [bind]. unfold ID0File.pack. cbn.
  destruct (pack_unsigned_be 1 46); reflexivity.
Qed.

Lemma int_N (fuel : nat) (name : str) (n : bytes) :
  encode_utf8 name = Ok n ->
  ID0File.int self fuel [PyStr (u "N"); PyStr name] = Raise StructError.
Proof.
  intros Hn. unfold ID0File.int, ID0File.bytes_.
  rewrite (makekey_N name n Hn). reflexivity.
Qed.

Lemma nodeByName_lookup (h fuel : nat) (name : str) (n : bytes) :
  well_formed (ID0File.btree self) h -> (h < fuel)%nat ->
  encode_utf8 name = Ok n ->
  ID0File.nodeByName self fuel name
  = match lookup (b "N" ++ n) (db_records self h) with
    | Some v =>
        if len v =? fmtsize (ID0File.fmt self) then Ok (Some (le_int v))
        else Raise StructError
    | None => Ok None
    end.
Proof.
  intros Hwf Hfuel Hn. unfold ID0File.nodeByName. rewrite Hn. cbn [bind].
  pose proof (find_eq_lookup (ID0File.btree self) h fuel (b "N" ++ n) Hwf Hfuel) as E.
  fold (db_records self h) in E.
  generalize dependent (lookup (b "N" ++ n) (db_records self h)). intros r E.
  destruct (BTree.find (ID0File.btree self) fuel "eq" (b "N" ++ n)) as [[cur|]| |];
    cbn [bind] in E |- *; try discriminate.
  - destruct (BTree.Cursor.getval cur) as [v| |]; cbn [bind] in E |- *; try discriminate.
    injection E as <-.
    destruct (len v =? fmtsize (ID0File.fmt self)) eqn:El.
    + rewrite unpack_one by lia. reflexivity.
    + rewrite unpack_one_bad by lia. reflexivity.
  - injection E as <-. reflexivity.
Qed.

Lemma nextkey_nil : ID0File.nextkey [] = Raise StructError.
Proof. reflexivity. Qed.

Lemma nextkey_snoc (init : bytes) (x : byte) :
  ID0File.nextkey (init ++ [x])
  = if byte_to_Z x <? 255 then Ok (init ++ [byte_of_Z (byte_to_Z x + 1)])
    else Raise StructError.
Proof.
  unfold ID0File.nextkey. rewrite removelast_last.
  assert (Hl : len (init ++ [x]) = len init + 1).
  { unfold len. rewrite length_app. cbn. lia. }
  pose proof (len_nonneg init) as Hn.
  assert (Hu : unpack_from [fB] (init ++ [x]) (-1) = Ok [byte_to_Z x]).
  { unfold unpack_from. cbn [Z.ltb Z.compare]. rewrite Hl.
    destruct (-1 + (len init + 1) <? 0) eqn:E1; [lia|].
    cbn [calcsize fmtsize].
    destruct (len init + 1 - (-1 + (len init + 1)) <? 1 + 0) eqn:E2; [lia|].
    replace (Z.to_nat (-1 + (len init + 1))) with (List.length init)
      by (unfold len; lia).
    rewrite skipn_app, skipn_all, Nat.sub_diag.
    change (firstn (Z.to_nat (fmtsize fB)) ([] ++ skipn 0 [x])) with [x].
    cbn [unpack_fields]. change (firstn (Z.to_nat (fmtsize fB)) ([] ++ skipn 0 [x])) with [x].
    cbn [le_int]. rewrite Z.mul_0_r, Z.add_0_r. reflexivity. }
  rewrite Hu. cbn [bind hd]. unfold pack_unsigned_be.
  pose proof (byte_to_Z_range x) as Hx.
  change (256 ^ Z.of_nat 1) with 256.
  destruct (byte_to_Z x <? 255) eqn:E.
  - destruct ((0 <=? byte_to_Z x + 1) && (byte_to_Z x + 1 <? 256)) eqn:E'; [reflexivity|].
    apply andb_false_iff in E'. destruct E' as [E'|E']; lia.
  - destruct ((0 <=? byte_to_Z x + 1) && (byte_to_Z x + 1 <? 256)) eqn:E'; [|reflexivity].
    apply andb_true_iff in E'. lia.
Qed.

(** [nextkey] succeeds on a key that ends in a byte below [0xFF], and
    gives the key with that byte incremented, which is above the key. *)
Lemma nextkey_inv (key key' : bytes) :
  ID0File.nextkey key = Ok key' ->
  exists init x,
    key = init ++ [x] /\ byte_to_Z x < 255 /\
    key' = init ++ [byte_of_Z (byte_to_Z x + 1)] /\ blt key key'.
Proof.
  destruct key as [|x init] using rev_ind; [rewrite nextkey_nil; discriminate|].
  clear IHinit. rewrite nextkey_snoc.
  destruct (byte_to_Z x <? 255) eqn:E; [|discriminate].
  intros E'. injection E' as <-. exists init, x.
  split; [reflexivity|]. split; [lia|]. split; [reflexivity|].
  unfold blt. rewrite bytes_ltb_app. cbn [bytes_ltb].
  pose proof (byte_to_Z_range x) as Hx.
  rewrite byte_to_of_Z by lia.
  destruct (byte_to_Z x <? byte_to_Z x + 1) eqn:E'; [reflexivity|lia].
Qed.

(** The loop of [blob] from the first of the positions [post]: it stops
    at the first key that is not below [endkey], and fails when there is
    no such key. *)
Lemma blob_loop_spec (h fuel : nat) (endkey : bytes) :
  shape (ID0File.btree self) h (BTree.firstindex (ID0File.btree self)) ->
  (h <= fuel)%nat ->
  forall post pre n data,
  all_positions (ID0File.btree self) h = pre ++ post ->
  (List.length post < n)%nat ->
  ID0File.blob_loop self fuel n (hd [] post) endkey data
  = if forallb (fun c => bytes_ltb (key_of c) endkey) post then Raise IndexError
    else Ok (data ++ List.concat (map val_of
               (take_while (fun c => bytes_ltb (key_of c) endkey) post))).
Proof.
  intros Hs Hfuel. induction post as [|c post IH]; intros pre n data Hall Hn;
    (destruct n as [|n]; [lia|]); cbn [ID0File.blob_loop hd forallb take_while].
  - reflexivity.
  - assert (Hin : In c (all_positions (ID0File.btree self) h))
      by (rewrite Hall; apply in_or_app; right; left; reflexivity).
    rewrite (getkey_key_of _ h _ [] c Hs Hin). cbn [bind].
    destruct (bytes_ltb (key_of c) endkey) eqn:E; cbn [andb map List.concat].
    + rewrite (getval_val_of _ h _ [] c Hs Hin). cbn [bind].
      rewrite (next_in _ h fuel pre post c Hs Hfuel Hall). cbn [bind].
      rewrite (IH (pre ++ [c]) n (data ++ val_of c)); [|rewrite Hall; list_assoc|cbn in Hn; lia].
      destruct (forallb (fun c0 => bytes_ltb (key_of c0) endkey) post); [reflexivity|].
      rewrite <- app_assoc. reflexivity.
    + rewrite app_nil_r. reflexivity.
Qed.

(** X3. The general statement about [blob], for the trees that hold at least
    one record: when the arguments make a start key that does not end in
    [0xFF], [blob] returns the concatenation, in the order of the tree, of
    the values of the records whose key lies in [[startkey, endkey)],
    provided the tree holds a record with a key at or above [endkey];
    when it holds none, [blob] raises [IndexError]. *)
Theorem blob_correct (h fuel : nat) (args : list pyval) (startkey endkey : bytes) :
  well_formed (ID0File.btree self) h -> (h < fuel)%nat ->
  (List.length (all_positions (ID0File.btree self) h) < fuel)%nat ->
  ID0File.makekey self args = Ok startkey ->
  ID0File.nextkey startkey = Ok endkey ->
  ID0File.blob self fuel args
  = if existsb (fun c => bytes_leb endkey (key_of c)) (all_positions (ID0File.btree self) h)
    then Ok (List.concat (map val_of
               (filter (fun c => bytes_leb startkey (key_of c) && bytes_ltb (key_of c) endkey)
                  (all_positions (ID0File.btree self) h))))
    else Raise IndexError.
Proof.
  intros Hwf Hfuel Hlen Hmk Hnk.
  pose proof (well_formed_ordered _ h Hwf) as Ho.
  destruct (nextkey_inv startkey endkey Hnk) as (init0 & x0 & _ & _ & _ & Hlt).
  clear init0 x0.
  destruct (find_ge_split (ID0File.btree self) h fuel startkey Hwf Hfuel)
    as (pre & post & Hall & Hfind & Hpre & Hpost).
  unfold ID0File.blob. rewrite Hmk. cbn [bind]. rewrite Hnk. cbn [bind].
  rewrite Hfind. cbn [bind].
  rewrite (blob_loop_spec h fuel endkey (proj1 Hwf) ltac:(lia) post pre fuel [] Hall)
    by (rewrite Hall, length_app in Hlen; lia).
  rewrite Hall in Ho |- *.
  set (p := fun c => bytes_ltb (key_of c) endkey).
  set (q := fun c => bytes_leb startkey (key_of c) && bytes_ltb (key_of c) endkey).
  assert (Hq_pre : filter q pre = []).
  { clear Hall Ho. induction pre as [|x pre IH]; [reflexivity|]. cbn [filter].
    assert (Hx : q x = false).
    { unfold q, bytes_leb. rewrite (Hpre x ltac:(left; reflexivity)). reflexivity. }
    rewrite Hx. apply IH. intros y Hy. apply Hpre. right. exact Hy. }
  assert (Hq_post : filter q post = filter p post).
  { apply filter_ext_in. intros y Hy. unfold q, p.
    specialize (Hpost y Hy). unfold ble in Hpost. unfold bytes_leb. rewrite Hpost. reflexivity. }
  assert (He_pre : existsb (fun c => bytes_leb endkey (key_of c)) pre = false).
  { clear Hall Ho Hq_pre. induction pre as [|x pre IH]; [reflexivity|]. cbn [existsb].
    rewrite IH by (intros y Hy; apply Hpre; right; exact Hy).
    unfold bytes_leb.
    rewrite (blt_trans (Hpre x ltac:(left; reflexivity)) Hlt). reflexivity. }
  assert (He_post : existsb (fun c => bytes_leb endkey (key_of c)) post = negb (forallb p post)).
  { clear. induction post as [|y post IH]; [reflexivity|]. cbn [existsb forallb].
    rewrite IH. unfold bytes_leb, p. destruct (bytes_ltb (key_of y) endkey); reflexivity. }
  rewrite existsb_app, He_pre, He_post, filter_app, Hq_pre, Hq_post. cbn [orb app].
  rewrite (filter_take_while p post).
  - destruct (forallb p post); reflexivity.
  - exact (ordered_app_r _ _ Ho).
  - intros x y Hxy Hy. unfold p in *. exact (blt_trans Hxy Hy).
Qed.

End Overlay.

(** ** The example trees *)

Module Example10Facts.
Import Example10.
Import Fixture.

Lemma pages :
  map (BTree.readpage db10) [1; 2; 3; 4] = [Ok root; Ok leaf2; Ok leaf3; Ok leaf4] /\
  BTree.firstindex db10 = 1 /\
  BTree.readpage db0 (BTree.firstindex db0) = Ok empty_root.
Proof. vm_compute. repeat split. Qed.

Lemma well_formed10 : well_formed db10 1.
Proof. apply well_formedb_ok. vm_compute. reflexivity. Qed.

Lemma keys10 :
  keys db10 1 1 = map b ["a"; "b"; "c"; "d"; "e"; "f"; "g"; "h"; "i"; "j"]%string /\
  keys db10 0 2 = map b ["a"; "b"; "c"]%string /\
  keys db10 0 3 = map b ["e"; "f"; "g"]%string /\
  keys db10 0 4 = map b ["i"; "j"]%string.
Proof. vm_compute. repeat split. Qed.

(** [find('eq', k)] finds each of the ten records of [file10]. *)
Lemma every_key_found :
  map (fun k => match BTree.find db10 2 "eq" k with
                | Ok (Some c) => BTree.Cursor.getval c
                | _ => Raise IndexError
                end)
      (keys db10 1 1)
  = map (fun v => Ok (b v)) ["A"; "B"; "C"; "D"; "E"; "F"; "G"; "H"; "I"; "J"]%string.
Proof. vm_compute. reflexivity. Qed.

End Example10Facts.

(** ** The statements of the specification about the tree *)

(** C1, as the code has it.  In a well-formed tree, take an entry of an
    index page of the tree, with key [k] and child page [p].  Every key
    stored in the subtree rooted at [p] is above [k] (not below it); every
    key stored in the subtree rooted at the child of the next entry is
    above [k]; and every key stored in the subtree rooted at the child of
    the preceding entry (at [preceeding] for the first entry) is below
    [k]. *)
Theorem index_entry_separates {F : Type} `{FileLike F} (db : BTree.t F)
    (H' h : nat) (nr : Z) (pg : Page) (i : Z) :
  well_formed db H' -> in_tree db H' (S h) nr ->
  BTree.readpage db nr = Ok pg -> BasePage.isindex pg = true ->
  0 <= i < len (index pg) ->
  (forall k, In k (keys db h (child pg i)) -> blt (key_at (index pg) i) k) /\
  (i + 1 < len (index pg) ->
   forall k, In k (keys db h (child pg (i + 1))) -> blt (key_at (index pg) i) k) /\
  (forall k, In k (keys db h (child pg (i - 1))) -> blt k (key_at (index pg) i)).
Proof.
  intros Hwf Hin Hr Hidx Hi.
  destruct (separator db H' h nr pg i Hwf Hin Hr Hidx Hi) as (H1 & H2 & H3).
  split; [exact H1|]. split; [exact H3|exact H2].
Qed.

Lemma index_entry_separates_witness :
  (forall k, In k (keys Fixture.db10 0 3) -> blt (b "d") k) /\
  (forall k, In k (keys Fixture.db10 0 4) -> blt (b "d") k) /\
  (forall k, In k (keys Fixture.db10 0 2) -> blt k (b "d")).
Proof.
  assert (Hr : BTree.readpage Fixture.db10 1 = Ok Example10.root)
    by (vm_compute; reflexivity).
  assert (Hi : 0 <= 0 < len (index Example10.root))
    by (vm_compute; split; [discriminate|reflexivity]).
  assert (Hin : in_tree Fixture.db10 1 1 1) by (exists []; apply reaches_root).
  destruct (index_entry_separates Fixture.db10 1 0 1 Example10.root 0
              Example10Facts.well_formed10 Hin Hr eq_refl Hi) as (H1 & H2 & H3).
  split; [exact H1|]. split; [|exact H3].
  apply H2. vm_compute. reflexivity.
Defined.

(** C1 as the specification states it fails: in the well-formed tree of
    [file10], whose records are all found by [find('eq', k)], the entry
    [d] of the root points to page 3, and page 3 holds the key [e], which
    is not below or equal to [d]. *)
Lemma index_entry_upper_bound_fails :
  well_formed Fixture.db10 1 /\
  in_tree Fixture.db10 1 1 1 /\
  BTree.readpage Fixture.db10 1 = Ok Example10.root /\
  BasePage.isindex Example10.root = true /\
  key_at (index Example10.root) 0 = b "d" /\
  child Example10.root 0 = 3 /\
  In (b "e") (keys Fixture.db10 0 3) /\
  ~ ble (b "e") (b "d").
Proof.
  split; [exact Example10Facts.well_formed10|].
  split; [exists []; apply reaches_root|].
  split; [vm_compute; reflexivity|].
  split; [reflexivity|]. split; [reflexivity|]. split; [reflexivity|].
  split; [vm_compute; left; reflexivity|].
  vm_compute. discriminate.
Qed.

(** C2 on the tree without records: the root of [file0] is a leaf
    without entries, [BasePage.find] answers [('gt', 0)] on it, and
    [find('gt', key)] returns a cursor that is not at [eof] and stands on
    entry 0 of the empty page, where [getkey] raises [IndexError]; the
    same cursor is returned for [find('ge', key)]. *)
Theorem find_on_empty_tree (key : bytes) :
  keys Fixture.db0 0 (BTree.firstindex Fixture.db0) = [] /\
  BasePage.find Example10.empty_root key = Ok ("gt"%string, 0) /\
  BTree.find Fixture.db0 1 "gt" key = Ok (Some [(Example10.empty_root, 0)]) /\
  BTree.find Fixture.db0 1 "ge" key = Ok (Some [(Example10.empty_root, 0)]) /\
  BTree.Cursor.eof [(Example10.empty_root, 0)] = false /\
  BTree.Cursor.getkey [(Example10.empty_root, 0)] = Raise IndexError.
Proof. vm_compute. repeat split. Qed.

(** C3 on the tree without records: [reccount] is 0 and the tree holds no
    key, yet the walk from [find('ge', b'')] visits one position before
    it reaches [eof], a position on which [getkey] raises [IndexError]. *)
Theorem full_scan_on_empty_tree :
  BTree.reccount Fixture.db0 = 0 /\
  keys Fixture.db0 0 (BTree.firstindex Fixture.db0) = [] /\
  full_scan Fixture.db0 1 2 = Ok [[(Example10.empty_root, 0)]] /\
  BTree.Cursor.getkey [(Example10.empty_root, 0)] = Raise IndexError.
Proof. vm_compute. repeat split. Qed.

(** C5, as the code has it.  In a tree in which every page can be read
    and no leaf is empty, take a cursor [c] on a record.  When [c] is not
    on the last record, [next()] followed by [prev()] restores the whole
    stack of [c], hence its top frame; when [c] is not on the first
    record, [prev()] followed by [next()] restores it.  On the last
    record [next()] empties the stack and the [prev()] that follows
    raises [IndexError]; on the first record [prev()] empties the stack
    and the [next()] that follows raises [IndexError]. *)
Theorem cursor_round_trip {F : Type} `{FileLike F} (db : BTree.t F)
    (h fuel : nat) (l1 l2 : list Cursor) (c : Cursor) :
  shape db h (BTree.firstindex db) -> (h <= fuel)%nat ->
  all_positions db h = l1 ++ c :: l2 ->
  (l2 <> [] -> next_prev db fuel c = Ok c) /\
  (l1 <> [] -> prev_next db fuel c = Ok c) /\
  (l2 = [] -> BTree.Cursor.next db fuel c = Ok [] /\ next_prev db fuel c = Raise IndexError) /\
  (l1 = [] -> BTree.Cursor.prev db fuel c = Ok [] /\ prev_next db fuel c = Raise IndexError).
Proof.
  intros Hs Hfuel Hall. exact (round_trip db h fuel l1 l2 c Hs Hfuel Hall).
Qed.

Lemma cursor_round_trip_witness :
  next_prev Fixture.db10 1 [(Example10.leaf3, 2); (Example10.root, 0)]
  = Ok [(Example10.leaf3, 2); (Example10.root, 0)] /\
  prev_next Fixture.db10 1 [(Example10.leaf3, 2); (Example10.root, 0)]
  = Ok [(Example10.leaf3, 2); (Example10.root, 0)].
Proof.
  pose proof (cursor_round_trip Fixture.db10 1 1
    (firstn 6 (all_positions Fixture.db10 1)) (skipn 7 (all_positions Fixture.db10 1))
    [(Example10.leaf3, 2); (Example10.root, 0)]) as Hw.
  destruct Hw as (H1 & H2 & _).
  - apply shapeb_shape. vm_compute. reflexivity.
  - lia.
  - vm_compute. reflexivity.
  - split; [apply H1|apply H2]; vm_compute; discriminate.
Defined.

(** C5 as the specification states it fails on the last record: in
    [file10] the cursor on [j] is a cursor on a record, [next()] leaves it
    with an empty stack, and [prev()] then raises [IndexError] instead of
    returning to the frame; the same happens with [prev()] then [next()]
    on the first record, [a]. *)
Lemma round_trip_fails_at_the_ends :
  In [(Example10.leaf4, 1); (Example10.root, 1)] (all_positions Fixture.db10 1) /\
  BTree.Cursor.getkey [(Example10.leaf4, 1); (Example10.root, 1)] = Ok (b "j") /\
  BTree.Cursor.next Fixture.db10 1 [(Example10.leaf4, 1); (Example10.root, 1)] = Ok [] /\
  next_prev Fixture.db10 1 [(Example10.leaf4, 1); (Example10.root, 1)] = Raise IndexError /\
  In [(Example10.leaf2, 0); (Example10.root, -1)] (all_positions Fixture.db10 1) /\
  BTree.Cursor.getkey [(Example10.leaf2, 0); (Example10.root, -1)] = Ok (b "a") /\
  prev_next Fixture.db10 1 [(Example10.leaf2, 0); (Example10.root, -1)] = Raise IndexError.
Proof.
  split; [vm_compute; do 9 right; left; reflexivity|].
  split; [vm_compute; reflexivity|]. split; [vm_compute; reflexivity|].
  split; [vm_compute; reflexivity|].
  split; [vm_compute; left; reflexivity|].
  split; vm_compute; reflexivity.
Qed.

Lemma find_correct_witness :
  exists c,
    BTree.find Fixture.db10 2 "lt" (b "e") = Ok (Some c) /\
    greatest (fun k => blt k (b "e")) (all_positions Fixture.db10 1) c.
Proof.
  exact (proj1 (proj2 (find_correct Fixture.db10 1 2 (b "e") Example10Facts.well_formed10
                         (Nat.lt_succ_diag_r 1)))).
Defined.

Lemma full_scan_correct_witness :
  full_scan Fixture.db10 2 11 = Ok (all_positions Fixture.db10 1) /\
  NoDup (all_positions Fixture.db10 1).
Proof.
  assert (Hn : (List.length (all_positions Fixture.db10 1) < 11)%nat)
    by (vm_compute; lia).
  destruct (full_scan_correct Fixture.db10 1 2 11 Example10Facts.well_formed10
              (Nat.lt_succ_diag_r 1) Hn) as (H1 & H2 & _).
  split; [exact H1|exact H2].
Defined.

(** ** The statements of the specification about the typed accessors *)

Module ExampleID0.
Import FixtureID0.

Lemma well_formed_names : well_formed (ID0File.btree names) 0.
Proof. apply well_formedb_ok. vm_compute. reflexivity. Qed.

Lemma well_formed_tail : well_formed (ID0File.btree tail) 0.
Proof. apply well_formedb_ok. vm_compute. reflexivity. Qed.

Lemma records_names :
  db_records names 0
  = [(key 1 "A" 0, [x01; x02; x03]); (key 1 "S" 0, [x2a; x00; x00; x00]);
     (key 2 "S" 0, b "ab"); (key 2 "S" 1, b "cd"); (b "Nfoo", [x01; x00; x00; xff])].
Proof. vm_compute. reflexivity. Qed.

End ExampleID0.

(** C6 at the end of the tree, and on a key that ends in [0xFF].  In
    [file_tail] the records of the blob of node 2, tag [S], are the last
    records of the tree: their keys lie in [[startkey, endkey)] and their
    values are [ab] and [cd], yet [blob(2, 'S')] raises [IndexError],
    because the loop asks the cursor for its key after [next()] has
    emptied it.  In [file_names], where a record follows, the same call
    returns [abcd].  And for the start key of [blob(255)], which ends in
    [0xFF], [nextkey] raises [struct.error], and so does [blob]. *)
Theorem blob_fails_at_the_end :
  ID0File.makekey FixtureID0.tail [PyInt 2; PyStr (u "S")]
  = Ok (b "." ++ [x00; x00; x00; x02] ++ b "S") /\
  ID0File.nextkey (b "." ++ [x00; x00; x00; x02] ++ b "S")
  = Ok (b "." ++ [x00; x00; x00; x02] ++ b "T") /\
  db_records FixtureID0.tail 0
  = [(FixtureID0.key 2 "S" 0, b "ab"); (FixtureID0.key 2 "S" 1, b "cd")] /\
  forallb (fun kv => bytes_leb (b "." ++ [x00; x00; x00; x02] ++ b "S") (fst kv)
                     && bytes_ltb (fst kv) (b "." ++ [x00; x00; x00; x02] ++ b "T"))
    (db_records FixtureID0.tail 0) = true /\
  ID0File.blob FixtureID0.tail 6 [PyInt 2; PyStr (u "S")] = Raise IndexError /\
  ID0File.blob FixtureID0.names 6 [PyInt 2; PyStr (u "S")] = Ok (b "abcd") /\
  ID0File.makekey FixtureID0.names [PyInt 255] = Ok (b "." ++ [x00; x00; x00; xff]) /\
  ID0File.nextkey (b "." ++ [x00; x00; x00; xff]) = Raise StructError /\
  ID0File.blob FixtureID0.names 6 [PyInt 255] = Raise StructError.
Proof. vm_compute. repeat split. Qed.

Lemma blob_correct_witness :
  ID0File.blob FixtureID0.names 6 [PyInt 2; PyStr (u "S")] = Ok (b "abcd").
Proof.
  assert (Hlen : (List.length (all_positions (ID0File.btree FixtureID0.names) 0) < 6)%nat)
    by (vm_compute; lia).
  assert (Hfuel : (0 < 6)%nat) by lia.
  assert (Hmk : ID0File.makekey FixtureID0.names [PyInt 2; PyStr (u "S")]
                = Ok (b "." ++ [x00; x00; x00; x02] ++ b "S"))
    by (vm_compute; reflexivity).
  assert (Hnk : ID0File.nextkey (b "." ++ [x00; x00; x00; x02] ++ b "S")
                = Ok (b "." ++ [x00; x00; x00; x02] ++ b "T"))
    by (vm_compute; reflexivity).
  rewrite (blob_correct FixtureID0.names 0 6 [PyInt 2; PyStr (u "S")] _ _
             ExampleID0.well_formed_names Hfuel Hlen Hmk Hnk).
  vm_compute. reflexivity.
Defined.

(** [encode('utf-8')] returns bytes or raises. *)
Lemma encode_utf8_outcome (name : str) :
  (exists n, encode_utf8 name = Ok n) \/ (exists e, encode_utf8 name = Raise e).
Proof.
  induction name as [|c name IH]; [left; exists []; reflexivity|].
  cbn [encode_utf8].
  assert (Hc : (exists x, utf8_char c = Ok x) \/ (exists e, utf8_char c = Raise e)).
  { unfold utf8_char.
    repeat match goal with
           | |- context [if ?t then _ else _] => destruct t
           end; try (left; eexists; reflexivity); right; eexists; reflexivity. }
  destruct Hc as [(x & ->)|(e & ->)]; cbn [bind]; [|right; exists e; reflexivity].
  destruct IH as [(n & ->)|(e & ->)]; cbn [bind].
  - left. eexists. reflexivity.
  - right. exists e. reflexivity.
Qed.

(** A name that cannot be encoded stops [nodeByName] and [int('N', name)]
    alike, before any key is built. *)
Lemma unencodable_name {F : Type} `{FileLike F} (self : ID0File.t F) (fuel : nat)
    (name : str) (e : exn) :
  encode_utf8 name = Raise e ->
  ID0File.nodeByName self fuel name = Raise e /\
  ID0File.makekey self [PyStr (u "N"); PyStr name] = Raise e /\
  ID0File.int self fuel [PyStr (u "N"); PyStr name] = Raise e.
Proof.
  intros He.
  assert (Hmk : ID0File.makekey self [PyStr (u "N"); PyStr name] = Raise e).
  { unfold ID0File.makekey. cbn [len List.length Z.of_nat Z.gtb Z.compare
      Pos.of_succ_nat Pos.succ Pos.compare Pos.compare_cont encode].
    rewrite He. reflexivity. }
  split; [|split].
  - unfold ID0File.nodeByName. rewrite He. reflexivity.
  - exact Hmk.
  - unfold ID0File.int, ID0File.bytes_. rewrite Hmk. reflexivity.
Qed.

(** C9, as the code has it.  In a well-formed tree, for every name:
    [name.encode('utf-8')] returns bytes or raises.  When it returns the
    bytes [n], [nodeByName(name)] looks up the key [b'N' + n], which
    [makekey] does not build: it returns [None] when no record has that
    key, the little-endian unsigned integer stored in the value when the
    value is as long as a word of the database (4 or 8 bytes), and raises
    [struct.error] for a value of another length; [int('N', name)] then
    raises [struct.error], since [makekey] packs its first argument as the
    node number.  When the encoding raises (a lone surrogate cannot be
    encoded), [nodeByName(name)] and [int('N', name)] both raise that
    exception. *)
Theorem node_by_name_reads_N_key {F : Type} `{FileLike F} (self : ID0File.t F)
    (h fuel : nat) (name : str) :
  well_formed (ID0File.btree self) h -> (h < fuel)%nat ->
  ((exists n, encode_utf8 name = Ok n) \/ (exists e, encode_utf8 name = Raise e)) /\
  (forall n, encode_utf8 name = Ok n ->
     ID0File.nodeByName self fuel name
     = match lookup (b "N" ++ n) (db_records self h) with
       | Some v =>
           if len v =? fmtsize (ID0File.fmt self) then Ok (Some (le_int v))
           else Raise StructError
       | None => Ok None
       end /\
     ID0File.makekey self [PyStr (u "N"); PyStr name] = Raise StructError /\
     ID0File.int self fuel [PyStr (u "N"); PyStr name] = Raise StructError) /\
  (forall e, encode_utf8 name = Raise e ->
     ID0File.nodeByName self fuel name = Raise e /\
     ID0File.makekey self [PyStr (u "N"); PyStr name] = Raise e /\
     ID0File.int self fuel [PyStr (u "N"); PyStr name] = Raise e).
Proof.
  intros Hwf Hfuel. split; [apply encode_utf8_outcome|]. split.
  - intros n Hn. split; [|split].
    + exact (nodeByName_lookup self h fuel name n Hwf Hfuel Hn).
    + exact (makekey_N self name n Hn).
    + exact (int_N self fuel name n Hn).
  - intros e He. exact (unencodable_name self fuel name e He).
Qed.

Lemma node_by_name_reads_N_key_witness :
  (ID0File.nodeByName FixtureID0.names 1 (u "foo") = Ok (Some 0xFF000001) /\
   ID0File.int FixtureID0.names 1 [PyStr (u "N"); PyStr (u "foo")] = Raise StructError) /\
  (ID0File.nodeByName FixtureID0.names 1 [0xD800] = Raise UnicodeEncodeError /\
   ID0File.int FixtureID0.names 1 [PyStr (u "N"); PyStr [0xD800]] = Raise UnicodeEncodeError).
Proof.
  assert (Hfuel : (0 < 1)%nat) by lia.
  assert (Hn : encode_utf8 (u "foo") = Ok (b "foo")) by (vm_compute; reflexivity).
  assert (He : encode_utf8 [0xD800] = Raise UnicodeEncodeError) by (vm_compute; reflexivity).
  split.
  - destruct (node_by_name_reads_N_key FixtureID0.names 0 1 (u "foo")
                ExampleID0.well_formed_names Hfuel) as (_ & Hok & _).
    destruct (Hok (b "foo") Hn) as (H1 & _ & H3).
    split; [|exact H3].
    rewrite H1. vm_compute. reflexivity.
  - destruct (node_by_name_reads_N_key FixtureID0.names 0 1 [0xD800]
                ExampleID0.well_formed_names Hfuel) as (_ & _ & Hraise).
    destruct (Hraise UnicodeEncodeError He) as (H1 & _ & H3).
    split; [exact H1|exact H3].
Defined.

(** C9 as the specification states it fails: in [file_names] the record
    [Nfoo] holds the node number [0xFF000001], which [nodeByName('foo')]
    returns, while [int('N', 'foo')] raises [struct.error]. *)
Lemma node_by_name_differs_from_int :
  lookup (b "Nfoo") (db_records FixtureID0.names 0) = Some [x01; x00; x00; xff] /\
  ID0File.nodeByName FixtureID0.names 1 (u "foo") = Ok (Some 0xFF000001) /\
  ID0File.int FixtureID0.names 1 [PyStr (u "N"); PyStr (u "foo")] = Raise StructError /\
  ID0File.nodeByName FixtureID0.names 1 (u "bar") = Ok None /\
  ID0File.int FixtureID0.names 1 [PyStr (u "N"); PyStr (u "bar")] = Raise StructError.
Proof. vm_compute. repeat split. Qed.

(** C10, as the code has it.  In a well-formed tree, when the arguments
    make the key [key], [int] returns [None] and prints nothing if no
    record has that key; if the record's value is 1, 2, 4 or 8 bytes long
    it returns the value read as a little-endian unsigned integer; for a
    value of any other length it prints [can't get int from ...] and
    returns [None], without raising. *)
Theorem int_decodes_by_length {F : Type} `{FileLike F} (self : ID0File.t F)
    (h fuel : nat) (args : list pyval) (key : bytes) :
  well_formed (ID0File.btree self) h -> (h < fuel)%nat ->
  ID0File.makekey self args = Ok key ->
  ID0File.int self fuel args
  = Ok (match lookup key (db_records self h) with
        | Some v =>
            if (len v =? 1) || (len v =? 2) || (len v =? 4) || (len v =? 8)
            then (Some (le_int v), [])
            else (None, [CantGetInt v])
        | None => (None, [])
        end).
Proof.
  intros Hwf Hfuel Hk. exact (int_lookup self h fuel args key Hwf Hfuel Hk).
Qed.

Lemma int_decodes_by_length_witness :
  ID0File.int FixtureID0.names 1 [PyInt 1; PyStr (u "S"); PyInt 0] = Ok (Some 42, []).
Proof.
  assert (Hfuel : (0 < 1)%nat) by lia.
  assert (Hk : ID0File.makekey FixtureID0.names [PyInt 1; PyStr (u "S"); PyInt 0]
               = Ok (FixtureID0.key 1 "S" 0)) by (vm_compute; reflexivity).
  rewrite (int_decodes_by_length FixtureID0.names 0 1 _ _
             ExampleID0.well_formed_names Hfuel Hk).
  vm_compute. reflexivity.
Defined.

(** C10 as the specification states it fails: in [file_names] the record
    of node 1, tag [A], exists and its value is three bytes long;
    [int(1, 'A', 0)] does not raise, it prints the value and returns
    [None]. *)
Lemma int_of_other_length_returns_none :
  ID0File.makekey FixtureID0.names [PyInt 1; PyStr (u "A"); PyInt 0]
  = Ok (FixtureID0.key 1 "A" 0) /\
  lookup (FixtureID0.key 1 "A" 0) (db_records FixtureID0.names 0) = Some [x01; x02; x03] /\
  ID0File.int FixtureID0.names 1 [PyInt 1; PyStr (u "A"); PyInt 0]
  = Ok (None, [CantGetInt [x01; x02; x03]]).
Proof. vm_compute. repeat split. Qed.

(* ================================================================== *)
(** * Further properties *)

(** ** binary_search *)

(** X4. [binary_search(a, k)] returns for every list, with an index
    between [-1] and [len(a) - 1]; when the keys of [a] ascend strictly,
    the index it returns is that of the last entry whose key is at most
    [k] ([-1] when there is none): the entries with a key at most [k] are
    exactly those up to the index returned. *)
Theorem binary_search_upper_bound (a : list Entry) (k : bytes) :
  exists i, binary_search a k = Ok i /\ -1 <= i < len a /\
    (ascending a ->
     forall j, 0 <= j < len a -> (ble (key_at a j) k <-> j <= i)).
Proof.
  destruct (binary_search_spec a k) as (i & Hi & Hr & Hs).
  exists i. split; [exact Hi|]. split; [exact Hr|].
  intros Ha j Hj. destruct (Hs Ha) as (_ & Hle & Hgt). split.
  - intros Hb. destruct (Z_le_gt_dec j i) as [Hji|Hji]; [exact Hji|].
    exfalso. apply (blt_not_ble _ _ (Hgt j ltac:(lia))). exact Hb.
  - intros Hji. apply Hle. lia.
Qed.

(** ** Decoded pages *)

Lemma read_entries_length (l : layout) (isindex : bool) (data : bytes) (n : nat) :
  forall (i : Z) (key : bytes) (es : list Entry),
  BasePage.read_entries l isindex data n i key = Ok es -> List.length es = n.
Proof.
  induction n as [|n IH]; intros i key es E; cbn in E.
  - injection E as <-. reflexivity.
  - apply bind_ok in E. destruct E as (ent & _ & E).
    apply bind_ok in E. destruct E as (rest & Hrest & E).
    injection E as <-. cbn. f_equal. exact (IH _ _ _ Hrest).
Qed.

Lemma LeafEntry_init_kind (l : layout) (key data : bytes) (ofs : Z) (e : Entry) :
  LeafEntry_init l key data ofs = Ok e -> ent_page e = Raise AttributeError.
Proof.
  unfold LeafEntry_init. intros E.
  destruct l; apply bind_ok in E; destruct E as (fields & _ & E);
    destruct fields as [|f1 [|f2 [|f3 [|f4 [|? ?]]]]]; try discriminate;
    apply bind_ok in E; destruct E as ([k v] & _ & E);
    injection E as <-; reflexivity.
Qed.

Lemma read_entries_leaf_kind (l : layout) (data : bytes) (n : nat) :
  forall (i : Z) (key : bytes) (es : list Entry),
  BasePage.read_entries l false data n i key = Ok es ->
  Forall (fun e => ent_page e = Raise AttributeError) es.
Proof.
  induction n as [|n IH]; intros i key es E; cbn in E.
  - injection E as <-. constructor.
  - apply bind_ok in E. destruct E as (ent & Hent & E).
    apply bind_ok in E. destruct E as (rest & Hrest & E).
    injection E as <-. constructor.
    + exact (LeafEntry_init_kind _ _ _ _ _ Hent).
    + exact (IH _ _ _ Hrest).
Qed.

Lemma unpack_pair_count (l : layout) (data : bytes) (ofs p c : Z) :
  0 <= ofs -> unpack_pair (entfmt l) data ofs = Ok (p, c) -> 0 <= c < 2 ^ 16.
Proof.
  intros Hofs E. unfold unpack_pair in E.
  apply bind_ok in E. destruct E as (vs & Hvs & E).
  apply (unpack_from_inv _ _ Hofs) in Hvs. subst vs.
  destruct l; cbn [entfmt] in E;
    rewrite unpack_fields_at in E by lia;
    rewrite unpack_fields_at in E by (cbn [fmtsize]; lia);
    cbn [unpack_fields] in E;
    match type of E with
    | Ok (_, ?v) = _ => assert (Hc : c = v) by congruence
    end;
    rewrite Hc; change (2 ^ 16) with (256 ^ fmtsize fH);
    apply le_at_range; cbn; lia.
Qed.

(** X5. A page that [BasePage.__init__] has decoded holds as many entries
    as its [count] field says, fewer than [2^16].  [getkey] and [getval]
    answer for the indices from [-count] to [count - 1] (a negative index
    counts from the end, as Python's lists do) and raise [IndexError]
    for every other index.  On an index page [getpage] answers for every
    entry, and with [preceeding] for a negative index; on a leaf page
    [getpage] of an entry raises [AttributeError], since a leaf entry has
    no [page]. *)
Theorem page_decode_invariants (l : layout) (data : bytes) (pg : Page) :
  BasePage.init l data = Ok pg ->
  len (index pg) = count pg /\
  0 <= count pg < 2 ^ 16 /\
  (forall ix, - count pg <= ix < count pg ->
     exists e, BasePage.index_at pg ix = Ok e /\ In e (index pg) /\
               BasePage.getkey pg ix = Ok (ent_key e) /\
               BasePage.getval pg ix = Ok (ent_val e)) /\
  (forall ix, ix < - count pg \/ count pg <= ix ->
     BasePage.getkey pg ix = Raise IndexError /\
     BasePage.getval pg ix = Raise IndexError) /\
  (forall ix, ix < 0 -> BasePage.getpage pg ix = Ok (preceeding pg)) /\
  (BasePage.isindex pg = true ->
     forall ix, 0 <= ix < count pg -> exists nr, BasePage.getpage pg ix = Ok nr) /\
  (BasePage.isleaf pg = true ->
     forall ix, 0 <= ix < count pg -> BasePage.getpage pg ix = Raise AttributeError).
Proof.
  intros E.
  assert (Hkinds :
    (BasePage.isindex pg = true -> Forall (fun e => exists p, ent_page e = Ok p) (index pg)) /\
    (BasePage.isleaf pg = true -> Forall (fun e => ent_page e = Raise AttributeError) (index pg)) /\
    len (index pg) = count pg /\ 0 <= count pg < 2 ^ 16).
  { unfold BasePage.init in E.
    apply bind_ok in E. destruct E as ([prec cnt] & Hpc & E).
    apply bind_ok in E. destruct E as (es & Hes & E).
    apply bind_ok in E. destruct E as ([unk fp] & _ & E).
    injection E as <-.
    pose proof (unpack_pair_count l data 0 prec cnt ltac:(lia) Hpc) as Hc.
    unfold BasePage.isindex, BasePage.isleaf. cbn [preceeding index count].
    split; [|split; [|split]].
    - intros Hidx. rewrite Hidx in Hes. exact (read_entries_index _ _ _ _ _ Hes).
    - intros Hleaf. rewrite Hleaf in Hes. exact (read_entries_leaf_kind _ _ _ _ _ _ Hes).
    - unfold len. rewrite (read_entries_length _ _ _ _ _ _ _ Hes). lia.
    - exact Hc. }
  destruct Hkinds as (Hidx & Hleaf & Hlen & Hc).
  assert (Hat : forall ix, - count pg <= ix < count pg ->
            exists e, BasePage.index_at pg ix = Ok e /\ In e (index pg)).
  { intros ix Hix. unfold BasePage.index_at. rewrite Hlen.
    destruct (ix <? 0) eqn:Eix.
    - exists (entry_at (index pg) (ix + count pg)). split.
      + apply getitem_ok. lia.
      + apply entry_at_in. lia.
    - exists (entry_at (index pg) ix). split.
      + apply getitem_ok. lia.
      + apply entry_at_in. lia. }
  assert (Hout : forall ix, ix < - count pg \/ count pg <= ix ->
            BasePage.index_at pg ix = Raise IndexError).
  { intros ix Hix. unfold BasePage.index_at, getitem. rewrite Hlen.
    destruct (ix <? 0) eqn:Eix.
    - destruct (ix + count pg <? 0) eqn:E2; [reflexivity|lia].
    - destruct (ix <? 0) eqn:E2; [discriminate|].
      destruct (nth_error (index pg) (Z.to_nat ix)) eqn:En; [|reflexivity].
      exfalso. assert (Hn : nth_error (index pg) (Z.to_nat ix) <> None) by congruence.
      apply nth_error_Some in Hn. unfold len in Hlen. lia. }
  split; [exact Hlen|]. split; [exact Hc|].
  split; [|split; [|split; [|split]]].
  - intros ix Hix. destruct (Hat ix Hix) as (e & He & Hin).
    exists e. unfold BasePage.getkey, BasePage.getval. rewrite He. cbn [bind].
    repeat split; try reflexivity; assumption.
  - intros ix Hix. unfold BasePage.getkey, BasePage.getval.
    rewrite (Hout ix Hix). split; reflexivity.
  - intros ix Hix. unfold BasePage.getpage.
    destruct (ix <? 0) eqn:Eix; [reflexivity|lia].
  - intros Hi ix Hix. unfold BasePage.getpage.
    destruct (ix <? 0) eqn:Eix; [lia|].
    destruct (Hat ix ltac:(lia)) as (e & He & Hin). rewrite He. cbn [bind].
    rewrite Forall_forall in Hidx. exact (Hidx Hi e Hin).
  - intros Hl ix Hix. unfold BasePage.getpage.
    destruct (ix <? 0) eqn:Eix; [lia|].
    destruct (Hat ix ltac:(lia)) as (e & He & Hin). rewrite He. cbn [bind].
    rewrite Forall_forall in Hleaf. exact (Hleaf Hl e Hin).
Qed.

Lemma page_decode_invariants_witness :
  len (index Example10.root) = 2 /\
  BasePage.getkey Example10.root (-1) = Ok (b "h") /\
  BasePage.getkey Example10.root 2 = Raise IndexError.
Proof.
  assert (E : BasePage.init Page16 (slice (f_data Fixture.file10) 128 256)
              = Ok Example10.root) by (vm_compute; reflexivity).
  destruct (page_decode_invariants Page16 _ _ E) as (H1 & _ & H3 & H4 & _).
  split; [exact H1|]. split.
  - destruct (H3 (-1) ltac:(vm_compute; split; [discriminate|reflexivity]))
      as (e & He & _ & Hk & _).
    rewrite Hk. vm_compute in He. injection He as <-. reflexivity.
  - apply (H4 2). right. vm_compute. discriminate.
Defined.

(** ** Opening a b-tree *)

Lemma startswith_len (d p : bytes) : BTree.startswith d p = true -> len p <= len d.
Proof.
  unfold BTree.startswith. intros E. apply bytes_eqb_eq in E.
  rewrite <- E at 1. rewrite len_firstn. lia.
Qed.

(** X6. [BTree(fh)] on a plain file looks at the first 64 bytes.  When
    they carry one of the three signatures it succeeds, with the header
    fields read from fixed offsets (the signature lies behind them, so
    they are always there); otherwise it raises
    [Exception("unknown b-tree")].  It never raises [struct.error]. *)
Theorem btree_open (f : File) :
  let data := slice (f_data f) 0 64 in
  let f' := mkFile (f_data f) (len data) in
  BTree.init f =
    if BTree.startswith (slice_from data 13) (b "B-tree v 1.5 (C) Pol 1990") then
      Ok (BTree.mk f' (le_at data 0 2) (le_at data 2 2) (le_at data 4 2)
            (le_at data 6 4) (le_at data 10 2) Page15 15)
    else if BTree.startswith (slice_from data 19) (b "B-tree v 1.6 (C) Pol 1990") then
      Ok (BTree.mk f' (le_at data 0 4) (le_at data 4 2) (le_at data 6 4)
            (le_at data 10 4) (le_at data 14 4) Page16 16)
    else if BTree.startswith (slice_from data 19) (b "B-tree v2") then
      Ok (BTree.mk f' (le_at data 0 4) (le_at data 4 2) (le_at data 6 4)
            (le_at data 10 4) (le_at data 14 4) Page20 20)
    else Raise (PyException "unknown b-tree").
Proof.
  intros data f'. unfold BTree.init.
  cbn [fl_seek fl_read File_FileLike]. unfold RawFile.seek, RawFile.read.
  cbn [Z.eqb Z.ltb Z.compare f_data f_pos bind Z.add].
  fold data. fold f'.
  destruct (BTree.startswith (slice_from data 13) (b "B-tree v 1.5 (C) Pol 1990")) eqn:E15.
  { apply startswith_len in E15. unfold slice_from in E15. rewrite len_skipn in E15.
    change (len (b "B-tree v 1.5 (C) Pol 1990")) with 25 in E15.
    rewrite unpack_from_ok by (try lia; change (calcsize [fH; fH; fH; fL; fH]) with 12; lia).
    unpack_all. reflexivity. }
  destruct (BTree.startswith (slice_from data 19) (b "B-tree v 1.6 (C) Pol 1990")) eqn:E16.
  { apply startswith_len in E16. unfold slice_from in E16. rewrite len_skipn in E16.
    change (len (b "B-tree v 1.6 (C) Pol 1990")) with 25 in E16.
    rewrite unpack_from_ok by (try lia; change (calcsize [fL; fH; fL; fL; fL]) with 18; lia).
    unpack_all. reflexivity. }
  destruct (BTree.startswith (slice_from data 19) (b "B-tree v2")) eqn:E20.
  { apply startswith_len in E20. unfold slice_from in E20. rewrite len_skipn in E20.
    change (len (b "B-tree v2")) with 9 in E20.
    rewrite unpack_from_ok by (try lia; change (calcsize [fL; fH; fL; fL; fL]) with 18; lia).
    unpack_all. reflexivity. }
  reflexivity.
Qed.

(** ** A b-tree in a window *)

Lemma slice_slice {A : Type} (d : list A) (s e a c : Z) :
  0 <= s -> 0 <= a ->
  slice (slice d s e) a c = slice d (s + a) (s + a + Z.min (c - a) (e - s - a)).
Proof.
  intros Hs Ha. unfold slice.
  rewrite skipn_firstn_comm, firstn_firstn, skipn_skipn.
  f_equal; [|f_equal]; lia.
Qed.

Lemma slice_empty {A : Type} (d : list A) (a c : Z) : c <= a -> slice d a c = [].
Proof.
  intros H. unfold slice. replace (Z.to_nat (c - a)) with O by lia. reflexivity.
Qed.

(** [seek(p)] on a window, whatever its position and that of its
    parent. *)
Lemma window_seek (w : FileSection.t) (p : Z) :
  0 <= FileSection.start w ->
  FileSection.seek w p [] =
    if (0 <=? p) && (p <=? FileSection.end_ w - FileSection.start w)
    then (Ok tt, FileSection.mk (mkFile (f_data (FileSection.fh w)) (p + FileSection.start w))
                   (FileSection.start w) (FileSection.end_ w) p)
    else (Raise (PyException "illegal offset"), w).
Proof.
  intros Hs. unfold FileSection.seek, FileSection.isvalidpos. cbn [Z.eqb].
  destruct ((0 <=? p) && (p <=? FileSection.end_ w - FileSection.start w)) eqn:E;
    cbn [negb]; [|reflexivity].
  apply andb_true_iff in E. destruct E as [E1 E2].
  rewrite FileSectionFacts.reposition_ok by (cbn; lia). reflexivity.
Qed.

(** [read(n)] on a window whose parent stands where the window does. *)
Lemma window_read (d : bytes) (s e p n : Z) :
  0 <= s -> 0 <= p ->
  fst (FileSection.read (FileSection.mk (mkFile d (p + s)) s e p) n)
  = Ok (slice (slice d s e) p (p + n)).
Proof.
  intros Hs Hp. unfold FileSection.read.
  cbn [FileSection.end_ FileSection.start FileSection.curpos FileSection.fh].
  rewrite (slice_slice d s e p (p + n) Hs Hp).
  replace (p + n - p) with n by lia.
  destruct (Z.min n (e - s - p) <=? 0) eqn:E.
  - cbn [fst]. rewrite slice_empty by lia. reflexivity.
  - unfold RawFile.read. cbn [f_data f_pos].
    destruct (Z.min n (e - s - p) <? 0) eqn:E2; [lia|]. cbn [fst].
    replace (p + s) with (s + p) by lia. reflexivity.
Qed.

(** X7. A b-tree opened on a window reads page [nr] from the bytes of the
    window, at [nr * pagesize] from its start, wherever the window and the
    file under it were positioned before: the page is decoded from what
    the window holds from there on, [pagesize] bytes at most.  A page that
    starts outside the window is refused with
    [Exception("illegal offset")]. *)
Theorem readpage_in_window (db : BTree.t FileSection.t) (nr : Z) :
  let w := BTree.fh db in
  let window := slice (f_data (FileSection.fh w)) (FileSection.start w) (FileSection.end_ w) in
  let p := nr * BTree.pagesize db in
  0 <= FileSection.start w ->
  BTree.readpage db nr =
    if (0 <=? p) && (p <=? FileSection.end_ w - FileSection.start w)
    then BasePage.init (BTree.page db) (slice window p (p + BTree.pagesize db))
    else Raise (PyException "illegal offset").
Proof.
  intros w window p Hs. unfold BTree.readpage.
  cbn [fl_seek fl_read FileSection_FileLike]. fold w. fold p.
  rewrite (window_seek w p Hs).
  destruct ((0 <=? p) && (p <=? FileSection.end_ w - FileSection.start w)) eqn:E;
    [|reflexivity].
  apply andb_true_iff in E. destruct E as [E1 E2]. cbn [bind].
  pose proof (window_read (f_data (FileSection.fh w)) (FileSection.start w)
                (FileSection.end_ w) p (BTree.pagesize db) Hs ltac:(lia)) as Hr.
  destruct (FileSection.read _ _) as [r w']. cbn [fst] in Hr. subst r.
  cbn [bind]. reflexivity.
Qed.

(** ** The sections of a container *)

Lemma len_slice_in {A : Type} (d : list A) (a c : Z) :
  0 <= a -> a <= c -> c <= len d -> len (slice d a c) = c - a.
Proof.
  intros Ha Hc Hl. unfold slice. rewrite len_firstn, len_skipn. lia.
Qed.

Lemma unpack_two_at (c1 c2 : fmtchar) (data : bytes) (o : Z) :
  0 <= o -> o + fmtsize c1 + fmtsize c2 <= len data ->
  unpack_two [c1; c2] (slice data o (o + (fmtsize c1 + fmtsize c2)))
  = Ok (le_at data o (fmtsize c1), le_at data (o + fmtsize c1) (fmtsize c2)).
Proof.
  intros Ho Hl. unfold unpack_two, unpack.
  assert (H1 : 0 < fmtsize c1) by (destruct c1; cbn; lia).
  assert (H2 : 0 < fmtsize c2) by (destruct c2; cbn; lia).
  rewrite len_slice_in by lia. cbn [calcsize].
  replace (o + (fmtsize c1 + fmtsize c2) - o) with (fmtsize c1 + (fmtsize c2 + 0)) by lia.
  rewrite Z.eqb_refl. cbn [bind unpack_fields].
  unfold le_at, slice. rewrite firstn_firstn, skipn_firstn_comm, firstn_firstn, skipn_skipn.
  f_equal. f_equal.
  - f_equal. f_equal. lia.
  - f_equal. f_equal; [|f_equal]; lia.
Qed.

Lemma unpack_two_short (c1 c2 : fmtchar) (data : bytes) :
  len data < fmtsize c1 + fmtsize c2 -> unpack_two [c1; c2] data = Raise StructError.
Proof.
  intros Hl. unfold unpack_two, unpack. cbn [calcsize].
  destruct (len data =? fmtsize c1 + (fmtsize c2 + 0)) eqn:E; [lia|reflexivity].
Qed.

Lemma subscript_ok {A : Type} (l : list A) (i : Z) (d : A) :
  0 <= i < len l -> subscript l i = Ok (nth (Z.to_nat i) l d).
Proof.
  intros Hi. unfold subscript. destruct (i <? 0) eqn:E; [lia|].
  apply getitem_ok. exact Hi.
Qed.

Lemma subscript_neg {A : Type} (l : list A) (i : Z) (d : A) :
  - len l <= i < 0 -> subscript l i = Ok (nth (Z.to_nat (i + len l)) l d).
Proof.
  intros Hi. unfold subscript. destruct (i <? 0) eqn:E; [|lia].
  apply getitem_ok. lia.
Qed.

Lemma subscript_out {A : Type} (l : list A) (i : Z) :
  i < - len l \/ len l <= i -> subscript l i = Raise IndexError.
Proof.
  intros Hi. unfold subscript, getitem.
  pose proof (len_nonneg l) as Hn.
  destruct (i <? 0) eqn:E.
  - destruct (i + len l <? 0) eqn:E2; [reflexivity|lia].
  - rewrite E. destruct (nth_error l (Z.to_nat i)) eqn:En; [|reflexivity].
    exfalso. assert (Hs : nth_error l (Z.to_nat i) <> None) by congruence.
    apply nth_error_Some in Hs. unfold len in *. lia.
Qed.

Section Container.
Variable idb : IDBFile.t.

Let data : bytes := f_data (IDBFile.fh idb).
Let hdr : Z := section_header idb.

(** [getsectioninfo] on a section whose header is in the file. *)
Lemma getsectioninfo_ok (ix o : Z) :
  0 <= ix < len (IDBFile.offsets idb) ->
  nth (Z.to_nat ix) (IDBFile.offsets idb) 0 = o -> 0 < o ->
  o + hdr <= len data ->
  IDBFile.getsectioninfo idb ix
  = (Ok (section_encoding idb o, o + hdr, section_size idb o),
     IDBFile.set_fh idb (mkFile data (o + hdr))).
Proof.
  intros Hix Ho Hpos Hl. unfold IDBFile.getsectioninfo.
  destruct ((0 <=? ix) && (ix <? len (IDBFile.offsets idb))) eqn:E;
    [|apply andb_false_iff in E; destruct E; lia].
  cbn [negb]. rewrite (subscript_ok _ ix 0 Hix), Ho.
  destruct (o =? 0) eqn:E0; [lia|].
  unfold RawFile.seek. cbn [Z.eqb]. destruct (o <? 0) eqn:E1; [lia|].
  unfold section_encoding, section_size. subst hdr. unfold section_header in *.
  fold data.
  destruct (IDBFile.fileversion idb <? 5) eqn:Ev; unfold RawFile.read; cbn [f_data f_pos].
  - destruct (5 <? 0) eqn:E5; [discriminate|]. fold data. cbn [bind].
    pose proof (unpack_two_at fB fL data o ltac:(lia) ltac:(cbn; lia)) as Hu.
    cbn [fmtsize] in Hu. change (1 + 4) with 5 in Hu. rewrite Hu.
    cbn [bind fmtsize]. rewrite len_slice_in by lia.
    replace (o + 5 - o) with 5 by lia. reflexivity.
  - destruct (9 <? 0) eqn:E9; [discriminate|]. fold data. cbn [bind].
    pose proof (unpack_two_at fB fQ data o ltac:(lia) ltac:(cbn; lia)) as Hu.
    cbn [fmtsize] in Hu. change (1 + 8) with 9 in Hu. rewrite Hu.
    cbn [bind fmtsize]. rewrite len_slice_in by lia.
    replace (o + 9 - o) with 9 by lia. reflexivity.
Qed.

(** [getsectioninfo] on a section whose header is cut by the end of the
    file. *)
Lemma getsectioninfo_short (ix o : Z) :
  0 <= ix < len (IDBFile.offsets idb) ->
  nth (Z.to_nat ix) (IDBFile.offsets idb) 0 = o -> 0 < o ->
  len data < o + hdr ->
  fst (IDBFile.getsectioninfo idb ix) = Raise StructError.
Proof.
  intros Hix Ho Hpos Hl. unfold IDBFile.getsectioninfo.
  destruct ((0 <=? ix) && (ix <? len (IDBFile.offsets idb))) eqn:E;
    [|apply andb_false_iff in E; destruct E; lia].
  cbn [negb]. rewrite (subscript_ok _ ix 0 Hix), Ho.
  destruct (o =? 0) eqn:E0; [lia|].
  unfold RawFile.seek. cbn [Z.eqb]. destruct (o <? 0) eqn:E1; [lia|].
  subst hdr. unfold section_header in *. fold data.
  destruct (IDBFile.fileversion idb <? 5) eqn:Ev; unfold RawFile.read; cbn [f_data f_pos fst].
  - destruct (5 <? 0) eqn:E5; [discriminate|]. fold data. cbn [bind].
    rewrite unpack_two_short; [reflexivity|].
    pose proof (len_slice_le data o (o + 5)). unfold slice in *.
    rewrite len_firstn, len_skipn in *. cbn [fmtsize]. lia.
  - destruct (9 <? 0) eqn:E9; [discriminate|]. fold data. cbn [bind].
    rewrite unpack_two_short; [reflexivity|].
    unfold slice. rewrite len_firstn, len_skipn. cbn [fmtsize]. lia.
Qed.

End Container.

(** X8. [getpart(ix)] on a section that is present ([offsets[ix]] is not
    0), whose header lies in the file and says that the section is not
    encoded, returns a window on the bytes of the section, positioned at
    their start: a first [read(n)] returns the first [n] bytes of the
    section.  Later, wherever the window and the file object it shares
    with the container have been moved to, [seek(p)] followed by
    [read(n)] returns the bytes of the section from [p] on, [n] at most,
    for every [p] from 0 to the size of the section, and [seek(p)] is
    refused for any other [p].  The container keeps its offsets. *)
Theorem getpart_section (idb : IDBFile.t) (ix o : Z) :
  0 <= ix < len (IDBFile.offsets idb) ->
  nth (Z.to_nat ix) (IDBFile.offsets idb) 0 = o -> 0 < o ->
  o + section_header idb <= len (f_data (IDBFile.fh idb)) ->
  section_encoding idb o = 0 ->
  exists w idb',
    IDBFile.getpart idb ix = (Ok (PartSection w), idb') /\
    IDBFile.offsets idb' = IDBFile.offsets idb /\
    f_data (IDBFile.fh idb') = f_data (IDBFile.fh idb) /\
    FileSection.tell w = 0 /\
    FileSection.end_ w - FileSection.start w = section_size idb o /\
    (forall n, fst (FileSection.read w n) = Ok (slice (section_bytes idb o) 0 n)) /\
    (forall w' p n, same_window w w' -> 0 <= p <= section_size idb o ->
       exists w1, FileSection.seek w' p [] = (Ok tt, w1) /\
         fst (FileSection.read w1 n) = Ok (slice (section_bytes idb o) p (p + n))) /\
    (forall w' p, same_window w w' -> p < 0 \/ section_size idb o < p ->
       FileSection.seek w' p [] = (Raise (PyException "illegal offset"), w')).
Proof.
  intros Hix Ho Hpos Hl Hc.
  set (data := f_data (IDBFile.fh idb)) in *.
  set (hdr := section_header idb) in *.
  set (size := section_size idb o).
  assert (Hh : 0 < hdr) by (subst hdr; unfold section_header; destruct (_ <? 5); lia).
  exists (FileSection.mk (mkFile data (o + hdr)) (o + hdr) (o + hdr + size) 0).
  exists (IDBFile.set_fh idb (mkFile data (o + hdr))).
  split.
  { unfold IDBFile.getpart. rewrite (subscript_ok _ ix 0 Hix), Ho.
    destruct (o =? 0) eqn:E0; [lia|].
    rewrite (getsectioninfo_ok idb ix o Hix Ho Hpos Hl). rewrite Hc.
    unfold FileSection.init, RawFile.seek. cbn [Z.eqb IDBFile.fh IDBFile.set_fh f_data].
    fold hdr. destruct (o + hdr <? 0) eqn:E1; [lia|]. reflexivity. }
  split; [reflexivity|]. split; [reflexivity|]. split; [reflexivity|].
  split; [cbn; lia|].
  assert (Hsec : section_bytes idb o = slice data (o + hdr) (o + hdr + size)) by reflexivity.
  split; [|split].
  - intros n. rewrite Hsec.
    pose proof (window_read data (o + hdr) (o + hdr + size) 0 n ltac:(lia) ltac:(lia)) as Hr.
    cbn [Z.add] in Hr. exact Hr.
  - intros w' p n (Hd & Hs & He & _) Hp.
    cbn [FileSection.fh FileSection.start FileSection.end_ f_data] in Hd, Hs, He.
    rewrite (window_seek w' p) by (rewrite Hs; lia).
    rewrite Hs, He, Hd.
    destruct ((0 <=? p) && (p <=? o + hdr + size - (o + hdr))) eqn:E;
      [|apply andb_false_iff in E; destruct E; lia].
    eexists. split; [reflexivity|].
    rewrite Hsec. apply window_read; lia.
  - intros w' p (Hd & Hs & He & _) Hp.
    cbn [FileSection.fh FileSection.start FileSection.end_ f_data] in Hd, Hs, He.
    rewrite (window_seek w' p) by (rewrite Hs; lia).
    rewrite Hs, He.
    destruct ((0 <=? p) && (p <=? o + hdr + size - (o + hdr))) eqn:E; [|reflexivity].
    apply andb_true_iff in E. destruct E. lia.
Qed.

Lemma getpart_section_witness :
  exists w idb',
    IDBFile.getpart FixtureContainer.idb 1 = (Ok (PartSection w), idb') /\
    fst (FileSection.read w 4) = Ok (b "abcd") /\
    (exists w1, FileSection.seek w 2 [] = (Ok tt, w1) /\
                fst (FileSection.read w1 100) = Ok (b "cdef")).
Proof.
  destruct (getpart_section FixtureContainer.idb 1 FixtureContainer.id1_ofs)
    as (w & idb' & Hg & _ & _ & Ht & Hsz & Hr & Hs & _).
  - vm_compute. split; [discriminate|reflexivity].
  - vm_compute. reflexivity.
  - vm_compute. reflexivity.
  - vm_compute. discriminate.
  - vm_compute. reflexivity.
  - exists w, idb'. split; [exact Hg|]. split.
    + rewrite Hr. vm_compute. reflexivity.
    + destruct (Hs w 2 100) as (w1 & H1 & H2).
      * split; [reflexivity|]. split; [reflexivity|]. split; [reflexivity|].
        unfold FileSection.tell in Ht. rewrite Ht, Hsz.
        vm_compute. split; discriminate.
      * vm_compute. split; discriminate.
      * exists w1. split; [exact H1|]. rewrite H2. vm_compute. reflexivity.
Defined.

(** X9. When [getpart(ix)] gives no window on the section.  An index
    outside [-len(offsets) .. len(offsets) - 1] raises [IndexError]; an
    offset of 0 gives [None].  A negative index reads the offset from the
    end of the list, but [getsectioninfo] does not accept it: when that
    offset is not 0 the window returned is empty and every [read] on it
    returns [b""].  For a section that is present, a header cut by the
    end of the file raises [struct.error], and an encoding other than 0
    and 2 raises [Exception("unsupported section encoding: ..")]; the
    encoding 2 gives a [CompressedStream], whose [read] returns [b""]. *)
Theorem getpart_unavailable (idb : IDBFile.t) (ix : Z) :
  let n := len (IDBFile.offsets idb) in
  let data := f_data (IDBFile.fh idb) in
  (ix < - n \/ n <= ix -> IDBFile.getpart idb ix = (Raise IndexError, idb)) /\
  (subscript (IDBFile.offsets idb) ix = Ok 0 ->
   IDBFile.getpart idb ix = (Ok PartNone, idb)) /\
  (forall o, - n <= ix < 0 -> subscript (IDBFile.offsets idb) ix = Ok o -> o <> 0 ->
   exists w,
     IDBFile.getpart idb ix = (Ok (PartSection w), IDBFile.set_fh idb (mkFile data 0)) /\
     FileSection.start w = 0 /\ FileSection.end_ w = 0 /\
     forall w' size, same_window w w' -> fst (FileSection.read w' size) = Ok []) /\
  (forall o, 0 <= ix < n -> subscript (IDBFile.offsets idb) ix = Ok o -> 0 < o ->
   (len data < o + section_header idb ->
    fst (IDBFile.getpart idb ix) = Raise StructError) /\
   (o + section_header idb <= len data ->
    section_encoding idb o <> 0 -> section_encoding idb o <> 2 ->
    fst (IDBFile.getpart idb ix)
    = Raise (PyException ("unsupported section encoding: "
                          ++ fmt_x 2 (section_encoding idb o)))) /\
   (o + section_header idb <= len data -> section_encoding idb o = 2 ->
    exists s, fst (IDBFile.getpart idb ix) = Ok (PartCompressed s) /\
              forall s' size, fst (CompressedStream.read s' size) = Ok [])).
Proof.
  intros n data. split; [|split; [|split]].
  - intros Hix. unfold IDBFile.getpart. rewrite subscript_out by (fold n; lia). reflexivity.
  - intros Hs. unfold IDBFile.getpart. rewrite Hs. reflexivity.
  - intros o Hix Hs Hne.
    exists (FileSection.mk (mkFile data 0) 0 0 0).
    split; [|split; [reflexivity|split; [reflexivity|]]].
    + unfold IDBFile.getpart. rewrite Hs.
      destruct (o =? 0) eqn:E0; [lia|].
      unfold IDBFile.getsectioninfo.
      destruct ((0 <=? ix) && (ix <? len (IDBFile.offsets idb))) eqn:E.
      { apply andb_true_iff in E. destruct E. lia. }
      cbn [negb]. unfold FileSection.init, RawFile.seek. cbn. reflexivity.
    + intros w' size (Hd & Hst & He & Hc).
      cbn [FileSection.start FileSection.end_] in Hst, He.
      unfold FileSection.read. rewrite Hst, He in *.
      destruct (Z.min size (0 - 0 - FileSection.curpos w') <=? 0) eqn:E; [reflexivity|lia].
  - intros o Hix Hs Hpos.
    rewrite (subscript_ok _ ix 0 Hix) in Hs. injection Hs as Ho.
    split; [|split].
    + intros Hl. unfold IDBFile.getpart. rewrite (subscript_ok _ ix 0 Hix), Ho.
      destruct (o =? 0) eqn:E0; [lia|].
      pose proof (getsectioninfo_short idb ix o Hix Ho Hpos Hl) as Hi.
      destruct (IDBFile.getsectioninfo idb ix) as [r idb1]. cbn [fst] in Hi. subst r.
      reflexivity.
    + intros Hl H0 H2. unfold IDBFile.getpart. rewrite (subscript_ok _ ix 0 Hix), Ho.
      destruct (o =? 0) eqn:E0; [lia|].
      rewrite (getsectioninfo_ok idb ix o Hix Ho Hpos Hl).
      unfold FileSection.init, RawFile.seek. cbn [Z.eqb IDBFile.fh IDBFile.set_fh f_data].
      assert (Hh : 0 < section_header idb)
        by (unfold section_header; destruct (_ <? 5); lia).
      destruct (o + section_header idb <? 0) eqn:E1; [lia|].
      destruct (section_encoding idb o =? 2) eqn:E2; [lia|].
      destruct (section_encoding idb o =? 0) eqn:E3; [lia|]. reflexivity.
    + intros Hl H2. unfold IDBFile.getpart. rewrite (subscript_ok _ ix 0 Hix), Ho.
      destruct (o =? 0) eqn:E0; [lia|].
      rewrite (getsectioninfo_ok idb ix o Hix Ho Hpos Hl).
      unfold FileSection.init, RawFile.seek. cbn [Z.eqb IDBFile.fh IDBFile.set_fh f_data].
      assert (Hh : 0 < section_header idb)
        by (unfold section_header; destruct (_ <? 5); lia).
      destruct (o + section_header idb <? 0) eqn:E1; [lia|].
      rewrite H2. cbn [Z.eqb Pos.eqb fst]. eexists. split; [reflexivity|].
      intros s' size. reflexivity.
Qed.

Lemma getpart_unavailable_witness :
  IDBFile.getpart FixtureContainer.idb 6 = (Raise IndexError, FixtureContainer.idb) /\
  IDBFile.getpart FixtureContainer.idb 4 = (Ok PartNone, FixtureContainer.idb) /\
  fst (IDBFile.getpart FixtureContainer.idb 3)
  = Raise (PyException "unsupported section encoding: 01") /\
  (exists w, fst (IDBFile.getpart FixtureContainer.idb (-1)) = Ok (PartSection w) /\
             FileSection.end_ w = 0).
Proof.
  pose proof (getpart_unavailable FixtureContainer.idb 6) as (H6 & _).
  pose proof (getpart_unavailable FixtureContainer.idb 4) as (_ & H4 & _).
  pose proof (getpart_unavailable FixtureContainer.idb 3) as (_ & _ & _ & H3).
  pose proof (getpart_unavailable FixtureContainer.idb (-1)) as (_ & _ & Hm & _).
  split; [apply H6; right; vm_compute; discriminate|].
  split; [apply H4; vm_compute; reflexivity|].
  split.
  - destruct (H3 FixtureContainer.seg_ofs) as (_ & Hu & _).
    + vm_compute. split; [discriminate|reflexivity].
    + vm_compute. reflexivity.
    + vm_compute. reflexivity.
    + rewrite Hu; vm_compute; try reflexivity; discriminate.
  - destruct (Hm FixtureContainer.id0_ofs) as (w & Hw & _ & He & _).
    + vm_compute. split; [discriminate|reflexivity].
    + vm_compute. reflexivity.
    + vm_compute. discriminate.
    + exists w. rewrite Hw. split; [reflexivity|exact He].
Defined.

(** [getpart] on a section whose header is in the file. *)
Lemma getpart_present (idb : IDBFile.t) (ix o : Z) :
  0 <= ix < len (IDBFile.offsets idb) ->
  nth (Z.to_nat ix) (IDBFile.offsets idb) 0 = o -> 0 < o ->
  o + section_header idb <= len (f_data (IDBFile.fh idb)) ->
  let data := f_data (IDBFile.fh idb) in
  let s := o + section_header idb in
  let w := FileSection.mk (mkFile data s) s (s + section_size idb o) 0 in
  IDBFile.getpart idb ix
  = (if section_encoding idb o =? 2 then Ok (PartCompressed (CompressedStream.init w))
     else if section_encoding idb o =? 0 then Ok (PartSection w)
     else Raise (PyException ("unsupported section encoding: "
                              ++ fmt_x 2 (section_encoding idb o))),
     IDBFile.set_fh idb (mkFile data s)).
Proof.
  intros Hix Ho Hpos Hl data s w.
  unfold IDBFile.getpart. rewrite (subscript_ok _ ix 0 Hix), Ho.
  destruct (o =? 0) eqn:E0; [lia|].
  rewrite (getsectioninfo_ok idb ix o Hix Ho Hpos Hl).
  unfold FileSection.init, RawFile.seek. cbn [Z.eqb IDBFile.fh IDBFile.set_fh f_data].
  assert (Hh : 0 < section_header idb)
    by (unfold section_header; destruct (_ <? 5); lia).
  fold s. destruct (s <? 0) eqn:E1; [lia|].
  fold data. fold w.
  destruct (section_encoding idb o =? 2); [reflexivity|].
  destruct (section_encoding idb o =? 0); reflexivity.
Qed.

(** X10. A section that is absent or compressed cannot be opened.  When
    its offset is 0, [getsection(ID0File)] and [getsection(ID1File)] hand
    [None] to the class, whose constructor raises [AttributeError] on
    [fh.seek(0)].  When its encoding is 2 they read through a
    [CompressedStream], which gives no bytes: [ID0File] raises
    [Exception("unknown b-tree")] and [ID1File] raises
    [Exception("unknown id1 magic: b''")]. *)
Theorem getsection_unreadable (idb : IDBFile.t) (ix : Z) :
  0 <= ix < len (IDBFile.offsets idb) ->
  let o := nth (Z.to_nat ix) (IDBFile.offsets idb) 0 in
  (o = 0 ->
   IDBFile.getsection idb ix (@ID0File.new part _) = Raise AttributeError /\
   IDBFile.getsection idb ix (@ID1File.new part _) = Raise AttributeError) /\
  (0 < o -> o + section_header idb <= len (f_data (IDBFile.fh idb)) ->
   section_encoding idb o = 2 ->
   IDBFile.getsection idb ix (@ID0File.new part _) = Raise (PyException "unknown b-tree") /\
   IDBFile.getsection idb ix (@ID1File.new part _)
   = Raise (PyException "unknown id1 magic: b''")).
Proof.
  intros Hix o. split.
  - intros Ho. unfold IDBFile.getsection, IDBFile.getpart.
    rewrite (subscript_ok _ ix 0 Hix). fold o. rewrite Ho. cbn [Z.eqb bind].
    split.
    + unfold ID0File.new, ID0File.init, BTree.init. cbn. reflexivity.
    + unfold ID1File.new, ID1File.init.
      match goal with
      | |- context [bytes_eqb ?m (b "IDA2")] => destruct (bytes_eqb m (b "IDA2"))
      end; cbn; reflexivity.
  - intros Hpos Hl Hc. unfold IDBFile.getsection.
    rewrite (getpart_present idb ix o Hix eq_refl Hpos Hl). rewrite Hc.
    cbn [Z.eqb Pos.eqb bind]. split.
    + unfold ID0File.new, ID0File.init, BTree.init. cbn. reflexivity.
    + unfold ID1File.new, ID1File.init.
      match goal with
      | |- context [bytes_eqb ?m (b "IDA2")] => destruct (bytes_eqb m (b "IDA2"))
      end; cbn; reflexivity.
Qed.

Lemma getsection_unreadable_witness :
  IDBFile.getsection FixtureContainer.idb 4 (@ID0File.new part _) = Raise AttributeError /\
  IDBFile.getsection FixtureContainer.idb 2 (@ID0File.new part _)
  = Raise (PyException "unknown b-tree").
Proof.
  split.
  - apply (getsection_unreadable FixtureContainer.idb 4).
    + vm_compute. split; [discriminate|reflexivity].
    + vm_compute. reflexivity.
  - apply (getsection_unreadable FixtureContainer.idb 2).
    + vm_compute. split; [discriminate|reflexivity].
    + vm_compute. reflexivity.
    + vm_compute. discriminate.
    + vm_compute. reflexivity.
Defined.

Lemma readpage_in_window_witness :
  BTree.readpage FixtureContainer.id0_tree 2 = Ok Example10.leaf2 /\
  BTree.readpage FixtureContainer.id0_tree 6 = Raise (PyException "illegal offset").
Proof.
  assert (Hs : 0 <= FileSection.start (BTree.fh FixtureContainer.id0_tree))
    by (vm_compute; discriminate).
  split.
  - rewrite (readpage_in_window FixtureContainer.id0_tree 2 Hs). vm_compute. reflexivity.
  - rewrite (readpage_in_window FixtureContainer.id0_tree 6 Hs). vm_compute. reflexivity.
Defined.

(** ** A database read through its container *)

Lemma btree_init_same {F G : Type} `{FileLike F} `{FileLike G}
    (f f1 f2 : F) (g g1 g2 : G) (data : bytes) :
  fl_seek f 0 [] = (Ok tt, f1) -> fl_read f1 64 = (Ok data, f2) ->
  fl_seek g 0 [] = (Ok tt, g1) -> fl_read g1 64 = (Ok data, g2) ->
  BTree.init g = match BTree.init f with
                 | Ok db => Ok (with_fh db g2)
                 | Raise e => Raise e
                 | OutOfFuel => OutOfFuel
                 end.
Proof.
  intros Hf1 Hf2 Hg1 Hg2. unfold BTree.init.
  rewrite Hf1, Hf2, Hg1, Hg2. cbn [bind].
  repeat match goal with
  | |- context [if BTree.startswith ?x ?y then _ else _] =>
      destruct (BTree.startswith x y)
  end; try reflexivity;
  match goal with
  | |- context [unpack_from ?fmt data 0] =>
      destruct (unpack_from fmt data 0) as [h| |]; cbn [bind]; try reflexivity
  end;
  destruct h as [|a1 [|a2 [|a3 [|a4 [|a5 [|a6 h]]]]]]; reflexivity.
Qed.

Lemma btree_init_pagesize {F : Type} `{FileLike F} (f : F) (db : BTree.t F) :
  BTree.init f = Ok db -> 0 <= BTree.pagesize db.
Proof.
  unfold BTree.init.
  destruct (fl_seek f 0 []) as [r f1]. destruct r as [[]| |]; cbn [bind]; try discriminate.
  destruct (fl_read f1 64) as [r f2]. destruct r as [data| |]; cbn [bind]; try discriminate.
  repeat match goal with
  | |- context [if BTree.startswith ?x ?y then _ else _] =>
      destruct (BTree.startswith x y)
  end; try discriminate;
  intros E; apply bind_ok in E; destruct E as (h & Hh & E);
  apply unpack_from_inv in Hh; try lia; subst h;
  cbn [unpack_fields] in E; injection E as <-; cbn [BTree.pagesize];
  apply le_int_range.
Qed.

Lemma read_keeps (w : FileSection.t) (n : Z) :
  f_data (FileSection.fh (snd (FileSection.read w n))) = f_data (FileSection.fh w) /\
  FileSection.start (snd (FileSection.read w n)) = FileSection.start w /\
  FileSection.end_ (snd (FileSection.read w n)) = FileSection.end_ w.
Proof.
  unfold FileSection.read.
  destruct (Z.min n (FileSection.end_ w - FileSection.start w - FileSection.curpos w) <=? 0);
    cbn; repeat split; reflexivity.
Qed.

(** [readpage] through a window handed out by [getpart]. *)
Lemma readpage_part (db : BTree.t part) (w : FileSection.t) (nr : Z) :
  BTree.fh db = PartSection w -> 0 <= FileSection.start w ->
  let p := nr * BTree.pagesize db in
  BTree.readpage db nr =
    if (0 <=? p) && (p <=? FileSection.end_ w - FileSection.start w)
    then BasePage.init (BTree.page db)
           (slice (slice (f_data (FileSection.fh w)) (FileSection.start w) (FileSection.end_ w))
              p (p + BTree.pagesize db))
    else Raise (PyException "illegal offset").
Proof.
  intros Hfh Hs p. unfold BTree.readpage. rewrite Hfh.
  cbn [fl_seek fl_read part_FileLike part_seek]. fold p.
  rewrite (window_seek w p Hs).
  destruct ((0 <=? p) && (p <=? FileSection.end_ w - FileSection.start w)) eqn:E;
    [|reflexivity].
  apply andb_true_iff in E. destruct E as [E1 E2]. cbn [bind part_read].
  pose proof (window_read (f_data (FileSection.fh w)) (FileSection.start w)
                (FileSection.end_ w) p (BTree.pagesize db) Hs ltac:(lia)) as Hr.
  destruct (FileSection.read _ _) as [r w']. cbn [fst] in Hr. subst r.
  cbn [bind]. reflexivity.
Qed.

(** [readpage] on a plain file. *)
Lemma readpage_file (db : BTree.t File) (nr : Z) :
  0 <= BTree.pagesize db ->
  let p := nr * BTree.pagesize db in
  BTree.readpage db nr =
    if p <? 0 then Raise OSError
    else BasePage.init (BTree.page db) (slice (f_data (BTree.fh db)) p (p + BTree.pagesize db)).
Proof.
  intros Hps p. unfold BTree.readpage.
  cbn [fl_seek fl_read File_FileLike]. fold p. unfold RawFile.seek. cbn [Z.eqb].
  destruct (p <? 0) eqn:E; [reflexivity|]. cbn [bind].
  unfold RawFile.read. cbn [f_data f_pos].
  destruct (BTree.pagesize db <? 0) eqn:E2; [lia|]. reflexivity.
Qed.

Lemma page_of_nothing (l : layout) : BasePage.init l [] = Raise StructError.
Proof. destruct l; reflexivity. Qed.

Lemma slice_beyond {A : Type} (d : list A) (a c : Z) : len d <= a -> slice d a c = [].
Proof.
  intros H. unfold slice. rewrite skipn_all2 by (unfold len in H; lia).
  apply firstn_nil.
Qed.

Section SamePages.
Context {F G : Type} `{FileLike F} `{FileLike G}.
Variable db : BTree.t F.
Variable db' : BTree.t G.
Hypothesis Hsame : same_pages db db'.

Lemma same_readpage (nr : Z) :
  match BTree.readpage db nr with
  | Ok pg => BTree.readpage db' nr = Ok pg
  | _ => forall pg, BTree.readpage db' nr <> Ok pg
  end.
Proof.
  destruct Hsame as (_ & Hp).
  destruct (BTree.readpage db nr) as [pg| |] eqn:E.
  - apply Hp. exact E.
  - intros pg E'. apply Hp in E'. congruence.
  - intros pg E'. apply Hp in E'. congruence.
Qed.

Lemma same_shape (h : nat) : forall nr, shape db h nr <-> shape db' h nr.
Proof.
  induction h as [|h IH]; intros nr; cbn [shape];
    pose proof (same_readpage nr) as Hr;
    destruct (BTree.readpage db nr) as [pg| |].
  - rewrite Hr. reflexivity.
  - destruct (BTree.readpage db' nr) as [pg| |]; [|reflexivity|reflexivity].
    exfalso. exact (Hr pg eq_refl).
  - destruct (BTree.readpage db' nr) as [pg| |]; [|reflexivity|reflexivity].
    exfalso. exact (Hr pg eq_refl).
  - rewrite Hr. destruct (BasePage.isleaf pg); [reflexivity|].
    split; intros [H1 H2]; (split; [apply IH; exact H1|intros i Hi; apply IH; apply H2; exact Hi]).
  - destruct (BTree.readpage db' nr) as [pg| |]; [|reflexivity|reflexivity].
    exfalso. exact (Hr pg eq_refl).
  - destruct (BTree.readpage db' nr) as [pg| |]; [|reflexivity|reflexivity].
    exfalso. exact (Hr pg eq_refl).
Qed.

Lemma same_positions (h : nat) :
  forall nr ctx, positions db h nr ctx = positions db' h nr ctx.
Proof.
  induction h as [|h IH]; intros nr ctx; cbn [positions];
    pose proof (same_readpage nr) as Hr;
    destruct (BTree.readpage db nr) as [pg| |];
    try (rewrite Hr);
    try (destruct (BTree.readpage db' nr) as [pg| |];
         [exfalso; exact (Hr pg eq_refl)|reflexivity|reflexivity]).
  - reflexivity.
  - destruct (BasePage.isleaf pg); [reflexivity|].
    rewrite IH. f_equal. apply flat_map_ext. intros i. rewrite IH. reflexivity.
Qed.

Lemma same_well_formed (h : nat) : well_formed db h <-> well_formed db' h.
Proof.
  destruct Hsame as (Hf & _).
  unfold well_formed, keys. rewrite <- Hf, same_positions.
  split; intros [H1 H2]; (split; [apply same_shape; exact H1|exact H2]).
Qed.

Lemma same_records (h : nat) (nr : Z) : records db h nr = records db' h nr.
Proof. unfold records. rewrite same_positions. reflexivity. Qed.

End SamePages.

(** X11. An [id0] section that is present and not encoded reads through
    its container as its bytes would read in a file of their own.
    [getsection(ID0File)] succeeds exactly when [ID0File] opens on those
    bytes, and fails in the same way otherwise; the two databases have
    the same word size and node base, decode the same pages, are well
    formed together and hold the same records in the same order. *)
Theorem id0_through_container (idb : IDBFile.t) (o : Z) :
  0 < len (IDBFile.offsets idb) ->
  nth 0 (IDBFile.offsets idb) 0 = o -> 0 < o ->
  o + section_header idb <= len (f_data (IDBFile.fh idb)) ->
  section_encoding idb o = 0 ->
  match ID0File.new idb (mkFile (section_bytes idb o) 0) with
  | Ok alone =>
      exists id0,
        IDBFile.getsection idb ID0File.INDEX (@ID0File.new part _) = Ok id0 /\
        ID0File.wordsize id0 = ID0File.wordsize alone /\
        ID0File.nodebase id0 = ID0File.nodebase alone /\
        same_pages (ID0File.btree id0) (ID0File.btree alone) /\
        forall h,
          (well_formed (ID0File.btree id0) h <-> well_formed (ID0File.btree alone) h) /\
          db_records id0 h = db_records alone h
  | Raise e => IDBFile.getsection idb ID0File.INDEX (@ID0File.new part _) = Raise e
  | OutOfFuel => True
  end.
Proof.
  intros Hn Ho Hpos Hl Hc.
  set (d := f_data (IDBFile.fh idb)) in *.
  set (s := o + section_header idb) in *.
  set (size := section_size idb o).
  set (e := s + size).
  set (sec := section_bytes idb o).
  assert (Hsec : sec = slice d s e) by reflexivity.
  assert (Hh : 0 < section_header idb)
    by (unfold section_header; destruct (_ <? 5); lia).
  assert (Hsize : 0 <= size) by apply le_at_nonneg.
  set (w0 := FileSection.mk (mkFile d s) s e 0).
  set (w1 := FileSection.mk (mkFile d (0 + s)) s e 0).
  set (w2 := snd (FileSection.read w1 64)).
  assert (Hg : IDBFile.getsection idb ID0File.INDEX (@ID0File.new part _)
               = ID0File.init (IDBFile.magic idb) (PartSection w0)).
  { unfold IDBFile.getsection, ID0File.INDEX.
    rewrite (getpart_present idb 0 o ltac:(lia) Ho Hpos Hl). rewrite Hc.
    cbn [Z.eqb bind]. reflexivity. }
  assert (Hi : BTree.init (PartSection w0)
               = match BTree.init (mkFile sec 0) with
                 | Ok db => Ok (with_fh db (PartSection w2))
                 | Raise e => Raise e
                 | OutOfFuel => OutOfFuel
                 end).
  { apply (btree_init_same (mkFile sec 0) (mkFile sec 0) (mkFile sec (0 + len (slice sec 0 64)))
             (PartSection w0) (PartSection w1) (PartSection w2) (slice sec 0 64)).
    - reflexivity.
    - reflexivity.
    - cbn [fl_seek part_FileLike part_seek]. rewrite (window_seek w0 0) by (cbn; lia).
      unfold w0, w1. cbn [FileSection.start FileSection.end_ FileSection.fh f_data].
      destruct ((0 <=? 0) && (0 <=? e - s)) eqn:E;
        [reflexivity|apply andb_false_iff in E; destruct E; lia].
    - cbn [fl_read part_FileLike part_read].
      pose proof (window_read d s e 0 64 ltac:(lia) ltac:(lia)) as Hr.
      fold w1 in Hr. subst w2. destruct (FileSection.read w1 64) as [r w']. cbn [fst snd] in *.
      subst r. rewrite Hsec. reflexivity. }
  rewrite Hg. unfold ID0File.new, ID0File.init. rewrite Hi.
  destruct (BTree.init (mkFile sec 0)) as [db'| |] eqn:Ei; cbn [bind]; [|reflexivity|exact I].
  pose proof (btree_init_pagesize _ _ Ei) as Hps.
  assert (Hfile : f_data (BTree.fh db') = sec).
  { revert Ei. unfold BTree.init. cbn [fl_seek fl_read File_FileLike].
    unfold RawFile.seek, RawFile.read. cbn [Z.eqb Z.ltb Z.compare bind f_data f_pos].
    repeat match goal with
    | |- context [if BTree.startswith ?x ?y then _ else _] =>
        destruct (BTree.startswith x y)
    end; try discriminate;
    intros E; apply bind_ok in E; destruct E as (h & _ & E);
    destruct h as [|a1 [|a2 [|a3 [|a4 [|a5 [|a6 h]]]]]]; try discriminate;
    injection E as <-; reflexivity. }
  destruct (read_keeps w1 64) as (Hd2 & Hs2 & He2). fold w2 in Hd2, Hs2, He2.
  unfold w1 in Hd2 at 1, Hs2 at 1, He2 at 1.
  cbn [FileSection.fh FileSection.start FileSection.end_ f_data] in Hd2, Hs2, He2.
  assert (Hsame : same_pages (with_fh db' (PartSection w2)) db').
  { split; [reflexivity|]. intros nr pg.
    rewrite (readpage_part (with_fh db' (PartSection w2)) w2 nr eq_refl) by (rewrite Hs2; lia).
    rewrite (readpage_file db' nr Hps).
    cbn [with_fh BTree.pagesize BTree.page]. rewrite Hd2, Hs2, He2, Hfile, <- Hsec.
    set (p := nr * BTree.pagesize db').
    destruct (p <? 0) eqn:E0.
    - destruct ((0 <=? p) && (p <=? e - s)) eqn:E1;
        [apply andb_true_iff in E1; destruct E1; lia|].
      split; discriminate.
    - destruct ((0 <=? p) && (p <=? e - s)) eqn:E1; [reflexivity|].
      apply andb_false_iff in E1.
      assert (Hp : size < p) by (destruct E1; subst e; lia).
      rewrite slice_beyond, page_of_nothing; [split; discriminate|].
      pose proof (len_slice_le d s e) as Hle. rewrite <- Hsec in Hle. subst e. lia. }
  destruct (bytes_eqb (IDBFile.magic idb) (b "IDA2")).
  - eexists. split; [reflexivity|]. split; [reflexivity|]. split; [reflexivity|].
    cbn [ID0File.btree]. split; [exact Hsame|].
    intros h. split.
    + apply same_well_formed. exact Hsame.
    + unfold db_records. cbn [ID0File.btree].
      destruct Hsame as (Hf & Hp). rewrite Hf. apply same_records. split; assumption.
  - eexists. split; [reflexivity|]. split; [reflexivity|]. split; [reflexivity|].
    cbn [ID0File.btree]. split; [exact Hsame|].
    intros h. split.
    + apply same_well_formed. exact Hsame.
    + unfold db_records. cbn [ID0File.btree].
      destruct Hsame as (Hf & Hp). rewrite Hf. apply same_records. split; assumption.
Qed.

Lemma id0_through_container_witness :
  exists id0,
    IDBFile.getsection FixtureContainer.idb ID0File.INDEX (@ID0File.new part _) = Ok id0 /\
    db_records id0 1 = records Fixture.db10 1 1.
Proof.
  pose proof (id0_through_container FixtureContainer.idb FixtureContainer.id0_ofs) as Hw.
  assert (E : ID0File.new FixtureContainer.idb
                (mkFile (section_bytes FixtureContainer.idb FixtureContainer.id0_ofs) 0)
              = Ok (ID0File.mk Fixture.db10 4 0xFF000000))
    by (vm_compute; reflexivity).
  rewrite E in Hw.
  destruct Hw as (id0 & Hg & _ & _ & _ & Hr).
  - vm_compute. reflexivity.
  - vm_compute. reflexivity.
  - vm_compute. reflexivity.
  - vm_compute. discriminate.
  - vm_compute. reflexivity.
  - exists id0. split; [exact Hg|].
    destruct (Hr 1%nat) as (_ & Hrec). rewrite Hrec. vm_compute. reflexivity.
Defined.

(** ** The header of a container *)

Lemma In_firstn {A : Type} (n : nat) : forall (l : list A) (x : A), In x (firstn n l) -> In x l.
Proof.
  induction n as [|n IH]; intros [|y l] x Hx; cbn in Hx; try contradiction.
  destruct Hx as [->|Hx]; [left; reflexivity|right; apply IH; exact Hx].
Qed.

Lemma In_skipn {A : Type} (n : nat) : forall (l : list A) (x : A), In x (skipn n l) -> In x l.
Proof.
  induction n as [|n IH]; intros [|y l] x Hx; cbn in Hx; try contradiction.
  - exact Hx.
  - right. apply IH. exact Hx.
Qed.

Lemma unpack_fields_length (fmt : list fmtchar) :
  forall d, List.length (unpack_fields fmt d) = List.length fmt.
Proof. induction fmt as [|c fmt IH]; intros d; cbn; [reflexivity|]. rewrite IH. reflexivity. Qed.

Lemma unpack_fields_range (fmt : list fmtchar) :
  forall d v, In v (unpack_fields fmt d) -> 0 <= v < 2 ^ 64.
Proof.
  induction fmt as [|c fmt IH]; intros d v Hv; cbn [unpack_fields] in Hv; [contradiction|].
  destruct Hv as [<-|Hv]; [|exact (IH _ _ Hv)].
  pose proof (le_int_range (firstn (Z.to_nat (fmtsize c)) d)) as Hr.
  pose proof (len_nonneg (firstn (Z.to_nat (fmtsize c)) d)) as Hn.
  assert (Hl : len (firstn (Z.to_nat (fmtsize c)) d) <= 8)
    by (rewrite len_firstn; destruct c; cbn; lia).
  assert (Hp : 256 ^ len (firstn (Z.to_nat (fmtsize c)) d) <= 256 ^ 8)
    by (apply Z.pow_le_mono_r; lia).
  change (2 ^ 64) with (256 ^ 8). lia.
Qed.

(** X12. Every container that [IDBFile(fh)] accepts has one of the three
    magics, taken from the first four bytes of the file, and exactly six
    section offsets and six checksums, each of them an unsigned number
    below [2^64]; so [offsets[i]] and [checksums[i]] exist for [i] from 0
    to 5, whatever the version of the file.  The file version is 0 when
    the header does not carry [0xAABBCCDD] at offset 26, and the 16-bit
    number at offset 30 when it does. *)
Theorem idb_open_invariants (f : File) (idb : IDBFile.t) :
  IDBFile.init f = Ok idb ->
  let hdr := slice (f_data f) 0 256 in
  IDBFile.magic idb = slice hdr 0 4 /\
  IDBFile.valid_magic (IDBFile.magic idb) = true /\
  f_data (IDBFile.fh idb) = f_data f /\
  len (IDBFile.offsets idb) = 6 /\
  len (IDBFile.checksums idb) = 6 /\
  (forall v, In v (IDBFile.offsets idb) \/ In v (IDBFile.checksums idb) -> 0 <= v < 2 ^ 64) /\
  IDBFile.fileversion idb
  = (if le_at hdr 26 4 =? 0xaabbccdd then le_at hdr 30 2 else 0).
Proof.
  intros E hdr. destruct (header_read f) as [f' Hh].
  assert (Hf' : f_data f' = f_data f).
  { unfold IDBFile.header, RawFile.seek, RawFile.read in Hh. cbn in Hh.
    injection Hh as <-. reflexivity. }
  unfold IDBFile.init in E. rewrite Hh in E. fold hdr in E. cbn [bind] in E.
  destruct (IDBFile.valid_magic (slice hdr 0 4)) eqn:Hm; cbn [negb] in E; [|discriminate].
  apply bind_ok in E. destruct E as (values & Hv & E).
  pose proof (unpack_from_inv _ _ (ofs := 6) ltac:(lia) Hv) as Hvals.
  assert (Hlen : List.length values = 13%nat)
    by (rewrite Hvals, unpack_fields_length; reflexivity).
  assert (Hrange : forall v, In v values -> 0 <= v < 2 ^ 64)
    by (intros v; rewrite Hvals; apply unpack_fields_range).
  assert (H5 : IDBFile.item values 5 = le_at hdr 26 4 /\ IDBFile.item values 6 = le_at hdr 30 2).
  { rewrite Hvals. unpack_all. split; reflexivity. }
  destruct H5 as (H5 & H6). rewrite H5 in E.
  assert (Hitems : forall a c, forall v, In v (IDBFile.items values a c) -> 0 <= v < 2 ^ 64).
  { intros a c v Hin. apply Hrange. unfold IDBFile.items, slice in Hin.
    apply In_firstn in Hin. apply In_skipn in Hin. exact Hin. }
  assert (Hitems5 : forall a, 0 <= a -> a + 5 <= 13 -> len (IDBFile.items values a (a + 5)) = 5).
  { intros a Ha Ha'. unfold IDBFile.items. rewrite len_slice_in; unfold len; lia. }
  destruct (le_at hdr 26 4 =? 0xaabbccdd) eqn:Es; cbn [negb] in E.
  - rewrite H6 in E. destruct (le_at hdr 30 2 <? 5) eqn:E5.
    + apply bind_ok in E. destruct E as ([idsofs idscheck] & Hp & E).
      injection E as <-. cbn [IDBFile.magic IDBFile.fh IDBFile.offsets IDBFile.checksums
                              IDBFile.fileversion].
      assert (Hids : 0 <= idsofs < 2 ^ 64 /\ 0 <= idscheck < 2 ^ 64).
      { unfold unpack_pair in Hp. apply bind_ok in Hp. destruct Hp as (vs & Hvs & Hp).
        pose proof (unpack_from_inv _ _ (ofs := 56) ltac:(lia) Hvs) as Hvs'.
        destruct vs as [|x [|y [|z vs]]]; try discriminate. injection Hp as <- <-.
        split; apply (unpack_fields_range (if le_at hdr 30 2 =? 1 then [fL; fH] else [fL; fL])
                        (skipn (Z.to_nat 56) hdr)); rewrite <- Hvs'; cbn; auto. }
      split; [reflexivity|]. split; [exact Hm|]. split; [exact Hf'|].
      split; [unfold len; rewrite length_app; cbn [List.length];
              pose proof (Hitems5 0 ltac:(lia) ltac:(lia)) as Hl; unfold len in Hl;
              cbn [Z.add] in Hl; lia|].
      split; [unfold len; rewrite length_app; cbn [List.length];
              pose proof (Hitems5 8 ltac:(lia) ltac:(lia)) as Hl; unfold len in Hl;
              cbn [Z.add Pos.add Pos.succ] in Hl; lia|].
      split; [|reflexivity].
      intros v [Hin|Hin]; apply in_app_or in Hin; destruct Hin as [Hin|[<-|[]]];
        try (exact (Hitems _ _ _ Hin)); apply Hids.
    + apply bind_ok in E. destruct E as (values' & Hv' & E).
      pose proof (unpack_from_inv _ _ (ofs := 6) ltac:(lia) Hv') as Hvals'.
      injection E as <-. cbn [IDBFile.magic IDBFile.fh IDBFile.offsets IDBFile.checksums
                              IDBFile.fileversion].
      assert (Hitem : forall i, 0 <= IDBFile.item values' i < 2 ^ 64).
      { intros i. unfold IDBFile.item.
        destruct (nth_in_or_default i values' 0) as [Hin | ->]; [|lia].
        rewrite Hvals' in Hin |- *. exact (unpack_fields_range _ _ _ Hin). }
      split; [reflexivity|]. split; [exact Hm|]. split; [exact Hf'|].
      split; [reflexivity|]. split; [reflexivity|]. split; [|reflexivity].
      intros v [Hin|Hin]; cbn [In] in Hin;
        repeat (destruct Hin as [<-|Hin]; [apply Hitem|]); contradiction.
  - injection E as <-. cbn [IDBFile.magic IDBFile.fh IDBFile.offsets IDBFile.checksums
                            IDBFile.fileversion].
    split; [reflexivity|]. split; [exact Hm|]. split; [exact Hf'|].
    split; [unfold len; rewrite length_app; cbn [List.length];
            pose proof (Hitems5 0 ltac:(lia) ltac:(lia)) as Hl; unfold len in Hl;
            cbn [Z.add] in Hl; lia|].
    split; [reflexivity|]. split; [|reflexivity].
    intros v [Hin|Hin].
    + apply in_app_or in Hin. destruct Hin as [Hin|[<-|[]]]; [exact (Hitems _ _ _ Hin)|lia].
    + cbn [In] in Hin. repeat (destruct Hin as [<-|Hin]; [lia|]). contradiction.
Qed.

Lemma idb_open_invariants_witness :
  len (IDBFile.offsets FixtureContainer.idb) = 6 /\
  IDBFile.fileversion FixtureContainer.idb = 4.
Proof.
  assert (E : IDBFile.init FixtureContainer.container = Ok FixtureContainer.idb)
    by (vm_compute; reflexivity).
  destruct (idb_open_invariants _ _ E) as (_ & _ & _ & Ho & _ & _ & Hv).
  split; [exact Ho|]. rewrite Hv. vm_compute. reflexivity.
Defined.

Lemma unpack_from_short (fmt : list fmtchar) (data : bytes) (ofs : Z) :
  0 <= ofs -> len data - ofs < calcsize fmt -> unpack_from fmt data ofs = Raise StructError.
Proof.
  intros H1 H2. unfold unpack_from.
  destruct (ofs <? 0) eqn:E1; [lia|]. rewrite E1.
  destruct (len data - ofs <? calcsize fmt) eqn:E2; [reflexivity|lia].
Qed.

(** X13. A header without [0xAABBCCDD] at offset 26 is that of the oldest
    containers: the file version is 0, the first five offsets are the
    32-bit numbers stored at offsets 6 to 22, the sixth offset is 0 (no
    [id2] section), and all six checksums are 0. *)
Theorem header_without_sentinel (f : File) :
  let hdr := slice (f_data f) 0 256 in
  IDBFile.valid_magic (slice hdr 0 4) = true ->
  le_at hdr 26 4 <> 0xaabbccdd ->
  56 <= len hdr ->
  exists idb,
    IDBFile.init f = Ok idb /\
    IDBFile.fileversion idb = 0 /\
    IDBFile.offsets idb
    = [le_at hdr 6 4; le_at hdr 10 4; le_at hdr 14 4; le_at hdr 18 4; le_at hdr 22 4; 0] /\
    IDBFile.checksums idb = [0; 0; 0; 0; 0; 0].
Proof.
  intros hdr Hmagic Hsent Hlen.
  destruct (header_read f) as [f' Hh].
  unfold IDBFile.init. rewrite Hh. fold hdr. cbn [bind].
  rewrite Hmagic. cbn [negb].
  rewrite unpack_from_ok by (unfold calcsize, fmtsize; lia).
  unpack_all. cbn [bind IDBFile.item nth].
  destruct (le_at hdr 26 4 =? 2864434397) eqn:Es; [lia|]. cbn [negb].
  eexists. split; [reflexivity|].
  cbv [IDBFile.fileversion IDBFile.offsets IDBFile.checksums IDBFile.items slice
       firstn skipn app repeat Z.to_nat Z.sub Z.add Z.opp Z.pos_sub Pos.to_nat
       Pos.iter_op Nat.add Pos.pred_double Z.succ_double Z.pred_double Z.double].
  split; [reflexivity|]. split; reflexivity.
Qed.

Lemma header_without_sentinel_witness :
  exists idb,
    IDBFile.init (mkFile (b "IDA0" ++ Fixture.pad [x00; x00; x07; x01] 60) 0) = Ok idb /\
    IDBFile.fileversion idb = 0 /\
    IDBFile.offsets idb = [0x107; 0; 0; 0; 0; 0].
Proof.
  destruct (header_without_sentinel (mkFile (b "IDA0" ++ Fixture.pad [x00; x00; x07; x01] 60) 0))
    as (idb & Hi & Hv & Ho & _).
  - vm_compute. reflexivity.
  - vm_compute. discriminate.
  - vm_compute. discriminate.
  - exists idb. split; [exact Hi|]. split; [exact Hv|]. exact Ho.
Defined.

(** X14. A header with [0xAABBCCDD] at offset 26 and a file version of 5
    or more is decoded with the format [<QQLLHQQQQ5LQL] from offset 6.
    The offsets of [id0], [id1], [nam], [seg] and [til] are the 64-bit
    numbers stored at offsets 6, 14, 32, 40 and 48, and the offset of
    [id2] is the 32-bit number stored at offset 80; the first checksum is
    the 64-bit number stored at offset 56, the next four are the 32-bit
    numbers stored at offsets 64 to 76, and the last one is the 64-bit
    number stored at offset 84. *)
Theorem header_version_5_up (f : File) :
  let hdr := slice (f_data f) 0 256 in
  IDBFile.valid_magic (slice hdr 0 4) = true ->
  le_at hdr 26 4 = 0xaabbccdd ->
  5 <= le_at hdr 30 2 ->
  96 <= len hdr ->
  exists idb,
    IDBFile.init f = Ok idb /\
    IDBFile.fileversion idb = le_at hdr 30 2 /\
    IDBFile.offsets idb
    = [le_at hdr 6 8; le_at hdr 14 8; le_at hdr 32 8; le_at hdr 40 8; le_at hdr 48 8;
       le_at hdr 80 4] /\
    IDBFile.checksums idb
    = [le_at hdr 56 8; le_at hdr 64 4; le_at hdr 68 4; le_at hdr 72 4; le_at hdr 76 4;
       le_at hdr 84 8].
Proof.
  intros hdr Hmagic Hsent Hver Hlen.
  destruct (header_read f) as [f' Hh].
  unfold IDBFile.init. rewrite Hh. fold hdr. cbn [bind].
  rewrite Hmagic. cbn [negb].
  rewrite unpack_from_ok by (unfold calcsize, fmtsize; lia).
  unpack_all. cbn [bind IDBFile.item nth].
  rewrite Hsent. cbn [Z.eqb Pos.eqb negb].
  destruct (le_at hdr 30 2 <? 5) eqn:E5; [lia|].
  rewrite unpack_from_ok by (unfold calcsize, fmtsize; lia).
  unpack_all. cbn [bind IDBFile.item nth map].
  eexists. split; [reflexivity|].
  cbn [IDBFile.fileversion IDBFile.offsets IDBFile.checksums].
  split; [reflexivity|]. split; reflexivity.
Qed.

Lemma header_version_5_up_witness :
  exists idb,
    IDBFile.init FixtureIDB6.header_v6 = Ok idb /\
    IDBFile.fileversion idb = 6 /\
    IDBFile.offsets idb = [0x100; 0x200; 0x300; 0x400; 0x500; 0] /\
    IDBFile.checksums idb = [0x200000001; 3; 4; 5; 0x600; 7].
Proof.
  destruct (header_version_5_up FixtureIDB6.header_v6) as (idb & Hi & Hv & Ho & Hc).
  - vm_compute. reflexivity.
  - vm_compute. reflexivity.
  - vm_compute. discriminate.
  - vm_compute. discriminate.
  - exists idb. split; [exact Hi|]. split; [exact Hv|]. split; [exact Ho|exact Hc].
Defined.

(** X15. What makes [IDBFile(fh)] fail.  A file that does not start with
    [IDA0], [IDA1] or [IDA2] raises [Exception("invalid file magic")];
    with one of these magics, a header that stops before the fields that
    its version asks for raises [struct.error]: before byte 56 in any
    case, before byte 62 for version 1, before byte 64 for the versions
    2 to 4, and before byte 96 from version 5 on. *)
Theorem idb_open_errors (f : File) :
  let hdr := slice (f_data f) 0 256 in
  (IDBFile.valid_magic (slice hdr 0 4) = false ->
   IDBFile.init f = Raise (PyException "invalid file magic")) /\
  (IDBFile.valid_magic (slice hdr 0 4) = true ->
   (len hdr < 56 -> IDBFile.init f = Raise StructError) /\
   (le_at hdr 26 4 = 0xaabbccdd ->
    len hdr < (if le_at hdr 30 2 =? 1 then 62
               else if le_at hdr 30 2 <? 5 then 64 else 96) ->
    IDBFile.init f = Raise StructError)).
Proof.
  intros hdr. destruct (header_read f) as [f' Hh].
  unfold IDBFile.init. rewrite Hh. fold hdr. cbn [bind].
  split.
  - intros ->. reflexivity.
  - intros ->. cbn [negb].
    assert (Hshort : len hdr < 56 ->
              unpack_from [fL; fL; fL; fL; fL; fL; fH; fL; fL; fL; fL; fL; fL] hdr 6
              = Raise StructError).
    { intros Hl. apply unpack_from_short; [lia|]. unfold calcsize, fmtsize. lia. }
    split.
    + intros Hl. rewrite (Hshort Hl). reflexivity.
    + intros Hsent Hl.
      destruct (Z_lt_ge_dec (len hdr) 56) as [H56|H56]; [rewrite (Hshort H56); reflexivity|].
      rewrite unpack_from_ok by (unfold calcsize, fmtsize; lia).
      unpack_all. cbn [bind IDBFile.item nth].
      rewrite Hsent. cbn [Z.eqb Pos.eqb negb].
      destruct (le_at hdr 30 2 =? 1) eqn:E1.
      * destruct (le_at hdr 30 2 <? 5) eqn:E5; [|lia].
        unfold unpack_pair. rewrite unpack_from_short; [reflexivity|lia|].
        unfold calcsize, fmtsize. lia.
      * destruct (le_at hdr 30 2 <? 5) eqn:E5.
        -- unfold unpack_pair. rewrite unpack_from_short; [reflexivity|lia|].
           unfold calcsize, fmtsize. lia.
        -- rewrite unpack_from_short; [reflexivity|lia|].
           unfold calcsize, fmtsize. lia.
Qed.

(** ** The keys of the records *)

Lemma interval_prefix (init : bytes) (x : byte) (k : bytes) :
  byte_to_Z x < 255 ->
  (ble (init ++ [x]) k /\ blt k (init ++ [byte_of_Z (byte_to_Z x + 1)]))
  <-> exists suffix, k = (init ++ [x]) ++ suffix.
Proof.
  intros Hx. pose proof (byte_to_Z_range x) as Hr.
  assert (Hx' : byte_to_Z (byte_of_Z (byte_to_Z x + 1)) = byte_to_Z x + 1)
    by (apply byte_to_of_Z; lia).
  unfold ble, blt. split.
  - revert k. induction init as [|c init IH]; intros k [H1 H2].
    + destruct k as [|y r]; [discriminate|]. cbn [app bytes_ltb] in H1, H2.
      rewrite Hx' in H2. rewrite bytes_ltb_nil in H1, H2.
      destruct (byte_to_Z y <? byte_to_Z x) eqn:E1; [discriminate|].
      destruct (byte_to_Z y <? byte_to_Z x + 1) eqn:E2.
      * assert (y = x) as -> by (apply byte_to_Z_inj; lia). exists r. reflexivity.
      * destruct (byte_to_Z x + 1 <? byte_to_Z y); discriminate.
    + destruct k as [|y r]; [discriminate|]. cbn [app bytes_ltb] in H1, H2.
      destruct (byte_to_Z y <? byte_to_Z c) eqn:E1; [discriminate|].
      destruct (byte_to_Z c <? byte_to_Z y) eqn:E2; [discriminate|].
      assert (y = c) as -> by (apply byte_to_Z_inj; lia).
      destruct (IH r (conj H1 H2)) as (suffix & ->). exists suffix. reflexivity.
  - intros (suffix & ->). rewrite <- app_assoc. rewrite !bytes_ltb_app.
    cbn [app bytes_ltb]. rewrite Hx', Z.ltb_irrefl, bytes_ltb_nil.
    split; [reflexivity|].
    destruct (byte_to_Z x <? byte_to_Z x + 1) eqn:E; [reflexivity|lia].
Qed.

(** X16. [nextkey(key)] fails with [struct.error] exactly when [key] is
    empty or ends in the byte [0xFF].  Otherwise it returns a key of the
    same length, and the keys from [key] up to, but not including, the
    one it returns are exactly the keys that start with [key]. *)
Theorem nextkey_prefix_interval (key : bytes) :
  (ID0File.nextkey key = Raise StructError
   <-> key = [] \/ exists init, key = init ++ [xff]) /\
  (forall endkey, ID0File.nextkey key = Ok endkey ->
   len endkey = len key /\
   forall k, (ble key k /\ blt k endkey) <-> exists suffix, k = key ++ suffix).
Proof.
  split.
  - destruct key as [|x init _] using rev_ind.
    + split; [intros _; left; reflexivity|intros _; reflexivity].
    + rewrite nextkey_snoc. pose proof (byte_to_Z_range x) as Hr.
      destruct (byte_to_Z x <? 255) eqn:E; split.
      * discriminate.
      * intros [H|(init' & H)]; [destruct init; discriminate|].
        apply app_inj_tail in H. destruct H as (_ & ->). vm_compute in E. discriminate.
      * intros _. right. exists init. f_equal. f_equal.
        apply byte_to_Z_inj. change (byte_to_Z xff) with 255. lia.
      * intros _. reflexivity.
  - intros endkey E. destruct (nextkey_inv key endkey E) as (init & x & -> & Hx & -> & _).
    split.
    + unfold len. rewrite !length_app. reflexivity.
    + intros k. apply interval_prefix. exact Hx.
Qed.

Lemma nextkey_prefix_interval_witness :
  ID0File.nextkey (b "ab") = Ok (b "ac") /\
  ble (b "ab") (b "abzz") /\ blt (b "abzz") (b "ac").
Proof.
  assert (E : ID0File.nextkey (b "ab") = Ok (b "ac")) by (vm_compute; reflexivity).
  split; [exact E|].
  destruct (nextkey_prefix_interval (b "ab")) as (_ & H).
  destruct (H (b "ac") E) as (_ & Hk).
  apply Hk. exists (b "zz"). reflexivity.
Defined.

Lemma le_bytes_length (n : nat) : forall z, List.length (le_bytes n z) = n.
Proof. induction n as [|n IH]; intros z; cbn; [reflexivity|]. rewrite IH. reflexivity. Qed.

Lemma be_length (n z : Z) : 0 <= n -> len (be n z) = n.
Proof. intros Hn. unfold be, len. rewrite length_rev, le_bytes_length. lia. Qed.

Lemma bytes_ltb_snoc (p q : bytes) (x y : byte) :
  List.length p = List.length q ->
  bytes_ltb (p ++ [x]) (q ++ [y])
  = bytes_ltb p q || (bytes_eqb p q && (byte_to_Z x <? byte_to_Z y)).
Proof.
  revert q. induction p as [|c p IH]; intros [|d q] Hl; try discriminate.
  - cbn. destruct (byte_to_Z x <? byte_to_Z y); [reflexivity|].
    destruct (byte_to_Z y <? byte_to_Z x); reflexivity.
  - cbn [app bytes_ltb bytes_eqb]. injection Hl as Hl.
    destruct (byte_to_Z c <? byte_to_Z d) eqn:E1; [reflexivity|].
    destruct (byte_to_Z d <? byte_to_Z c) eqn:E2.
    + destruct (Byte.eqb c d) eqn:E3; [|reflexivity].
      apply Byte.byte_dec_bl in E3. subst d. lia.
    + assert (c = d) as -> by (apply byte_to_Z_inj; lia).
      rewrite (IH q Hl).
      assert (Byte.eqb d d = true) as -> by (apply Byte.byte_dec_lb; reflexivity).
      reflexivity.
Qed.

Lemma byte_of_Z_mod (a : Z) : byte_to_Z (byte_of_Z a) = a mod 256.
Proof.
  pose proof (Z.mod_pos_bound a 256 ltac:(lia)) as Hm.
  rewrite <- (byte_to_of_Z Hm). unfold byte_of_Z. rewrite Z.mod_mod by lia. reflexivity.
Qed.

(** Big-endian bytes compare as the numbers do. *)
Lemma be_lt (n : nat) :
  forall a c, 0 <= a -> a < c -> c < 256 ^ Z.of_nat n ->
  bytes_ltb (rev (le_bytes n a)) (rev (le_bytes n c)) = true.
Proof.
  induction n as [|n IH]; intros a c Ha Hac Hc.
  - cbn in Hc. lia.
  - rewrite Nat2Z.inj_succ, Z.pow_succ_r in Hc by lia.
    cbn [le_bytes rev].
    rewrite bytes_ltb_snoc by (rewrite !length_rev, !le_bytes_length; reflexivity).
    rewrite !byte_of_Z_mod.
    pose proof (Z.div_mod a 256 ltac:(lia)). pose proof (Z.div_mod c 256 ltac:(lia)).
    pose proof (Z.mod_pos_bound a 256 ltac:(lia)).
    pose proof (Z.mod_pos_bound c 256 ltac:(lia)).
    destruct (Z_lt_ge_dec (a / 256) (c / 256)) as [Hlt|Hge].
    + rewrite IH; [reflexivity|apply Z.div_pos; lia|exact Hlt|].
      apply Z.div_lt_upper_bound; lia.
    + assert (Heq : a / 256 = c / 256) by lia. rewrite Heq.
      rewrite bytes_ltb_irrefl, bytes_eqb_refl. cbn [orb andb].
      apply Z.ltb_lt. lia.
Qed.

Lemma be_compare (n a c : Z) :
  0 <= n -> 0 <= a < 256 ^ n -> 0 <= c < 256 ^ n ->
  bytes_ltb (be n a) (be n c) = (a <? c).
Proof.
  intros Hn Ha Hc. unfold be.
  assert (Hp : 256 ^ Z.of_nat (Z.to_nat n) = 256 ^ n) by (f_equal; lia).
  destruct (a <? c) eqn:E.
  - apply be_lt; lia.
  - destruct (Z.eq_dec a c) as [->|Hne]; [apply bytes_ltb_irrefl|].
    apply bytes_ltb_asym. apply be_lt; lia.
Qed.

Lemma bytes_ltb_app_same_length (p q r1 r2 : bytes) :
  List.length p = List.length q -> bytes_ltb p q = true ->
  bytes_ltb (p ++ r1) (q ++ r2) = true.
Proof.
  revert q. induction p as [|c p IH]; intros [|d q] Hl Hlt; try discriminate.
  cbn [app bytes_ltb] in *. injection Hl as Hl.
  destruct (byte_to_Z c <? byte_to_Z d); [reflexivity|].
  destruct (byte_to_Z d <? byte_to_Z c); [discriminate|].
  apply IH; assumption.
Qed.

Section Keys.
Context {F : Type} `{FileLike F}.
Variable self : ID0File.t F.
Hypothesis Hws : 0 <= ID0File.wordsize self.

Lemma pack_word (z : Z) :
  pack_unsigned_be (Z.to_nat (ID0File.wordsize self)) z
  = if (0 <=? z) && (z <? 256 ^ ID0File.wordsize self)
    then Ok (be (ID0File.wordsize self) z) else Raise StructError.
Proof.
  unfold pack_unsigned_be, be. rewrite Z2Nat.id by exact Hws. reflexivity.
Qed.

Lemma pack_signed_word (z : Z) :
  pack_signed_be (Z.to_nat (ID0File.wordsize self)) z
  = if (- (256 ^ ID0File.wordsize self / 2) <=? z) && (z <? 256 ^ ID0File.wordsize self / 2)
    then Ok (be (ID0File.wordsize self) (z mod 256 ^ ID0File.wordsize self))
    else Raise StructError.
Proof.
  unfold pack_signed_be, be. rewrite Z2Nat.id by exact Hws. reflexivity.
Qed.

Lemma makekey_node (n : Z) :
  ID0File.makekey self [PyInt n]
  = if (0 <=? n) && (n <? 256 ^ ID0File.wordsize self)
    then Ok (b "." ++ be (ID0File.wordsize self) n) else Raise StructError.
Proof.
  change (ID0File.makekey self [PyInt n])
    with (x <- Ok (b ".") ;;
          y <- (x0 <- pack_unsigned_be (Z.to_nat (ID0File.wordsize self)) n ;;
                y0 <- Ok [] ;; Ok (x0 ++ y0)) ;;
          Ok (x ++ y)).
  rewrite pack_word.
  destruct ((0 <=? n) && (n <? 256 ^ ID0File.wordsize self)); cbn [bind]; [|reflexivity].
  rewrite app_nil_r. reflexivity.
Qed.

Lemma makekey_tag (n : Z) (tag : str) (enc : bytes) :
  encode_utf8 tag = Ok enc ->
  ID0File.makekey self [PyInt n; PyStr tag]
  = if (0 <=? n) && (n <? 256 ^ ID0File.wordsize self)
    then Ok (b "." ++ be (ID0File.wordsize self) n ++ pack_1s enc) else Raise StructError.
Proof.
  intros He.
  change (ID0File.makekey self [PyInt n; PyStr tag])
    with (args <- (e <- encode_utf8 tag ;; Ok [PyInt n; PyBytes e]) ;;
          ID0File.pack (ID0File.wordsize self)
            (slice ID0File.keyfmt 0 (1 + len args)) (PyInt 0x2e :: args)).
  rewrite He. cbn [bind].
  change (ID0File.pack (ID0File.wordsize self)
            (slice ID0File.keyfmt 0 (1 + len [PyInt n; PyBytes enc]))
            [PyInt 0x2e; PyInt n; PyBytes enc])
    with (x <- Ok (b ".") ;;
          y <- (x0 <- pack_unsigned_be (Z.to_nat (ID0File.wordsize self)) n ;;
                y0 <- (x1 <- Ok (pack_1s enc) ;; y1 <- Ok [] ;; Ok (x1 ++ y1)) ;;
                Ok (x0 ++ y0)) ;;
          Ok (x ++ y)).
  rewrite pack_word.
  destruct ((0 <=? n) && (n <? 256 ^ ID0File.wordsize self)); cbn [bind]; [|reflexivity].
  rewrite app_nil_r. reflexivity.
Qed.

Lemma makekey_subkey (n : Z) (tag : str) (enc : bytes) (i : Z) :
  encode_utf8 tag = Ok enc ->
  ID0File.makekey self [PyInt n; PyStr tag; PyInt i]
  = if (0 <=? n) && (n <? 256 ^ ID0File.wordsize self) then
      if (- (256 ^ ID0File.wordsize self / 2) <=? i) && (i <? 256 ^ ID0File.wordsize self / 2)
      then Ok (b "." ++ be (ID0File.wordsize self) n ++ pack_1s enc
               ++ be (ID0File.wordsize self) (i mod 256 ^ ID0File.wordsize self))
      else Raise StructError
    else Raise StructError.
Proof.
  intros He.
  change (ID0File.makekey self [PyInt n; PyStr tag; PyInt i])
    with (args <- (e <- encode_utf8 tag ;; Ok [PyInt n; PyBytes e; PyInt i]) ;;
          ID0File.pack (ID0File.wordsize self)
            (slice ID0File.keyfmt 0 (1 + len args)) (PyInt 0x2e :: args)).
  rewrite He. cbn [bind].
  change (ID0File.pack (ID0File.wordsize self)
            (slice ID0File.keyfmt 0 (1 + len [PyInt n; PyBytes enc; PyInt i]))
            [PyInt 0x2e; PyInt n; PyBytes enc; PyInt i])
    with (x <- Ok (b ".") ;;
          y <- (x0 <- pack_unsigned_be (Z.to_nat (ID0File.wordsize self)) n ;;
                y0 <- (x1 <- Ok (pack_1s enc) ;;
                       y1 <- (x2 <- pack_signed_be (Z.to_nat (ID0File.wordsize self)) i ;;
                              y2 <- Ok [] ;; Ok (x2 ++ y2)) ;;
                       Ok (x1 ++ y1)) ;;
                Ok (x0 ++ y0)) ;;
          Ok (x ++ y)).
  rewrite pack_word, pack_signed_word.
  destruct ((0 <=? n) && (n <? 256 ^ ID0File.wordsize self)); cbn [bind]; [|reflexivity].
  destruct ((- (256 ^ ID0File.wordsize self / 2) <=? i)
            && (i <? 256 ^ ID0File.wordsize self / 2)); cbn [bind]; [|reflexivity].
  rewrite app_nil_r. reflexivity.
Qed.

End Keys.

Section KeyOrder.
Context {F : Type} `{FileLike F}.
Variable self : ID0File.t F.
Hypothesis Hws : 0 <= ID0File.wordsize self.

(** Every key that starts with a node number starts with [.] and the
    big-endian word of the number. *)
Lemma makekey_head (n : Z) (r : list pyval) (k : bytes) :
  ID0File.makekey self (PyInt n :: r) = Ok k ->
  0 <= n < 256 ^ ID0File.wordsize self /\
  exists rest, k = (b "." ++ be (ID0File.wordsize self) n) ++ rest.
Proof.
  unfold ID0File.makekey. intros E. apply bind_ok in E. destruct E as (args & Ha & E).
  assert (Hargs : exists r', args = PyInt n :: r').
  { destruct (len (PyInt n :: r) >? 1).
    - destruct r as [|a1 rest].
      + injection Ha as <-. exists []. reflexivity.
      + apply bind_ok in Ha. destruct Ha as (e & _ & Ha). injection Ha as <-.
        eexists. reflexivity.
    - injection Ha as <-. exists r. reflexivity. }
  destruct Hargs as (r' & ->).
  unfold ID0File.pack in E.
  destruct (negb (len (slice ID0File.keyfmt 0 (1 + len (PyInt n :: r')))
                  =? len (PyInt 46 :: PyInt n :: r'))); [discriminate|].
  assert (Hf : exists f', slice ID0File.keyfmt 0 (1 + len (PyInt n :: r'))
                          = kB :: kWord :: f').
  { unfold slice, len. cbn [List.length].
    replace (Z.to_nat (1 + Z.of_nat (S (List.length r')) - 0))
      with (S (S (List.length r'))) by lia.
    eexists. reflexivity. }
  destruct Hf as (f' & Hf). rewrite Hf in E.
  cbn [ID0File.pack_fields ID0File.pack_field] in E.
  change (pack_unsigned_be 1 46) with (Ok (b ".")) in E. cbn [bind] in E.
  rewrite pack_word in E by exact Hws.
  destruct ((0 <=? n) && (n <? 256 ^ ID0File.wordsize self)) eqn:En; [|discriminate].
  apply andb_true_iff in En. split; [lia|].
  cbn [bind] in E. apply bind_ok in E. destruct E as (y & Hy & E).
  apply bind_ok in Hy. destruct Hy as (y0 & _ & Hy). injection Hy as <-.
  injection E as <-. exists y0. rewrite <- app_assoc. reflexivity.
Qed.

End KeyOrder.

(** X17. The layout of the keys.  For a node number that fits in a word
    of the database, a tag that UTF-8 can encode and a subkey that fits
    in a signed word: [makekey(n)] is [.] followed by the word of [n],
    most significant byte first; [makekey(n, tag)] adds one byte, the
    first byte of the encoded tag (a zero byte for the empty tag, and
    nothing of what follows the first byte); [makekey(n, tag, i)] adds the
    word of [i] in two's complement.  Each key is a prefix of the next.
    Without arguments [makekey] returns [b'.']; a node number that does
    not fit, or more than three arguments, raise [struct.error]. *)
Theorem makekey_layout {F : Type} `{FileLike F} (self : ID0File.t F)
    (n : Z) (tag : str) (enc : bytes) (i : Z) :
  let ws := ID0File.wordsize self in
  0 <= ws -> encode_utf8 tag = Ok enc ->
  ID0File.makekey self [] = Ok (b ".") /\
  (n < 0 \/ 256 ^ ws <= n -> ID0File.makekey self [PyInt n] = Raise StructError) /\
  (forall a2 a3 rest,
     ID0File.makekey self (PyInt n :: PyStr tag :: a2 :: a3 :: rest) = Raise StructError) /\
  (0 <= n < 256 ^ ws -> - (256 ^ ws / 2) <= i < 256 ^ ws / 2 ->
   exists k1 k2 k3,
     ID0File.makekey self [PyInt n] = Ok k1 /\
     ID0File.makekey self [PyInt n; PyStr tag] = Ok k2 /\
     ID0File.makekey self [PyInt n; PyStr tag; PyInt i] = Ok k3 /\
     k1 = b "." ++ be ws n /\
     k2 = k1 ++ [hd x00 enc] /\
     k3 = k2 ++ be ws (i mod 256 ^ ws) /\
     len k1 = 1 + ws /\ len k2 = 2 + ws /\ len k3 = 2 + 2 * ws).
Proof.
  intros ws Hws He. split; [reflexivity|]. split; [|split].
  - intros Hn. rewrite makekey_node by exact Hws. fold ws.
    destruct ((0 <=? n) && (n <? 256 ^ ws)) eqn:E; [|reflexivity].
    apply andb_true_iff in E. lia.
  - intros a2 a3 rest. unfold ID0File.makekey.
    destruct (len (PyInt n :: PyStr tag :: a2 :: a3 :: rest) >? 1) eqn:E;
      [|rewrite Z.gtb_ltb in E; apply Z.ltb_ge in E; unfold len in E;
        cbn [List.length] in E; lia].
    cbn [encode]. rewrite He. cbn [bind]. unfold ID0File.pack.
    assert (Hl : len (slice ID0File.keyfmt 0
                        (1 + len (PyInt n :: PyBytes enc :: a2 :: a3 :: rest))) <= 4).
    { unfold slice. rewrite len_firstn, len_skipn. cbn. lia. }
    destruct (len (slice ID0File.keyfmt 0
                     (1 + len (PyInt n :: PyBytes enc :: a2 :: a3 :: rest)))
              =? len (PyInt 46 :: PyInt n :: PyBytes enc :: a2 :: a3 :: rest)) eqn:E2;
      [|reflexivity].
    apply Z.eqb_eq in E2. rewrite E2 in Hl. unfold len in Hl. cbn [List.length] in Hl. lia.
  - intros Hn Hi.
    eexists. eexists. eexists.
    rewrite makekey_node, (makekey_tag self Hws n tag enc He),
      (makekey_subkey self Hws n tag enc i He) by exact Hws.
    fold ws.
    destruct ((0 <=? n) && (n <? 256 ^ ws)) eqn:E1;
      [|apply andb_false_iff in E1; destruct E1; lia].
    destruct ((- (256 ^ ws / 2) <=? i) && (i <? 256 ^ ws / 2)) eqn:E2;
      [|apply andb_false_iff in E2; destruct E2; lia].
    split; [reflexivity|]. split; [reflexivity|]. split; [reflexivity|].
    split; [reflexivity|].
    assert (Hp : pack_1s enc = [hd x00 enc]) by (destruct enc; reflexivity).
    rewrite Hp.
    split; [rewrite <- app_assoc; reflexivity|].
    split; [rewrite <- !app_assoc; reflexivity|].
    unfold len. rewrite !length_app.
    pose proof (be_length ws n Hws) as L1.
    pose proof (be_length ws (i mod 256 ^ ws) Hws) as L2.
    unfold len in L1, L2. change (List.length (b ".")) with 1%nat.
    cbn [List.length]. repeat split; lia.
Qed.

Lemma makekey_layout_witness :
  ID0File.makekey FixtureID0.names [PyInt 2; PyStr (u "Szz"); PyInt (-1)]
  = Ok (b "." ++ [x00; x00; x00; x02] ++ b "S" ++ [xff; xff; xff; xff]).
Proof.
  destruct (makekey_layout FixtureID0.names 2 (u "Szz") (b "Szz") (-1))
    as (_ & _ & _ & Hk).
  - vm_compute. discriminate.
  - vm_compute. reflexivity.
  - destruct Hk as (k1 & k2 & k3 & _ & _ & H3 & -> & -> & -> & _).
    + vm_compute. split; [discriminate|reflexivity].
    + vm_compute. split; [discriminate|reflexivity].
    + rewrite H3. vm_compute. reflexivity.
Defined.

(** X18. The order of the keys.  A key of a smaller node number is below
    every key of a greater one, whatever tag and subkey follow.  For one
    node and one tag, the keys are ordered as their subkeys read as
    unsigned words: the subkeys from 0 up come first, in increasing
    order, and the negative ones after them. *)
Theorem makekey_order {F : Type} `{FileLike F} (self : ID0File.t F) :
  let ws := ID0File.wordsize self in
  0 <= ws ->
  (forall n1 n2 r1 r2 k1 k2,
     ID0File.makekey self (PyInt n1 :: r1) = Ok k1 ->
     ID0File.makekey self (PyInt n2 :: r2) = Ok k2 ->
     n1 < n2 -> blt k1 k2) /\
  (forall n tag i1 i2 k1 k2,
     ID0File.makekey self [PyInt n; PyStr tag; PyInt i1] = Ok k1 ->
     ID0File.makekey self [PyInt n; PyStr tag; PyInt i2] = Ok k2 ->
     (blt k1 k2 <-> i1 mod 256 ^ ws < i2 mod 256 ^ ws)).
Proof.
  intros ws Hws. split.
  - intros n1 n2 r1 r2 k1 k2 E1 E2 Hlt.
    destruct (makekey_head self Hws n1 r1 k1 E1) as (Hn1 & rest1 & ->).
    destruct (makekey_head self Hws n2 r2 k2 E2) as (Hn2 & rest2 & ->).
    fold ws in Hn1, Hn2 |- *. unfold blt.
    apply bytes_ltb_app_same_length.
    + pose proof (be_length ws n1 Hws) as L1. pose proof (be_length ws n2 Hws) as L2.
      unfold len in L1, L2. rewrite !length_app. lia.
    + rewrite bytes_ltb_app. rewrite be_compare by lia. apply Z.ltb_lt. exact Hlt.
  - intros n tag i1 i2 k1 k2 E1 E2.
    destruct (encode_utf8 tag) as [enc| |] eqn:He.
    + rewrite (makekey_subkey self Hws n tag enc i1 He) in E1.
      rewrite (makekey_subkey self Hws n tag enc i2 He) in E2.
      fold ws in E1, E2.
      destruct ((0 <=? n) && (n <? 256 ^ ws)); [|discriminate].
      destruct ((- (256 ^ ws / 2) <=? i1) && (i1 <? 256 ^ ws / 2)); [|discriminate].
      destruct ((- (256 ^ ws / 2) <=? i2) && (i2 <? 256 ^ ws / 2)); [|discriminate].
      match type of E1 with Ok ?v = _ => assert (K1 : k1 = v) by congruence end.
      match type of E2 with Ok ?v = _ => assert (K2 : k2 = v) by congruence end.
      rewrite K1, K2.
      unfold blt. rewrite !bytes_ltb_app.
      assert (Hp : 0 < 256 ^ ws) by (apply Z.pow_pos_nonneg; lia).
      rewrite be_compare by (try lia; apply Z.mod_pos_bound; lia).
      apply Z.ltb_lt.
    + exfalso. revert E1. unfold ID0File.makekey. cbn [len List.length Z.of_nat
        Pos.of_succ_nat Pos.succ Z.gtb Z.compare Pos.compare Pos.compare_cont encode].
      rewrite He. discriminate.
    + exfalso. revert E1. unfold ID0File.makekey. cbn [len List.length Z.of_nat
        Pos.of_succ_nat Pos.succ Z.gtb Z.compare Pos.compare Pos.compare_cont encode].
      rewrite He. discriminate.
Qed.

Lemma makekey_order_witness :
  blt (FixtureID0.key 1 "S" 0) (FixtureID0.key 2 "A" 0) /\
  blt (FixtureID0.key 2 "S" 5) (FixtureID0.key 2 "S" (-1)).
Proof.
  destruct (makekey_order FixtureID0.names) as (H1 & H2); [vm_compute; discriminate|].
  split.
  - apply (H1 1 2 [PyStr (u "S"); PyInt 0] [PyStr (u "A"); PyInt 0]);
      [vm_compute; reflexivity|vm_compute; reflexivity|lia].
  - apply (H2 2 (u "S") 5 (-1)); [vm_compute; reflexivity|vm_compute; reflexivity|].
    vm_compute. reflexivity.
Defined.

(** ** Text values *)

Ltac solve_divmod := Z.div_mod_to_equations; lia.

Ltac decide_if :=
  match goal with
  | |- (if ?c then _ else _) = _ =>
      let E := fresh "E" in
      destruct c eqn:E;
      [|exfalso;
        repeat (apply andb_false_iff in E; destruct E as [E|E]);
        try (apply Z.leb_gt in E); try (apply Z.ltb_ge in E);
        try (apply Z.eqb_neq in E); solve_divmod]
  end.

Ltac skip_if :=
  match goal with
  | |- (if ?c then _ else _) = _ =>
      let E := fresh "E" in
      destruct c eqn:E;
      [exfalso;
       repeat (apply andb_true_iff in E; destruct E as [? E]);
       try (apply Z.leb_le in E); try (apply Z.ltb_lt in E); solve_divmod|]
  end.

Ltac split_eq v :=
  let E := fresh "E" in
  destruct v eqn:E;
  [apply Z.eqb_eq in E|apply Z.eqb_neq in E]; cbv iota.

Ltac ok_inj E :=
  match type of E with
  | Ok ?v = Ok ?x => let H := fresh in assert (H : x = v) by congruence; clear E; subst x
  end.

(** Decoding undoes the encoding of one code point. *)
Lemma decode_char (c : Z) (x rest : bytes) :
  utf8_char c = Ok x ->
  decode_utf8 (x ++ rest) = (t <- decode_utf8 rest ;; Ok (c :: t)).
Proof.
  unfold utf8_char.
  destruct (c <? 0) eqn:E0; [discriminate|]. apply Z.ltb_ge in E0.
  destruct (c <? 128) eqn:E1.
  { apply Z.ltb_lt in E1. intros E. ok_inj E.
    cbn [app decode_utf8]. rewrite byte_to_of_Z by lia.
    decide_if. reflexivity. }
  apply Z.ltb_ge in E1.
  destruct (c <? 2048) eqn:E2.
  { apply Z.ltb_lt in E2. intros E. ok_inj E.
    cbn [app decode_utf8]. unfold continuation.
    rewrite !byte_to_of_Z by solve_divmod.
    skip_if. decide_if. decide_if.
    replace ((192 + c / 64 - 192) * 64 + (128 + c mod 64 - 128)) with c by solve_divmod.
    reflexivity. }
  apply Z.ltb_ge in E2.
  destruct (c <? 65536) eqn:E3.
  { apply Z.ltb_lt in E3.
    destruct ((55296 <=? c) && (c <=? 57343)) eqn:Es; [discriminate|].
    assert (Hs : c < 55296 \/ 57343 < c)
      by (apply andb_false_iff in Es; destruct Es as [Es|Es];
          [apply Z.leb_gt in Es|apply Z.leb_gt in Es]; lia).
    intros E. ok_inj E.
    cbn [app decode_utf8]. unfold continuation.
    rewrite !byte_to_of_Z by solve_divmod.
    skip_if. skip_if. decide_if.
    split_eq (224 + c / 4096 =? 224); split_eq (224 + c / 4096 =? 237);
      try lia; decide_if;
      replace ((224 + c / 4096 - 224) * 4096 + (128 + (c / 64) mod 64 - 128) * 64
               + (128 + c mod 64 - 128)) with c by solve_divmod;
      reflexivity. }
  apply Z.ltb_ge in E3.
  destruct (c <? 1114112) eqn:E4; [|discriminate].
  apply Z.ltb_lt in E4. intros E. ok_inj E.
  cbn [app decode_utf8]. unfold continuation.
  rewrite !byte_to_of_Z by solve_divmod.
  skip_if. skip_if. skip_if. decide_if.
  split_eq (240 + c / 262144 =? 240); split_eq (240 + c / 262144 =? 244);
    try lia; decide_if;
    replace ((240 + c / 262144 - 240) * 262144 + (128 + (c / 4096) mod 64 - 128) * 4096
             + (128 + (c / 64) mod 64 - 128) * 64 + (128 + c mod 64 - 128))
      with c by solve_divmod;
    reflexivity.
Qed.

(** Decoding undoes encoding. *)
Lemma decode_encode (t : str) : forall enc, encode_utf8 t = Ok enc -> decode_utf8 enc = Ok t.
Proof.
  induction t as [|c t IH]; intros enc E; cbn [encode_utf8] in E.
  - injection E as <-. reflexivity.
  - apply bind_ok in E. destruct E as (x & Hx & E).
    apply bind_ok in E. destruct E as (y & Hy & E). injection E as <-.
    rewrite (decode_char c x y Hx), (IH y Hy). reflexivity.
Qed.

Lemma rstrip_app (x : byte) (a z : bytes) :
  rstrip x z = [] -> rstrip x (a ++ z) = rstrip x a.
Proof.
  intros Hz. induction a as [|c a IH]; cbn [app rstrip].
  - rewrite Hz. reflexivity.
  - rewrite IH. reflexivity.
Qed.

Lemma rstrip_repeat (x : byte) (n : nat) : rstrip x (repeat x n) = [].
Proof.
  induction n as [|n IH]; cbn [repeat rstrip]; [reflexivity|].
  rewrite IH. assert (Byte.eqb x x = true) as -> by (apply Byte.byte_dec_lb; reflexivity).
  reflexivity.
Qed.

Lemma rstrip_snoc (x y : byte) (a : bytes) : y <> x -> rstrip x (a ++ [y]) = a ++ [y].
Proof.
  intros Hy. induction a as [|c a IH]; cbn [app rstrip].
  - destruct (Byte.eqb y x) eqn:E; [|reflexivity].
    apply Byte.byte_dec_bl in E. contradiction.
  - rewrite IH. destruct (a ++ [y]) eqn:Ea; [|reflexivity].
    destruct a; discriminate.
Qed.

Lemma encode_app (t1 t2 : str) :
  encode_utf8 (t1 ++ t2)
  = (x <- encode_utf8 t1 ;; y <- encode_utf8 t2 ;; Ok (x ++ y)).
Proof.
  induction t1 as [|c t1 IH]; cbn [app encode_utf8 bind].
  - destruct (encode_utf8 t2); reflexivity.
  - destruct (utf8_char c) as [x| |]; cbn [bind]; try reflexivity.
    rewrite IH. destruct (encode_utf8 t1) as [y| |]; cbn [bind]; try reflexivity.
    destruct (encode_utf8 t2) as [z| |]; cbn [bind]; try reflexivity.
    rewrite app_assoc. reflexivity.
Qed.

(** The encoding of a code point other than [U+0000] ends in a byte
    other than 0. *)
Lemma utf8_char_last (c : Z) (x : bytes) :
  utf8_char c = Ok x -> c <> 0 -> exists x' y, x = x' ++ [y] /\ y <> x00.
Proof.
  unfold utf8_char. intros E Hc.
  assert (Hnz : forall v, 0 < v < 256 -> byte_of_Z v <> x00).
  { intros v Hv Hb. apply (f_equal byte_to_Z) in Hb.
    rewrite byte_to_of_Z in Hb by lia. change (byte_to_Z x00) with 0 in Hb. lia. }
  destruct (c <? 0) eqn:E0; [discriminate|]. apply Z.ltb_ge in E0.
  destruct (c <? 128) eqn:E1.
  { apply Z.ltb_lt in E1. ok_inj E. exists [], (byte_of_Z c).
    split; [reflexivity|apply Hnz; lia]. }
  destruct (c <? 2048).
  { ok_inj E. eexists [_], _. split; [reflexivity|apply Hnz; solve_divmod]. }
  destruct (c <? 65536).
  { destruct ((55296 <=? c) && (c <=? 57343)); [discriminate|].
    ok_inj E. eexists [_; _], _. split; [reflexivity|apply Hnz; solve_divmod]. }
  destruct (c <? 1114112); [|discriminate].
  ok_inj E. eexists [_; _; _], _. split; [reflexivity|apply Hnz; solve_divmod].
Qed.

Lemma encode_rstrip (t : str) (enc : bytes) (n : nat) :
  encode_utf8 t = Ok enc -> last t 1 <> 0 ->
  rstrip x00 (enc ++ repeat x00 n) = enc.
Proof.
  intros He Hl. rewrite rstrip_app by apply rstrip_repeat.
  destruct t as [|c t _] using rev_ind.
  - cbn in He. ok_inj He. reflexivity.
  - rewrite last_last in Hl. rewrite encode_app in He.
    apply bind_ok in He. destruct He as (x & _ & He).
    apply bind_ok in He. destruct He as (y & Hy & He). ok_inj He.
    cbn [encode_utf8] in Hy. apply bind_ok in Hy. destruct Hy as (z & Hz & Hy).
    cbn [bind] in Hy. ok_inj Hy. rewrite app_nil_r.
    destruct (utf8_char_last c z Hz Hl) as (z' & w & -> & Hw).
    rewrite app_assoc. apply rstrip_snoc. exact Hw.
Qed.

(** X19. [string] with its arguments, on a well-formed tree, when the arguments make a
    key: it returns [None] when no record has the key; when the value of
    the record is the UTF-8 encoding of a text that does not end in
    [U+0000], followed by any number of zero bytes, it returns that text;
    and when the value without its trailing zero bytes is not valid
    UTF-8 it raises [UnicodeDecodeError]. *)
Theorem string_round_trip {F : Type} `{FileLike F} (self : ID0File.t F)
    (h fuel : nat) (args : list pyval) (key : bytes) :
  well_formed (ID0File.btree self) h -> (h < fuel)%nat ->
  ID0File.makekey self args = Ok key ->
  (lookup key (db_records self h) = None -> ID0File.string_ self fuel args = Ok None) /\
  (forall t enc n,
     encode_utf8 t = Ok enc -> last t 1 <> 0 ->
     lookup key (db_records self h) = Some (enc ++ repeat x00 n) ->
     ID0File.string_ self fuel args = Ok (Some t)) /\
  (forall v,
     lookup key (db_records self h) = Some v ->
     decode_utf8 (rstrip x00 v) = Raise UnicodeDecodeError ->
     ID0File.string_ self fuel args = Raise UnicodeDecodeError).
Proof.
  intros Hwf Hfuel Hk. unfold ID0File.string_.
  rewrite (bytes_lookup self h fuel args key Hwf Hfuel Hk). cbn [bind].
  split; [|split].
  - intros ->. reflexivity.
  - intros t enc n He Hl ->.
    rewrite (encode_rstrip t enc n He Hl), (decode_encode t enc He). reflexivity.
  - intros v -> Hd. rewrite Hd. reflexivity.
Qed.

Lemma string_round_trip_witness :
  ID0File.string_ FixtureID0.names 1 [PyInt 1; PyStr (u "S"); PyInt 0] = Ok (Some (u "*")).
Proof.
  assert (Hfuel : (0 < 1)%nat) by lia.
  assert (Hk : ID0File.makekey FixtureID0.names [PyInt 1; PyStr (u "S"); PyInt 0]
               = Ok (FixtureID0.key 1 "S" 0)) by (vm_compute; reflexivity).
  destruct (string_round_trip FixtureID0.names 0 1 _ _
              ExampleID0.well_formed_names Hfuel Hk) as (_ & Hs & _).
  apply (Hs (u "*") (b "*") 3%nat).
  - vm_compute. reflexivity.
  - vm_compute. discriminate.
  - vm_compute. reflexivity.
Defined.

(** ** The segments of an id1 file *)

Lemma le_at_slice (d : bytes) (a c o width : Z) :
  0 <= a -> 0 <= o -> 0 <= width -> o + width <= c - a ->
  le_at (slice d a c) o width = le_at d (a + o) width.
Proof.
  intros Ha Ho Hw Hc. unfold le_at. rewrite slice_slice by lia.
  f_equal. f_equal. lia.
Qed.

(** [seek(p)] and then [read(n)] on a window, whatever its position and
    that of its parent before. *)
Lemma window_at (w : FileSection.t) (p n : Z) :
  0 <= FileSection.start w -> 0 <= p <= FileSection.end_ w - FileSection.start w ->
  exists w1 w2,
    FileSection.seek w p [] = (Ok tt, w1) /\
    FileSection.read w1 n = (Ok (slice (window_bytes w) p (p + n)), w2) /\
    f_data (FileSection.fh w2) = f_data (FileSection.fh w) /\
    FileSection.start w2 = FileSection.start w /\
    FileSection.end_ w2 = FileSection.end_ w.
Proof.
  intros Hs Hp. rewrite (window_seek w p Hs).
  destruct ((0 <=? p) && (p <=? FileSection.end_ w - FileSection.start w)) eqn:E.
  2:{ apply andb_false_iff in E. destruct E as [E|E]; apply Z.leb_gt in E; lia. }
  pose proof (window_read (f_data (FileSection.fh w)) (FileSection.start w)
                (FileSection.end_ w) p n Hs ltac:(lia)) as Hr.
  pose proof (read_keeps
                (FileSection.mk (mkFile (f_data (FileSection.fh w)) (p + FileSection.start w))
                   (FileSection.start w) (FileSection.end_ w) p) n) as Hk.
  destruct (FileSection.read _ n) as [r w2] eqn:Er. cbn [fst snd] in Hr, Hk.
  cbn [FileSection.fh FileSection.start FileSection.end_ f_data] in Hk.
  subst r. eexists. exists w2. split; [reflexivity|].
  split; [exact Er|exact Hk].
Qed.

Lemma window_bytes_same (w w' : FileSection.t) :
  f_data (FileSection.fh w') = f_data (FileSection.fh w) ->
  FileSection.start w' = FileSection.start w ->
  FileSection.end_ w' = FileSection.end_ w ->
  window_bytes w' = window_bytes w.
Proof. intros Hd Hs He. unfold window_bytes. rewrite Hd, Hs, He. reflexivity. Qed.

Lemma window_bytes_len (w : FileSection.t) :
  len (window_bytes w) <= Z.max 0 (FileSection.end_ w - FileSection.start w).
Proof. apply len_slice_le. Qed.

Lemma word_format (idbmagic : bytes) :
  exists fmt,
    (if bytes_eqb idbmagic (b "IDA2") then (8, fQ) else (4, fL)) = (fmtsize fmt, fmt) /\
    database_wordsize idbmagic = fmtsize fmt.
Proof.
  unfold database_wordsize.
  destruct (bytes_eqb idbmagic (b "IDA2")); [exists fQ|exists fL]; split; reflexivity.
Qed.

(** The loop of the new layout on a table that holds [n] more
    segments. *)
Lemma read_segments_new_ok (fmt : fmtchar) (segdata : bytes) (n : nat) :
  forall o id1ofs,
  0 <= o -> (o + Z.of_nat n) * 2 * fmtsize fmt <= len segdata ->
  exists l,
    ID1File.read_segments_new fmt (fmtsize fmt) 2 segdata n o id1ofs = Ok l /\
    List.length l = n /\
    forall k seg, nth_error l k = Some seg ->
      ID1File.startea seg = le_at segdata (2 * (o + Z.of_nat k) * fmtsize fmt) (fmtsize fmt) /\
      ID1File.endea seg
        = le_at segdata ((2 * (o + Z.of_nat k) + 1) * fmtsize fmt) (fmtsize fmt) /\
      ID1File.offset seg = id1ofs + 4 * total_size (firstn k l).
Proof.
  assert (Hws : 0 < fmtsize fmt) by (destruct fmt; cbn; lia).
  induction n as [|n IH]; intros o id1ofs Ho Hl.
  - exists []. split; [reflexivity|]. split; [reflexivity|].
    intros [|k] seg Hk; discriminate.
  - cbn [ID1File.read_segments_new].
    rewrite unpack_from_ok by (cbn [calcsize]; nia).
    rewrite unpack_fields_at by nia. rewrite unpack_fields_at by nia.
    cbn [unpack_fields bind].
    set (s := le_at segdata (o * 2 * fmtsize fmt) (fmtsize fmt)).
    set (e := le_at segdata (o * 2 * fmtsize fmt + fmtsize fmt) (fmtsize fmt)).
    destruct (IH (o + 1) (id1ofs + 4 * (e - s)) ltac:(lia) ltac:(nia))
      as (l & El & Hlen & Hnth).
    rewrite El. cbn [bind]. eexists. split; [reflexivity|].
    split; [cbn [List.length]; lia|].
    intros [|k] seg Hk; cbn [nth_error] in Hk.
    + injection Hk as <-.
      cbn [ID1File.startea ID1File.endea ID1File.offset firstn total_size fold_right].
      split; [|split].
      * unfold s. f_equal. lia.
      * unfold e. f_equal. lia.
      * lia.
    + destruct (Hnth k seg Hk) as (H1 & H2 & H3). split; [|split].
      * rewrite H1. f_equal. lia.
      * rewrite H2. f_equal. lia.
      * rewrite H3. cbn [firstn]. unfold total_size. cbn [fold_right].
        cbn [ID1File.startea ID1File.endea]. fold s e. lia.
Qed.

(** The same loop on a table that ends before its [n] segments do. *)
Lemma read_segments_new_short (fmt : fmtchar) (segdata : bytes) (n : nat) :
  forall o id1ofs,
  0 <= o -> o * 2 * fmtsize fmt <= len segdata ->
  len segdata < (o + Z.of_nat n) * 2 * fmtsize fmt ->
  ID1File.read_segments_new fmt (fmtsize fmt) 2 segdata n o id1ofs = Raise StructError.
Proof.
  assert (Hws : 0 < fmtsize fmt) by (destruct fmt; cbn; lia).
  induction n as [|n IH]; intros o id1ofs Ho Hl Hs; [lia|].
  cbn [ID1File.read_segments_new].
  destruct (Z_le_gt_dec ((o + 1) * 2 * fmtsize fmt) (len segdata)) as [Hin|Hout].
  - rewrite unpack_from_ok by (cbn [calcsize]; nia).
    rewrite unpack_fields_at by nia. rewrite unpack_fields_at by nia.
    cbn [unpack_fields bind].
    rewrite IH by (try lia; nia). reflexivity.
  - rewrite unpack_from_short by (cbn [calcsize]; nia). reflexivity.
Qed.

Lemma id1_header_len (W : bytes) : 20 <= len W -> 20 <= len (slice W 0 (0 + 32)).
Proof. intros H. unfold slice. rewrite len_firstn, len_skipn. lia. Qed.

Lemma id1_magic (W : bytes) : slice (slice W 0 (0 + 32)) 0 4 = slice W 0 4.
Proof. rewrite slice_slice by lia. reflexivity. Qed.

(** X20. [ID1File(idb, fh)] on a section that starts with [VA*\0] and is
    long enough for the segment table its header announces: the number of
    segments is the 32-bit number at offset 8, the bounds of segment [k]
    are the two words at offset [20 + 2 * k * wordsize] (words of 8 bytes
    in an [IDA2] container, of 4 bytes otherwise), and the flags of a
    segment start at offset [0x2000] plus 4 bytes for each address of the
    segments before it.  The section is left as it was. *)
Theorem id1_open_new (idbmagic : bytes) (w : FileSection.t) :
  let W := window_bytes w in
  let ws := database_wordsize idbmagic in
  let n := le_at W 8 4 in
  0 <= FileSection.start w ->
  slice W 0 4 = b "VA*" ++ [x00] ->
  20 + n * 2 * ws <= len W ->
  exists id1,
    ID1File.init idbmagic w = Ok id1 /\
    window_bytes (ID1File.fh id1) = W /\
    FileSection.start (ID1File.fh id1) = FileSection.start w /\
    len (ID1File.seglist id1) = n /\
    forall k seg, nth_error (ID1File.seglist id1) k = Some seg ->
      ID1File.startea seg = le_at W (20 + 2 * Z.of_nat k * ws) ws /\
      ID1File.endea seg = le_at W (20 + (2 * Z.of_nat k + 1) * ws) ws /\
      ID1File.offset seg = 0x2000 + 4 * total_size (firstn k (ID1File.seglist id1)).
Proof.
  intros W ws n Hs Hm Hl. unfold ID1File.init.
  destruct (word_format idbmagic) as (fmt & -> & Hws). fold ws in Hws.
  assert (Hpos : 0 < ws) by (rewrite Hws; destruct fmt; cbn; lia).
  assert (Hn : 0 <= n) by apply le_at_nonneg.
  pose proof (window_bytes_len w) as Hlw. fold W in Hlw.
  assert (H20 : 20 <= len W) by nia.
  cbn [fl_seek fl_read FileSection_FileLike].
  destruct (window_at w 0 32 Hs ltac:(lia)) as (w1 & w2 & E1 & E2 & Hd2 & Hs2 & He2).
  rewrite E1. cbn [bind]. rewrite E2. cbn [bind]. fold W.
  rewrite id1_magic, Hm.
  replace (ID1File.old_magic (b "VA*" ++ [x00])) with false by reflexivity.
  replace (ID1File.new_magic (b "VA*" ++ [x00])) with true by reflexivity.
  rewrite unpack_from_ok by (try lia; pose proof (id1_header_len W H20); cbn [calcsize fmtsize]; lia).
  unpack_all. cbn [bind].
  rewrite (le_at_slice W 0 (0 + 32) 8 4) by lia. change (0 + 8) with 8. fold n.
  destruct (window_at w2 20 (n * 2 * fmtsize fmt) ltac:(lia) ltac:(lia))
    as (w3 & w4 & E3 & E4 & Hd4 & Hs4 & He4).
  rewrite E3. cbn [bind]. rewrite E4. cbn [bind].
  rewrite (window_bytes_same w w2 Hd2 Hs2 He2). fold W.
  rewrite <- Hws.
  set (segdata := slice W 20 (20 + n * 2 * ws)).
  assert (Hsd : len segdata = n * 2 * ws) by (unfold segdata; rewrite len_slice_in; lia).
  rewrite Hws.
  destruct (read_segments_new_ok fmt segdata (Z.to_nat n) 0 8192 ltac:(lia)
              ltac:(rewrite <- Hws; lia)) as (l & El & Hlen & Hnth).
  rewrite El. cbn [bind]. eexists. split; [reflexivity|].
  cbn [ID1File.fh ID1File.seglist].
  split; [|split; [|split]].
  - rewrite (window_bytes_same w2 w4 Hd4 Hs4 He4).
    apply (window_bytes_same w w2 Hd2 Hs2 He2).
  - rewrite Hs4. exact Hs2.
  - unfold len. rewrite Hlen. lia.
  - intros k seg Hk.
    assert (Hkn : (k < Z.to_nat n)%nat)
      by (rewrite <- Hlen; apply nth_error_Some; rewrite Hk; discriminate).
    destruct (Hnth k seg Hk) as (H1 & H2 & H3). rewrite <- Hws in H1, H2 |- *.
    split; [|split].
    + rewrite H1. unfold segdata. rewrite le_at_slice by nia. f_equal.
    + rewrite H2. unfold segdata. rewrite le_at_slice by nia. f_equal.
    + exact H3.
Qed.

Lemma id1_open_new_witness :
  exists id1,
    ID1File.init (b "IDA1") FixtureID1.window = Ok id1 /\
    len (ID1File.seglist id1) = 2.
Proof.
  assert (Hs : 0 <= FileSection.start FixtureID1.window) by (vm_compute; discriminate).
  assert (Hm : slice (window_bytes FixtureID1.window) 0 4 = b "VA*" ++ [x00])
    by (vm_compute; reflexivity).
  assert (Hl : 20 + le_at (window_bytes FixtureID1.window) 8 4 * 2 * database_wordsize (b "IDA1")
               <= len (window_bytes FixtureID1.window)) by (vm_compute; discriminate).
  destruct (id1_open_new (b "IDA1") FixtureID1.window Hs Hm Hl) as (id1 & E & _ & _ & Hn & _).
  exists id1. split; [exact E|]. rewrite Hn. vm_compute. reflexivity.
Defined.

Lemma old_magic_spec (m : bytes) : ID1File.old_magic m = true <-> In m id1_old_magics.
Proof.
  unfold ID1File.old_magic, id1_old_magics. rewrite !orb_true_iff, !bytes_eqb_eq.
  cbn [In]. intuition congruence.
Qed.

Lemma new_magic_spec (m : bytes) : ID1File.new_magic m = true <-> m = id1_new_magic.
Proof. unfold ID1File.new_magic. apply bytes_eqb_eq. Qed.

Lemma old_not_new (m : bytes) : In m id1_old_magics -> ID1File.new_magic m = false.
Proof.
  intros Hm. cbn [In id1_old_magics] in Hm.
  destruct Hm as [<-|[<-|[<-|[]]]]; reflexivity.
Qed.

(** The loop of the old layout on a table that holds [n] more
    segments. *)
Lemma read_segments_old_ok (fmt : fmtchar) (segdata : bytes) (n : nat) :
  forall o,
  0 <= o -> (o + Z.of_nat n) * 3 * fmtsize fmt <= len segdata ->
  exists l,
    ID1File.read_segments_old fmt (fmtsize fmt) 3 segdata n o = Ok l /\
    List.length l = n /\
    forall k seg, nth_error l k = Some seg ->
      ID1File.startea seg = le_at segdata (3 * (o + Z.of_nat k) * fmtsize fmt) (fmtsize fmt) /\
      ID1File.endea seg
        = le_at segdata ((3 * (o + Z.of_nat k) + 1) * fmtsize fmt) (fmtsize fmt) /\
      ID1File.offset seg
        = le_at segdata ((3 * (o + Z.of_nat k) + 2) * fmtsize fmt) (fmtsize fmt).
Proof.
  assert (Hws : 0 < fmtsize fmt) by (destruct fmt; cbn; lia).
  induction n as [|n IH]; intros o Ho Hl.
  - exists []. split; [reflexivity|]. split; [reflexivity|].
    intros [|k] seg Hk; discriminate.
  - cbn [ID1File.read_segments_old].
    rewrite unpack_from_ok by (cbn [calcsize]; nia).
    do 3 (rewrite unpack_fields_at by nia).
    cbn [unpack_fields bind].
    destruct (IH (o + 1) ltac:(lia) ltac:(nia)) as (l & El & Hlen & Hnth).
    rewrite El. cbn [bind]. eexists. split; [reflexivity|].
    split; [cbn [List.length]; lia|].
    intros [|k] seg Hk; cbn [nth_error] in Hk.
    + injection Hk as <-.
      cbn [ID1File.startea ID1File.endea ID1File.offset].
      split; [|split]; f_equal; lia.
    + destruct (Hnth k seg Hk) as (H1 & H2 & H3). rewrite H1, H2, H3.
      split; [|split]; f_equal; lia.
Qed.

Lemma read_segments_old_short (fmt : fmtchar) (segdata : bytes) (n : nat) :
  forall o,
  0 <= o -> o * 3 * fmtsize fmt <= len segdata ->
  len segdata < (o + Z.of_nat n) * 3 * fmtsize fmt ->
  ID1File.read_segments_old fmt (fmtsize fmt) 3 segdata n o = Raise StructError.
Proof.
  assert (Hws : 0 < fmtsize fmt) by (destruct fmt; cbn; lia).
  induction n as [|n IH]; intros o Ho Hl Hs; [lia|].
  cbn [ID1File.read_segments_old].
  destruct (Z_le_gt_dec ((o + 1) * 3 * fmtsize fmt) (len segdata)) as [Hin|Hout].
  - rewrite unpack_from_ok by (cbn [calcsize]; nia).
    do 3 (rewrite unpack_fields_at by nia).
    cbn [unpack_fields bind].
    rewrite IH by (try lia; nia). reflexivity.
  - rewrite unpack_from_short by (cbn [calcsize]; nia). reflexivity.
Qed.

(** X21. [ID1File(idb, fh)] on a section that starts with [Va4\0],
    [Va3\0] or [Va0\0] and is long enough for the segment table its
    header announces: the number of segments is the 16-bit number at
    offset 4, and segment [k] is made of the three words at offset
    [8 + 3 * k * wordsize], the last of which is the offset of its flags.
    The section is left as it was. *)
Theorem id1_open_old (idbmagic : bytes) (w : FileSection.t) :
  let W := window_bytes w in
  let ws := database_wordsize idbmagic in
  let n := le_at W 4 2 in
  0 <= FileSection.start w ->
  In (slice W 0 4) id1_old_magics ->
  8 + n * 3 * ws <= len W ->
  exists id1,
    ID1File.init idbmagic w = Ok id1 /\
    window_bytes (ID1File.fh id1) = W /\
    FileSection.start (ID1File.fh id1) = FileSection.start w /\
    len (ID1File.seglist id1) = n /\
    forall k seg, nth_error (ID1File.seglist id1) k = Some seg ->
      ID1File.startea seg = le_at W (8 + 3 * Z.of_nat k * ws) ws /\
      ID1File.endea seg = le_at W (8 + (3 * Z.of_nat k + 1) * ws) ws /\
      ID1File.offset seg = le_at W (8 + (3 * Z.of_nat k + 2) * ws) ws.
Proof.
  intros W ws n Hs Hm Hl. unfold ID1File.init.
  destruct (word_format idbmagic) as (fmt & -> & Hws). fold ws in Hws.
  assert (Hpos : 0 < ws) by (rewrite Hws; destruct fmt; cbn; lia).
  assert (Hn : 0 <= n) by apply le_at_nonneg.
  pose proof (window_bytes_len w) as Hlw. fold W in Hlw.
  assert (H8 : 8 <= len W) by nia.
  cbn [fl_seek fl_read FileSection_FileLike].
  destruct (window_at w 0 32 Hs ltac:(lia)) as (w1 & w2 & E1 & E2 & Hd2 & Hs2 & He2).
  rewrite E1. cbn [bind]. rewrite E2. cbn [bind]. fold W.
  rewrite id1_magic. apply old_magic_spec in Hm. rewrite Hm.
  assert (Hh : 8 <= len (slice W 0 (0 + 32)))
    by (unfold slice; rewrite len_firstn, len_skipn; lia).
  rewrite unpack_from_ok by (try lia; cbn [calcsize fmtsize]; lia).
  unpack_all. cbn [bind].
  rewrite (le_at_slice W 0 (0 + 32) 4 2) by lia. change (0 + 4) with 4. fold n.
  destruct (window_at w2 8 (n * 3 * fmtsize fmt) ltac:(lia) ltac:(lia))
    as (w3 & w4 & E3 & E4 & Hd4 & Hs4 & He4).
  rewrite E3. cbn [bind]. rewrite E4. cbn [bind].
  rewrite (window_bytes_same w w2 Hd2 Hs2 He2). fold W.
  rewrite <- Hws.
  set (segdata := slice W 8 (8 + n * 3 * ws)).
  assert (Hsd : len segdata = n * 3 * ws) by (unfold segdata; rewrite len_slice_in; lia).
  rewrite Hws.
  destruct (read_segments_old_ok fmt segdata (Z.to_nat n) 0 ltac:(lia)
              ltac:(rewrite <- Hws; lia)) as (l & El & Hlen & Hnth).
  rewrite El. cbn [bind]. eexists. split; [reflexivity|].
  cbn [ID1File.fh ID1File.seglist].
  split; [|split; [|split]].
  - rewrite (window_bytes_same w2 w4 Hd4 Hs4 He4).
    apply (window_bytes_same w w2 Hd2 Hs2 He2).
  - rewrite Hs4. exact Hs2.
  - unfold len. rewrite Hlen. lia.
  - intros k seg Hk.
    assert (Hkn : (k < Z.to_nat n)%nat)
      by (rewrite <- Hlen; apply nth_error_Some; rewrite Hk; discriminate).
    destruct (Hnth k seg Hk) as (H1 & H2 & H3). rewrite <- Hws in H1, H2, H3 |- *.
    rewrite H1, H2, H3. unfold segdata.
    split; [|split]; rewrite le_at_slice by nia; f_equal.
Qed.

Lemma id1_open_old_witness :
  exists id1,
    ID1File.init (b "IDA1") FixtureID1.old_window = Ok id1 /\
    len (ID1File.seglist id1) = 1.
Proof.
  assert (Hs : 0 <= FileSection.start FixtureID1.old_window) by (vm_compute; discriminate).
  assert (Hm : In (slice (window_bytes FixtureID1.old_window) 0 4) id1_old_magics)
    by (left; vm_compute; reflexivity).
  assert (Hl : 8 + le_at (window_bytes FixtureID1.old_window) 4 2 * 3 * database_wordsize (b "IDA1")
               <= len (window_bytes FixtureID1.old_window)) by (vm_compute; discriminate).
  destruct (id1_open_old (b "IDA1") FixtureID1.old_window Hs Hm Hl)
    as (id1 & E & _ & _ & Hn & _).
  exists id1. split; [exact E|]. rewrite Hn. vm_compute. reflexivity.
Defined.

(** X22. What [ID1File(idb, fh)] refuses, on a section [fh] (of a size
    that is not negative): a section that starts with none of the four
    magics raises [Exception("unknown id1 magic: ...")] with the
    hexadecimal digits of its first four bytes; a section that ends before
    its header or before the segment table the header announces raises
    [struct.error]. *)
Theorem id1_open_errors (idbmagic : bytes) (w : FileSection.t) :
  let W := window_bytes w in
  let ws := database_wordsize idbmagic in
  0 <= FileSection.start w <= FileSection.end_ w ->
  (~ In (slice W 0 4) id1_old_magics -> slice W 0 4 <> id1_new_magic ->
   ID1File.init idbmagic w
   = Raise (PyException ("unknown id1 magic: " ++ fmt_hex (slice W 0 4)))) /\
  (slice W 0 4 = id1_new_magic -> len W < 20 + le_at W 8 4 * 2 * ws ->
   ID1File.init idbmagic w = Raise StructError) /\
  (In (slice W 0 4) id1_old_magics -> len W < 8 + le_at W 4 2 * 3 * ws ->
   ID1File.init idbmagic w = Raise StructError).
Proof.
  intros W ws Hs. unfold ID1File.init.
  destruct (word_format idbmagic) as (fmt & -> & Hws). fold ws in Hws.
  assert (Hpos : 0 < ws) by (rewrite Hws; destruct fmt; cbn; lia).
  pose proof (window_bytes_len w) as Hlw. fold W in Hlw.
  cbn [fl_seek fl_read FileSection_FileLike].
  destruct (window_at w 0 32 ltac:(lia) ltac:(lia)) as (w1 & w2 & E1 & E2 & Hd2 & Hs2 & He2).
  rewrite E1. cbn [bind]. rewrite E2. cbn [bind]. fold W.
  rewrite id1_magic.
  pose proof (len_nonneg W) as Hn0.
  assert (Hh : len (slice W 0 (0 + 32)) = Z.min 32 (len W))
    by (unfold slice; rewrite len_firstn, len_skipn; lia).
  split; [|split].
  - intros Hold Hnew.
    destruct (ID1File.old_magic (slice W 0 4)) eqn:Eo;
      [apply old_magic_spec in Eo; contradiction|].
    destruct (ID1File.new_magic (slice W 0 4)) eqn:En;
      [apply new_magic_spec in En; contradiction|].
    reflexivity.
  - intros Hm Hl. rewrite Hm.
    replace (ID1File.old_magic id1_new_magic) with false by reflexivity.
    replace (ID1File.new_magic id1_new_magic) with true by reflexivity.
    destruct (Z_lt_ge_dec (len W) 20) as [Hshort|Hlong].
    { rewrite unpack_from_short by (try lia; cbn [calcsize fmtsize]; lia). reflexivity. }
    rewrite unpack_from_ok by (try lia; cbn [calcsize fmtsize]; lia).
    unpack_all. cbn [bind].
    rewrite (le_at_slice W 0 (0 + 32) 8 4) by lia. change (0 + 8) with 8.
    set (n := le_at W 8 4) in *.
    assert (Hn : 0 <= n) by apply le_at_nonneg.
    destruct (window_at w2 20 (n * 2 * fmtsize fmt) ltac:(lia) ltac:(lia))
      as (w3 & w4 & E3 & E4 & Hd4 & Hs4 & He4).
    rewrite E3. cbn [bind]. rewrite E4. cbn [bind].
    rewrite (window_bytes_same w w2 Hd2 Hs2 He2). fold W.
    rewrite <- Hws.
    set (segdata := slice W 20 (20 + n * 2 * ws)).
    assert (Hsd : len segdata = len W - 20)
      by (unfold segdata, slice; rewrite len_firstn, len_skipn; lia).
    rewrite Hws.
    rewrite read_segments_new_short by (rewrite <- ?Hws; lia).
    reflexivity.
  - intros Hm Hl. pose proof (old_not_new _ Hm) as Hnew.
    apply old_magic_spec in Hm. rewrite Hm.
    destruct (Z_lt_ge_dec (len W) 8) as [Hshort|Hlong].
    { rewrite unpack_from_short by (try lia; cbn [calcsize fmtsize]; lia). reflexivity. }
    rewrite unpack_from_ok by (try lia; cbn [calcsize fmtsize]; lia).
    unpack_all. cbn [bind].
    rewrite (le_at_slice W 0 (0 + 32) 4 2) by lia. change (0 + 4) with 4.
    set (n := le_at W 4 2) in *.
    assert (Hn : 0 <= n) by apply le_at_nonneg.
    destruct (window_at w2 8 (n * 3 * fmtsize fmt) ltac:(lia) ltac:(lia))
      as (w3 & w4 & E3 & E4 & Hd4 & Hs4 & He4).
    rewrite E3. cbn [bind]. rewrite E4. cbn [bind].
    rewrite (window_bytes_same w w2 Hd2 Hs2 He2). fold W.
    rewrite <- Hws.
    set (segdata := slice W 8 (8 + n * 3 * ws)).
    assert (Hsd : len segdata = len W - 8)
      by (unfold segdata, slice; rewrite len_firstn, len_skipn; lia).
    rewrite Hws.
    rewrite read_segments_old_short by (rewrite <- ?Hws; lia).
    reflexivity.
Qed.

Lemma id1_open_errors_witness :
  ID1File.init (b "IDA1") (snd (FileSection.init test_file_source 3 11))
  = Raise (PyException "unknown id1 magic: b'33343536'").
Proof.
  assert (Hs : 0 <= FileSection.start (snd (FileSection.init test_file_source 3 11))
               <= FileSection.end_ (snd (FileSection.init test_file_source 3 11)))
    by (vm_compute; split; discriminate).
  destruct (id1_open_errors (b "IDA1") (snd (FileSection.init test_file_source 3 11)) Hs)
    as (Hu & _ & _).
  apply Hu.
  - vm_compute. intros [H|[H|[H|[]]]]; discriminate.
  - vm_compute. discriminate.
Defined.

(** ** Addresses and their flags *)

Lemma contains_inside (seg : ID1File.SegInfo) (ea : Z) :
  ID1File.contains seg ea = true <-> inside seg ea.
Proof.
  unfold ID1File.contains, inside. rewrite andb_true_iff, Z.leb_le, Z.ltb_lt. reflexivity.
Qed.

Lemma contains_outside (seg : ID1File.SegInfo) (ea : Z) :
  ~ inside seg ea -> ID1File.contains seg ea = false.
Proof.
  intros Hn. destruct (ID1File.contains seg ea) eqn:E; [|reflexivity].
  apply contains_inside in E. contradiction.
Qed.

Lemma find_segment_first (pre post : list ID1File.SegInfo) (seg : ID1File.SegInfo) (ea : Z) :
  (forall s, In s pre -> ~ inside s ea) -> inside seg ea ->
  ID1File.find_segment_in (pre ++ seg :: post) ea = Some seg.
Proof.
  intros Hpre Hin. induction pre as [|x pre IH]; cbn [app ID1File.find_segment_in].
  - apply contains_inside in Hin. rewrite Hin. reflexivity.
  - rewrite contains_outside by (apply Hpre; left; reflexivity).
    apply IH. intros s Hs. apply Hpre. right. exact Hs.
Qed.

Lemma find_segment_none (l : list ID1File.SegInfo) (ea : Z) :
  (forall s, In s l -> ~ inside s ea) -> ID1File.find_segment_in l ea = None.
Proof.
  intros Hl. induction l as [|x l IH]; cbn [ID1File.find_segment_in]; [reflexivity|].
  rewrite contains_outside by (apply Hl; left; reflexivity).
  apply IH. intros s Hs. apply Hl. right. exact Hs.
Qed.

Lemma nextSeg_from_first (all post : list ID1File.SegInfo) (seg : ID1File.SegInfo) (ea : Z) :
  inside seg ea ->
  forall pre done i,
  all = done ++ pre ++ seg :: post -> i = len done ->
  (forall s, In s pre -> ~ inside s ea) ->
  ID1File.nextSeg_from all (pre ++ seg :: post) i ea
  = Ok (match post with [] => None | s :: _ => Some (ID1File.startea s) end).
Proof.
  intros Hin. induction pre as [|x pre IH]; intros done i Hall Hi Hpre;
    cbn [app ID1File.nextSeg_from].
  - apply contains_inside in Hin. rewrite Hin. cbn [app] in Hall.
    assert (Hlen : len all = i + 1 + len post).
    { subst all i. unfold len. rewrite length_app. cbn [List.length]. lia. }
    destruct post as [|s post].
    + destruct (i + 1 <? len all) eqn:E; [|reflexivity].
      apply Z.ltb_lt in E. change (len (@nil ID1File.SegInfo)) with 0 in Hlen. lia.
    + pose proof (len_nonneg post) as Hp. pose proof (len_nonneg done) as Hd.
      assert (Hls : len (s :: post) = 1 + len post)
        by (unfold len; cbn [List.length]; lia).
      destruct (i + 1 <? len all) eqn:E; [|apply Z.ltb_ge in E; lia].
      rewrite getitem_ok with (d := seg) by lia. cbn [bind]. do 3 f_equal.
      subst all i. replace (Z.to_nat (len done + 1)) with (List.length (done ++ [seg]))
        by (rewrite length_app; unfold len; cbn [List.length]; lia).
      change (done ++ seg :: s :: post) with (done ++ [seg] ++ s :: post).
      rewrite app_assoc. apply nth_middle.
  - rewrite contains_outside by (apply Hpre; left; reflexivity).
    apply (IH (done ++ [x])).
    + rewrite <- app_assoc. exact Hall.
    + subst i. unfold len. rewrite length_app. cbn [List.length]. lia.
    + intros s Hs. apply Hpre. right. exact Hs.
Qed.

Lemma nextSeg_from_none (all l : list ID1File.SegInfo) (ea : Z) :
  (forall s, In s l -> ~ inside s ea) ->
  forall i, ID1File.nextSeg_from all l i ea = Ok None.
Proof.
  intros Hl. induction l as [|x l IH]; intros i; cbn [ID1File.nextSeg_from]; [reflexivity|].
  rewrite contains_outside by (apply Hl; left; reflexivity).
  apply IH. intros s Hs. apply Hl. right. exact Hs.
Qed.

(** X23. [getFlags(ea)] on an id1 file in a section: the segment that
    counts is the first of the list that holds [ea], and the flags are the
    32-bit number found in the section at the offset of that segment plus
    4 bytes for each address between its start and [ea].  When the section
    ends before these 4 bytes [struct.error] is raised, when the offset
    lies outside the section [Exception("illegal offset")], and when no
    segment holds [ea] [AttributeError]. *)
Theorem getFlags_reads (self : ID1File.t FileSection.t) (ea : Z) :
  let w := ID1File.fh self in
  let W := window_bytes w in
  0 <= FileSection.start w ->
  ((forall s, In s (ID1File.seglist self) -> ~ inside s ea) ->
   fst (ID1File.getFlags self ea) = Raise AttributeError) /\
  (forall pre seg post,
     ID1File.seglist self = pre ++ seg :: post ->
     (forall s, In s pre -> ~ inside s ea) -> inside seg ea ->
     let p := ID1File.offset seg + 4 * (ea - ID1File.startea seg) in
     (0 <= p -> p + 4 <= len W -> fst (ID1File.getFlags self ea) = Ok (le_at W p 4)) /\
     (0 <= p <= FileSection.end_ w - FileSection.start w -> len W < p + 4 ->
      fst (ID1File.getFlags self ea) = Raise StructError) /\
     (p < 0 \/ FileSection.end_ w - FileSection.start w < p ->
      fst (ID1File.getFlags self ea) = Raise (PyException "illegal offset"))).
Proof.
  intros w W Hs. split.
  { intros Hno. unfold ID1File.getFlags, ID1File.find_segment.
    rewrite (find_segment_none _ ea Hno). reflexivity. }
  intros pre seg post Hl Hpre Hin p.
  unfold ID1File.getFlags, ID1File.find_segment. rewrite Hl.
  rewrite (find_segment_first pre post seg ea Hpre Hin).
  cbn [fl_seek fl_read FileSection_FileLike]. fold w. fold p.
  pose proof (window_bytes_len w) as Hlw. fold W in Hlw.
  pose proof (len_nonneg W) as Hn0.
  split; [|split].
  - intros Hp0 Hp4.
    destruct (window_at w p 4 Hs ltac:(lia)) as (w1 & w2 & E1 & E2 & _).
    rewrite E1, E2. cbn [fst bind]. fold W.
    unfold unpack. rewrite len_slice_in by lia.
    replace (p + 4 - p =? calcsize [fL]) with true by (symmetry; apply Z.eqb_eq; cbn; lia).
    cbn [bind unpack_fields hd fmtsize]. unfold le_at. f_equal. f_equal.
    apply firstn_all2. pose proof (len_slice_le W p (p + 4)) as Hle.
    unfold len in Hle. lia.
  - intros Hp0 Hp4.
    destruct (window_at w p 4 Hs ltac:(lia)) as (w1 & w2 & E1 & E2 & _).
    rewrite E1, E2. cbn [fst bind]. fold W.
    unfold unpack.
    assert (Hshort : len (slice W p (p + 4)) < 4)
      by (unfold slice; rewrite len_firstn, len_skipn; lia).
    destruct (len (slice W p (p + 4)) =? calcsize [fL]) eqn:E; [|reflexivity].
    apply Z.eqb_eq in E. cbn in E. lia.
  - intros Hout. rewrite (window_seek w p Hs).
    destruct ((0 <=? p) && (p <=? FileSection.end_ w - FileSection.start w)) eqn:E;
      [|reflexivity].
    apply andb_true_iff in E. destruct E as [E1 E2].
    apply Z.leb_le in E1. apply Z.leb_le in E2. lia.
Qed.

Lemma getFlags_reads_witness :
  fst (ID1File.getFlags FixtureID1.id1 0x4001) = Ok 0x22.
Proof.
  assert (Hs : 0 <= FileSection.start (ID1File.fh FixtureID1.id1))
    by (vm_compute; discriminate).
  destruct (getFlags_reads FixtureID1.id1 0x4001 Hs) as (_ & Hseg).
  destruct (Hseg [ID1File.mkSeg 0x1000 0x1003 0x2000] (ID1File.mkSeg 0x4000 0x4002 0x200c) [])
    as (Hok & _ & _).
  - reflexivity.
  - intros s [<-|[]]. unfold inside. cbn. lia.
  - unfold inside. cbn. lia.
  - rewrite Hok.
    + vm_compute. reflexivity.
    + vm_compute. discriminate.
    + vm_compute. discriminate.
Defined.

(** X24. The queries on the list of segments.  When a segment holds [ea],
    the first such segment answers: [segStart] and [segEnd] give its
    bounds, and [nextSeg] gives the start of the segment that follows it
    in the list, [None] when it is the last.  When no segment holds [ea],
    [segStart] and [segEnd] raise [AttributeError], whereas [nextSeg]
    returns [None].  [firstSeg] gives the start of the first segment of
    the list and raises [IndexError] when there is none. *)
Theorem segment_queries {F : Type} `{FileLike F} (self : ID1File.t F) (ea : Z) :
  (forall pre seg post,
     ID1File.seglist self = pre ++ seg :: post ->
     (forall s, In s pre -> ~ inside s ea) -> inside seg ea ->
     ID1File.segStart self ea = Ok (ID1File.startea seg) /\
     ID1File.segEnd self ea = Ok (ID1File.endea seg) /\
     ID1File.nextSeg self ea
     = Ok (match post with [] => None | s :: _ => Some (ID1File.startea s) end)) /\
  ((forall s, In s (ID1File.seglist self) -> ~ inside s ea) ->
   ID1File.segStart self ea = Raise AttributeError /\
   ID1File.segEnd self ea = Raise AttributeError /\
   ID1File.nextSeg self ea = Ok None) /\
  ID1File.firstSeg self
  = match ID1File.seglist self with
    | [] => Raise IndexError
    | seg :: _ => Ok (ID1File.startea seg)
    end.
Proof.
  unfold ID1File.segStart, ID1File.segEnd, ID1File.nextSeg, ID1File.find_segment,
    ID1File.firstSeg.
  split; [|split].
  - intros pre seg post Hl Hpre Hin. rewrite Hl.
    rewrite (find_segment_first pre post seg ea Hpre Hin).
    split; [reflexivity|]. split; [reflexivity|].
    apply (nextSeg_from_first (pre ++ seg :: post) post seg ea Hin pre [] 0);
      [reflexivity|reflexivity|exact Hpre].
  - intros Hno. rewrite (find_segment_none _ ea Hno).
    split; [reflexivity|]. split; [reflexivity|].
    apply nextSeg_from_none. exact Hno.
  - destruct (ID1File.seglist self) as [|seg l]; reflexivity.
Qed.

Lemma segment_queries_witness :
  ID1File.segStart FixtureID1.id1 0x1002 = Ok 0x1000 /\
  ID1File.segEnd FixtureID1.id1 0x1002 = Ok 0x1003 /\
  ID1File.nextSeg FixtureID1.id1 0x1002 = Ok (Some 0x4000).
Proof.
  destruct (segment_queries FixtureID1.id1 0x1002) as (Hq & _ & _).
  apply (Hq [] (ID1File.mkSeg 0x1000 0x1003 0x2000) [ID1File.mkSeg 0x4000 0x4002 0x200c]).
  - reflexivity.
  - intros s [].
  - unfold inside. cbn. lia.
Defined.

(** ** The dump of a tree *)

Lemma printed_app (a c : list BTree.dump_line) :
  printed_entries (a ++ c) = printed_entries a ++ printed_entries c.
Proof. unfold printed_entries. apply flat_map_app. Qed.

Lemma printed_map (l : list Entry) : printed_entries (map BTree.DumpEntry l) = l.
Proof.
  induction l as [|e l IH]; [reflexivity|].
  cbn [map]. change (printed_entries (BTree.DumpEntry e :: map BTree.DumpEntry l))
    with (e :: printed_entries (map BTree.DumpEntry l)).
  rewrite IH. reflexivity.
Qed.

Lemma entry_at_middle (done es : list Entry) (e : Entry) :
  entry_at (done ++ e :: es) (len done) = e.
Proof.
  unfold entry_at, len. rewrite Nat2Z.id. apply nth_middle.
Qed.

(** The records under the positions of the entries of a page. *)
Lemma page_records (pg : Page) (ctx : Cursor) :
  forall es done, index pg = done ++ es ->
  map (fun c => (key_of c, val_of c))
    (map (fun i => (pg, i) :: ctx) (zrange (len done) (List.length es)))
  = map entry_record es.
Proof.
  induction es as [|e es IH]; intros done Hi; [reflexivity|].
  cbn [List.length zrange map]. f_equal.
  - cbn [key_of val_of]. rewrite Hi, entry_at_middle. reflexivity.
  - replace (len done + 1) with (len (done ++ [e]))
      by (unfold len; rewrite length_app; cbn [List.length]; lia).
    apply IH. rewrite <- app_assoc. exact Hi.
Qed.

Lemma flat_map_cons_perm {A B : Type} (f : A -> B) (g : A -> list B) (l : list A) :
  Permutation (flat_map (fun a => f a :: g a) l) (map f l ++ flat_map g l).
Proof.
  induction l as [|a l IH]; [constructor|].
  cbn [flat_map map app]. constructor.
  apply Permutation_trans with (g a ++ map f l ++ flat_map g l).
  - apply Permutation_app_head. exact IH.
  - apply Permutation_app_swap_app.
Qed.

Section DumpTree.
Context {F : Type} `{FileLike F}.
Variable db : BTree.t F.

(** The page of an entry of an index page. *)
Lemma index_entry_page (nr : Z) (pg : Page) (i : Z) :
  BTree.readpage db nr = Ok pg -> BasePage.isleaf pg = false ->
  0 <= i < len (index pg) ->
  ent_page (entry_at (index pg) i) = Ok (child pg i).
Proof.
  intros Hr Hl Hi.
  pose proof (getpage_child db nr pg i Hr ltac:(rewrite isleaf_isindex, Hl; reflexivity)
                ltac:(lia)) as Hg.
  unfold BasePage.getpage in Hg. destruct (i <? 0) eqn:E; [lia|].
  rewrite index_at_ok in Hg by lia. exact Hg.
Qed.

Lemma dumptree_positions (fuel : nat) :
  forall h nr ctx, shape db h nr -> (h < fuel)%nat ->
  exists lines,
    BTree.dumptree db fuel nr = (lines, Ok tt) /\
    Permutation (map entry_record (printed_entries lines))
      (map (fun c => (key_of c, val_of c)) (positions db h nr ctx)).
Proof.
  induction fuel as [|fuel IH]; intros h nr ctx Hs Hf; [lia|].
  destruct (shape_readpage db h nr Hs) as [pg Hr].
  cbn [BTree.dumptree]. rewrite Hr.
  destruct (BasePage.isleaf pg) eqn:Hl.
  - unfold BasePage.isleaf in Hl. rewrite Hl. cbn [negb].
    eexists. split; [reflexivity|].
    rewrite (positions_leaf db h nr pg ctx Hr Hl).
    change (printed_entries (BTree.DumpPage nr (preceeding pg) (count pg)
                             :: map BTree.DumpEntry (index pg)))
      with (printed_entries (map BTree.DumpEntry (index pg))).
    rewrite printed_map.
    pose proof (page_records pg ctx (index pg) [] eq_refl) as Hpr.
    change (len (@nil Entry)) with 0 in Hpr. rewrite Hpr. apply Permutation_refl.
  - destruct h as [|h].
    { rewrite (shape_index_height db nr pg Hs Hr) in Hl. discriminate. }
    pose proof Hl as Hl'. unfold BasePage.isleaf in Hl'. rewrite Hl'. cbn [negb].
    destruct (IH h (preceeding pg) ((pg, -1) :: ctx)
                (shape_child db h nr pg (-1) Hs Hr Hl
                   ltac:(pose proof (len_nonneg (index pg)); lia))
                ltac:(lia)) as (o1 & E1 & P1).
    rewrite E1.
    assert (Hch : forall es done, index pg = done ++ es ->
              exists o2,
                BTree.dump_children (BTree.dumptree db fuel) es = (o2, Ok tt) /\
                Permutation (map entry_record (printed_entries o2))
                  (map (fun c => (key_of c, val_of c))
                     (flat_map (fun i => positions db h (child pg i) ((pg, i) :: ctx))
                        (zrange (len done) (List.length es))))).
    { induction es as [|e es IHes]; intros done Hi.
      - exists []. split; [reflexivity|]. constructor.
      - assert (Hlen : len (index pg) = len done + 1 + len es)
          by (rewrite Hi; unfold len; rewrite length_app; cbn [List.length]; lia).
        pose proof (len_nonneg done) as Hd. pose proof (len_nonneg es) as He.
        pose proof (index_entry_page nr pg (len done) Hr Hl ltac:(lia)) as Hp.
        rewrite Hi, entry_at_middle in Hp.
        cbn [BTree.dump_children]. rewrite Hp.
        destruct (IH h (child pg (len done)) ((pg, len done) :: ctx)
                    (shape_child db h nr pg (len done) Hs Hr Hl ltac:(lia))
                    ltac:(lia)) as (o & Eo & Po).
        rewrite Eo.
        destruct (IHes (done ++ [e]) ltac:(rewrite <- app_assoc; exact Hi))
          as (o' & Eo' & Po').
        rewrite Eo'. eexists. split; [reflexivity|].
        rewrite printed_app, map_app. cbn [List.length zrange flat_map].
        rewrite map_app. apply Permutation_app; [exact Po|].
        replace (len done + 1) with (len (done ++ [e]))
          by (unfold len; rewrite length_app; cbn [List.length]; lia).
        exact Po'. }
    destruct (Hch (index pg) [] eq_refl) as (o2 & E2 & P2).
    rewrite E2. eexists. split; [reflexivity|].
    rewrite (positions_index db h nr pg ctx Hr Hl).
    change (child pg (-1)) with (preceeding pg).
    change (printed_entries
              ((BTree.DumpPage nr (preceeding pg) (count pg)
                :: map BTree.DumpEntry (index pg)) ++ o1 ++ o2))
      with (printed_entries (map BTree.DumpEntry (index pg) ++ o1 ++ o2)).
    rewrite !printed_app, printed_map, !map_app.
    change (len (@nil Entry)) with 0 in P2.
    set (zr := zrange 0 (List.length (index pg))) in *.
    apply Permutation_trans
      with (map (fun c => (key_of c, val_of c)) (positions db h (preceeding pg) ((pg, -1) :: ctx))
            ++ map entry_record (index pg)
            ++ map (fun c => (key_of c, val_of c))
                 (flat_map (fun i => positions db h (child pg i) ((pg, i) :: ctx)) zr)).
    + apply Permutation_trans
        with (map entry_record (index pg)
              ++ map (fun c => (key_of c, val_of c))
                   (positions db h (preceeding pg) ((pg, -1) :: ctx))
              ++ map (fun c => (key_of c, val_of c))
                   (flat_map (fun i => positions db h (child pg i) ((pg, i) :: ctx)) zr)).
      * apply Permutation_app_head. apply Permutation_app; assumption.
      * apply Permutation_app_swap_app.
    + apply Permutation_app_head.
      pose proof (page_records pg ctx (index pg) [] eq_refl) as Hpr.
      change (len (@nil Entry)) with 0 in Hpr. fold zr in Hpr.
      rewrite <- Hpr, <- map_app.
      apply Permutation_map. apply Permutation_sym.
      apply (flat_map_cons_perm (fun i => (pg, i) :: ctx)
               (fun i => positions db h (child pg i) ((pg, i) :: ctx))).
Qed.

End DumpTree.

(** X25. [dumptree(pn)] on a tree of height at most [h]: it ends without
    an exception, and the entries it prints hold the records of the tree,
    each one once: the records printed are a permutation of the records
    of the tree in the order of their keys. *)
Theorem dumptree_records {F : Type} `{FileLike F} (db : BTree.t F) (h fuel : nat) (nr : Z) :
  shape db h nr -> (h < fuel)%nat ->
  exists lines,
    BTree.dumptree db fuel nr = (lines, Ok tt) /\
    Permutation (map entry_record (printed_entries lines)) (records db h nr).
Proof.
  intros Hs Hf. exact (dumptree_positions db fuel h nr [] Hs Hf).
Qed.

Lemma dumptree_records_witness :
  exists lines,
    BTree.dumptree Fixture.db10 2 1 = (lines, Ok tt) /\
    Permutation (map entry_record (printed_entries lines)) (records Fixture.db10 1 1).
Proof.
  assert (Hf : (1 < 2)%nat) by lia.
  exact (dumptree_records Fixture.db10 1 2 1 (proj1 Example10Facts.well_formed10) Hf).
Defined.

(** ** Floats *)

Lemma bit_length_nonneg (z : Z) : 0 <= bit_length z.
Proof.
  unfold bit_length. destruct (z =? 0); [lia|].
  pose proof (Z.log2_nonneg (Z.abs z)). lia.
Qed.

Lemma bit_length_shift (a c : Z) :
  0 < a -> 0 <= c -> bit_length (a * 2 ^ c) = bit_length a + c.
Proof.
  intros Ha Hc. unfold bit_length.
  assert (Hp : 0 < 2 ^ c) by (apply Z.pow_pos_nonneg; lia).
  destruct (a * 2 ^ c =? 0) eqn:E1; [apply Z.eqb_eq in E1; nia|].
  destruct (a =? 0) eqn:E2; [apply Z.eqb_eq in E2; lia|].
  rewrite !Z.abs_eq by nia. rewrite Z.log2_mul_pow2 by lia. lia.
Qed.

Lemma bit_length_below (a n : Z) : 0 <= n -> 0 <= a < 2 ^ n -> bit_length a <= n.
Proof.
  intros Hn Ha. unfold bit_length. destruct (a =? 0) eqn:E; [lia|].
  apply Z.eqb_neq in E. rewrite Z.abs_eq by lia.
  assert (Z.log2 a < n) by (apply Z.log2_lt_pow2; lia). lia.
Qed.

Lemma bit_length_mono (a c : Z) : 0 <= a <= c -> bit_length a <= bit_length c.
Proof.
  intros H. unfold bit_length.
  destruct (Z.eqb_spec a 0) as [E1|E1]; destruct (Z.eqb_spec c 0) as [E2|E2]; try lia.
  - pose proof (Z.log2_nonneg (Z.abs c)). lia.
  - rewrite !Z.abs_eq by lia. pose proof (Z.log2_le_mono a c). lia.
Qed.

Lemma bit_length_pow2 (j : Z) : 0 <= j -> bit_length (2 ^ j) = j + 1.
Proof.
  intros Hj. replace (2 ^ j) with (1 * 2 ^ j) by lia.
  rewrite bit_length_shift by lia. change (bit_length 1) with 1. lia.
Qed.

Lemma round_small (m e : Z) : bit_length m <= 53 -> round m e = mkFloat m e.
Proof.
  intros H. unfold round. destruct (bit_length m <=? 53) eqn:E; [reflexivity|].
  apply Z.leb_gt in E. lia.
Qed.

Lemma of_int_small (n : Z) : 0 <= n < 2 ^ 53 -> of_int n = mkFloat n 0.
Proof.
  intros H. apply round_small. apply bit_length_below; lia.
Qed.

(** The quotient of a number below [2 ^ 53] by a power of two is a
    float. *)
Lemma truediv_pow2 (a j : Z) :
  0 <= a < 2 ^ 53 -> 0 <= j ->
  exists x, truediv a (2 ^ j) = Ok x /\ float_is x a j.
Proof.
  intros Ha Hj. unfold truediv. cbv zeta.
  assert (Hp : 0 < 2 ^ j) by (apply Z.pow_pos_nonneg; lia).
  destruct (2 ^ j =? 0) eqn:E0; [apply Z.eqb_eq in E0; lia|].
  rewrite bit_length_pow2 by lia.
  rewrite (Z.abs_eq (2 ^ j)) by lia. rewrite (Z.abs_eq a) by lia.
  destruct (Z.eq_dec a 0) as [->|Hnz].
  - change (bit_length 0) with 0.
    rewrite Z.mul_0_l. rewrite round_small by (cbn; lia).
    eexists. split; [reflexivity|]. exists (Z.max 0 (55 + (j + 1) - 0) + 1 - j).
    cbn [mant expo]. repeat split; try lia. cbn. lia.
  - pose proof (bit_length_below a 53 ltac:(lia) Ha) as Hla.
    assert (Hla1 : 1 <= bit_length a).
    { replace a with (a * 2 ^ 0) by (rewrite Z.pow_0_r; lia).
      unfold bit_length. destruct (a * 2 ^ 0 =? 0) eqn:E; [apply Z.eqb_eq in E; lia|].
      pose proof (Z.log2_nonneg (Z.abs (a * 2 ^ 0))). lia. }
    set (c := 53 - bit_length a).
    replace (Z.max 0 (55 + (j + 1) - bit_length a)) with (c + 3 + j) by (unfold c; lia).
    assert (Hc : 0 <= c) by (unfold c; lia).
    assert (H2c : 0 < 2 ^ c) by (apply Z.pow_pos_nonneg; lia).
    replace (2 ^ (c + 3 + j)) with (2 ^ c * 8 * 2 ^ j)
      by (rewrite !Z.pow_add_r by lia; reflexivity).
    replace (a * (2 ^ c * 8 * 2 ^ j)) with (a * 2 ^ c * 8 * 2 ^ j) by lia.
    rewrite Z.div_mul, Z.mod_mul by lia. cbn [Z.eqb].
    rewrite Z.add_0_r.
    replace (Z.sgn a) with 1 by (symmetry; apply Z.sgn_pos; lia).
    replace (Z.sgn (2 ^ j)) with 1 by (symmetry; apply Z.sgn_pos; lia).
    replace (1 * 1 * (2 * (a * 2 ^ c * 8))) with (a * 2 ^ (c + 4))
      by (rewrite Z.pow_add_r by lia; change (2 ^ 4) with 16; lia).
    unfold round. cbv zeta. rewrite bit_length_shift by lia.
    replace (bit_length a + (c + 4)) with 57 by (unfold c; lia).
    change (57 <=? 53) with false. cbv iota.
    change (57 - 53) with 4. change (2 ^ 4) with 16. change (2 ^ (4 - 1)) with 8.
    assert (Hm : 0 < a * 2 ^ (c + 4)) by (apply Z.mul_pos_pos; [lia|apply Z.pow_pos_nonneg; lia]).
    rewrite Z.abs_eq by lia.
    replace (a * 2 ^ (c + 4)) with (a * 2 ^ c * 16)
      by (rewrite Z.pow_add_r by lia; change (2 ^ 4) with 16; lia).
    rewrite Z.div_mul, Z.mod_mul by lia.
    change ((8 <? 0) || (0 =? 8) && Z.odd (a * 2 ^ c)) with false. cbv iota.
    replace (Z.sgn (a * 2 ^ c * 16)) with 1 by (symmetry; apply Z.sgn_pos; nia).
    eexists. split; [reflexivity|]. exists c. cbn [mant expo].
    repeat split; try lia.
    rewrite Z.mul_1_l, bit_length_shift by lia. unfold c. lia.
Qed.

Lemma int_lt_float_is (n : Z) (x : pyfloat) (a j : Z) :
  float_is x a j -> 0 <= j -> int_lt_float n x = (n * 2 ^ j <? a).
Proof.
  intros (c & Hc & Hm & He & _) Hj. unfold int_lt_float. rewrite He, Hm.
  assert (H2c : 0 < 2 ^ c) by (apply Z.pow_pos_nonneg; lia).
  assert (H2j : 0 < 2 ^ j) by (apply Z.pow_pos_nonneg; lia).
  destruct (0 <=? - (j + c)) eqn:E.
  - apply Z.leb_le in E. assert (j = 0) by lia. assert (c = 0) by lia. subst j c.
    cbn. rewrite !Z.mul_1_r. reflexivity.
  - rewrite Z.opp_involutive, Z.pow_add_r by lia.
    destruct (n * 2 ^ j <? a) eqn:E1.
    + apply Z.ltb_lt in E1. apply Z.ltb_lt. nia.
    + apply Z.ltb_ge in E1. apply Z.ltb_ge. nia.
Qed.

Lemma int_of_float_is (x : pyfloat) (a j : Z) :
  float_is x a j -> 0 <= a -> 0 <= j -> int_of_float x = a / 2 ^ j.
Proof.
  intros (c & Hc & Hm & He & _) Ha Hj. unfold int_of_float. rewrite He, Hm.
  assert (H2c : 0 < 2 ^ c) by (apply Z.pow_pos_nonneg; lia).
  assert (H2j : 0 < 2 ^ j) by (apply Z.pow_pos_nonneg; lia).
  destruct (0 <=? - (j + c)) eqn:E.
  - apply Z.leb_le in E. assert (j = 0) by lia. assert (c = 0) by lia. subst j c.
    cbn. rewrite Z.div_1_r. lia.
  - rewrite Z.opp_involutive, Z.pow_add_r by lia.
    rewrite Z.quot_div_nonneg by nia.
    apply Z.div_mul_cancel_r; lia.
Qed.

Lemma fsub_is (x : pyfloat) (a j n : Z) :
  float_is x a j -> 0 <= j -> 0 <= n < 2 ^ 53 -> 0 <= a - n * 2 ^ j ->
  float_is (fsub x (of_int n)) (a - n * 2 ^ j) j.
Proof.
  intros (c & Hc & Hm & He & Hb) Hj Hn Hpos. unfold fsub. cbv zeta.
  rewrite of_int_small by exact Hn. cbn [mant expo]. rewrite He, Hm.
  assert (H2c : 0 < 2 ^ c) by (apply Z.pow_pos_nonneg; lia).
  assert (H2j : 0 < 2 ^ j) by (apply Z.pow_pos_nonneg; lia).
  replace (Z.min (- (j + c)) 0) with (- (j + c)) by lia.
  replace (- (j + c) - - (j + c)) with 0 by lia.
  replace (0 - - (j + c)) with (j + c) by lia.
  rewrite Z.pow_0_r, Z.mul_1_r, Z.pow_add_r by lia.
  replace (a * 2 ^ c - n * (2 ^ j * 2 ^ c)) with ((a - n * 2 ^ j) * 2 ^ c) by lia.
  assert (Hle : bit_length ((a - n * 2 ^ j) * 2 ^ c) <= 53).
  { apply Z.le_trans with (2 := Hb). rewrite Hm. apply bit_length_mono. nia. }
  rewrite round_small by exact Hle.
  exists c. cbn [mant expo]. repeat split; try lia.
Qed.
(** ** The names of a nam file *)

Lemma zrange_app (m n : nat) :
  forall a, zrange a (m + n) = zrange a m ++ zrange (a + Z.of_nat m) n.
Proof.
  induction m as [|m IH]; intros a.
  - cbn [Nat.add zrange app]. rewrite Z.add_0_r. reflexivity.
  - cbn [Nat.add zrange app]. rewrite IH. do 3 f_equal. lia.
Qed.

Lemma map_zrange_ext {A : Type} (f g : Z -> A) (n : nat) :
  forall a c, (forall i, 0 <= i < Z.of_nat n -> f (a + i) = g (c + i)) ->
  map f (zrange a n) = map g (zrange c n).
Proof.
  induction n as [|n IH]; intros a c Hfg; [reflexivity|].
  cbn [zrange map]. f_equal.
  - pose proof (Hfg 0 ltac:(lia)) as H0. rewrite !Z.add_0_r in H0. exact H0.
  - apply IH. intros i Hi.
    replace (a + 1 + i) with (a + (1 + i)) by lia.
    replace (c + 1 + i) with (c + (1 + i)) by lia. apply Hfg. lia.
Qed.

Lemma calcsize_repeat (c : fmtchar) (k : nat) :
  calcsize (repeat c k) = fmtsize c * Z.of_nat k.
Proof.
  induction k as [|k IH]; [cbn; lia|]. cbn [repeat calcsize]. rewrite IH. lia.
Qed.

Lemma unpack_fields_repeat (c : fmtchar) (data : bytes) (k : nat) :
  forall a, 0 <= a ->
  unpack_fields (repeat c k) (skipn (Z.to_nat (fmtsize c * a)) data)
  = map (fun i => le_at data (fmtsize c * i) (fmtsize c)) (zrange a k).
Proof.
  assert (Hws : 0 < fmtsize c) by (destruct c; cbn; lia).
  induction k as [|k IH]; intros a Ha; [reflexivity|].
  cbn [repeat zrange map]. rewrite unpack_fields_at by nia. f_equal.
  replace (fmtsize c * a + fmtsize c) with (fmtsize c * (a + 1)) by lia.
  apply IH. lia.
Qed.

(** [struct.unpack_from("<" + c * k, data, 0)] *)
Lemma unpack_repeat (c : fmtchar) (data : bytes) (k : nat) :
  fmtsize c * Z.of_nat k <= len data ->
  unpack_from (repeat c k) data 0
  = Ok (map (fun i => le_at data (fmtsize c * i) (fmtsize c)) (zrange 0 k)).
Proof.
  intros Hl. rewrite unpack_from_ok by (rewrite ?calcsize_repeat; lia).
  f_equal. replace 0 with (fmtsize c * 0) at 1 by lia.
  apply unpack_fields_repeat. lia.
Qed.

(** [read(n)] on a window whose parent stands where the window does:
    what it returns and where it leaves the window. *)
Lemma window_read_state (d : bytes) (s e p n : Z) :
  0 <= s -> 0 <= p ->
  FileSection.read (FileSection.mk (mkFile d (p + s)) s e p) n
  = (Ok (slice (slice d s e) p (p + n)),
     FileSection.mk (mkFile d (p + len (slice (slice d s e) p (p + n)) + s)) s e
       (p + len (slice (slice d s e) p (p + n)))).
Proof.
  intros Hs Hp. unfold FileSection.read.
  cbn [FileSection.end_ FileSection.start FileSection.curpos FileSection.fh].
  rewrite (slice_slice d s e p (p + n) Hs Hp).
  replace (p + n - p) with n by lia.
  destruct (Z.min n (e - s - p) <=? 0) eqn:E.
  - rewrite slice_empty by lia. change (len (@nil byte)) with 0.
    rewrite !Z.add_0_r. reflexivity.
  - unfold RawFile.read. cbn [f_data f_pos].
    destruct (Z.min n (e - s - p) <? 0) eqn:E2; [lia|].
    replace (p + s) with (s + p) by lia.
    unfold FileSection.set_curpos, FileSection.set_fh.
    cbn [FileSection.end_ FileSection.start FileSection.curpos FileSection.fh].
    set (L := len (slice d (s + p) (s + p + Z.min n (e - s - p)))).
    replace (s + p + L) with (p + L + s) by lia. reflexivity.
Qed.

(** [read] on a window never raises. *)
Lemma window_read_total (w : FileSection.t) (n : Z) :
  exists data w', FileSection.read w n = (Ok data, w').
Proof.
  unfold FileSection.read.
  destruct (Z.min n (FileSection.end_ w - FileSection.start w - FileSection.curpos w) <=? 0).
  - eexists. eexists. reflexivity.
  - unfold RawFile.read. eexists. eexists. reflexivity.
Qed.

(** [int(pagesize / wordsize)] *)
Lemma words_per_page (p : Z) (c : fmtchar) :
  0 <= p < 2 ^ 53 ->
  exists q, truediv p (fmtsize c) = Ok q /\ int_of_float q = p / fmtsize c.
Proof.
  intros Hp.
  assert (Hj : exists j, 0 <= j /\ fmtsize c = 2 ^ j).
  { destruct c; [exists 0|exists 1|exists 2|exists 3]; split; try lia; reflexivity. }
  destruct Hj as (j & Hj & ->).
  destruct (truediv_pow2 p j Hp Hj) as (q & E & Hq).
  exists q. split; [exact E|]. apply int_of_float_is; [exact Hq|lia|exact Hj].
Qed.

Lemma page_div_mod (per k j : Z) :
  0 <= j < per -> (per * k + j) / per = k /\ (per * k + j) mod per = j.
Proof.
  intros Hj. split.
  - symmetry. apply (Z.div_unique (per * k + j) per k j); lia.
  - symmetry. apply (Z.mod_unique (per * k + j) per k j); lia.
Qed.

(** The loop of [allnames] when [nnames] is an [int]. *)
Lemma allnames_loop_int (self : NAMFile.t FileSection.t) (d : bytes) (s e total : Z) :
  NAMFile.wordsize self = fmtsize (NAMFile.wordfmt self) ->
  NAMFile.nnames self = NInt total ->
  0 <= s -> 0 <= NAMFile.pagesize self < 2 ^ 53 ->
  0 < NAMFile.pagesize self / NAMFile.wordsize self ->
  (forall i, 0 <= i < total ->
     NAMFile.pagesize self * (1 + i / (NAMFile.pagesize self / NAMFile.wordsize self))
     + NAMFile.wordsize self * (i mod (NAMFile.pagesize self / NAMFile.wordsize self))
     + NAMFile.wordsize self <= len (slice d s e)) ->
  forall fuel n w',
  0 <= n <= total ->
  (n < total ->
   exists k, 0 <= k /\ n = NAMFile.pagesize self / NAMFile.wordsize self * k /\
     w' = FileSection.mk (mkFile d (NAMFile.pagesize self * (1 + k) + s)) s e
            (NAMFile.pagesize self * (1 + k))) ->
  total - n < Z.of_nat fuel ->
  NAMFile.allnames_loop self fuel w' n
  = (map (name_at (slice d s e) (NAMFile.pagesize self) (NAMFile.wordsize self)
            (NAMFile.pagesize self / NAMFile.wordsize self))
       (zrange n (Z.to_nat (total - n))), Ok tt).
Proof.
  intros Hws Hnn Hs Hp Hper Hin.
  set (p := NAMFile.pagesize self) in *.
  set (W := slice d s e) in *.
  rewrite Hws in *.
  set (ws := fmtsize (NAMFile.wordfmt self)) in *.
  set (per := p / ws) in *.
  assert (Hws0 : 0 < ws) by (unfold ws; destruct (NAMFile.wordfmt self); cbn; lia).
  assert (Hpp : ws * per <= p) by (unfold per; apply Z.mul_div_le; lia).
  induction fuel as [|fuel IH]; intros n w' Hn Hst Hf; [lia|].
  cbn [NAMFile.allnames_loop]. rewrite Hnn. cbn [int_lt].
  destruct (n <? total) eqn:E.
  2:{ apply Z.ltb_ge in E. replace (total - n) with 0 by lia. reflexivity. }
  apply Z.ltb_lt in E. destruct (Hst E) as (k & Hk & -> & ->).
  cbn [fl_read FileSection_FileLike].
  rewrite window_read_state by nia. fold W.
  fold p. rewrite Hws. fold ws.
  destruct (words_per_page p (NAMFile.wordfmt self) Hp) as (q & Eq & Hq).
  fold ws in Eq, Hq. fold per in Hq. rewrite Eq, Hq.
  cbn [num_sub]. unfold num_min. cbn [int_lt].
  set (data := slice W (p * (1 + k)) (p * (1 + k) + p)).
  set (rem := total - per * k).
  assert (Hw : exists want,
             (if per <? rem then NInt per else NInt rem) = NInt want /\
             0 < want <= per /\ want <= rem /\ (want < rem -> want = per)).
  { destruct (per <? rem) eqn:Ew.
    - apply Z.ltb_lt in Ew. exists per. repeat split; lia.
    - apply Z.ltb_ge in Ew. exists rem. unfold rem in *. repeat split; lia. }
  destruct Hw as (want & -> & Hw1 & Hw2 & Hw3).
  destruct (page_div_mod per k (want - 1) ltac:(lia)) as (Hd1 & Hd2).
  pose proof (Hin (per * k + (want - 1)) ltac:(unfold rem in *; lia)) as Hlast.
  rewrite Hd1, Hd2 in Hlast.
  assert (Hld : ws * want <= len data).
  { unfold data, slice. rewrite len_firstn, len_skipn. nia. }
  rewrite unpack_repeat by (fold ws; lia). fold ws.
  assert (Hstate : per * k + want < total ->
            FileSection.mk (mkFile d (p * (1 + k) + len data + s)) s e (p * (1 + k) + len data)
            = FileSection.mk (mkFile d (p * (1 + (k + 1)) + s)) s e (p * (1 + (k + 1)))).
  { intros Hmore.
    destruct (page_div_mod per (k + 1) 0 ltac:(lia)) as (He1 & He2).
    pose proof (Hin (per * (k + 1) + 0) ltac:(unfold rem in *; nia)) as Hnext.
    rewrite He1, He2 in Hnext.
    assert (Hfull : len data = p).
    { unfold data, slice. rewrite len_firstn, len_skipn. nia. }
    rewrite Hfull. f_equal; [f_equal|]; lia. }
  subst rem.
  rewrite (IH (per * k + want)
             (FileSection.mk (mkFile d (p * (1 + k) + len data + s)) s e
                (p * (1 + k) + len data))).
  - f_equal.
    replace (Z.to_nat (total - per * k))
      with (Z.to_nat want + Z.to_nat (total - (per * k + want)))%nat
      by lia.
    rewrite zrange_app, map_app. f_equal.
    + apply map_zrange_ext. intros i Hi. unfold name_at.
      destruct (page_div_mod per k i ltac:(lia)) as (Hi1 & Hi2).
      rewrite Hi1, Hi2. unfold data. rewrite le_at_slice by nia. f_equal.
    + do 2 f_equal. lia.
  - lia.
  - intros Hmore. exists (k + 1). split; [lia|]. split.
    + rewrite Hw3 by lia. lia.
    + apply Hstate. exact Hmore.
  - lia.
Qed.
(** The loop of [allnames] when [nnames] is a float, half of [raw]: it
    yields [K] full pages and then fails. *)
Lemma allnames_loop_float (self : NAMFile.t FileSection.t) (d : bytes) (s e : Z)
    (x : pyfloat) (raw : Z) :
  NAMFile.wordsize self = fmtsize (NAMFile.wordfmt self) ->
  NAMFile.nnames self = NFloat x -> float_is x raw 1 -> 0 < raw < 2 ^ 53 ->
  0 <= s -> 0 <= NAMFile.pagesize self < 2 ^ 53 ->
  0 < NAMFile.pagesize self / NAMFile.wordsize self ->
  (forall i,
     0 <= i < NAMFile.pagesize self / NAMFile.wordsize self
              * ((raw - 1) / (2 * (NAMFile.pagesize self / NAMFile.wordsize self))) ->
     NAMFile.pagesize self * (1 + i / (NAMFile.pagesize self / NAMFile.wordsize self))
     + NAMFile.wordsize self * (i mod (NAMFile.pagesize self / NAMFile.wordsize self))
     + NAMFile.wordsize self <= len (slice d s e)) ->
  forall fuel k w',
  0 <= k <= (raw - 1) / (2 * (NAMFile.pagesize self / NAMFile.wordsize self)) ->
  (k < (raw - 1) / (2 * (NAMFile.pagesize self / NAMFile.wordsize self)) ->
   w' = FileSection.mk (mkFile d (NAMFile.pagesize self * (1 + k) + s)) s e
          (NAMFile.pagesize self * (1 + k))) ->
  (raw - 1) / (2 * (NAMFile.pagesize self / NAMFile.wordsize self)) - k < Z.of_nat fuel ->
  NAMFile.allnames_loop self fuel w' (NAMFile.pagesize self / NAMFile.wordsize self * k)
  = (map (name_at (slice d s e) (NAMFile.pagesize self) (NAMFile.wordsize self)
            (NAMFile.pagesize self / NAMFile.wordsize self))
       (zrange (NAMFile.pagesize self / NAMFile.wordsize self * k)
          (Z.to_nat (NAMFile.pagesize self / NAMFile.wordsize self
                     * ((raw - 1) / (2 * (NAMFile.pagesize self / NAMFile.wordsize self)) - k)))),
     Raise TypeError).
Proof.
  intros Hws Hnn Hx Hraw Hs Hp Hper Hin.
  set (p := NAMFile.pagesize self) in *.
  set (W := slice d s e) in *.
  rewrite Hws in *.
  set (ws := fmtsize (NAMFile.wordfmt self)) in *.
  set (per := p / ws) in *.
  set (K := (raw - 1) / (2 * per)) in *.
  assert (Hws0 : 0 < ws) by (unfold ws; destruct (NAMFile.wordfmt self); cbn; lia).
  assert (Hpp : ws * per <= p) by (unfold per; apply Z.mul_div_le; lia).
  assert (HK : 2 * per * K <= raw - 1 < 2 * per * (K + 1)).
  { unfold K. pose proof (Z.mul_div_le (raw - 1) (2 * per) ltac:(lia)).
    pose proof (Z.mul_succ_div_gt (raw - 1) (2 * per) ltac:(lia)). lia. }
  induction fuel as [|fuel IH]; intros k w' Hk Hst Hf; [lia|].
  cbn [NAMFile.allnames_loop]. rewrite Hnn. cbn [int_lt].
  rewrite (int_lt_float_is (per * k) x raw 1 Hx ltac:(lia)). change (2 ^ 1) with 2.
  destruct (per * k * 2 <? raw) eqn:E; [|apply Z.ltb_ge in E; nia].
  clear E. cbn [fl_read FileSection_FileLike]. fold p. rewrite Hws. fold ws.
  destruct (words_per_page p (NAMFile.wordfmt self) Hp) as (q & Eq & Hq).
  fold ws in Eq, Hq. fold per in Hq.
  assert (Hy : float_is (fsub x (of_int (per * k))) (raw - per * k * 2) 1).
  { change 2 with (2 ^ 1) at 1. apply fsub_is; [exact Hx|lia|nia|]. change (2 ^ 1) with 2. nia. }
  destruct (Z_lt_ge_dec k K) as [Hlt|Hge].
  - rewrite (Hst Hlt). rewrite window_read_state by nia. fold W.
    rewrite Eq, Hq. cbn [num_sub]. unfold num_min. cbn [int_lt].
    rewrite (int_lt_float_is per _ _ 1 Hy ltac:(lia)). change (2 ^ 1) with 2.
    destruct (per * 2 <? raw - per * k * 2) eqn:E; [|apply Z.ltb_ge in E; nia].
    clear E.
    set (data := slice W (p * (1 + k)) (p * (1 + k) + p)).
    destruct (page_div_mod per k (per - 1) ltac:(lia)) as (Hd1 & Hd2).
    pose proof (Hin (per * k + (per - 1)) ltac:(nia)) as Hlast.
    rewrite Hd1, Hd2 in Hlast.
    assert (Hld : ws * per <= len data).
    { unfold data, slice. rewrite len_firstn, len_skipn. nia. }
    rewrite unpack_repeat by (fold ws; lia). fold ws.
    assert (Hstate : k + 1 < K ->
              FileSection.mk (mkFile d (p * (1 + k) + len data + s)) s e
                (p * (1 + k) + len data)
              = FileSection.mk (mkFile d (p * (1 + (k + 1)) + s)) s e (p * (1 + (k + 1)))).
    { intros Hmore.
      destruct (page_div_mod per (k + 1) 0 ltac:(lia)) as (He1 & He2).
      pose proof (Hin (per * (k + 1) + 0) ltac:(nia)) as Hnext.
      rewrite He1, He2 in Hnext.
      assert (Hfull : len data = p).
      { unfold data, slice. rewrite len_firstn, len_skipn. nia. }
      rewrite Hfull. f_equal; [f_equal|]; lia. }
    replace (per * k + per) with (per * (k + 1)) by lia.
    rewrite (IH (k + 1)
               (FileSection.mk (mkFile d (p * (1 + k) + len data + s)) s e
                  (p * (1 + k) + len data))) by (try lia; exact Hstate).
    f_equal.
    replace (Z.to_nat (per * (K - k)))
      with (Z.to_nat per + Z.to_nat (per * (K - (k + 1))))%nat by nia.
    rewrite zrange_app, map_app. f_equal.
    + apply map_zrange_ext. intros i Hi. unfold name_at.
      destruct (page_div_mod per k i ltac:(lia)) as (Hi1 & Hi2).
      rewrite Hi1, Hi2. unfold data. rewrite le_at_slice by nia. f_equal.
    + do 2 f_equal. lia.
  - assert (k = K) by lia. subst k.
    destruct (window_read_total w' p) as (data & w'' & ->).
    rewrite Eq, Hq. cbn [num_sub]. unfold num_min. cbn [int_lt].
    rewrite (int_lt_float_is per _ _ 1 Hy ltac:(lia)). change (2 ^ 1) with 2.
    destruct (per * 2 <? raw - per * K * 2) eqn:E; [apply Z.ltb_lt in E; nia|].
    replace (per * (K - K)) with 0 by lia. reflexivity.
Qed.

(** The loop of [allnames] when a page holds no word: nothing is yielded
    and [n] stays 0. *)
Lemma allnames_loop_stuck (self : NAMFile.t FileSection.t) (raw : Z) :
  NAMFile.wordsize self = fmtsize (NAMFile.wordfmt self) ->
  0 <= NAMFile.pagesize self < NAMFile.wordsize self ->
  0 < raw < 2 ^ 53 ->
  NAMFile.nnames self = NInt raw \/
  (exists x, NAMFile.nnames self = NFloat x /\ float_is x raw 1) ->
  forall fuel w', NAMFile.allnames_loop self fuel w' 0 = ([], OutOfFuel).
Proof.
  intros Hws Hp Hraw Hnn.
  assert (Hp53 : 0 <= NAMFile.pagesize self < 2 ^ 53).
  { rewrite Hws in Hp. destruct (NAMFile.wordfmt self); cbn in Hp; lia. }
  destruct (words_per_page (NAMFile.pagesize self) (NAMFile.wordfmt self) Hp53)
    as (q & Eq & Hq).
  rewrite <- Hws in Eq, Hq. rewrite Z.div_small in Hq by lia.
  assert (Hgo : int_lt 0 (NAMFile.nnames self) = true /\
                num_min (num_sub (NAMFile.nnames self) 0) 0 = NInt 0).
  { destruct Hnn as [->|(x & -> & Hx)].
    - cbn [int_lt num_sub]. unfold num_min. cbn [int_lt].
      split; [apply Z.ltb_lt; lia|].
      destruct (0 <? raw - 0) eqn:E; [reflexivity|apply Z.ltb_ge in E; lia].
    - cbn [int_lt num_sub]. unfold num_min. cbn [int_lt].
      rewrite (int_lt_float_is 0 x raw 1 Hx ltac:(lia)).
      assert (Hy : float_is (fsub x (of_int 0)) (raw - 0 * 2 ^ 1) 1)
        by (apply fsub_is; [exact Hx|lia|lia|lia]).
      rewrite (int_lt_float_is 0 _ _ 1 Hy ltac:(lia)).
      change (2 ^ 1) with 2. rewrite !Z.mul_0_l, Z.sub_0_r.
      destruct (0 <? raw) eqn:E; [split; reflexivity|apply Z.ltb_ge in E; lia]. }
  destruct Hgo as (Hgo1 & Hgo2).
  induction fuel as [|fuel IH]; intros w'; [reflexivity|].
  cbn [NAMFile.allnames_loop]. rewrite Hgo1.
  cbn [fl_read FileSection_FileLike].
  destruct (window_read_total w' (NAMFile.pagesize self)) as (data & w'' & ->).
  rewrite Eq, Hq, Hgo2.
  change (Z.to_nat 0) with O. cbn [repeat].
  rewrite unpack_from_ok by (cbn [calcsize]; pose proof (len_nonneg data); lia).
  cbn [unpack_fields]. change (0 + 0) with 0. rewrite IH. reflexivity.
Qed.
Lemma nam_old_magic_spec (m : bytes) : NAMFile.old_magic m = true <-> In m nam_old_magics.
Proof.
  unfold NAMFile.old_magic, nam_old_magics. rewrite !orb_true_iff, !bytes_eqb_eq.
  cbn [In]. intuition congruence.
Qed.

Lemma nam_old_not_new (m : bytes) : In m nam_old_magics -> NAMFile.new_magic m = false.
Proof.
  intros Hm. cbn [In nam_old_magics] in Hm.
  destruct Hm as [<-|[<-|[<-|[]]]]; reflexivity.
Qed.

(** [nnames], halved in a 64-bit database. *)
Lemma nnames_made (idbmagic : bytes) (raw : Z) :
  0 <= raw < 2 ^ 53 ->
  exists v,
    (if bytes_eqb idbmagic (b "IDA2") then x <- truediv raw 2 ;; Ok (NFloat x)
     else Ok (NInt raw)) = Ok v /\
    nnames_is idbmagic v raw.
Proof.
  intros Hraw. unfold nnames_is. destruct (bytes_eqb idbmagic (b "IDA2")).
  - destruct (truediv_pow2 raw 1 Hraw ltac:(lia)) as (x & E & Hx).
    change (2 ^ 1) with 2 in E. rewrite E. cbn [bind].
    eexists. split; [reflexivity|]. exists x. split; [reflexivity|exact Hx].
  - eexists. split; reflexivity.
Qed.

Lemma nam_header_len (W : bytes) : len (slice W 0 (0 + 64)) = Z.min 64 (len W).
Proof.
  pose proof (len_nonneg W). unfold slice. rewrite len_firstn, len_skipn. lia.
Qed.

Lemma nam_magic (W : bytes) : slice (slice W 0 (0 + 64)) 0 4 = slice W 0 4.
Proof. rewrite slice_slice by lia. reflexivity. Qed.

(** X26. [NAMFile(idb, fh)] on a section.  With the magic [VA*\0] and a
    header of [24 + wordsize] bytes the pages have [0x2000] bytes and the
    names are counted by the 32-bit number at offset [20 + wordsize]; with
    [Va4\0], [Va1\0] or [Va0\0] and a header of [12 + 2 * wordsize] bytes
    the count is the word at offset [8 + wordsize] (a count below
    [2 ^ 53] here) and the size of a page the 32-bit number that follows
    it.  In a 64-bit database [nnames] becomes a float, half of the
    count.  Any other magic raises
    [Exception("unknown nam magic: ...")], and a header that is cut
    raises [struct.error]. *)
Theorem nam_open (idbmagic : bytes) (w : FileSection.t) :
  let W := window_bytes w in
  let ws := database_wordsize idbmagic in
  0 <= FileSection.start w <= FileSection.end_ w ->
  (slice W 0 4 = nam_new_magic -> 24 + ws <= len W ->
   exists nam,
     NAMFile.init idbmagic w = Ok nam /\
     nam_opened idbmagic w nam 0x2000 (le_at W (20 + ws) 4)) /\
  (In (slice W 0 4) nam_old_magics -> 12 + 2 * ws <= len W ->
   le_at W (8 + ws) ws < 2 ^ 53 ->
   exists nam,
     NAMFile.init idbmagic w = Ok nam /\
     nam_opened idbmagic w nam (le_at W (8 + 2 * ws) 4) (le_at W (8 + ws) ws)) /\
  (~ In (slice W 0 4) nam_old_magics -> slice W 0 4 <> nam_new_magic ->
   NAMFile.init idbmagic w
   = Raise (PyException ("unknown nam magic: " ++ fmt_hex (slice W 0 4)))) /\
  (slice W 0 4 = nam_new_magic -> len W < 24 + ws ->
   NAMFile.init idbmagic w = Raise StructError) /\
  (In (slice W 0 4) nam_old_magics -> len W < 12 + 2 * ws ->
   NAMFile.init idbmagic w = Raise StructError).
Proof.
  intros W ws Hs. unfold NAMFile.init.
  destruct (word_format idbmagic) as (fmt & -> & Hws). fold ws in Hws.
  assert (Hpos : 0 < fmtsize fmt <= 8) by (destruct fmt; cbn; lia).
  pose proof (window_bytes_len w) as Hlw. fold W in Hlw.
  pose proof (len_nonneg W) as Hn0.
  cbn [fl_seek fl_read FileSection_FileLike].
  destruct (window_at w 0 64 ltac:(lia) ltac:(lia)) as (w1 & w2 & E1 & E2 & Hd2 & Hs2 & He2).
  rewrite E1. cbn [bind]. rewrite E2. cbn [bind]. fold W.
  rewrite nam_magic. pose proof (nam_header_len W) as Hh. rewrite Hws.
  split; [|split; [|split; [|split]]].
  - intros Hm Hl. rewrite Hm.
    replace (NAMFile.old_magic nam_new_magic) with false by reflexivity.
    replace (NAMFile.new_magic nam_new_magic) with true by reflexivity.
    rewrite unpack_from_ok by (try lia; cbn [calcsize fmtsize]; lia).
    do 6 (rewrite unpack_fields_at by (cbn [fmtsize]; lia)).
    cbn [unpack_fields bind fmtsize].
    rewrite (le_at_slice W 0 (0 + 64)) by lia.
    replace (0 + (4 + 4 + 4 + 4 + 4 + fmtsize fmt)) with (20 + fmtsize fmt) by lia.
    set (raw := le_at W (20 + fmtsize fmt) 4).
    assert (Hraw : 0 <= raw < 2 ^ 53).
    { pose proof (le_at_range W (20 + fmtsize fmt) (width := 4) ltac:(lia)) as Hr. fold raw in Hr.
      change (256 ^ 4) with (2 ^ 32) in Hr. split; [lia|].
      apply Z.lt_trans with (2 ^ 32); [lia|reflexivity]. }
    destruct (nnames_made idbmagic raw Hraw) as (v & -> & Hv). cbn [bind].
    eexists. split; [reflexivity|].
    unfold nam_opened. cbn [NAMFile.wordsize NAMFile.wordfmt NAMFile.pagesize
                             NAMFile.nnames NAMFile.fh].
    repeat split; try assumption; try reflexivity.
    + symmetry. exact Hws.
    + apply (window_bytes_same w w2 Hd2 Hs2 He2).
  - intros Hm Hl Hraw. apply nam_old_magic_spec in Hm. rewrite Hm.
    rewrite unpack_from_ok by (try lia; cbn [calcsize fmtsize]; lia).
    do 5 (rewrite unpack_fields_at by (cbn [fmtsize]; lia)).
    cbn [unpack_fields bind fmtsize].
    rewrite !(le_at_slice W 0 (0 + 64)) by lia.
    replace (0 + (4 + 2 + 2 + fmtsize fmt)) with (8 + fmtsize fmt) by lia.
    replace (0 + (4 + 2 + 2 + fmtsize fmt + fmtsize fmt)) with (8 + 2 * fmtsize fmt) by lia.
    destruct (nnames_made idbmagic (le_at W (8 + fmtsize fmt) (fmtsize fmt))
                ltac:(split; [apply le_at_nonneg|exact Hraw]))
      as (v & -> & Hv).
    cbn [bind]. eexists. split; [reflexivity|].
    unfold nam_opened. cbn [NAMFile.wordsize NAMFile.wordfmt NAMFile.pagesize
                             NAMFile.nnames NAMFile.fh].
    repeat split; try assumption; try reflexivity.
    + symmetry. exact Hws.
    + apply (window_bytes_same w w2 Hd2 Hs2 He2).
  - intros Hold Hnew.
    destruct (NAMFile.old_magic (slice W 0 4)) eqn:Eo;
      [apply nam_old_magic_spec in Eo; contradiction|].
    destruct (NAMFile.new_magic (slice W 0 4)) eqn:En;
      [apply bytes_eqb_eq in En; contradiction|].
    reflexivity.
  - intros Hm Hl. rewrite Hm.
    replace (NAMFile.old_magic nam_new_magic) with false by reflexivity.
    replace (NAMFile.new_magic nam_new_magic) with true by reflexivity.
    rewrite unpack_from_short by (try lia; cbn [calcsize fmtsize]; lia). reflexivity.
  - intros Hm Hl. apply nam_old_magic_spec in Hm. rewrite Hm.
    rewrite unpack_from_short by (try lia; cbn [calcsize fmtsize]; lia). reflexivity.
Qed.
Lemma nam_open_witness :
  exists nam,
    NAMFile.init (b "IDA2") FixtureNAM.window64 = Ok nam /\
    NAMFile.pagesize nam = 0x2000.
Proof.
  assert (Hs : 0 <= FileSection.start FixtureNAM.window64
               <= FileSection.end_ FixtureNAM.window64)
    by (vm_compute; split; discriminate).
  destruct (nam_open (b "IDA2") FixtureNAM.window64 Hs) as (Hnew & _).
  destruct Hnew as (nam & E & _ & _ & Hp & _).
  - vm_compute. reflexivity.
  - vm_compute. discriminate.
  - exists nam. split; [exact E|exact Hp].
Defined.

Lemma allnames_start (self : NAMFile.t FileSection.t) (fuel : nat) :
  0 <= FileSection.start (NAMFile.fh self) ->
  0 <= NAMFile.pagesize self
    <= FileSection.end_ (NAMFile.fh self) - FileSection.start (NAMFile.fh self) ->
  NAMFile.allnames self fuel
  = NAMFile.allnames_loop self fuel
      (FileSection.mk
         (mkFile (f_data (FileSection.fh (NAMFile.fh self)))
            (NAMFile.pagesize self * (1 + 0) + FileSection.start (NAMFile.fh self)))
         (FileSection.start (NAMFile.fh self)) (FileSection.end_ (NAMFile.fh self))
         (NAMFile.pagesize self * (1 + 0))) 0.
Proof.
  intros Hs Hp. unfold NAMFile.allnames. cbn [fl_seek FileSection_FileLike].
  rewrite (window_seek (NAMFile.fh self) (NAMFile.pagesize self) Hs).
  destruct ((0 <=? NAMFile.pagesize self)
            && (NAMFile.pagesize self
                <=? FileSection.end_ (NAMFile.fh self) - FileSection.start (NAMFile.fh self)))
    eqn:E.
  2:{ apply andb_false_iff in E. destruct E as [E|E]; apply Z.leb_gt in E; lia. }
  replace (NAMFile.pagesize self * (1 + 0)) with (NAMFile.pagesize self) by lia.
  reflexivity.
Qed.

(** X27. [allnames()] in a 32-bit database ([nnames] is an [int]): when
    a page holds at least one word and every name lies in the section, the
    generator yields the names in order and ends.  Name [i] is the word
    number [i mod per] of page [1 + i / per], where [per] is the number of
    whole words in a page; what a page holds beyond them is skipped. *)
Theorem allnames_names (self : NAMFile.t FileSection.t) (total : Z) (fuel : nat) :
  let w := NAMFile.fh self in
  let W := window_bytes w in
  let p := NAMFile.pagesize self in
  let ws := NAMFile.wordsize self in
  let per := p / ws in
  0 <= FileSection.start w -> ws = fmtsize (NAMFile.wordfmt self) ->
  NAMFile.nnames self = NInt total -> 0 <= total ->
  p <= FileSection.end_ w - FileSection.start w -> p < 2 ^ 53 -> 0 < per ->
  (forall i, 0 <= i < total -> p * (1 + i / per) + ws * (i mod per) + ws <= len W) ->
  total < Z.of_nat fuel ->
  NAMFile.allnames self fuel
  = (map (name_at W p ws per) (zrange 0 (Z.to_nat total)), Ok tt).
Proof.
  intros w W p ws per Hs Hws Hnn Ht Hpe Hp Hper Hin Hf.
  assert (Hws0 : 0 < ws) by (rewrite Hws; destruct (NAMFile.wordfmt self); cbn; lia).
  assert (Hp0 : 0 <= p).
  { destruct (Z_lt_ge_dec p 0) as [Hneg|]; [|lia].
    unfold per in Hper. pose proof (Z.div_lt_upper_bound p ws 0 ltac:(lia) ltac:(lia)). lia. }
  rewrite allnames_start by (fold w; fold p; lia).
  rewrite (allnames_loop_int self (f_data (FileSection.fh w)) (FileSection.start w)
             (FileSection.end_ w) total Hws Hnn Hs ltac:(fold p; lia) Hper Hin fuel 0).
  - rewrite Z.sub_0_r. reflexivity.
  - lia.
  - intros _. exists 0. split; [lia|]. split; [fold p ws; lia|reflexivity].
  - lia.
Qed.

Lemma allnames_names_witness :
  NAMFile.allnames FixtureNAM.nam32 4 = ([0x401000; 0x401010; 0x402000], Ok tt).
Proof.
  rewrite (allnames_names FixtureNAM.nam32 3 4).
  - vm_compute. reflexivity.
  - vm_compute. discriminate.
  - reflexivity.
  - reflexivity.
  - lia.
  - vm_compute. discriminate.
  - vm_compute. reflexivity.
  - vm_compute. reflexivity.
  - intros i Hi.
    assert (Hc : i = 0 \/ i = 1 \/ i = 2) by lia.
    destruct Hc as [->|[->| ->]]; vm_compute; discriminate.
  - lia.
Defined.

(** X28. [allnames()] in a 64-bit database, where [nnames] is a float,
    half of the count [raw] of the header: unless the count is 0 the
    generator does not end but raises [TypeError].  Before that it yields
    the names of the pages that do not hold the last name: a page is read
    in full only while more than a page of names remains, and for the last
    page the number of names to read is a float. *)
Theorem allnames_type_error (self : NAMFile.t FileSection.t) (x : pyfloat) (raw : Z)
    (fuel : nat) :
  let w := NAMFile.fh self in
  let W := window_bytes w in
  let p := NAMFile.pagesize self in
  let ws := NAMFile.wordsize self in
  let per := p / ws in
  let K := (raw - 1) / (2 * per) in
  0 <= FileSection.start w -> ws = fmtsize (NAMFile.wordfmt self) ->
  NAMFile.nnames self = NFloat x -> float_is x raw 1 -> 0 <= raw < 2 ^ 53 ->
  p <= FileSection.end_ w - FileSection.start w -> p < 2 ^ 53 -> 0 < per ->
  (forall i, 0 <= i < per * K -> p * (1 + i / per) + ws * (i mod per) + ws <= len W) ->
  raw / (2 * per) < Z.of_nat fuel ->
  NAMFile.allnames self fuel
  = if raw =? 0 then ([], Ok tt)
    else (map (name_at W p ws per) (zrange 0 (Z.to_nat (per * K))), Raise TypeError).
Proof.
  intros w W p ws per K Hs Hws Hnn Hx Hraw Hpe Hp Hper Hin Hf.
  assert (Hws0 : 0 < ws) by (rewrite Hws; destruct (NAMFile.wordfmt self); cbn; lia).
  assert (Hp0 : 0 <= p).
  { destruct (Z_lt_ge_dec p 0) as [Hneg|]; [|lia].
    unfold per in Hper. pose proof (Z.div_lt_upper_bound p ws 0 ltac:(lia) ltac:(lia)). lia. }
  rewrite allnames_start by (fold w; fold p; lia).
  destruct (raw =? 0) eqn:E0.
  - apply Z.eqb_eq in E0. subst raw.
    destruct fuel as [|fuel]; [rewrite Z.div_0_l in Hf by lia; lia|].
    cbn [NAMFile.allnames_loop]. rewrite Hnn. cbn [int_lt].
    rewrite (int_lt_float_is 0 x 0 1 Hx ltac:(lia)). reflexivity.
  - apply Z.eqb_neq in E0.
    assert (HK : 0 <= K <= raw / (2 * per)).
    { unfold K. split; [apply Z.div_pos; lia|apply Z.div_le_mono; lia]. }
    pose proof (allnames_loop_float self (f_data (FileSection.fh w)) (FileSection.start w)
                  (FileSection.end_ w) x raw Hws Hnn Hx ltac:(lia) Hs ltac:(fold p; lia)
                  Hper Hin fuel 0) as Hloop.
    fold p ws per K in Hloop. rewrite Z.mul_0_r, Z.sub_0_r in Hloop.
    apply Hloop.
    + lia.
    + intros _. reflexivity.
    + lia.
Qed.

Lemma allnames_type_error_witness :
  NAMFile.allnames FixtureNAM.nam64 1 = ([], Raise TypeError).
Proof.
  rewrite (allnames_type_error FixtureNAM.nam64 (mkFloat (2 ^ 52) (- 51)) 4 1).
  - vm_compute. reflexivity.
  - vm_compute. discriminate.
  - reflexivity.
  - reflexivity.
  - exists 50. vm_compute. repeat split; discriminate.
  - lia.
  - vm_compute. discriminate.
  - vm_compute. reflexivity.
  - vm_compute. reflexivity.
  - intros i Hi. exfalso. vm_compute in Hi. destruct Hi as [H1 H2].
    destruct i; try discriminate; contradiction.
  - vm_compute. reflexivity.
Defined.

(** X29. [allnames()] on a file whose pages are shorter than a word
    never ends when the count is not 0: each turn of its loop reads a page,
    decodes no word and leaves [n] at 0.  It yields nothing. *)
Theorem allnames_never_ends (self : NAMFile.t FileSection.t) (raw : Z) :
  let w := NAMFile.fh self in
  let p := NAMFile.pagesize self in
  let ws := NAMFile.wordsize self in
  0 <= FileSection.start w -> ws = fmtsize (NAMFile.wordfmt self) ->
  0 <= p < ws -> p <= FileSection.end_ w - FileSection.start w ->
  0 < raw < 2 ^ 53 ->
  NAMFile.nnames self = NInt raw \/
  (exists x, NAMFile.nnames self = NFloat x /\ float_is x raw 1) ->
  forall fuel, NAMFile.allnames self fuel = ([], OutOfFuel).
Proof.
  intros w p ws Hs Hws Hp Hpe Hraw Hnn fuel.
  rewrite allnames_start by (fold w; fold p; lia).
  apply (allnames_loop_stuck self raw Hws Hp Hraw Hnn).
Qed.

Lemma allnames_never_ends_witness :
  NAMFile.allnames FixtureNAM.nam_old 1000 = ([], OutOfFuel).
Proof.
  apply (allnames_never_ends FixtureNAM.nam_old 1).
  - vm_compute. discriminate.
  - reflexivity.
  - vm_compute. split; [discriminate|reflexivity].
  - vm_compute. discriminate.
  - vm_compute. split; reflexivity.
  - left. reflexivity.
Defined.
